(* ===== verification/_CoqProject ===== *)
-Q . S2P
Prelude.v
Platform.v
Buf.v
Block.v
Crypto.v
State.v
Entry.v
Stream.v
Header.v
Uplink.v
Sender.v
Downlink.v
Receiver.v
Packetizer.v
Psa.v
Cert.v
Credentials.v
Session.v
Saead.v
Gatt.v
Peripheral.v
Dispatch.v
Routing.v
Zcbor.v
OtaUpper.v
FwUpdate.v
ZcborEncode.v
Ota.v
Settings.v
Pouch.v
GattSession.v
GattDownlink.v
Encrypted.v
Application.v
Device.v
