(* ===== verification/Prelude.v ===== *)
(** Pouch: a verification of the library under src/src, src/lib and src/golioth_sdk, and of the example
    application under src/examples/ble_gatt.

    Pouch carries entries and streams between a device and a server over transports such as BLE GATT.
    An entry is a path, a content type and some data; a stream is an entry of any length. Both are
    packed into blocks; a pouch is a header and the blocks that follow it, in plaintext or encrypted.

    * The parts and how they interact

    On the way up, the application writes entries and streams; full blocks are queued and the
    processing work is submitted; the work has the encryption layer turn each block into the one that
    is sent and moves it to the transport queue, the header before the first; the transport reads that
    queue as one stream of bytes until the closed pouch is drained. On the way down, the transport
    pushes bytes in chunks; the downlink parses the header and cuts blocks off; the decrypt work and the
    consume work pass them through the encryption layer and the parser to the registered handlers. The
    SDK is such a handler: it dispatches on the path to the OTA and settings services, which decode
    CBOR, and before a pouch is closed it asks every service for its report. The example application loads
    the device's credentials, starts the library and the BLE transport, advertises, asks for a sync from
    time to time, and at the start of a session writes a reading and has the services report.

    * Files

    - Prelude: outcomes, machine integers, C strings, the state monad, loops; lemmas and tactics that
      every file shares.
    - Platform: Kconfig, error numbers, atomics, the heap, and the interfaces of Zephyr.
    - Buf, Block: buf.c, buf.h, block.c, block.h.
    - Crypto: the interface crypto.h as a class ([Crypto]) with the laws the rest is proved against
      ([CryptoLaws]), the data of the header, and crypto_none.c, the first instance.
    - State: the static variables of entry.c, stream.c, uplink.c, downlink.c and pouch.c as one record
      ([sys]), and who owns which buffer ([owned], [balanced]).
    - Entry, Stream: entry.c and stream.c.
    - Header: header.c.
    - Uplink: uplink.c and the event queue of pouch.c.
    - Sender: no code; sessions in which the users of the library, the processing work and the transport
      take their steps in any order.
    - Downlink: downlink.c.
    - Receiver: no code; the pushes and the works of the receiving side in any order.
    - Packetizer: lib/pouch_ble_gatt_common/packetizer.c.
    - Psa: PSA Crypto, the X.509 parser and base64, as classes.
    - Cert: cert.c.
    - Credentials: the example's credentials.c.
    - Session: saead/session.c.
    - Saead: saead/uplink.c, saead/downlink.c and crypto_saead.c, the second instance of [Crypto].
    - Gatt: the five characteristics of transport/ble_gatt.
    - Peripheral: their declarations, uuids.h and peripheral.c.
    - GattSession: no code; sessions in which the reads of the uplink characteristic are the transport.
    - GattDownlink: no code; downlinks in which the writes of the downlink characteristic are.
    - Dispatch: golioth_sdk/dispatch.c.
    - Routing: the dispatcher over a whole downlink, against a finite map from streams to services.
    - Zcbor, ZcborEncode: lib/zcbor_utils, and the part of zcbor that the SDK uses, as classes.
    - OtaUpper, Ota: golioth_sdk/ota_upper.c and golioth_sdk/ota.c.
    - FwUpdate: the example's fw_update.c.
    - Settings: golioth_sdk/settings.c and settings_callbacks.c.
    - Pouch: pouch_init of pouch.c, and the parts put together over the plaintext layer.
    - Encrypted: the parts put together over the encrypted layer.
    - Application: the example's main.c, over all of the above.
    - Device: the SDK's services as the example configures them, over the downlink; settings, manifests
      and firmware from the gateway's packets to the LED and the flash.

    A definition has the name of the C function, type or macro it models. A function that fails returns
    its error as in C ([status]: [SUCCESS] or [NEG e]); a pointer that may be NULL is an option; a
    function that changes state is in the monad [st] over the part of the state it works on, and
    [zoom] runs it on a state that contains that part. What a handler or callback of the application
    does is a parameter.

    * Outcomes

    [Fault] is undefined behaviour: an access outside an object or of bytes never written, NULL
    dereferenced, an assertion that fails. That an operation returns [OK] excludes all of these, so that
    the functional theorems are safety theorems as well. Where the code does fault on some input, a
    theorem or an example says so (for instance [Ota.component_start_errors]).

    * What the theorems show

    - Whole pouches: the sender promises, whatever encryption layer it runs over, that the bytes read are
      the header and what that layer makes of blocks with the accepted entries and stream data, in any
      order of the steps ([Sender.pouch_sent]); the receiver, that its handlers see what the layer makes
      of every block, in any order of pushes and works ([Receiver.pouch_received]). Over the plaintext
      layer both give that a pouch arrives as the entries and streams that were accepted
      ([Pouch.pouch_end_to_end]), with the SDK's dispatcher at the services for their paths
      ([pouch_served]). Over the encrypted layer the peer is a server in step with the session, which
      reads what the device sent ([encrypted_sent]) and is read by the device ([encrypted_received]).
    - The application: [main] starts everything or gives up ([main_spec]); from then on a sync is always
      asked for or scheduled ([sync_requested]); and when a gateway syncs, the packets it reads carry the
      application's reading and the services' reports to the server, whatever the order of the steps and
      the size of the packets, from two bytes ([sync_over_gatt]). On the way down, a gateway writes a
      pouch in packets and in any order with the works ([downlink_over_gatt]): what it says of the settings
      and the LED holds afterwards, a manifest marks what is to be downloaded ([manifest_over_gatt]), and
      an image for a marked component ends up in flash as a whole ([update_over_gatt]).
    - The writers (Entry, Stream): the blocks enqueued are a log of what was accepted ([entry_log],
      [stream_log]); refusals are exactly those the memory or the size calls for.
    - The parser: a block delivers what was packed into it, and parsing ends on every input.
    - The uplink: the transport queue is a byte stream ([fill_stream]); processing is [encrypt_all];
      any sequence of operations keeps the invariant and emits start and end events in turn, and leaks
      no buffer but the header of a session that was not finished ([uplink_ops_safe]).
    - The downlink: the pushes refine a function on byte strings ([feed]), which conserves bytes and
      reassembles blocks; no input makes a push fault. Each pass over a push cuts off one block, so that
      the theorems on whole pouches ask that no chunk holds the ends of two blocks ([one_end]); without
      that the last block can stay behind ([last_block_stays]).
    - Encryption (Session, Saead): what one side of a session encrypts the other decrypts, in order;
      a block that is refused leaves the session in step; nonces repeat after 65536 blocks of a pouch
      and not before; old headers are accepted again in the cases [downlink_replay_spec] lists; the
      layer meets [CryptoLaws], so that the uplink's and the downlink's theorems hold for it.
    - Certificates: a server key is only stored from a certificate the CA vouches for. Credentials:
      every failure of the file system, the memory and the parser is survived and leaves no file open
      and no buffer allocated; the parser's context stays allocated ([leaked]), and an empty file is not
      survived.
    - GATT: packets carry the pouch up and down; a certificate longer than its buffer overruns it; the
      registered table is the service whatever order the files are linked in.
    - The SDK: dispatch on paths, for streams and entries that interleave ([dispatch_routes]), and for
      services that work on variables of their own ([run_sides]); manifests, components and settings as decoded, with every error path;
      the reports are handed to the pouch's writer and decode to what was reported; the map decoder ends
      and decodes what it promises; a firmware image received in pieces is installed whole when flash
      works.

    The laws of each interface are discharged by concrete instances, on which the witnesses evaluate:
    [Native], [NativeCodec], [NativeSaeadCodec], [NativePsa], [NativeX509], [NativeFs], [NativeFlash],
    [NativeBluetooth], [NativeZcbor], [NativeEncode], [NativeApp].

    * Loops and fuel

    A loop of the code is a Fixpoint on its data where it runs over a list, and otherwise has fuel that
    the function computes from its arguments: the number of elements queued for the loops that empty a
    queue, the bytes left for those that consume them. Running out of fuel is [Fault], so that the
    theorems that exclude faults also show that the fuel is enough. Where input can make a loop fault,
    as in the parser and the map decoder, [loops] says what the loop does without fuel, and the
    function is shown to be related to its own loop.

    * Bounds and assumptions

    [size_t], pointers and [int] have 32 bits, as on the targets of the library; objects are smaller
    than 2 GiB. Integers are [Z] with the wrap-around written out ([u8], [u16], [u32], [i32]). The model
    is sequential: each call and each run of a work is one step, and the steps interleave in any order
    ([uplink_op], [pouch_op], [air_op], [work_step], [rx_step], [gw_step], [app_step]). Preemption inside a call is
    not modelled, except for [close_race], which shows what it does to a close. A mutex that is not
    obtained in time is an argument of the functions that wait for it.

    Zephyr, PSA Crypto, Mbed TLS, zcbor and the codecs zcbor generates from .cddl files are not part of
    the repository: they are parameters, with laws that state their documented behaviour. Of PSA
    Crypto's AEAD the laws say that it keeps to the size of the output and decrypts what was encrypted
    with the same key, nonce and additional data; nothing is assumed of its secrecy or
    authenticity.

    * Not modelled

    The priority and stack of the work queues, logging (and the names of content types, which are only
    logged), the memory of packetizers and so their release (a packetizer that is released is one its
    context no longer points to), what zcbor's forced end does in the middle of a map (so that maps with
    pairs behind the last one asked for are left out of [describes]), the reset after a fatal error, the tests and the build scripts. Of the Bluetooth stack only the registered tables and what is advertised are
    modelled: the requests of the peer are the arguments of the characteristics' handlers. *)
From Stdlib Require Export ZArith Lia Strings.Byte.
From stdpp Require Export base tactics option numbers list.

#[global] Open Scope Z_scope.

(** * Lengths as integers *)

Declare Scope pouch_scope.
Delimit Scope pouch_scope with pouch.
#[global] Open Scope pouch_scope.

(** [len l] is an abbreviation, so that [lia] sees the [Z.of_nat]. *)
Abbreviation len l := (Z.of_nat (length l)).
Abbreviation ztake n l := (take (Z.to_nat n) l).
Abbreviation zdrop n l := (drop (Z.to_nat n) l).

(** * Outcomes: a value, or a fault *)

(** [Fault] is undefined behaviour of the C program: an access outside the object or of bytes never
    written, a NULL dereference, a failed assertion. A theorem that an operation returns [OK]
    excludes all of them. *)
Inductive outcome (A : Type) : Type :=
| OK (a : A)
| Fault.
Arguments OK {A} a.
Arguments Fault {A}.

#[export] Instance outcome_ret : MRet outcome := λ A a, OK a.
#[export] Instance outcome_bind : MBind outcome := λ A B f m,
  match m with OK a => f a | Fault => Fault end.

#[export] Instance outcome_eq_dec A `{EqDecision A} : EqDecision (outcome A).
Proof. solve_decision. Defined.

Definition is_OK {A} (m : outcome A) : Prop := ∃ a, m = OK a.

Definition of_ptr {A} (p : option A) : outcome A :=
  match p with Some a => OK a | None => Fault end.

Lemma bind_OK {A B} (f : A → outcome B) a : OK a ≫= f = f a.
Proof. reflexivity. Qed.

Lemma bind_OK_inv {A B} (f : A → outcome B) m b :
  m ≫= f = OK b → ∃ a, m = OK a ∧ f a = OK b.
Proof. destruct m; naive_solver. Qed.

(** The guard of a memory access. *)
Definition guard (b : bool) : outcome unit := if b then OK tt else Fault.

Lemma guard_true (b : bool) : b = true → guard b = OK tt.
Proof. by intros ->. Qed.

Lemma guard_OK_inv b u : guard b = OK u → b = true.
Proof. by destruct b. Qed.

(** * Machine integers *)

Definition u8 (z : Z) : Z := z mod 256.
Definition u16 (z : Z) : Z := z mod 65536.
Definition u32 (z : Z) : Z := z mod 4294967296.
Definition u64 (z : Z) : Z := z mod 18446744073709551616.
(** Two's complement 32-bit. *)
Definition i32 (z : Z) : Z := (z + 2147483648) mod 4294967296 - 2147483648.

Lemma u16_range z : 0 ≤ u16 z < 65536.
Proof. apply Z.mod_pos_bound. reflexivity. Qed.
Lemma u32_range z : 0 ≤ u32 z < 4294967296.
Proof. apply Z.mod_pos_bound. reflexivity. Qed.
Lemma u8_small z : 0 ≤ z < 256 → u8 z = z.
Proof. apply Z.mod_small. Qed.
Lemma u16_small z : 0 ≤ z < 65536 → u16 z = z.
Proof. apply Z.mod_small. Qed.
Lemma u32_small z : 0 ≤ z < 4294967296 → u32 z = z.
Proof. apply Z.mod_small. Qed.

Lemma i32_range z : - 2147483648 ≤ i32 z < 2147483648.
Proof. unfold i32. pose proof (Z.mod_pos_bound (z + 2147483648) 4294967296 eq_refl). lia. Qed.
Lemma i32_small z : - 2147483648 ≤ z < 2147483648 → i32 z = z.
Proof. intros. unfold i32. rewrite Z.mod_small; lia. Qed.
Lemma i32_add_l a b : i32 (i32 a + b) = i32 (a + b).
Proof.
  unfold i32. f_equal.
  replace ((a + 2147483648) mod 4294967296 - 2147483648 + b + 2147483648)
    with ((a + 2147483648) mod 4294967296 + b) by lia.
  rewrite Zplus_mod_idemp_l. f_equal; lia.
Qed.

(** [lia] with division and modulo. *)
Ltac dlia := Z.to_euclidean_division_equations; lia.

(** * Bytes *)

Definition Z_of_byte (b : byte) : Z := Z.of_N (Byte.to_N b).
Definition byte_of_Z (z : Z) : byte :=
  match Byte.of_N (Z.to_N (u8 z)) with Some b => b | None => x00 end.

#[export] Instance byte_eq_decision : EqDecision byte := Byte.byte_eq_dec.
#[export] Instance byte_inhabited : Inhabited byte := populate x00.

Lemma Z_of_byte_range b : 0 ≤ Z_of_byte b < 256.
Proof.
  unfold Z_of_byte. pose proof (Byte.to_N_bounded b). lia.
Qed.

Lemma Z_of_byte_of_Z z : Z_of_byte (byte_of_Z z) = u8 z.
Proof.
  unfold Z_of_byte, byte_of_Z.
  pose proof (Z.mod_pos_bound z 256 eq_refl).
  destruct (Byte.of_N _) eqn:E.
  - apply Byte.to_of_N in E. rewrite E. unfold u8. rewrite Z2N.id; lia.
  - apply Byte.of_N_None_iff in E. unfold u8 in E. lia.
Qed.

Lemma byte_of_Z_of_byte b : byte_of_Z (Z_of_byte b) = b.
Proof.
  unfold byte_of_Z, Z_of_byte, u8. pose proof (Byte.to_N_bounded b).
  rewrite Z.mod_small by lia. rewrite N2Z.id. by rewrite Byte.of_to_N.
Qed.

Lemma Z_of_byte_inj a b : Z_of_byte a = Z_of_byte b → a = b.
Proof.
  intros H. rewrite <- (byte_of_Z_of_byte a), <- (byte_of_Z_of_byte b). by rewrite H.
Qed.

(** * C strings: the bytes up to the first NUL *)

Fixpoint strlen (s : list byte) : Z :=
  match s with
  | [] => 0
  | c :: s' => if decide (c = x00) then 0 else 1 + strlen s'
  end.

Definition no_nul (s : list byte) : Prop := x00 ∉ s.

Lemma strlen_no_nul s : no_nul s → strlen s = len s.
Proof.
  unfold no_nul. induction s as [|c s IH]; intros H; [done|].
  apply not_elem_of_cons in H as [H1 H2]. simpl strlen.
  rewrite decide_False by congruence. rewrite IH by done. simpl length. lia.
Qed.

Lemma strlen_bounds s : 0 ≤ strlen s ≤ len s.
Proof. induction s as [|c s IH]; simpl; [lia|]. case_decide; lia. Qed.

(** The string a pointer to [s] denotes. *)
Definition cstr (s : list byte) : list byte := ztake (strlen s) s.

Lemma cstr_no_nul s : no_nul (cstr s).
Proof.
  unfold no_nul, cstr. induction s as [|c s IH]; simpl; [by intros ?%elem_of_nil|].
  case_decide as D; [by intros ?%elem_of_nil|]. pose proof (strlen_bounds s).
  replace (Z.to_nat (1 + strlen s)) with (S (Z.to_nat (strlen s))) by lia.
  rewrite firstn_cons. intros [X|X]%elem_of_cons; [congruence|done].
Qed.

Lemma cstr_id s : no_nul s → cstr s = s.
Proof. intros N. unfold cstr. rewrite strlen_no_nul, Nat2Z.id by done. by rewrite take_ge by lia. Qed.

Lemma len_cstr s : len (cstr s) = strlen s.
Proof. unfold cstr. pose proof (strlen_bounds s). rewrite length_take. lia. Qed.

Lemma strlen_app_nul a b : no_nul a → strlen (a ++ x00 :: b) = len a.
Proof.
  unfold no_nul. induction a as [|c a IH]; intros N; [done|]. apply not_elem_of_cons in N as [Nc N].
  simpl. rewrite decide_False by congruence. rewrite IH by done. simpl; lia.
Qed.

Lemma cstr_app_nul a b : no_nul a → cstr (a ++ x00 :: b) = a.
Proof. intros N. unfold cstr. rewrite strlen_app_nul, Nat2Z.id by done. by rewrite take_app_length. Qed.

Lemma cstr_app_zeros a b : cstr (a ++ x00 :: b) = cstr a.
Proof.
  unfold cstr. induction a as [|c a IH]; [done|]. cbn [app strlen]. case_decide; [done|].
  pose proof (strlen_bounds a). pose proof (strlen_bounds (a ++ x00 :: b)).
  replace (Z.to_nat (1 + strlen a)) with (S (Z.to_nat (strlen a))) by lia.
  replace (Z.to_nat (1 + strlen (a ++ x00 :: b))) with (S (Z.to_nat (strlen (a ++ x00 :: b)))) by lia.
  rewrite !firstn_cons. by rewrite IH.
Qed.

(** [strcmp] and [strncmp], compared with 0: strings are equal, or equal up to [n] characters. *)
Definition strcmp_eq (a b : list byte) : bool := bool_decide (cstr a = cstr b).
Definition strncmp_eq (a b : list byte) (n : Z) : bool :=
  bool_decide (ztake n (cstr a) = ztake n (cstr b)).

(** [strchr]: the offset of the first occurrence. *)
Fixpoint strchr (s : list byte) (c : byte) : option Z :=
  match s with
  | [] => None
  | x :: s => if decide (x = c) then Some 0 else if decide (x = x00) then None
              else option_map Z.succ (strchr s c)
  end.

(** * Lists *)

Create Rewrite HintDb list_len.
#[export] Hint Rewrite @length_app @length_take @length_drop @length_cons @length_nil
  @length_fmap @length_replicate : list_len.

(** Arithmetic on lengths. *)
Ltac solve_len :=
  autorewrite with list_len in *; lia.

Lemma take_app_exact {A} (l k : list A) n : n = length l → take n (l ++ k) = l.
Proof. intros ->. by rewrite take_app_length. Qed.

Lemma drop_app_exact {A} (l k : list A) n : n = length l → drop n (l ++ k) = k.
Proof. intros ->. by rewrite drop_app_length. Qed.

Lemma ztake_zdrop_split {A} (l : list A) n m :
  0 ≤ n → 0 ≤ m → ztake n l ++ ztake m (zdrop n l) = ztake (n + m) l.
Proof.
  intros. rewrite take_take_drop. f_equal. lia.
Qed.

Lemma zdrop_zdrop {A} (l : list A) n m :
  0 ≤ n → 0 ≤ m → zdrop m (zdrop n l) = zdrop (n + m) l.
Proof. intros. rewrite drop_drop. f_equal. lia. Qed.

Lemma ztake_all {A} (l : list A) n : len l ≤ n → ztake n l = l.
Proof. intros. apply take_ge. lia. Qed.

Lemma zdrop_all {A} (l : list A) n : len l ≤ n → zdrop n l = [].
Proof. intros. apply drop_ge. lia. Qed.

(** * State with failure *)

(** [st S A] threads a state [S] through code that may fault. *)
Definition st (S A : Type) : Type := S → outcome (A * S).

#[export] Instance st_ret S : MRet (st S) := λ A a s, OK (a, s).
#[export] Instance st_bind S : MBind (st S) := λ A B f m s,
  match m s with OK (a, s') => f a s' | Fault => Fault end.

Definition fault {S A} : st S A := λ _, Fault.
Definition get {S} : st S S := λ s, OK (s, s).
Definition gets {S A} (f : S → A) : st S A := λ s, OK (f s, s).
Definition modify {S} (f : S → S) : st S unit := λ s, OK (tt, f s).
Definition lift {S A} (m : outcome A) : st S A := λ s,
  match m with OK a => OK (a, s) | Fault => Fault end.

(** A part [T] of a state [S]. *)
Class Part (S T : Type) := {
  part_get : S → T;
  part_set : T → S → S;
  part_get_set t s : part_get (part_set t s) = t;
}.

(** Code that works on a part of the state, run on the whole. *)
Definition zoom {S T A} `{!Part S T} (m : st T A) : st S A := λ s,
  match m (part_get s) with
  | OK (a, t) => OK (a, part_set t s)
  | Fault => Fault
  end.

Lemma st_bind_OK {S A B} (f : A → st S B) (m : st S A) s a s' :
  m s = OK (a, s') → (m ≫= f) s = f a s'.
Proof. intros H. unfold mbind, st_bind. by rewrite H. Qed.

Lemma lift_bind_OK {S A B} (m : outcome A) (f : A → st S B) a s :
  m = OK a → (lift m ≫= f) s = f a s.
Proof. by intros ->. Qed.

Lemma st_bind_OK_inv {S A B} (f : A → st S B) (m : st S A) s r :
  (m ≫= f) s = OK r → ∃ a s', m s = OK (a, s') ∧ f a s' = OK r.
Proof. unfold mbind, st_bind. destruct (m s) as [[a s']|]; naive_solver. Qed.

Lemma st_bind_ext {S A B} (m : st S A) (f g : A → st S B) s :
  (∀ a s', f a s' = g a s') → (m ≫= f) s = (m ≫= g) s.
Proof. intros H. unfold mbind, st_bind. destruct (m s) as [[a s']|]; [apply H|done]. Qed.

Lemma zoom_OK {S T A} `{!Part S T} (m : st T A) (s : S) a t :
  m (part_get s) = OK (a, t) → zoom m s = OK (a, part_set t s).
Proof. intros H. unfold zoom. by rewrite H. Qed.

(** Unfolds one run of monadic code. *)
Ltac run_st := unfold mret, st_ret, mbind, st_bind, gets, modify, get, lift; cbv beta.

(** * Loops *)

(** What a loop does, without fuel: it ends with a result, or a pass faults. A loop that runs for ever
    is related to nothing. *)
Inductive loops {S R : Type} (body : S → outcome (S + R)) : S → outcome R → Prop :=
| loops_done s r : body s = OK (inr r) → loops body s (OK r)
| loops_next s s' r : body s = OK (inl s') → loops body s' r → loops body s r
| loops_fault s : body s = Fault → loops body s Fault.

(** A loop over the variables [L] in code with state [S]; it runs at most [fuel] passes. *)
Fixpoint loop {S L R : Type} (fuel : nat) (body : L → st S (L + R)) (l : L) : st S R :=
  match fuel with
  | O => fault
  | S fuel => x ← body l; match x with inl l => loop fuel body l | inr r => mret r end
  end.

Definition st_body {S L R} (body : L → st S (L + R)) (ls : L * S) : outcome (L * S + R * S) :=
  match body ls.1 ls.2 with
  | OK (inl l, s) => OK (inl (l, s))
  | OK (inr r, s) => OK (inr (r, s))
  | Fault => Fault
  end.

(** With more fuel than a measure that every pass decreases, the loop is not cut short. *)
Lemma loop_loops {S L R} (body : L → st S (L + R)) (m : L → S → nat) :
  (∀ l s l' s', body l s = OK (inl l', s') → (m l' s' < m l s)%nat) →
  ∀ fuel l s, (m l s < fuel)%nat → loops (st_body body) (l, s) (loop fuel body l s).
Proof.
  intros D. induction fuel as [|fuel IH]; intros l s H; [lia|]. simpl loop. unfold mbind, st_bind.
  destruct (body l s) as [[[l'|r] s']|] eqn:E.
  - apply D in E as Lt. eapply loops_next; [unfold st_body; simpl; by rewrite E|]. apply IH. lia.
  - apply loops_done. unfold st_body; simpl. by rewrite E.
  - apply loops_fault. unfold st_body; simpl. by rewrite E.
Qed.

Lemma loop_fuel {S L R} (body : L → st S (L + R)) (m : L → S → nat) :
  (∀ l s l' s', body l s = OK (inl l', s') → (m l' s' < m l s)%nat) →
  ∀ fuel fuel' l s, (m l s < fuel)%nat → (m l s < fuel')%nat → loop fuel body l s = loop fuel' body l s.
Proof.
  intros D. induction fuel as [|fuel IH]; intros [|fuel'] l s H H'; try lia. simpl loop.
  unfold mbind, st_bind. destruct (body l s) as [[[l'|r] s']|] eqn:E; [|done..].
  apply D in E as Lt. apply IH; lia.
Qed.
