(* ===== verification/Platform.v ===== *)
(** The platform the program runs on: build configuration, the Zephyr interfaces it calls, atomics,
    error numbers and the C heap. The Zephyr interfaces are classes whose laws state the documented
    behaviour of the calls; every other file is parametric in them. [Native] gives concrete
    instances, on which examples are evaluated. *)
From S2P Require Import Prelude.

(** * Build configuration (Kconfig) *)

(** CONFIG_POUCH_ENCRYPTION_NONE or CONFIG_POUCH_ENCRYPTION_SAEAD. *)
Inductive encryption_type := ENCRYPTION_NONE | ENCRYPTION_SAEAD.

(** [BLOCK_SIZE] is CONFIG_POUCH_BLOCK_SIZE and [AUTH_TAG_LEN] is CONFIG_POUCH_AUTH_TAG_LEN (0, or
    16 with SAEAD encryption). The bounds are what the 16-bit size field of a block requires. *)
Class Config := {
  BLOCK_SIZE : Z;
  CONFIG_AUTH_TAG_LEN : Z;
  CONFIG_POUCH_ENCRYPTION : encryption_type;
  BLOCK_SIZE_range : 1 ≤ BLOCK_SIZE < 65536;
  AUTH_TAG_LEN_range : 0 ≤ CONFIG_AUTH_TAG_LEN ≤ 16;
}.

(** * Zephyr interfaces *)

(** <zephyr/sys/byteorder.h> *)
Class ByteOrder := {
  sys_put_be16 : Z → list byte;
  sys_get_be16 : list byte → Z;
  sys_get_be32 : list byte → Z;
  sys_get_be64 : list byte → Z;
  sys_put_be16_spec v : 0 ≤ v < 65536 →
    sys_put_be16 v = [byte_of_Z (Z.shiftr v 8); byte_of_Z v];
  sys_get_be16_spec a b :
    sys_get_be16 [a; b] = Z_of_byte a * 256 + Z_of_byte b;
  sys_get_be32_spec h l : length h = 2%nat → length l = 2%nat →
    sys_get_be32 (h ++ l) = sys_get_be16 h * 65536 + sys_get_be16 l;
  sys_get_be64_spec h l : length h = 4%nat → length l = 4%nat →
    sys_get_be64 (h ++ l) = sys_get_be32 h * 4294967296 + sys_get_be32 l;
}.

(** <zephyr/sys/slist.h>: a first-in first-out queue; [elems] is the sequence it holds. *)
Class SList := {
  slist : Type → Type;
  elems {A} : slist A → list A;
  sys_slist_init {A} : slist A;
  sys_slist_append {A} : slist A → A → slist A;
  sys_slist_get {A} : slist A → option A * slist A;
  sys_slist_peek_head {A} : slist A → option A;
  elems_init A : elems (@sys_slist_init A) = [];
  elems_append A (q : slist A) a : elems (sys_slist_append q a) = elems q ++ [a];
  sys_slist_get_spec A (q : slist A) :
    (sys_slist_get q).1 = head (elems q) ∧ elems (sys_slist_get q).2 = tail (elems q);
  sys_slist_peek_spec A (q : slist A) : sys_slist_peek_head q = head (elems q);
}.

(** k_work: an item is queued by a submit (a no-op when it is queued already) until its queue's
    thread takes it to run its handler. *)
Class KWork := {
  k_work : Type;
  k_work_queued : k_work → bool;
  k_work_init : k_work;
  k_work_submit : k_work → k_work;
  k_work_take : k_work → k_work;
  k_work_init_spec : k_work_queued k_work_init = false;
  k_work_submit_spec w : k_work_queued (k_work_submit w) = true;
  k_work_take_spec w : k_work_queued (k_work_take w) = false;
}.

(** k_msgq of a fixed depth: put fails without waiting when the queue is full. *)
Class MsgQ := {
  msgq : Type → Type;
  msgq_elems {A} : msgq A → list A;
  k_msgq_init {A} : nat → msgq A;
  k_msgq_depth {A} : msgq A → nat;
  k_msgq_put {A} : A → msgq A → msgq A;
  k_msgq_get {A} : msgq A → option A * msgq A;
  k_msgq_init_spec A n : msgq_elems (@k_msgq_init A n) = [] ∧ k_msgq_depth (@k_msgq_init A n) = n;
  k_msgq_put_spec A (a : A) q :
    msgq_elems (k_msgq_put a q) =
      (if decide (length (msgq_elems q) < k_msgq_depth q)%nat
       then msgq_elems q ++ [a] else msgq_elems q)
    ∧ k_msgq_depth (k_msgq_put a q) = k_msgq_depth q;
  k_msgq_get_spec A (q : msgq A) :
    (k_msgq_get q).1 = head (msgq_elems q) ∧ msgq_elems (k_msgq_get q).2 = tail (msgq_elems q)
    ∧ k_msgq_depth (k_msgq_get q).2 = k_msgq_depth q;
}.

(** * Error numbers *)

(** [ECBOR] stands for the error codes of the CBOR library, which the program only compares with 0. *)
Inductive errno :=
  EINVAL | ENOMEM | EIO | EALREADY | EBUSY | EAGAIN | ENOTSUP | EBADMSG | ENOTCONN | EPERM | ENOENT
  | ENODATA | EISDIR | ECBOR.

#[export] Instance errno_eq_dec : EqDecision errno.
Proof. solve_decision. Defined.

(** An [int] that is 0 on success or a negative error number. *)
Abbreviation status := (option errno).
Abbreviation SUCCESS := (@None errno).
Abbreviation NEG e := (@Some errno e).

(** * Atomics (32-bit, wrapping) *)

Definition BIT (n : Z) : Z := Z.shiftl 1 n.
Definition atomic_inc (v : Z) : Z * Z := (v, i32 (v + 1)).
Definition atomic_dec (v : Z) : Z * Z := (v, i32 (v - 1)).
Definition atomic_test_bit (v n : Z) : bool := Z.testbit v n.
Definition atomic_set_bit (v n : Z) : Z := Z.setbit v n.
Definition atomic_clear_bit (v n : Z) : Z := Z.clearbit v n.
Definition atomic_test_and_set_bit (v n : Z) : bool * Z := (Z.testbit v n, Z.setbit v n).
Definition atomic_test_and_clear_bit (v n : Z) : bool * Z := (Z.testbit v n, Z.clearbit v n).

Lemma land_BIT v n : 0 ≤ n → negb (Z.land v (BIT n) =? 0) = Z.testbit v n.
Proof.
  intros Hn. unfold BIT. rewrite Z.shiftl_1_l.
  destruct (Z.testbit v n) eqn:E.
  - apply negb_true_iff, Z.eqb_neq. intros H0.
    assert (Z.testbit (Z.land v (2 ^ n)) n = true) as H1.
    { rewrite Z.land_spec, E, Z.pow2_bits_true; done. }
    rewrite H0, Z.bits_0 in H1. done.
  - apply negb_false_iff, Z.eqb_eq, Z.bits_inj_0. intros k.
    rewrite Z.land_spec, Z.pow2_bits_eqb by done.
    destruct (Z.eqb_spec n k) as [->|]; rewrite ?E, ?andb_false_r; done.
Qed.

Lemma setbit_same v n : 0 ≤ n → Z.testbit (Z.setbit v n) n = true.
Proof. intros. by apply Z.setbit_eq. Qed.
Lemma setbit_other v n m : 0 ≤ n → n ≠ m → Z.testbit (Z.setbit v n) m = Z.testbit v m.
Proof. intros. by apply Z.setbit_neq. Qed.
Lemma clearbit_same v n : Z.testbit (Z.clearbit v n) n = false.
Proof. by apply Z.clearbit_eq. Qed.
Lemma clearbit_other v n m : n ≠ m → Z.testbit (Z.clearbit v n) m = Z.testbit v m.
Proof. intros. by apply Z.clearbit_neq. Qed.

Create Rewrite HintDb bits.
#[export] Hint Rewrite setbit_same clearbit_same using lia : bits.
#[export] Hint Rewrite setbit_other clearbit_other using lia : bits.
#[export] Hint Rewrite Z.bits_0 land_BIT using lia : bits.

(** * The C heap *)

(** [malloc] succeeds or fails; the [n]th call succeeds when [malloc_ok n]. A successful allocation
    yields a fresh object, which the code passes by its only pointer; [bufs] is the program's own
    count of live buffers (buf.c). *)
Record heap := Heap { malloc_ok : nat → bool; malloc_n : nat; bufs : Z }.

Definition malloc : st heap bool := λ h,
  OK (malloc_ok h (malloc_n h), Heap (malloc_ok h) (S (malloc_n h)) (bufs h)).

Definition set_bufs (n : Z) (h : heap) : heap := Heap (malloc_ok h) (malloc_n h) n.

Definition malloc_never_fails (h : heap) : Prop := ∀ n, malloc_ok h n = true.

(** * Concrete instances *)

Module Native.

#[export, refine] Instance byte_order : ByteOrder := {|
  sys_put_be16 v := [byte_of_Z (Z.shiftr v 8); byte_of_Z v];
  sys_get_be16 l := match l with a :: b :: _ => Z_of_byte a * 256 + Z_of_byte b | _ => 0 end;
  sys_get_be32 l := foldl (λ acc b, acc * 256 + Z_of_byte b) 0 (take 4 l);
  sys_get_be64 l := foldl (λ acc b, acc * 256 + Z_of_byte b) 0 (take 8 l);
|}.
Proof.
  - done.
  - done.
  - intros [|a [|b [|]]] [|c [|d [|]]]; simpl; try done. intros _ _. lia.
  - intros [|a [|b [|c [|d [|]]]]] [|e [|f [|g [|h [|]]]]]; simpl; try done. intros _ _. lia.
Defined.

#[export, refine] Instance list_slist : SList := {|
  slist := list; elems A l := l; sys_slist_init A := []; sys_slist_append A l a := l ++ [a];
  sys_slist_get A l := (head l, tail l); sys_slist_peek_head A l := head l;
|}.
Proof. all: done. Defined.

#[export, refine] Instance flag_work : KWork := {|
  k_work := bool; k_work_queued w := w; k_work_init := false; k_work_submit _ := true;
  k_work_take _ := false;
|}.
Proof. all: done. Defined.

#[export, refine] Instance list_msgq : MsgQ := {|
  msgq A := (nat * list A)%type; msgq_elems A q := q.2; k_msgq_init A n := (n, []);
  k_msgq_depth A q := q.1;
  k_msgq_put A a q := if decide (length q.2 < q.1)%nat then (q.1, q.2 ++ [a]) else q;
  k_msgq_get A q := (head q.2, (q.1, tail q.2));
|}.
Proof.
  - done.
  - intros A a [n q]; simpl. by case_decide.
  - done.
Defined.

(** Defaults: 512-byte blocks, no encryption; and 16-byte tags. *)
#[refine] Definition config_none : Config := {| BLOCK_SIZE := 512; CONFIG_AUTH_TAG_LEN := 0;
  CONFIG_POUCH_ENCRYPTION := ENCRYPTION_NONE |}.
Proof. all: lia. Defined.
#[refine] Definition config_saead : Config := {| BLOCK_SIZE := 512; CONFIG_AUTH_TAG_LEN := 16;
  CONFIG_POUCH_ENCRYPTION := ENCRYPTION_SAEAD |}.
Proof. all: lia. Defined.

(** A heap whose allocations all succeed. *)
Definition heap0 : heap := Heap (λ _, true) 0 0.
End Native.
