(* ===== verification/Buf.v ===== *)
(** Buffers and buffer views: src/src/buf.c and buf.h.

    A buffer is the malloc'd object [struct pouch_buf]: [cap] bytes of payload space, of which the
    first [length mem] have been written, and the program's own fill level [bytes]. Positions in it
    are offsets; [buf_claim] returns the offset it hands out. A load or store outside the object, a
    load of bytes never written and a store that would leave a gap of unwritten bytes are [Fault]. *)
From S2P Require Import Prelude Platform.

Record pouch_buf := PBuf { cap : Z; bytes : Z; mem : list byte }.

#[export] Instance pouch_buf_eq_dec : EqDecision pouch_buf.
Proof. solve_decision. Defined.

Definition set_bytes (n : Z) (b : pouch_buf) : pouch_buf := PBuf (cap b) n (mem b).

(** Loads and stores through a pointer at offset [p] of the object. *)
Definition mem_read (p n : Z) (b : pouch_buf) : outcome (list byte) :=
  guard ((0 <=? p) && (0 <=? n) && (p + n <=? len (mem b)));;
  OK (ztake n (zdrop p (mem b))).

Definition mem_write (p : Z) (d : list byte) (b : pouch_buf) : outcome pouch_buf :=
  guard ((0 <=? p) && (p <=? len (mem b)) && (p + len d <=? cap b));;
  OK (PBuf (cap b) (bytes b) (ztake p (mem b) ++ d ++ zdrop (p + len d) (mem b))).

(** A load of [n] bytes through a pointer to [d]. *)
Definition load (d : list byte) (n : Z) : outcome (list byte) :=
  guard ((0 <=? n) && (n <=? len d));;
  OK (ztake n d).

Lemma load_all d : load d (len d) = OK d.
Proof.
  unfold load. rewrite guard_true by (rewrite andb_true_iff, !Z.leb_le; lia).
  rewrite bind_OK. by rewrite ztake_all by lia.
Qed.

(** The typedef of buffer queues. *)
Abbreviation pouch_buf_queue_t := (slist pouch_buf).

Section Buf.
Context {BO : ByteOrder} {SL : SList}.

(** * Operations *)

Definition buf_claim (b : pouch_buf) (n : Z) : Z * pouch_buf :=
  (bytes b, set_bytes (u32 (bytes b + n)) b).

Definition buf_write (b : pouch_buf) (data : list byte) : outcome pouch_buf :=
  let '(p, b) := buf_claim b (len data) in
  mem_write p data b.

Definition buf_bytes_get (b : pouch_buf) : Z := bytes b.
Definition buf_bytes_set (b : pouch_buf) (n : Z) : pouch_buf := set_bytes n b.
Definition buf_next (b : pouch_buf) : Z := bytes b.
Definition buf_state_get (b : pouch_buf) : Z := bytes b.
Definition buf_restore (b : pouch_buf) (state : Z) : pouch_buf := set_bytes state b.
Definition buf_size_get (b : pouch_buf) : Z := bytes b.
Definition POUCH_BUF_STATE_INITIAL : Z := 0.

Definition buf_alloc (size : Z) : st heap (option pouch_buf) :=
  ok ← malloc;
  if (ok : bool) then
    modify (λ h, set_bufs (atomic_inc (bufs h)).2 h);;
    mret (Some (PBuf size 0 []))
  else mret None.

Definition buf_free (b : option pouch_buf) : st heap unit :=
  match b with
  | Some _ => modify (λ h, set_bufs (atomic_dec (bufs h)).2 h)
  | None => mret tt
  end.

Definition buf_active_count : st heap Z := gets bufs.

Definition buf_trim_start (b : pouch_buf) (n : Z) : outcome (Z * pouch_buf) :=
  let n := Z.min n (bytes b) in
  let left := u32 (bytes b - n) in
  moved ← mem_read n left b;
  b ← mem_write 0 moved (set_bytes left b);
  OK (n, b).

Definition buf_trim_end (b : pouch_buf) (n : Z) : Z * pouch_buf :=
  let n := Z.min n (bytes b) in
  (n, set_bytes (u32 (bytes b - n)) b).

(** Queues *)

Definition buf_queue_init : pouch_buf_queue_t := sys_slist_init.
Definition buf_queue_submit (q : pouch_buf_queue_t) (b : pouch_buf) : pouch_buf_queue_t :=
  sys_slist_append q b.
Definition buf_queue_get (q : pouch_buf_queue_t) : option pouch_buf * pouch_buf_queue_t :=
  sys_slist_get q.
Definition buf_queue_peek (q : pouch_buf_queue_t) : option pouch_buf := sys_slist_peek_head q.
Definition buf_queue_is_empty (q : pouch_buf_queue_t) : bool :=
  match buf_queue_peek q with None => true | Some _ => false end.

(** * Views *)

(** A view reads a buffer it points to; the buffer is not modified through it. *)
Record pouch_bufview := BufView { v_buf : option pouch_buf; v_offset : Z }.

Definition pouch_bufview_init (b : pouch_buf) : pouch_bufview := BufView (Some b) 0.

(** The pointer returned is the offset read from. *)
Definition bufview_read (v : pouch_bufview) (n : Z) : outcome (Z * pouch_bufview) :=
  _ ← of_ptr (v_buf v);
  OK (v_offset v, BufView (v_buf v) (u32 (v_offset v + n))).

(** Loads through a pointer obtained from a view. *)
Definition view_load (v : pouch_bufview) (p n : Z) : outcome (list byte) :=
  b ← of_ptr (v_buf v);
  mem_read p n b.

Definition pouch_bufview_available (v : pouch_bufview) : Z :=
  match v_buf v with
  | None => 0
  | Some b => u32 (bytes b - v_offset v)
  end.

Definition pouch_bufview_memcpy (v : pouch_bufview) (n : Z)
    : outcome (list byte * pouch_bufview) :=
  let n := Z.min n (pouch_bufview_available v) in
  '(p, v') ← bufview_read v n;
  d ← view_load v p n;
  OK (d, v').

(** [None] is the NULL returned when fewer than [n] bytes are available. *)
Definition pouch_bufview_read (v : pouch_bufview) (n : Z)
    : outcome (option Z * pouch_bufview) :=
  if pouch_bufview_available v <? n then OK (None, v)
  else '(p, v') ← bufview_read v n; OK (Some p, v').

Definition pouch_bufview_read_byte (v : pouch_bufview) : outcome (Z * pouch_bufview) :=
  '(p, v') ← bufview_read v 1;
  d ← view_load v p 1;
  OK (match d with [x] => Z_of_byte x | _ => 0 end, v').

Definition pouch_bufview_read_be16 (v : pouch_bufview) : outcome (Z * pouch_bufview) :=
  '(p, v') ← bufview_read v 2;
  d ← view_load v p 2;
  OK (sys_get_be16 d, v').

Definition pouch_bufview_read_be32 (v : pouch_bufview) : outcome (Z * pouch_bufview) :=
  '(p, v') ← bufview_read v 4;
  d ← view_load v p 4;
  OK (sys_get_be32 d, v').

Definition pouch_bufview_read_be64 (v : pouch_bufview) : outcome (Z * pouch_bufview) :=
  '(p, v') ← bufview_read v 8;
  d ← view_load v p 8;
  OK (sys_get_be64 d, v').

Definition pouch_bufview_is_ready (v : pouch_bufview) : bool :=
  match v_buf v with None => false | Some _ => 0 <? pouch_bufview_available v end.

Definition pouch_bufview_free (v : pouch_bufview) : st heap pouch_bufview :=
  buf_free (v_buf v);;
  mret (BufView None 0).

End Buf.

(** * Well-formed buffers and their contents *)

Record buf_wf (b : pouch_buf) : Prop := {
  wf_bytes : 0 ≤ bytes b ≤ len (mem b);
  wf_mem : len (mem b) ≤ cap b;
  wf_cap : cap b < 2147483648;
}.

(** The bytes a buffer holds. *)
Definition contents (b : pouch_buf) : list byte := ztake (bytes b) (mem b).

(** The buffer after [d] is appended. *)
Definition pushed (b : pouch_buf) (d : list byte) : pouch_buf :=
  PBuf (cap b) (bytes b + len d) (contents b ++ d ++ zdrop (bytes b + len d) (mem b)).

Definition fits (b : pouch_buf) (d : list byte) : Prop := bytes b + len d ≤ cap b.

Lemma len_contents b : buf_wf b → len (contents b) = bytes b.
Proof. intros [? ? ?]. unfold contents. solve_len. Qed.

Lemma mem_split b : buf_wf b → mem b = contents b ++ zdrop (bytes b) (mem b).
Proof. intros _. unfold contents. by rewrite take_drop. Qed.

Lemma pushed_contents b d : buf_wf b → contents (pushed b d) = contents b ++ d.
Proof.
  intros W. unfold contents at 1, pushed; simpl.
  rewrite app_assoc. apply take_app_exact. pose proof (len_contents b W). solve_len.
Qed.

Lemma pushed_wf b d : buf_wf b → fits b d → buf_wf (pushed b d).
Proof.
  unfold fits. intros W F. pose proof (len_contents b W). destruct W.
  split; unfold pushed; simpl; solve_len.
Qed.

Lemma pushed_pushed b d e : buf_wf b → pushed (pushed b d) e = pushed b (d ++ e).
Proof.
  intros W. pose proof (len_contents b W) as L. unfold pushed at 1.
  rewrite pushed_contents by done. unfold pushed; simpl. f_equal; [solve_len|].
  rewrite <- !app_assoc. do 3 f_equal.
  rewrite app_assoc, drop_app. rewrite (drop_ge (contents b ++ d)) by solve_len.
  rewrite app_nil_l, drop_drop. f_equal. solve_len.
Qed.

Lemma pushed_nil b : buf_wf b → pushed b [] = b.
Proof.
  intros W. unfold pushed. rewrite Z.add_0_r. simpl. rewrite <- mem_split by done. by destruct b.
Qed.

Section BufLemmas.
Context {BO : ByteOrder} {SL : SList}.

Lemma mem_write_at_bytes b b' d :
  buf_wf b → fits b d → b' = set_bytes (u32 (bytes b + len d)) b →
  mem_write (bytes b) d b' = OK (pushed b d).
Proof.
  unfold fits. intros [? ? ?] F ->. unfold mem_write; simpl.
  rewrite guard_true by (rewrite !andb_true_iff, !Z.leb_le; lia). rewrite bind_OK.
  unfold pushed, contents. rewrite u32_small by lia. done.
Qed.

(** Appending what fits. *)
Lemma buf_write_fits b d : buf_wf b → fits b d → buf_write b d = OK (pushed b d).
Proof. intros. unfold buf_write, buf_claim. by apply mem_write_at_bytes. Qed.

Lemma buf_write_overflow b d :
  buf_wf b → bytes b + len d < 4294967296 → ¬ fits b d → buf_write b d = Fault.
Proof.
  unfold fits. intros [? ? ?] ? F. unfold buf_write, buf_claim, mem_write; simpl.
  destruct (_ <=? cap b) eqn:E; [apply Z.leb_le in E; lia|]. by rewrite andb_false_r.
Qed.

(** Storing into freshly claimed space. *)
Lemma buf_claim_store b n d :
  buf_wf b → fits b d → n = len d →
  (let '(p, b') := buf_claim b n in mem_write p d b') = OK (pushed b d).
Proof. intros ? ? ->. unfold buf_claim. by apply mem_write_at_bytes. Qed.

(** Storing at the next byte, and claiming the space afterwards. *)
Lemma buf_next_store b d :
  buf_wf b → fits b d →
  ∃ b', mem_write (buf_next b) d b = OK b' ∧ (buf_claim b' (len d)).2 = pushed b d.
Proof.
  unfold fits. intros [? ? ?] F. unfold mem_write, buf_next.
  rewrite guard_true by (rewrite !andb_true_iff, !Z.leb_le; lia). rewrite bind_OK.
  eexists. split; [done|]. unfold buf_claim, set_bytes, pushed, contents; simpl.
  by rewrite u32_small by lia.
Qed.

Lemma mem_read_contents b p n :
  buf_wf b → 0 ≤ p → 0 ≤ n → p + n ≤ bytes b →
  mem_read p n b = OK (ztake n (zdrop p (contents b))).
Proof.
  intros [? ? ?] ? ? ?. unfold mem_read.
  rewrite guard_true by (rewrite !andb_true_iff, !Z.leb_le; lia).
  rewrite bind_OK. f_equal. unfold contents.
  rewrite !take_drop_commute, take_take. do 2 f_equal. lia.
Qed.

Lemma buf_trim_start_spec b n :
  buf_wf b → 0 ≤ n →
  ∃ b', buf_trim_start b n = OK (Z.min n (bytes b), b') ∧ buf_wf b' ∧ cap b' = cap b ∧
    contents b' = zdrop n (contents b).
Proof.
  intros W Hn. pose proof (len_contents b W) as L. pose proof W as [? ? ?].
  set (m := Z.min n (bytes b)). unfold buf_trim_start. fold m.
  rewrite u32_small by lia.
  rewrite mem_read_contents by (done || lia). rewrite bind_OK.
  set (moved := ztake (bytes b - m) (zdrop m (contents b))).
  assert (len moved = bytes b - m) as Lm by (unfold moved; solve_len).
  unfold mem_write; simpl. rewrite guard_true by (rewrite !andb_true_iff, !Z.leb_le; lia).
  rewrite !bind_OK. eexists; split; [reflexivity|].
  rewrite Lm. split_and!; [split|..]; simpl; [solve_len..|done|].
  unfold contents at 1; simpl. rewrite take_app_exact by lia.
  unfold moved. rewrite ztake_all by solve_len.
  destruct (Z.le_ge_cases n (bytes b)); [by replace m with n by lia|].
  rewrite !zdrop_all by solve_len. done.
Qed.

Lemma buf_trim_end_spec b n :
  buf_wf b → 0 ≤ n →
  ∃ b', buf_trim_end b n = (Z.min n (bytes b), b') ∧ buf_wf b' ∧ cap b' = cap b ∧
    contents b' = ztake (bytes b - n) (contents b).
Proof.
  intros W Hn. pose proof W as [? ? ?]. unfold buf_trim_end.
  rewrite u32_small by lia. eexists; split; [reflexivity|].
  split_and!; [split|..]; simpl; [lia..|done|].
  unfold contents; simpl. rewrite take_take. f_equal. lia.
Qed.

(** Allocation and release change the count of live buffers by one. *)
Lemma buf_alloc_spec size h :
  buf_alloc size h =
    (if malloc_ok h (malloc_n h)
     then OK (Some (PBuf size 0 []), Heap (malloc_ok h) (S (malloc_n h)) (i32 (bufs h + 1)))
     else OK (None, Heap (malloc_ok h) (S (malloc_n h)) (bufs h))).
Proof. unfold buf_alloc, malloc. run_st. by destruct (malloc_ok h (malloc_n h)). Qed.

Lemma buf_free_spec b h :
  buf_free b h = OK (tt, match b with Some _ => set_bufs (i32 (bufs h - 1)) h | None => h end).
Proof. by destruct b. Qed.

Lemma fresh_wf size : 0 ≤ size < 2147483648 → buf_wf (PBuf size 0 []).
Proof. split; simpl; lia. Qed.

(** ** Queues *)

Lemma buf_queue_get_cons (q : pouch_buf_queue_t) b l :
  elems q = b :: l →
  (buf_queue_get q).1 = Some b ∧ elems (buf_queue_get q).2 = l.
Proof.
  intros E. unfold buf_queue_get. destruct (sys_slist_get_spec _ q) as [H1 H2].
  rewrite H1, H2, E. done.
Qed.

Lemma buf_queue_get_nil (q : pouch_buf_queue_t) :
  elems q = [] → (buf_queue_get q).1 = None ∧ elems (buf_queue_get q).2 = [].
Proof.
  intros E. unfold buf_queue_get. destruct (sys_slist_get_spec _ q) as [H1 H2].
  rewrite H1, H2, E. done.
Qed.

Lemma buf_queue_is_empty_spec (q : pouch_buf_queue_t) :
  buf_queue_is_empty q = bool_decide (elems q = []).
Proof.
  unfold buf_queue_is_empty, buf_queue_peek. rewrite sys_slist_peek_spec.
  by destruct (elems q).
Qed.

Lemma elems_submit (q : pouch_buf_queue_t) b : elems (buf_queue_submit q b) = elems q ++ [b].
Proof. apply elems_append. Qed.

Lemma elems_queue_init : elems buf_queue_init = [].
Proof. apply elems_init. Qed.

(** ** Views *)

(** A view at a position inside the contents of a well-formed buffer. *)
Record view_wf (b : pouch_buf) (v : pouch_bufview) : Prop := {
  vwf_buf : v_buf v = Some b;
  vwf_wf : buf_wf b;
  vwf_off : 0 ≤ v_offset v ≤ bytes b;
}.

Definition view_at (b : pouch_buf) (o : Z) : pouch_bufview := BufView (Some b) o.

(** What is left to read. *)
Definition rest (b : pouch_buf) (o : Z) : list byte := zdrop o (contents b).

Lemma view_init_at b : pouch_bufview_init b = view_at b 0.
Proof. done. Qed.

Lemma rest_0 b : rest b 0 = contents b.
Proof. done. Qed.

Lemma len_rest b o : buf_wf b → 0 ≤ o ≤ bytes b → len (rest b o) = bytes b - o.
Proof. intros W ?. pose proof (len_contents b W). unfold rest. solve_len. Qed.

Lemma available_at b o : buf_wf b → 0 ≤ o ≤ bytes b →
  pouch_bufview_available (view_at b o) = len (rest b o).
Proof.
  intros W ?. rewrite len_rest by done. unfold pouch_bufview_available; simpl.
  destruct W. by rewrite u32_small by lia.
Qed.

Lemma bufview_read_at b o n : buf_wf b → 0 ≤ o → 0 ≤ n → o + n ≤ bytes b →
  bufview_read (view_at b o) n = OK (o, view_at b (o + n)).
Proof.
  intros [? ? ?] ? ? ?. unfold bufview_read, view_at; simpl.
  by rewrite u32_small by lia.
Qed.

Lemma view_load_at b o n o' : buf_wf b → 0 ≤ o → 0 ≤ n → o + n ≤ bytes b →
  view_load (view_at b o') o n = OK (ztake n (rest b o)).
Proof.
  intros. by apply mem_read_contents.
Qed.

(** Reading [d] when [d] comes next. *)
Section Next.
Context (b : pouch_buf) (o : Z) (d k : list byte).
Context (W : buf_wf b) (O : 0 ≤ o ≤ bytes b) (E : rest b o = d ++ k).

Lemma next_fits : o + len d ≤ bytes b.
Proof. pose proof (len_rest b o W O) as L. rewrite E in L. solve_len. Qed.

Lemma rest_next : rest b (o + len d) = k.
Proof.
  unfold rest in *. rewrite <- zdrop_zdrop by lia. rewrite E. apply drop_app_exact. lia.
Qed.

Lemma bufview_read_next n : n = len d →
  bufview_read (view_at b o) n = OK (o, view_at b (o + len d)).
Proof. intros ->. pose proof next_fits. apply bufview_read_at; done || lia. Qed.

Lemma view_load_next n v : n = len d → v_buf v = Some b → view_load v o n = OK d.
Proof.
  intros -> Hv. pose proof next_fits. destruct v as [vb vo]; simpl in Hv; subst vb.
  change (BufView (Some b) vo) with (view_at b vo). rewrite view_load_at by (done || lia).
  rewrite E. by rewrite take_app_exact by lia.
Qed.

Lemma memcpy_next n : n = len d →
  pouch_bufview_memcpy (view_at b o) n = OK (d, view_at b (o + len d)).
Proof.
  intros ->. pose proof next_fits. unfold pouch_bufview_memcpy.
  rewrite available_at by done. rewrite len_rest by done.
  rewrite Z.min_l by lia. rewrite bufview_read_next by done. rewrite bind_OK.
  rewrite view_load_next by done. done.
Qed.

Lemma pouch_bufview_read_next n : n = len d →
  pouch_bufview_read (view_at b o) n = OK (Some o, view_at b (o + len d)).
Proof.
  intros ->. pose proof next_fits. unfold pouch_bufview_read.
  rewrite available_at, len_rest by done.
  destruct (Z.ltb_spec (bytes b - o) (len d)); [lia|].
  by rewrite bufview_read_next.
Qed.
End Next.

Lemma read_byte_next b o x k : buf_wf b → 0 ≤ o ≤ bytes b → rest b o = x :: k →
  pouch_bufview_read_byte (view_at b o) = OK (Z_of_byte x, view_at b (o + 1)).
Proof.
  intros W O E. unfold pouch_bufview_read_byte.
  rewrite (bufview_read_next b o [x] k) by done. rewrite bind_OK.
  rewrite (view_load_next b o [x] k) by done. done.
Qed.

Lemma read_be16_next b o h l k : buf_wf b → 0 ≤ o ≤ bytes b → rest b o = h :: l :: k →
  pouch_bufview_read_be16 (view_at b o) = OK (Z_of_byte h * 256 + Z_of_byte l, view_at b (o + 2)).
Proof.
  intros W O E. unfold pouch_bufview_read_be16.
  rewrite (bufview_read_next b o [h; l] k) by done. rewrite bind_OK.
  rewrite (view_load_next b o [h; l] k) by done.
  rewrite bind_OK, sys_get_be16_spec. done.
Qed.

Lemma memcpy_at b o n : buf_wf b → 0 ≤ o ≤ bytes b → 0 ≤ n →
  pouch_bufview_memcpy (view_at b o) n =
    OK (ztake n (rest b o), view_at b (o + Z.min n (len (rest b o)))).
Proof.
  intros W O Hn. pose proof (len_rest b o W O) as L.
  unfold pouch_bufview_memcpy. rewrite available_at by done.
  set (m := Z.min n (len (rest b o))).
  assert (len (ztake m (rest b o)) = m) as Lm by solve_len.
  rewrite bufview_read_at by (done || lia). rewrite bind_OK.
  rewrite view_load_at by (done || lia). rewrite bind_OK. do 2 f_equal.
  destruct (Z.le_ge_cases n (len (rest b o))); [by replace m with n by lia|].
  rewrite !ztake_all by lia. done.
Qed.

End BufLemmas.
