(* ===== verification/Block.v ===== *)
(** Blocks: src/src/block.c and block.h.

    A block is a buffer that holds a 16-bit big-endian size, an id byte (stream id and the first and
    last flags) and a payload; the size counts everything after itself. [is_block] is the invariant
    of a block under construction, [frame] the bytes of a finished one. *)
From S2P Require Import Prelude Platform Buf.

Section Block.
Context {BO : ByteOrder} {CF : Config}.

Definition BLOCK_ID_MASK : Z := 0x1f.
Definition MAX_BLOCK_PAYLOAD_SIZE_LOG : Z := Z.log2 BLOCK_SIZE.
Definition MAX_BLOCK_PAYLOAD_SIZE : Z := Z.shiftl 1 MAX_BLOCK_PAYLOAD_SIZE_LOG.
Definition BLOCK_HEADER_SIZE : Z := 3.
Definition MAX_PLAINTEXT_BLOCK_SIZE : Z := BLOCK_HEADER_SIZE + MAX_BLOCK_PAYLOAD_SIZE.
Definition MAX_CIPHERTEXT_BLOCK_SIZE : Z := MAX_PLAINTEXT_BLOCK_SIZE + CONFIG_AUTH_TAG_LEN.
Definition MAX_BLOCK_SIZE_FIELD_VALUE : Z := MAX_CIPHERTEXT_BLOCK_SIZE - 2.

Definition BLOCK_ID_ENTRY : Z := 0x00.
Definition FIRST_DATA_MASK : Z := 0x40.
Definition LAST_DATA_MASK : Z := 0x80.

(** The out-parameters of [block_decode_hdr]. *)
Record block_hdr := BlockHdr {
  hdr_block_size : Z;
  hdr_stream_id : Z;
  hdr_is_stream : bool;
  hdr_is_first : bool;
  hdr_is_last : bool;
}.

Definition block_decode_hdr (v : pouch_bufview) : outcome (block_hdr * pouch_bufview) :=
  guard (v_offset v =? 0);;
  '(block_size, v) ← pouch_bufview_read_be16 v;
  '(id, v) ← pouch_bufview_read_byte v;
  let stream_id := Z.land id BLOCK_ID_MASK in
  OK (BlockHdr block_size stream_id
        (negb (stream_id =? BLOCK_ID_ENTRY))
        (negb (Z.land id FIRST_DATA_MASK =? 0))
        (negb (Z.land id LAST_DATA_MASK =? 0)), v).

Definition update_block_header (block : pouch_buf) (size flags : Z) : outcome pouch_buf :=
  let '(p, block) := buf_claim block 2 in
  block ← mem_write p (sys_put_be16 (u16 size)) block;
  let '(p, block) := buf_claim block 1 in
  old ← mem_read p 1 block;
  mem_write p (map (λ x, byte_of_Z (Z.lor (Z_of_byte x) flags)) old) block.

Definition write_block_header (block : pouch_buf) (size id flags : Z) : outcome pouch_buf :=
  let '(p, block) := buf_claim block 2 in
  block ← mem_write p (sys_put_be16 (u16 size)) block;
  let '(p, block) := buf_claim block 1 in
  mem_write p [byte_of_Z (Z.lor id flags)] block.

Definition block_size_get (block : pouch_buf) : Z := buf_size_get block.

Definition block_space_get (block : pouch_buf) : Z :=
  u32 (MAX_PLAINTEXT_BLOCK_SIZE - block_size_get block).

Definition block_size_write (block : pouch_buf) (size : Z) : outcome pouch_buf :=
  let '(p, block) := buf_claim block 2 in
  mem_write p (sys_put_be16 (u16 size)) block.

Definition block_alloc : st heap (option pouch_buf) :=
  block ← buf_alloc MAX_PLAINTEXT_BLOCK_SIZE;
  match block with
  | Some block =>
      block ← lift (write_block_header block 0 BLOCK_ID_ENTRY
                      (Z.lor FIRST_DATA_MASK LAST_DATA_MASK));
      mret (Some block)
  | None => mret None
  end.

Definition block_alloc_stream (stream_id : Z) (first : bool) : st heap (option pouch_buf) :=
  block ← buf_alloc MAX_PLAINTEXT_BLOCK_SIZE;
  match block with
  | Some block =>
      block ← lift (write_block_header block 0 stream_id (if first then FIRST_DATA_MASK else 0));
      mret (Some block)
  | None => mret None
  end.

Definition block_free (block : option pouch_buf) : st heap unit := buf_free block.

Definition finish (block : pouch_buf) (id flags : Z) : outcome pouch_buf :=
  let size := block_size_get block in
  let state := buf_state_get block in
  let block := buf_restore block POUCH_BUF_STATE_INITIAL in
  block ← update_block_header block (u32 (size - 2)) flags;
  OK (buf_restore block state).

Definition block_finish (block : pouch_buf) : outcome pouch_buf :=
  finish block BLOCK_ID_ENTRY (Z.lor FIRST_DATA_MASK LAST_DATA_MASK).

Definition block_finish_stream (block : pouch_buf) (stream_id : Z) (last : bool)
    : outcome pouch_buf :=
  finish block stream_id (if last then LAST_DATA_MASK else 0).

(** * The layout of a block *)

Definition id_byte (id : Z) (first last : bool) : byte :=
  byte_of_Z (Z.lor (Z.lor id (if first then FIRST_DATA_MASK else 0))
                   (if last then LAST_DATA_MASK else 0)).

Definition frame (i : byte) (p : list byte) : list byte :=
  sys_put_be16 (len p + 1) ++ i :: p.

Record is_block (b : pouch_buf) (i : byte) (p : list byte) : Prop := {
  blk_wf : buf_wf b;
  blk_cap : cap b = MAX_PLAINTEXT_BLOCK_SIZE;
  blk_contents : ∃ h0 h1, contents b = h0 :: h1 :: i :: p;
}.

Definition finished_block (b : pouch_buf) (i : byte) (p : list byte) : Prop :=
  is_block b i p ∧ contents b = frame i p.

(** * Sizes *)

Lemma MAX_BLOCK_PAYLOAD_SIZE_range :
  1 ≤ MAX_BLOCK_PAYLOAD_SIZE ≤ BLOCK_SIZE ∧ MAX_BLOCK_PAYLOAD_SIZE ≤ 32768.
Proof.
  pose proof BLOCK_SIZE_range as R.
  unfold MAX_BLOCK_PAYLOAD_SIZE, MAX_BLOCK_PAYLOAD_SIZE_LOG. rewrite Z.shiftl_1_l.
  pose proof (Z.log2_nonneg BLOCK_SIZE) as N.
  assert (Z.log2 BLOCK_SIZE ≤ 15) as L.
  { change 15 with (Z.log2 65535). apply Z.log2_le_mono. lia. }
  assert (0 < BLOCK_SIZE) as P0 by lia. pose proof (Z.log2_spec BLOCK_SIZE P0) as [S _].
  pose proof (Z.pow_le_mono_r 2 _ _ ltac:(lia) L) as P.
  pose proof (Z.pow_le_mono_r 2 _ _ ltac:(lia) N) as Q.
  change (2 ^ 15) with 32768 in P. change (2 ^ 0) with 1 in Q.
  generalize dependent (2 ^ Z.log2 BLOCK_SIZE). intros. lia.
Qed.

Lemma MAX_PLAINTEXT_range : 4 ≤ MAX_PLAINTEXT_BLOCK_SIZE ≤ 32771.
Proof.
  unfold MAX_PLAINTEXT_BLOCK_SIZE, BLOCK_HEADER_SIZE.
  pose proof MAX_BLOCK_PAYLOAD_SIZE_range. lia.
Qed.

Lemma MAX_CIPHERTEXT_range :
  MAX_PLAINTEXT_BLOCK_SIZE ≤ MAX_CIPHERTEXT_BLOCK_SIZE ≤ 32787.
Proof.
  unfold MAX_CIPHERTEXT_BLOCK_SIZE. pose proof MAX_PLAINTEXT_range.
  pose proof AUTH_TAG_LEN_range. lia.
Qed.

Lemma len_put_be16 v : 0 ≤ v < 65536 → length (sys_put_be16 v) = 2%nat.
Proof. intros. by rewrite sys_put_be16_spec. Qed.

Lemma len_frame i p : len p < 65535 → len (frame i p) = 3 + len p.
Proof.
  intros. unfold frame. rewrite length_app, length_cons, len_put_be16 by lia. lia.
Qed.

(** The two bytes of a 16-bit value give it back. *)
Lemma be16_value v : 0 ≤ v < 65536 →
  Z_of_byte (byte_of_Z (Z.shiftr v 8)) * 256 + Z_of_byte (byte_of_Z v) = v.
Proof.
  intros. rewrite !Z_of_byte_of_Z, Z.shiftr_div_pow2 by lia. unfold u8.
  change (2 ^ 8) with 256. rewrite (Z.mod_small (v / 256)) by dlia. dlia.
Qed.

Lemma read_be16_put b o v k :
  buf_wf b → 0 ≤ o ≤ bytes b → 0 ≤ v < 65536 → rest b o = sys_put_be16 v ++ k →
  pouch_bufview_read_be16 (view_at b o) = OK (v, view_at b (o + 2)).
Proof.
  intros W O V E. rewrite sys_put_be16_spec in E by done.
  rewrite (read_be16_next b o _ _ k W O E). by rewrite be16_value.
Qed.

(** * The id byte *)

Lemma id_byte_fields id f l : 0 ≤ id < 32 →
  Z.land (Z_of_byte (id_byte id f l)) BLOCK_ID_MASK = id ∧
  negb (Z.land (Z_of_byte (id_byte id f l)) FIRST_DATA_MASK =? 0) = f ∧
  negb (Z.land (Z_of_byte (id_byte id f l)) LAST_DATA_MASK =? 0) = l.
Proof.
  intros R. assert (id ∈ seqZ 0 32) as I by (apply elem_of_seqZ; lia).
  clear R. revert id I. apply Forall_forall. destruct f, l; repeat constructor.
Qed.

Lemma id_byte_finish id (f l : bool) : 0 ≤ id < 32 →
  byte_of_Z (Z.lor (Z_of_byte (id_byte id f false)) (if l then LAST_DATA_MASK else 0)) =
    id_byte id f l.
Proof.
  intros R. assert (id ∈ seqZ 0 32) as I by (apply elem_of_seqZ; lia).
  clear R. revert id I. apply Forall_forall. destruct f, l; repeat constructor.
Qed.

(** * Operations on blocks *)

Lemma is_block_bytes b i p : is_block b i p → bytes b = 3 + len p.
Proof.
  intros [W _ (h0 & h1 & E)]. rewrite <- len_contents, E by done. solve_len.
Qed.

Lemma is_block_len b i p : is_block b i p → len p ≤ MAX_BLOCK_PAYLOAD_SIZE.
Proof.
  intros B. pose proof (is_block_bytes _ _ _ B). destruct B as [[? ? ?] C _].
  unfold MAX_PLAINTEXT_BLOCK_SIZE, BLOCK_HEADER_SIZE in C. lia.
Qed.

Lemma block_space_get_spec b i p :
  is_block b i p → block_space_get b = MAX_BLOCK_PAYLOAD_SIZE - len p.
Proof.
  intros B. pose proof (is_block_bytes _ _ _ B). pose proof (is_block_len _ _ _ B).
  pose proof MAX_BLOCK_PAYLOAD_SIZE_range.
  unfold block_space_get, block_size_get, buf_size_get, MAX_PLAINTEXT_BLOCK_SIZE,
    BLOCK_HEADER_SIZE. rewrite u32_small; lia.
Qed.

Lemma block_write b i p d :
  is_block b i p → len p + len d ≤ MAX_BLOCK_PAYLOAD_SIZE →
  buf_write b d = OK (pushed b d) ∧ is_block (pushed b d) i (p ++ d).
Proof.
  intros B L. pose proof (is_block_bytes _ _ _ B). destruct B as [W C (h0 & h1 & E)].
  assert (fits b d) as F.
  { unfold fits. rewrite C. unfold MAX_PLAINTEXT_BLOCK_SIZE, BLOCK_HEADER_SIZE. lia. }
  split; [by apply buf_write_fits|].
  split; [by apply pushed_wf|done|]. exists h0, h1. by rewrite pushed_contents, E.
Qed.

(** Claiming [n] bytes of a block and storing [n] bytes there. *)
Lemma block_claim_write b i p n d :
  is_block b i p → n = len d → len p + len d ≤ MAX_BLOCK_PAYLOAD_SIZE →
  mem_write (bytes b) d (set_bytes (u32 (bytes b + n)) b) = OK (pushed b d)
  ∧ is_block (pushed b d) i (p ++ d).
Proof.
  intros B -> L. destruct (block_write b i p d B L) as [E B']. by split.
Qed.

Lemma is_block_fits b i p d :
  is_block b i p → len p + len d ≤ MAX_BLOCK_PAYLOAD_SIZE → fits b d.
Proof.
  intros B L. pose proof (is_block_bytes _ _ _ B). destruct B as [W C _].
  unfold fits. rewrite C. unfold MAX_PLAINTEXT_BLOCK_SIZE, BLOCK_HEADER_SIZE. lia.
Qed.

Lemma write_block_header_spec b size id flags :
  buf_wf b → bytes b = 0 → 3 ≤ cap b →
  write_block_header b size id flags =
    OK (pushed b (sys_put_be16 (u16 size) ++ [byte_of_Z (Z.lor id flags)])).
Proof.
  intros W B0 C. pose proof (len_put_be16 _ (u16_range size)) as L.
  unfold write_block_header, buf_claim.
  assert (fits b (sys_put_be16 (u16 size))) as F by (unfold fits; lia).
  rewrite (mem_write_at_bytes b _ _ W F) by (by rewrite L).
  rewrite bind_OK. set (b1 := pushed b _).
  assert (buf_wf b1) as W1 by by apply pushed_wf.
  rewrite (mem_write_at_bytes b1) by
    (done || unfold fits, b1, pushed; simpl; lia).
  unfold b1. by rewrite pushed_pushed.
Qed.

Lemma fresh_block id flags :
  let b := PBuf MAX_PLAINTEXT_BLOCK_SIZE 0 [] in
  ∃ b', write_block_header b 0 id flags = OK b' ∧ is_block b' (byte_of_Z (Z.lor id flags)) [].
Proof.
  intros b. pose proof MAX_PLAINTEXT_range.
  assert (buf_wf b) as W by (apply fresh_wf; lia).
  pose proof (len_put_be16 (u16 0) (u16_range 0)).
  eexists. split; [apply write_block_header_spec; simpl; done || lia|].
  split; [apply pushed_wf; [done|unfold fits; simpl; solve_len]|done|].
  rewrite pushed_contents by done. rewrite sys_put_be16_spec by done. simpl. eauto.
Qed.

(** An allocated block is empty; the heap counts it. *)
Lemma block_alloc_stream_spec id first h :
  if malloc_ok h (malloc_n h) then
    ∃ b, block_alloc_stream id first h =
           OK (Some b, Heap (malloc_ok h) (S (malloc_n h)) (i32 (bufs h + 1)))
         ∧ is_block b (id_byte id first false) []
  else block_alloc_stream id first h = OK (None, Heap (malloc_ok h) (S (malloc_n h)) (bufs h)).
Proof.
  unfold block_alloc_stream. destruct (malloc_ok h (malloc_n h)) eqn:M.
  - destruct (fresh_block id (if first then FIRST_DATA_MASK else 0)) as (b & E & B).
    exists b. unfold mbind at 1, st_bind at 1. rewrite buf_alloc_spec, M. run_st.
    rewrite E. split; [done|]. unfold id_byte. by rewrite Z.lor_0_r.
  - unfold mbind, st_bind. by rewrite buf_alloc_spec, M.
Qed.

Lemma block_alloc_spec h :
  if malloc_ok h (malloc_n h) then
    ∃ b, block_alloc h =
           OK (Some b, Heap (malloc_ok h) (S (malloc_n h)) (i32 (bufs h + 1)))
         ∧ is_block b (id_byte 0 true true) []
  else block_alloc h = OK (None, Heap (malloc_ok h) (S (malloc_n h)) (bufs h)).
Proof.
  unfold block_alloc. destruct (malloc_ok h (malloc_n h)) eqn:M.
  - destruct (fresh_block BLOCK_ID_ENTRY (Z.lor FIRST_DATA_MASK LAST_DATA_MASK)) as (b & E & B).
    exists b. unfold mbind at 1, st_bind at 1. rewrite buf_alloc_spec, M. run_st.
    by rewrite E.
  - unfold mbind, st_bind. by rewrite buf_alloc_spec, M.
Qed.

Lemma update_block_header_spec b size flags i tl :
  buf_wf b → bytes b = 0 → 3 ≤ cap b → zdrop 2 (mem b) = i :: tl →
  update_block_header b size flags =
    OK (pushed b (sys_put_be16 (u16 size) ++ [byte_of_Z (Z.lor (Z_of_byte i) flags)])).
Proof.
  intros W B0 C T. pose proof (len_put_be16 _ (u16_range size)) as L.
  unfold update_block_header, buf_claim.
  assert (fits b (sys_put_be16 (u16 size))) as F by (unfold fits; lia).
  rewrite (mem_write_at_bytes b _ _ W F) by (by rewrite L).
  rewrite bind_OK. set (b1 := pushed b _).
  assert (buf_wf b1) as W1 by by apply pushed_wf.
  assert (bytes b1 = 2) as E1 by (unfold b1, pushed; simpl; lia).
  assert (mem b1 = sys_put_be16 (u16 size) ++ i :: tl) as M1.
  { unfold b1, pushed, contents; simpl. rewrite B0. rewrite L, <- T. done. }
  assert (mem_read (bytes b1) 1 (set_bytes (u32 (bytes b1 + 1)) b1) = OK [i]) as R.
  { unfold mem_read, set_bytes; cbn [mem]. rewrite M1, E1.
    rewrite guard_true by (rewrite !andb_true_iff, !Z.leb_le; solve_len).
    rewrite bind_OK. by rewrite drop_app_exact by (by rewrite L). }
  rewrite R, bind_OK.
  rewrite (mem_write_at_bytes b1) by
    (done || unfold fits; rewrite E1; unfold b1, pushed; simpl; lia).
  unfold b1. by rewrite pushed_pushed.
Qed.

(** Finishing writes the size and the flags, and nothing else. *)
Lemma finish_spec b i p id flags :
  is_block b i p →
  ∃ b', finish b id flags = OK b'
    ∧ finished_block b' (byte_of_Z (Z.lor (Z_of_byte i) flags)) p.
Proof.
  intros B. pose proof (is_block_bytes _ _ _ B) as Eb. pose proof (is_block_len _ _ _ B) as Lp.
  destruct B as [W C (h0 & h1 & E)]. pose proof MAX_PLAINTEXT_range.
  pose proof MAX_BLOCK_PAYLOAD_SIZE_range. pose proof W as [? ? ?].
  set (b0 := buf_restore b POUCH_BUF_STATE_INITIAL).
  assert (buf_wf b0) as W0 by (split; simpl; unfold POUCH_BUF_STATE_INITIAL; lia).
  assert (mem b0 = h0 :: h1 :: i :: p ++ zdrop (bytes b) (mem b)) as M0.
  { simpl. rewrite (mem_split b) at 1 by done. by rewrite E. }
  unfold finish. fold b0. unfold block_size_get, buf_size_get, buf_state_get.
  rewrite (update_block_header_spec b0 _ _ i (p ++ zdrop (bytes b) (mem b))) by
    (done || (cbn; lia) || by rewrite M0).
  rewrite bind_OK. eexists. split; [reflexivity|].
  replace (u16 (u32 (bytes b - 2))) with (len p + 1) by
    (rewrite (u32_small (bytes b - 2)), u16_small by lia; lia).
  set (i' := byte_of_Z _). pose proof (len_put_be16 (len p + 1) ltac:(lia)) as Lh.
  set (b1 := buf_restore _ _).
  assert (mem b1 = frame i' p ++ zdrop (bytes b) (mem b)) as M1.
  { transitivity ((sys_put_be16 (len p + 1) ++ [i']) ++ zdrop 3 (mem b0)).
    - unfold b1; cbn [buf_restore set_bytes mem pushed]. change (contents b0) with (@nil byte).
      rewrite app_nil_l. do 2 f_equal. change (bytes b0) with 0. solve_len.
    - rewrite M0. unfold frame. by rewrite <- !app_assoc. }
  assert (len (frame i' p) = bytes b) as Lf by (rewrite len_frame; lia).
  assert (contents b1 = frame i' p) as Ec.
  { unfold contents. rewrite M1. apply take_app_exact. simpl. lia. }
  assert (buf_wf b1) as W1.
  { split; rewrite ?M1; simpl; solve_len. }
  split; [|done]. split; [done..|].
  rewrite Ec. unfold frame. rewrite sys_put_be16_spec by lia. simpl. eauto.
Qed.

Lemma block_finish_spec b p :
  is_block b (id_byte 0 true true) p →
  ∃ b', block_finish b = OK b' ∧ finished_block b' (id_byte 0 true true) p.
Proof.
  apply (finish_spec b (id_byte 0 true true) p BLOCK_ID_ENTRY
           (Z.lor FIRST_DATA_MASK LAST_DATA_MASK)).
Qed.

Lemma block_finish_stream_spec b id first last p :
  0 ≤ id < 32 → is_block b (id_byte id first false) p →
  ∃ b', block_finish_stream b id last = OK b' ∧ finished_block b' (id_byte id first last) p.
Proof.
  intros R B. destruct (finish_spec b _ p id (if last then LAST_DATA_MASK else 0) B)
    as (b' & E & F). exists b'. split; [done|]. by rewrite <- id_byte_finish.
Qed.

(** Decoding the header of a finished block. *)
Lemma block_decode_hdr_frame b id first last p :
  buf_wf b → 0 ≤ id < 32 → len p < 65535 → contents b = frame (id_byte id first last) p →
  block_decode_hdr (view_at b 0) =
    OK (BlockHdr (len p + 1) id (negb (id =? 0)) first last, view_at b 3) ∧
  rest b 3 = p.
Proof.
  intros W R Lp E. pose proof (len_contents b W) as Lb. rewrite E, len_frame in Lb by done.
  assert (rest b 0 = sys_put_be16 (len p + 1) ++ (id_byte id first last) :: p) as R0 by done.
  pose proof (len_put_be16 (len p + 1) ltac:(lia)) as Lh.
  assert (rest b 2 = id_byte id first last :: p) as R2.
  { replace 2 with (0 + len (sys_put_be16 (len p + 1))) by lia.
    by apply (rest_next b 0 _ _ ltac:(lia) R0). }
  unfold block_decode_hdr. rewrite guard_true by done. rewrite bind_OK.
  rewrite (read_be16_put b 0 (len p + 1) (id_byte id first last :: p)) by (done || lia).
  rewrite bind_OK.
  rewrite (read_byte_next b (0 + 2) (id_byte id first last) p) by (done || lia).
  rewrite bind_OK.
  destruct (id_byte_fields id first last R) as (-> & -> & ->). split; [done|].
  by apply (rest_next b 2 [_] _ ltac:(lia) R2).
Qed.

(** Header round trip: a block allocated for a stream (or for entries, id 0), filled with any
    payload that fits and finished is read back by [block_decode_hdr] with its id, flags and size, and
    the payload is what follows in the view. *)
Theorem block_header_roundtrip b i id (first last : bool) p :
  0 ≤ id < 32 → is_block b i p → i = id_byte id first false →
  ∃ b' v, block_finish_stream b id last = OK b' ∧
    block_decode_hdr (pouch_bufview_init b') =
      OK (BlockHdr (len p + 1) id (negb (id =? 0)) first last, v) ∧
    pouch_bufview_available v = len p ∧
    ∃ v', pouch_bufview_memcpy v (len p) = OK (p, v') ∧ pouch_bufview_available v' = 0.
Proof.
  intros I B ->. destruct (block_finish_stream_spec b id first last p I B) as (b' & E & [B' F]).
  pose proof (is_block_len _ _ _ B). pose proof MAX_BLOCK_PAYLOAD_SIZE_range.
  pose proof (is_block_bytes _ _ _ B') as Eb. pose proof (blk_wf _ _ _ B') as W.
  destruct (block_decode_hdr_frame b' id first last p W I ltac:(lia) F) as [D R].
  exists b', (view_at b' 3). split_and!; [done|done|by rewrite available_at, R by (done || lia)|].
  exists (view_at b' (3 + len p)). split.
  - apply (memcpy_next b' 3 p [] W); [lia|by rewrite app_nil_r|done].
  - rewrite available_at, len_rest by (done || lia). lia.
Qed.

(** The size field: finishing writes the big-endian count of the bytes that follow it and or-s the
    flags into the id byte; the payload and the fill level are untouched, and nothing is written
    outside the three header bytes. *)
Theorem finish_writes_header b i p id flags :
  is_block b i p →
  ∃ b', finish b id flags = OK b' ∧ bytes b' = bytes b ∧ cap b' = cap b ∧
    contents b' = sys_put_be16 (block_size_get b - 2)
      ++ byte_of_Z (Z.lor (Z_of_byte i) flags) :: p.
Proof.
  intros B. destruct (finish_spec b i p id flags B) as (b' & E & B' & F).
  exists b'. pose proof (is_block_bytes _ _ _ B) as E1. pose proof (is_block_bytes _ _ _ B') as E2.
  split_and!; [done|lia|by rewrite (blk_cap _ _ _ B), (blk_cap _ _ _ B')|].
  rewrite F. unfold frame, block_size_get, buf_size_get. do 2 f_equal. lia.
Qed.

End Block.

Module BlockWitness.
#[local] Existing Instances Native.byte_order Native.config_none.

(** A block of stream 5 that holds two bytes. *)
Definition ex_block : pouch_buf := PBuf 515 5 [x00; x00; x45; x61; x62].

Lemma ex_is_block : is_block ex_block (id_byte 5 true false) [x61; x62].
Proof. split; [split; done|done|]. by exists x00, x00. Qed.

Lemma block_header_roundtrip_witness :
  ∃ b' v, block_finish_stream ex_block 5 true = OK b' ∧
    block_decode_hdr (pouch_bufview_init b') = OK (BlockHdr 3 5 true true true, v) ∧
    pouch_bufview_available v = 2 ∧
    ∃ v', pouch_bufview_memcpy v 2 = OK ([x61; x62], v') ∧ pouch_bufview_available v' = 0.
Proof.
  apply (block_header_roundtrip ex_block (id_byte 5 true false) 5 true true [x61; x62]);
    [lia|apply ex_is_block|done].
Defined.

Lemma finish_writes_header_witness :
  ∃ b', finish ex_block 5 LAST_DATA_MASK = OK b' ∧ bytes b' = 5 ∧ cap b' = 515 ∧
    contents b' = [x00; x03; xc5; x61; x62].
Proof.
  pose proof (finish_writes_header ex_block _ _ 5 LAST_DATA_MASK ex_is_block) as H.
  vm_compute in H |- *. exact H.
Defined.
End BlockWitness.
