(* ===== verification/Crypto.v ===== *)
(** The encryption layer's interface (src/src/crypto.h), the header data it fills (src/src/header.cddl)
    and the plaintext implementation (src/src/crypto_none.c).

    The uplink and the downlink are proved against [Crypto] and [CryptoLaws]; crypto_none.c and
    crypto_saead.c are its two implementations. *)
From S2P Require Import Prelude Platform Buf Block.

(** saead/session.h, cert.h *)
Definition SESSION_ID_LEN : Z := 16.
Definition CERT_REF_SHORT_LEN : Z := 6.

(** * Header data *)

Inductive session_id_choice :=
| session_id_random (random : list byte)
| session_id_sequential (tag : list byte) (seq : Z).

Inductive initiator_choice := initiator_device | initiator_server.
Inductive algorithm_choice := aes_gcm | chacha20_poly1305.

Record session_info := SessionInfo {
  si_id : session_id_choice;
  si_initiator : initiator_choice;
  si_algorithm : algorithm_choice;
  si_max_block_size_log : Z;
  si_cert_ref : list byte;
}.

Inductive encryption_info :=
| plaintext_info (id : list byte)
| saead_info (session : session_info) (pouch_id : Z).

Record pouch_header := PouchHeader {
  version : Z;
  encryption_info_m : encryption_info;
}.

(** The zcbor-generated encoder and decoder of header.cddl. [None] is a failure; the decoder also
    returns how many bytes it consumed. *)
Class HeaderCodec := {
  cbor_encode_pouch_header : Z → pouch_header → option (list byte);
  cbor_decode_pouch_header : list byte → option (pouch_header * Z);
}.

(** What the program relies on: an encoding fits the space given, is read back whatever follows it,
    and none of its proper prefixes is a header; the decoder consumes bytes it was given. *)
Class HeaderCodecLaws {HC : HeaderCodec} : Prop := {
  encode_fits max h l : cbor_encode_pouch_header max h = Some l → 0 < len l ≤ max;
  decode_encode max h l k :
    cbor_encode_pouch_header max h = Some l →
    cbor_decode_pouch_header (l ++ k) = Some (h, len l);
  decode_prefix max h l p :
    cbor_encode_pouch_header max h = Some l → p `prefix_of` l → p ≠ l →
    cbor_decode_pouch_header p = None;
  decode_consumes l h n : cbor_decode_pouch_header l = Some (h, n) → 0 < n ≤ len l;
}.
Arguments HeaderCodecLaws : clear implicits.

(** * The interface *)

Class Crypto (C : Type) := {
  crypto_session_start : C → status * C;
  crypto_session_end : C → C;
  crypto_downlink_start : encryption_info → C → status * C;
  crypto_pouch_start : C → status * C;
  crypto_header_get : C → outcome (status * encryption_info);
  crypto_decrypt_block : option pouch_buf → st (heap * C) (option pouch_buf);
  crypto_encrypt_block : option pouch_buf → st (heap * C) (option pouch_buf);
}.

(** How many buffers a pointer owns. *)
Definition occ {A} (p : option A) : Z := match p with Some _ => 1 | None => 0 end.

(** A buffer the transport can send: well-formed, not empty, no longer than a ciphertext block. *)
Definition sendable `{Config} (b : pouch_buf) : Prop :=
  buf_wf b ∧ 0 < bytes b ≤ MAX_CIPHERTEXT_BLOCK_SIZE.

(** The heap counts [n] live buffers (the counter is a wrapping 32-bit integer). *)
Definition live (h : heap) (n : Z) : Prop := i32 (bufs h) = i32 n.

(** What the implementations promise: an invariant of their state that every call preserves; no call
    faults under it; encrypting or decrypting a block consumes it, may fail, and produces a block the
    next stage can take. *)
Class CryptoLaws (C : Type) `{Config, ByteOrder, Crypto C} := {
  crypto_inv : C → Prop;
  session_start_inv c : crypto_inv c → crypto_inv (crypto_session_start c).2;
  session_end_inv c : crypto_inv c → crypto_inv (crypto_session_end c);
  downlink_start_inv i c : crypto_inv c → crypto_inv (crypto_downlink_start i c).2;
  pouch_start_inv c : crypto_inv c → crypto_inv (crypto_pouch_start c).2;
  header_get_ok c : crypto_inv c → is_OK (crypto_header_get c);
  encrypt_spec b i p h c n : crypto_inv c → finished_block b i p → live h n →
    ∃ r h' c', crypto_encrypt_block (Some b) (h, c) = OK (r, (h', c'))
      ∧ crypto_inv c' ∧ malloc_ok h' = malloc_ok h ∧ live h' (n - 1 + occ r)
      ∧ (∀ e, r = Some e → sendable e);
  decrypt_spec b h c n : crypto_inv c → buf_wf b → 2 ≤ bytes b ≤ MAX_CIPHERTEXT_BLOCK_SIZE →
    live h n →
    ∃ r h' c', crypto_decrypt_block (Some b) (h, c) = OK (r, (h', c'))
      ∧ crypto_inv c' ∧ malloc_ok h' = malloc_ok h ∧ live h' (n - 1 + occ r)
      ∧ (∀ e, r = Some e → buf_wf e ∧ 2 ≤ bytes e ≤ MAX_CIPHERTEXT_BLOCK_SIZE);
}.

(** * Plaintext: crypto_none.c *)

Module CryptoNone.

Definition POUCH_DEVICE_ID_MAX_LEN : Z := 32.

(** The static [device_id]. *)
Definition state : Type := option (list byte).

Definition crypto_init (device_id : option (list byte)) (c : state) : status * state :=
  match device_id with
  | None => (NEG EINVAL, c)
  | Some id => if POUCH_DEVICE_ID_MAX_LEN <? strlen id then (NEG EINVAL, c) else (SUCCESS, Some id)
  end.

Definition crypto_session_start (c : state) : status * state := (SUCCESS, c).
Definition crypto_session_end (c : state) : state := c.

Definition crypto_downlink_start (info : encryption_info) (c : state) : status * state :=
  match info with
  | plaintext_info _ => (SUCCESS, c)
  | saead_info _ _ => (NEG ENOTSUP, c)
  end.

Definition crypto_pouch_start (c : state) : status * state := (SUCCESS, c).

Definition crypto_header_get (c : state) : outcome (status * encryption_info) :=
  device_id ← of_ptr c;
  OK (SUCCESS, plaintext_info (ztake (strlen device_id) device_id)).

Definition crypto_decrypt_block (block : option pouch_buf)
  : st (heap * state) (option pouch_buf) := mret block.
Definition crypto_encrypt_block (block : option pouch_buf)
  : st (heap * state) (option pouch_buf) := mret block.

#[export] Instance crypto_none : Crypto state := {|
  Crypto.crypto_session_start := crypto_session_start;
  Crypto.crypto_session_end := crypto_session_end;
  Crypto.crypto_downlink_start := crypto_downlink_start;
  Crypto.crypto_pouch_start := crypto_pouch_start;
  Crypto.crypto_header_get := crypto_header_get;
  Crypto.crypto_decrypt_block := crypto_decrypt_block;
  Crypto.crypto_encrypt_block := crypto_encrypt_block;
|}.

Definition inv (c : state) : Prop :=
  ∃ id, c = Some id ∧ strlen id ≤ POUCH_DEVICE_ID_MAX_LEN.

Section Laws.
Context {CF : Config} {BO : ByteOrder}.

Lemma finished_sendable b i p : finished_block b i p → sendable b.
Proof.
  intros [B _]. pose proof (is_block_bytes _ _ _ B). pose proof (is_block_len _ _ _ B).
  destruct B as [W _ _]. split; [done|]. pose proof MAX_CIPHERTEXT_range.
  unfold MAX_PLAINTEXT_BLOCK_SIZE, BLOCK_HEADER_SIZE in *. lia.
Qed.

#[export, refine] Instance crypto_none_laws : CryptoLaws state := {| crypto_inv := inv |}.
Proof.
  - done.
  - done.
  - by intros [].
  - done.
  - intros c (id & -> & _). by eexists.
  - intros b i p h c n I F L. do 3 eexists. split; [reflexivity|]. split_and!; try done.
    + by replace (n - 1 + occ (Some b)) with n by (simpl; lia).
    + intros e [= <-]. by eapply finished_sendable.
  - intros b h c n I W B L. do 3 eexists. split; [reflexivity|]. split_and!; try done.
    + by replace (n - 1 + occ (Some b)) with n by (simpl; lia).
    + by intros e [= <-].
Defined.
End Laws.

(** A successful [crypto_init] establishes the invariant, for a C string within the limit. *)
Lemma crypto_init_spec id c :
  crypto_init (Some id) c =
    (if POUCH_DEVICE_ID_MAX_LEN <? strlen id then (NEG EINVAL, c) else (SUCCESS, Some id)) ∧
  ((crypto_init (Some id) c).1 = SUCCESS → inv (crypto_init (Some id) c).2).
Proof.
  split; [done|]. simpl. destruct (Z.ltb_spec POUCH_DEVICE_ID_MAX_LEN (strlen id)); [done|].
  intros _. by exists id.
Qed.

End CryptoNone.

(** * A concrete codec

    CBOR of the headers of plaintext pouches, on which examples are evaluated. *)
Module NativeCodec.

Definition tstr (id : list byte) : list byte :=
  if len id <? 24 then byte_of_Z (0x60 + len id) :: id else x78 :: byte_of_Z (len id) :: id.

Definition encode (max : Z) (h : pouch_header) : option (list byte) :=
  match encryption_info_m h with
  | plaintext_info id =>
    let l := [x82; byte_of_Z (version h); x82; x00] ++ tstr id in
    if (0 <=? version h) && (version h <? 24) && (len id <? 256) && (len l <=? max)
    then Some l else None
  | saead_info _ _ => None
  end.

(** A text string of [n] bytes that starts at byte [o] of the header. *)
Definition decode_id (v : byte) (o n : Z) (l : list byte) : option (pouch_header * Z) :=
  if n <=? len l then Some (PouchHeader (Z_of_byte v) (plaintext_info (ztake n l)), o + n) else None.

Definition decode (l : list byte) : option (pouch_header * Z) :=
  match l with
  | x82 :: v :: x82 :: x00 :: t :: l =>
    if (0x60 <=? Z_of_byte t) && (Z_of_byte t <? 0x78)
    then decode_id v 5 (Z_of_byte t - 0x60) l
    else if Z_of_byte t =? 0x78 then
      match l with n :: l => decode_id v 6 (Z_of_byte n) l | [] => None end
    else None
  | _ => None
  end.

#[export] Instance codec : HeaderCodec :=
  {| cbor_encode_pouch_header := encode; cbor_decode_pouch_header := decode |}.

Lemma encode_inv max h l : encode max h = Some l →
  ∃ id, encryption_info_m h = plaintext_info id ∧ l = [x82; byte_of_Z (version h); x82; x00] ++ tstr id
    ∧ 0 ≤ version h < 24 ∧ len id < 256 ∧ len l ≤ max.
Proof.
  unfold encode. destruct (encryption_info_m h) as [id|]; [|done]. intros H.
  destruct (_ && _) eqn:E; simplify_eq. rewrite !andb_true_iff, !Z.leb_le, !Z.ltb_lt in E.
  exists id. split_and!; [done|done|lia..].
Qed.

Lemma decode_id_app v o id k :
  decode_id v o (len id) (id ++ k) = Some (PouchHeader (Z_of_byte v) (plaintext_info id), o + len id).
Proof.
  unfold decode_id. rewrite (proj2 (Z.leb_le _ _)) by solve_len.
  by rewrite take_app_exact by lia.
Qed.

Lemma decode_id_short v o id p k : p ++ k = id → k ≠ [] → decode_id v o (len id) p = None.
Proof.
  intros <- N. unfold decode_id. rewrite (proj2 (Z.leb_gt _ _)); [done|].
  destruct k; [done|]. solve_len.
Qed.

Lemma decode_tstr v id k :
  len id < 256 →
  decode ([x82; v; x82; x00] ++ tstr id ++ k) =
    Some (PouchHeader (Z_of_byte v) (plaintext_info id), len ([x82; v; x82; x00] ++ tstr id)).
Proof.
  intros L. unfold tstr. destruct (Z.ltb_spec (len id) 24); simpl.
  - rewrite !Z_of_byte_of_Z, !u8_small by lia.
    rewrite (proj2 (Z.leb_le _ _)), (proj2 (Z.ltb_lt _ _)) by lia. cbn [andb].
    replace (96 + len id - 96) with (len id) by lia. rewrite decode_id_app.
    do 2 f_equal. lia.
  - rewrite Z_of_byte_of_Z, u8_small by lia. change (Z_of_byte x78) with 120. simpl.
    rewrite decode_id_app. do 2 f_equal. lia.
Qed.

Lemma decode_tstr_prefix v id p k :
  len id < 256 → p ++ k = [x82; v; x82; x00] ++ tstr id → k ≠ [] → decode p = None.
Proof.
  intros L E N. do 4 (destruct p as [|? p]; [done|]; simpl in E; injection E as -> E).
  unfold tstr in E. destruct (Z.ltb_spec (len id) 24).
  - destruct p as [|t p]; [done|]. injection E as -> E. unfold decode.
    rewrite !Z_of_byte_of_Z, !u8_small by lia.
    rewrite (proj2 (Z.leb_le _ _)), (proj2 (Z.ltb_lt _ _)) by lia. cbn [andb].
    replace (96 + len id - 96) with (len id) by lia. by apply (decode_id_short _ _ _ _ k).
  - destruct p as [|t p]; [done|]. injection E as -> E. unfold decode.
    change (Z_of_byte x78) with 120. simpl.
    destruct p as [|n p]; [done|]. injection E as -> E.
    rewrite Z_of_byte_of_Z, u8_small by lia. by apply (decode_id_short _ _ _ _ k).
Qed.

Lemma decode_id_bounds v o n l h m :
  0 ≤ n → decode_id v o n l = Some (h, m) → m = o + n ∧ n ≤ len l.
Proof. unfold decode_id. destruct (Z.leb_spec n (len l)); intros ? [= <- <-]; lia. Qed.

Lemma decode_bounds l h n : decode l = Some (h, n) → 0 < n ≤ len l.
Proof.
  destruct l as [|b0 [|v [|b2 [|b3 [|t l]]]]]; try done;
    destruct b0; try done; destruct b2; try done; destruct b3; try done.
  unfold decode. destruct (_ && _) eqn:E.
  - rewrite andb_true_iff, Z.leb_le, Z.ltb_lt in E. intros D%decode_id_bounds; simpl; lia.
  - destruct (_ =? _); [|done]. destruct l as [|m l]; [done|]. pose proof (Z_of_byte_range m).
    intros D%decode_id_bounds; simpl; lia.
Qed.

#[export] Instance codec_laws : HeaderCodecLaws codec.
Proof.
  split; simpl.
  - intros max h l (id & _ & -> & _ & _ & M)%encode_inv. split; [|done]. simpl. lia.
  - intros max [v info] l k (id & Ei & -> & V & L & M)%encode_inv. simpl in Ei, V. subst info.
    rewrite <- app_assoc, decode_tstr by done. by rewrite Z_of_byte_of_Z, u8_small by (simpl; lia).
  - intros max h l p (id & _ & -> & _ & L & _)%encode_inv [k E] N.
    apply (decode_tstr_prefix (byte_of_Z (version h)) id p k); [done..|]. intros ->.
    rewrite app_nil_r in E. congruence.
  - intros l h n. apply decode_bounds.
Qed.
End NativeCodec.
