(* ===== verification/State.v ===== *)
(** The program's static variables, as one record, and the two functions of uplink.c that the entry
    and stream writers call ([uplink_enqueue], [uplink_session_id]).

    Every [static] of entry.c, stream.c, uplink.c, downlink.c and pouch.c is a field here; the state
    of the encryption layer is the type parameter [C]. *)
From S2P Require Import Prelude Platform Buf Block Crypto.

(** Events: include/pouch/events.h *)
Inductive pouch_event := POUCH_EVENT_SESSION_START | POUCH_EVENT_SESSION_END.

#[export] Instance pouch_event_eq_dec : EqDecision pouch_event.
Proof. solve_decision. Defined.

(** uplink.c: bits of [flags] *)
Definition SESSION_ACTIVE : Z := 0.
Definition POUCH_CLOSING : Z := 1.
Definition POUCH_CLOSED : Z := 2.

Section State.
Context {SL : SList} {KW : KWork} {MQ : MsgQ} {C : Type}.

Record pouch_uplink := Uplink {
  u_header : option pouch_buf;
  u_flags : Z;
  u_id : Z;
  u_error : Z;
  u_processing_queue : pouch_buf_queue_t;
  u_processing_work : k_work;
  u_transport_queue : pouch_buf_queue_t;
  u_transport_reader : pouch_bufview;
}.

(** stream.c *)
Record stream_statics := StreamStatics { stream_id : Z; open_streams : Z }.

(** downlink.c *)
Record downlink_statics := DownlinkStatics {
  d_pouch_buf : option pouch_buf;
  d_pouch_header : bool;
  d_decrypt_queue : pouch_buf_queue_t;
  d_decrypt_work : k_work;
  d_consume_queue : pouch_buf_queue_t;
  d_consume_work : k_work;
}.

(** pouch.c *)
Record event_statics := EventStatics { pouch_event_q : msgq pouch_event; event_work : k_work }.

Record sys := Sys {
  s_heap : heap;
  s_block : option pouch_buf;
  s_stream : stream_statics;
  s_uplink : pouch_uplink;
  s_downlink : downlink_statics;
  s_events : event_statics;
  s_crypto : C;
}.

Definition set_heap h (s : sys) : sys :=
  Sys h (s_block s) (s_stream s) (s_uplink s) (s_downlink s) (s_events s) (s_crypto s).
Definition set_block b (s : sys) : sys :=
  Sys (s_heap s) b (s_stream s) (s_uplink s) (s_downlink s) (s_events s) (s_crypto s).
Definition set_stream x (s : sys) : sys :=
  Sys (s_heap s) (s_block s) x (s_uplink s) (s_downlink s) (s_events s) (s_crypto s).
Definition set_uplink u (s : sys) : sys :=
  Sys (s_heap s) (s_block s) (s_stream s) u (s_downlink s) (s_events s) (s_crypto s).
Definition set_downlink d (s : sys) : sys :=
  Sys (s_heap s) (s_block s) (s_stream s) (s_uplink s) d (s_events s) (s_crypto s).
Definition set_events e (s : sys) : sys :=
  Sys (s_heap s) (s_block s) (s_stream s) (s_uplink s) (s_downlink s) e (s_crypto s).
Definition set_crypto c (s : sys) : sys :=
  Sys (s_heap s) (s_block s) (s_stream s) (s_uplink s) (s_downlink s) (s_events s) c.

#[export, refine] Instance sys_heap : Part sys heap := {| part_get := s_heap; part_set := set_heap |}.
Proof. done. Defined.
#[export, refine] Instance sys_uplink : Part sys pouch_uplink :=
  {| part_get := s_uplink; part_set := set_uplink |}.
Proof. done. Defined.
#[export, refine] Instance sys_downlink : Part sys downlink_statics :=
  {| part_get := s_downlink; part_set := set_downlink |}.
Proof. done. Defined.
#[export, refine] Instance sys_events : Part sys event_statics :=
  {| part_get := s_events; part_set := set_events |}.
Proof. done. Defined.
#[export, refine] Instance sys_stream : Part sys stream_statics :=
  {| part_get := s_stream; part_set := set_stream |}.
Proof. done. Defined.
#[export, refine] Instance sys_heap_crypto : Part sys (heap * C) :=
  {| part_get s := (s_heap s, s_crypto s); part_set hc s := set_crypto hc.2 (set_heap hc.1 s) |}.
Proof. by intros []. Defined.

(** Setters of [pouch_uplink]. *)
Definition set_u_header x (u : pouch_uplink) : pouch_uplink :=
  Uplink x (u_flags u) (u_id u) (u_error u) (u_processing_queue u) (u_processing_work u)
    (u_transport_queue u) (u_transport_reader u).
Definition set_u_flags x (u : pouch_uplink) : pouch_uplink :=
  Uplink (u_header u) x (u_id u) (u_error u) (u_processing_queue u) (u_processing_work u)
    (u_transport_queue u) (u_transport_reader u).
Definition set_u_id x (u : pouch_uplink) : pouch_uplink :=
  Uplink (u_header u) (u_flags u) x (u_error u) (u_processing_queue u) (u_processing_work u)
    (u_transport_queue u) (u_transport_reader u).
Definition set_u_processing_queue x (u : pouch_uplink) : pouch_uplink :=
  Uplink (u_header u) (u_flags u) (u_id u) (u_error u) x (u_processing_work u)
    (u_transport_queue u) (u_transport_reader u).
Definition set_u_processing_work x (u : pouch_uplink) : pouch_uplink :=
  Uplink (u_header u) (u_flags u) (u_id u) (u_error u) (u_processing_queue u) x
    (u_transport_queue u) (u_transport_reader u).
Definition set_u_transport_queue x (u : pouch_uplink) : pouch_uplink :=
  Uplink (u_header u) (u_flags u) (u_id u) (u_error u) (u_processing_queue u)
    (u_processing_work u) x (u_transport_reader u).
Definition set_u_transport_reader x (u : pouch_uplink) : pouch_uplink :=
  Uplink (u_header u) (u_flags u) (u_id u) (u_error u) (u_processing_queue u)
    (u_processing_work u) (u_transport_queue u) x.

(** * Shared with the writers: uplink.c *)

Definition uplink_enqueue (block : pouch_buf) : st sys unit :=
  zoom (
    modify (λ u, set_u_processing_queue (buf_queue_submit (u_processing_queue u) block) u);;
    modify (λ u, set_u_processing_work (k_work_submit (u_processing_work u)) u)).

Definition uplink_session_id : st sys Z := gets (λ s, u32 (u_id (s_uplink s))).

(** The blocks waiting to be processed. *)
Definition pending (s : sys) : list pouch_buf := elems (u_processing_queue (s_uplink s)).

(** The state after a block is enqueued. *)
Definition enqueued (b : pouch_buf) (s : sys) : sys :=
  set_uplink
    (set_u_processing_work (k_work_submit (u_processing_work (s_uplink s)))
       (set_u_processing_queue (buf_queue_submit (u_processing_queue (s_uplink s)) b)
          (s_uplink s))) s.

Lemma uplink_enqueue_run b s : uplink_enqueue b s = OK (tt, enqueued b s).
Proof. done. Qed.

Lemma pending_enqueued b s : pending (enqueued b s) = pending s ++ [b].
Proof. apply elems_submit. Qed.

Lemma enqueued_submits b s : k_work_queued (u_processing_work (s_uplink (enqueued b s))) = true.
Proof. apply k_work_submit_spec. Qed.

(** * Buffer ownership *)

(** Buffers reachable from the static variables; the open streams own one each besides. *)
Definition owned (s : sys) : Z :=
  occ (s_block s) + len (pending s)
  + occ (u_header (s_uplink s)) + len (elems (u_transport_queue (s_uplink s)))
  + occ (v_buf (u_transport_reader (s_uplink s)))
  + occ (d_pouch_buf (s_downlink s)) + len (elems (d_decrypt_queue (s_downlink s)))
  + len (elems (d_consume_queue (s_downlink s))).

(** The count of live buffers is exactly what the statics own and [k] held elsewhere: nothing is
    leaked and nothing is freed twice. *)
Definition balanced (s : sys) (k : Z) : Prop := live (s_heap s) (owned s + k).

(** Nothing but the writers' variables changed: the heap, the static block, the stream counters and
    the queue of blocks to process. *)
Record writer_frame (s s' : sys) : Prop := {
  wf_downlink : s_downlink s' = s_downlink s;
  wf_events : s_events s' = s_events s;
  wf_crypto : s_crypto s' = s_crypto s;
  wf_malloc : malloc_ok (s_heap s') = malloc_ok (s_heap s);
  wf_uplink : ∃ q w, s_uplink s' = set_u_processing_work w (set_u_processing_queue q (s_uplink s));
}.

#[export] Instance writer_frame_refl : Reflexive writer_frame.
Proof.
  intros s. split; try done. exists (u_processing_queue (s_uplink s)),
    (u_processing_work (s_uplink s)). by destruct s as [? ? ? [] ? ? ?].
Qed.

#[export] Instance writer_frame_trans : Transitive writer_frame.
Proof.
  intros s1 s2 s3 [? ? ? ? (q & w & E)] [? ? ? ? (q' & w' & E')].
  split; try congruence. exists q', w'. by rewrite E', E.
Qed.

(** What the writers do to ownership depends only on the block and the queue. *)
Lemma owned_writer s s' :
  writer_frame s s' →
  owned s' = owned s + (occ (s_block s') - occ (s_block s)) + (len (pending s') - len (pending s)).
Proof.
  intros [Ed _ _ _ (q & w & Eu)]. unfold owned. rewrite Ed, Eu. simpl. lia.
Qed.

Lemma owned_set_heap h s : owned (set_heap h s) = owned s.
Proof. done. Qed.
Lemma owned_set_block b s : owned (set_block b s) = owned s - occ (s_block s) + occ b.
Proof. unfold owned, pending; simpl. lia. Qed.
Lemma owned_set_stream x s : owned (set_stream x s) = owned s.
Proof. done. Qed.
Lemma owned_set_events x s : owned (set_events x s) = owned s.
Proof. done. Qed.
Lemma owned_set_crypto x s : owned (set_crypto x s) = owned s.
Proof. done. Qed.
Lemma owned_enqueued b s : owned (enqueued b s) = owned s + 1.
Proof. unfold owned. rewrite pending_enqueued, length_app. simpl. lia. Qed.

Lemma enqueued_frame b s : writer_frame s (enqueued b s).
Proof. by split; eauto. Qed.

Lemma set_heap_frame h s : malloc_ok h = malloc_ok (s_heap s) → writer_frame s (set_heap h s).
Proof.
  intros. split; try done. exists (u_processing_queue (s_uplink s)),
    (u_processing_work (s_uplink s)). by destruct s as [? ? ? [] ? ? ?].
Qed.

Lemma set_block_frame b s : writer_frame s (set_block b s).
Proof.
  split; try done. exists (u_processing_queue (s_uplink s)),
    (u_processing_work (s_uplink s)). by destruct s as [? ? ? [] ? ? ?].
Qed.

Lemma set_stream_frame b s : writer_frame s (set_stream b s).
Proof.
  split; try done. exists (u_processing_queue (s_uplink s)),
    (u_processing_work (s_uplink s)). by destruct s as [? ? ? [] ? ? ?].
Qed.

End State.

Create Rewrite HintDb owned.
#[export] Hint Rewrite @owned_set_heap @owned_set_block @owned_set_stream @owned_set_events
  @owned_set_crypto @owned_enqueued : owned.

Create HintDb frame.
#[export] Hint Resolve enqueued_frame set_heap_frame set_block_frame set_stream_frame : frame.

Lemma live_eq h n m : live h n → n = m → live h m.
Proof. by intros ? <-. Qed.

(** The count after some steps, from the count before them. *)
Ltac solve_balanced :=
  unfold balanced in *; autorewrite with owned; cbn [s_heap s_block set_heap set_block set_stream
    set_uplink set_events set_crypto enqueued occ] in *;
  repeat match goal with H : s_block _ = _ |- _ => rewrite H in *; clear H end; cbn [occ];
  eapply live_eq; [eassumption|lia].

Lemma live_step h n d : live h n → i32 (i32 (bufs h) + d) = i32 (n + d).
Proof. unfold live. intros ->. apply i32_add_l. Qed.

Lemma live_alloc h ok k n : live h n → live (Heap ok k (i32 (bufs h + 1))) (n + 1).
Proof.
  intros L. unfold live; simpl. rewrite <- (live_step h n 1 L), i32_add_l.
  rewrite (i32_small (i32 _)) by apply i32_range. done.
Qed.

Lemma live_free h n : live h n → live (set_bufs (i32 (bufs h - 1)) h) (n - 1).
Proof.
  intros L. unfold live; simpl. change (n - 1) with (n + -1).
  rewrite <- (live_step h n (-1) L), i32_add_l.
  rewrite (i32_small (i32 _)) by apply i32_range. done.
Qed.

Lemma live_keep h ok k n : live h n → live (Heap ok k (bufs h)) n.
Proof. done. Qed.

Arguments sys {_ _ _} C.

(** The statics as the program starts: zeroed, and the counters at their initial values. *)
Definition boot `{SList, KWork, MsgQ} {C} (h : heap) (event_queue_depth : nat) (c : C) : sys C :=
  Sys h None (StreamStatics 1 0)
    (Uplink None 0 0 0 sys_slist_init k_work_init sys_slist_init (BufView None 0))
    (DownlinkStatics None false sys_slist_init k_work_init sys_slist_init k_work_init)
    (EventStatics (k_msgq_init event_queue_depth) k_work_init) c.
