(* ===== verification/Entry.v ===== *)
(** Entries: src/src/entry.c.

    [Writer] is the uplink side: entries are packed into a block (the static [block]) that is
    enqueued when the next entry does not fit. [Parser] is the downlink side: decrypted blocks are
    parsed and every registered handler is called. *)
From S2P Require Import Prelude Platform Buf Block Crypto State.

(** * The wire format of an entry *)

Record pouch_entry := Entry {
  path : list byte;
  content_type : Z;
  data_len : Z;
  data : list byte;
}.

Definition ENTRY_HEADER_OVERHEAD : Z := 5.

Section Writer.
Context {BO : ByteOrder} {SL : SList} {KW : KWork} {MQ : MsgQ} {CF : Config} {C : Type}.

Definition write_entry (block : pouch_buf) (entry : pouch_entry)
    : outcome (status * pouch_buf) :=
  let pathlen := strlen (path entry) in
  if block_space_get block <? u32 (ENTRY_HEADER_OVERHEAD + pathlen + data_len entry) then
    OK (NEG ENOMEM, block)
  else
    let '(p, block) := buf_claim block 2 in
    block ← mem_write p (sys_put_be16 (u16 (data_len entry))) block;
    let '(p, block) := buf_claim block 2 in
    block ← mem_write p (sys_put_be16 (u16 (content_type entry))) block;
    let '(p, block) := buf_claim block 1 in
    block ← mem_write p [byte_of_Z pathlen] block;
    d ← load (path entry) pathlen;
    block ← buf_write block d;
    d ← load (data entry) (data_len entry);
    block ← buf_write block d;
    OK (SUCCESS, block).

(** [lock] is what [k_mutex_lock] returned. *)
Definition pouch_uplink_entry_write (path data : option (list byte)) (content_type n : Z)
    (lock : status) : st (sys C) status :=
  match path, data with
  | Some path, Some data =>
    if n =? 0 then mret (NEG EINVAL) else
    match lock with
    | Some e => mret (NEG e)
    | None =>
      let entry := Entry path content_type n data in
      block ← gets s_block;
      block_is_new ←
        (match block with
         | None => block ← zoom block_alloc; modify (set_block block);; mret true
         | Some _ => mret false
         end : st (sys C) bool);
      block ← gets s_block;
      match block with
      | None => mret (NEG ENOMEM)
      | Some block =>
        '(err, block) ← lift (write_entry block entry);
        modify (set_block (Some block));;
        if bool_decide (err ≠ SUCCESS) && negb block_is_new then
          block ← lift (block_finish block);
          uplink_enqueue block;;
          block ← zoom block_alloc;
          modify (set_block block);;
          match block with
          | None => mret (NEG ENOMEM)
          | Some block =>
            '(err, block) ← lift (write_entry block entry);
            modify (set_block (Some block));;
            mret err
          end
        else mret err
      end
    end
  | _, _ => mret (NEG EINVAL)
  end.

Definition entry_block_close (lock : status) : st (sys C) status :=
  match lock with
  | Some e => mret (NEG e)
  | None =>
    block ← gets s_block;
    match block with
    | Some block =>
      if 0 <? block_size_get block then
        block ← lift (block_finish block);
        uplink_enqueue block;;
        modify (set_block None);;
        mret SUCCESS
      else mret SUCCESS
    | None => mret SUCCESS
    end
  end.

End Writer.

(** * Parsing *)

(** A registered handler of type [pouch_downlink_handler] acts on the application's state [A]. The
    data pointer is [None] when NULL is passed. *)
Record pouch_downlink_handler (A : Type) := Handler {
  start_cb : Z → list byte → Z → A → A;
  data_cb : Z → option (list byte) → Z → bool → A → A;
}.
Arguments Handler {A}.
Arguments start_cb {A}.
Arguments data_cb {A}.

Section Parser.
Context {BO : ByteOrder} {CF : Config} {A : Type} (handlers : list (pouch_downlink_handler A)).

Definition downlink_start (stream_id : Z) (path : list byte) (content_type : Z) (a : A) : A :=
  foldl (λ a h, start_cb h stream_id path content_type a) a handlers.

Definition downlink_data (stream_id : Z) (data : option (list byte)) (n : Z) (is_last : bool)
    (a : A) : A :=
  foldl (λ a h, data_cb h stream_id data n is_last a) a handlers.

(** What a pointer returned by [pouch_bufview_read] reaches. Copying through NULL faults. *)
Definition deref (v : pouch_bufview) (p : option Z) (n : Z) : outcome (list byte) :=
  p ← of_ptr p;
  view_load v p n.

Definition deref_data (v : pouch_bufview) (p : option Z) (n : Z) : outcome (option (list byte)) :=
  match p with
  | None => OK None
  | Some p => d ← view_load v p n; OK (Some d)
  end.

(** One pass of the loop of [pouch_downlink_entries_push]. *)
Definition entries_push_one (v : pouch_bufview) (a : A) : outcome (pouch_bufview * A) :=
  '(data_len, v) ← pouch_bufview_read_be16 v;
  '(content_type, v) ← pouch_bufview_read_be16 v;
  '(path_len, v) ← pouch_bufview_read_byte v;
  '(path, v) ← pouch_bufview_read v path_len;
  '(data, v) ← pouch_bufview_read v data_len;
  path_null_term ← deref v path path_len;
  let a := downlink_start 0 path_null_term content_type a in
  d ← deref_data v data data_len;
  OK (v, downlink_data 0 d data_len true a).

(** The loop, with fuel; running out of it is reported as a fault. *)
Fixpoint entries_push (fuel : nat) (v : pouch_bufview) (a : A) : outcome (pouch_bufview * A) :=
  if pouch_bufview_available v =? 0 then OK (v, a) else
  match fuel with
  | O => Fault
  | S fuel => '(v, a) ← entries_push_one v a; entries_push fuel v a
  end.

(** Every pass reads at least five bytes of the buffer, so as many passes as it has bytes are
    enough. *)
Definition view_fuel (v : pouch_bufview) : nat :=
  match v_buf v with Some b => S (length (mem b)) | None => 1 end.

Definition pouch_downlink_entries_push (v : pouch_bufview) (a : A) : outcome A :=
  '(_, a) ← entries_push (view_fuel v) v a; OK a.

Definition pouch_downlink_stream_push (v : pouch_bufview) (stream_id : Z) (is_first is_last : bool)
    (a : A) : outcome A :=
  '(v, a) ←
    (if is_first then
       '(content_type, v) ← pouch_bufview_read_be16 v;
       '(path_len, v) ← pouch_bufview_read_byte v;
       '(path, v) ← pouch_bufview_read v path_len;
       path_null_term ← deref v path path_len;
       OK (v, downlink_start stream_id path_null_term content_type a)
     else OK (v, a));
  let data_len := u16 (pouch_bufview_available v) in
  '(data, v) ← pouch_bufview_read v data_len;
  d ← deref_data v data data_len;
  OK (downlink_data stream_id d data_len is_last a).

Definition pouch_downlink_block_push (buf : pouch_buf) (a : A) : outcome A :=
  '(h, v) ← block_decode_hdr (pouch_bufview_init buf);
  if hdr_is_stream h then
    pouch_downlink_stream_push v (hdr_stream_id h) (hdr_is_first h) (hdr_is_last h) a
  else pouch_downlink_entries_push v a.

End Parser.

(** * What the writer appends *)

(** The bytes of an entry. *)
Definition entry_bytes `{ByteOrder} (e : pouch_entry) : list byte :=
  sys_put_be16 (u16 (data_len e)) ++ sys_put_be16 (u16 (content_type e)) ++
  [byte_of_Z (len (path e))] ++ path e ++ data e.

Definition entry_size (e : pouch_entry) : Z :=
  ENTRY_HEADER_OVERHEAD + len (path e) + len (data e).

(** What the C types and the caller's contract give: [path] is a C string, [data] points to
    [data_len] bytes, and the sizes are those of objects in memory. *)
Record entry_wf (e : pouch_entry) : Prop := {
  ewf_path : no_nul (path e);
  ewf_len : data_len e = len (data e);
  ewf_small : entry_size e < 4294967296;
}.

(** What the format can carry besides: the path length is one byte. *)
Definition entry_representable (e : pouch_entry) : Prop :=
  entry_wf e ∧ len (path e) < 256 ∧ len (data e) < 65536 ∧ 0 ≤ content_type e < 65536.

Section WriterLemmas.
Context {BO : ByteOrder} {SL : SList} {KW : KWork} {MQ : MsgQ} {CF : Config} {C : Type}.
Implicit Types (b : pouch_buf) (e : pouch_entry) (s : sys C).

Lemma len_entry_bytes e : len (entry_bytes e) = entry_size e.
Proof.
  unfold entry_bytes, entry_size, ENTRY_HEADER_OVERHEAD.
  pose proof (len_put_be16 _ (u16_range (data_len e))).
  pose proof (len_put_be16 _ (u16_range (content_type e))). solve_len.
Qed.

Lemma write_entry_no_space b i p e :
  is_block b i p → entry_wf e → MAX_BLOCK_PAYLOAD_SIZE < len p + entry_size e →
  write_entry b e = OK (NEG ENOMEM, b).
Proof.
  intros B [N L S] F. unfold write_entry. rewrite (block_space_get_spec b i p B).
  rewrite strlen_no_nul, L by done. unfold entry_size in *.
  pose proof (is_block_len _ _ _ B). rewrite u32_small by (unfold ENTRY_HEADER_OVERHEAD in *; lia).
  rewrite (proj2 (Z.ltb_lt _ _)); [done|lia].
Qed.

Lemma write_entry_fits b i p e :
  is_block b i p → entry_wf e → len p + entry_size e ≤ MAX_BLOCK_PAYLOAD_SIZE →
  ∃ b', write_entry b e = OK (SUCCESS, b') ∧ is_block b' i (p ++ entry_bytes e).
Proof.
  intros B [N L S] F. unfold write_entry. rewrite (block_space_get_spec b i p B).
  rewrite strlen_no_nul, L by done.
  pose proof (len_put_be16 _ (u16_range (len (data e)))) as L1.
  pose proof (len_put_be16 _ (u16_range (content_type e))) as L2.
  unfold entry_size, ENTRY_HEADER_OVERHEAD in *.
  rewrite u32_small by lia. rewrite (proj2 (Z.ltb_ge _ _)) by lia.
  unfold buf_claim; cbn beta iota.
  edestruct (block_claim_write b i p 2 (sys_put_be16 (u16 (len (data e)))) B) as [-> B1]; [lia..|].
  rewrite bind_OK.
  edestruct (block_claim_write _ _ _ 2 (sys_put_be16 (u16 (content_type e))) B1) as [-> B2];
    [lia|solve_len|]. rewrite bind_OK.
  edestruct (block_claim_write _ _ _ 1 [byte_of_Z (len (path e))] B2) as [-> B3];
    [done|solve_len|]. rewrite bind_OK, (load_all (path e)), bind_OK.
  edestruct (block_write _ _ _ (path e) B3) as [-> B4]; [solve_len|].
  rewrite bind_OK, load_all, bind_OK.
  edestruct (block_write _ _ _ (data e) B4) as [-> B5]; [solve_len|].
  rewrite bind_OK. eexists. split; [done|].
  unfold entry_bytes. rewrite L. by rewrite <- !app_assoc in B5.
Qed.

(** * The log of accepted entries *)

(** A block that holds the entries [es], under construction or finished. *)
Definition holds b (es : list pouch_entry) : Prop :=
  is_block b (id_byte 0 true true) (concat (map entry_bytes es)).

Definition holds_finished b (es : list pouch_entry) : Prop :=
  finished_block b (id_byte 0 true true) (concat (map entry_bytes es)).

Definition current s (es : list pouch_entry) : Prop :=
  match s_block s with None => es = [] | Some b => holds b es end.

(** The blocks enqueued after [base] hold the entries [es]. *)
Definition flushed (base : list pouch_buf) s (es : list pouch_entry) : Prop :=
  ∃ bs groups, pending s = base ++ bs ∧ Forall2 holds_finished bs groups ∧ concat groups = es.

(** Abstract view of the writer: since the pending queue was [base], the entries [log] were
    accepted, in this order; they sit unsplit in the blocks enqueued since then and in the current
    block. *)
Definition entry_log (base : list pouch_buf) s (log : list pouch_entry) : Prop :=
  ∃ es cur, flushed base s es ∧ current s cur ∧ es ++ cur = log.

Lemma entry_log_start s : s_block s = None → entry_log (pending s) s [].
Proof.
  intros E. exists [], []. unfold current; rewrite E. split_and!; try done.
  exists [], []. by rewrite app_nil_r.
Qed.

Lemma holds_app b' es e :
  is_block b' (id_byte 0 true true) (concat (map entry_bytes es) ++ entry_bytes e) →
  holds b' (es ++ [e]).
Proof. unfold holds. rewrite map_app, concat_app. simpl. by rewrite app_nil_r. Qed.

Lemma holds_finish b es : holds b es →
  ∃ b', block_finish b = OK b' ∧ holds_finished b' es.
Proof. apply block_finish_spec. Qed.

Lemma flushed_enqueued base s es b cur :
  flushed base s es → holds_finished b cur → flushed base (enqueued b s) (es ++ cur).
Proof.
  intros (bs & gs & E & F & <-) H. exists (bs ++ [b]), (gs ++ [cur]). split_and!.
  - by rewrite pending_enqueued, E, app_assoc.
  - by apply Forall2_app; [|constructor].
  - rewrite concat_app. simpl. by rewrite app_nil_r.
Qed.

(** The write of one entry to a block that holds [es]. *)
Lemma write_entry_spec b es e :
  holds b es → entry_wf e →
  ∃ r b', write_entry b e = OK (r, b') ∧
    (r = SUCCESS ∧ holds b' (es ++ [e]) ∧ entry_size e ≤ MAX_BLOCK_PAYLOAD_SIZE
     ∨ r = NEG ENOMEM ∧ b' = b
       ∧ MAX_BLOCK_PAYLOAD_SIZE < len (concat (map entry_bytes es)) + entry_size e).
Proof.
  intros B W. destruct (Z.le_gt_cases
    (len (concat (map entry_bytes es)) + entry_size e) MAX_BLOCK_PAYLOAD_SIZE).
  - destruct (write_entry_fits _ _ _ _ B W) as (b' & E & B'); [done|].
    exists SUCCESS, b'. split; [done|]. left. split_and!; [done|by apply holds_app|lia].
  - exists (NEG ENOMEM), b. split; [apply (write_entry_no_space _ _ _ _ B W); lia|]. right. split_and!; [done..|lia].
Qed.

(** The allocation of a block for entries. *)
Lemma zoom_block_alloc s :
  ∃ r h, zoom block_alloc s = OK (r, set_heap h s)
    ∧ malloc_ok h = malloc_ok (s_heap s)
    ∧ (∀ k, balanced s k → live h (owned s + k + occ r))
    ∧ (r = None → malloc_ok (s_heap s) (malloc_n (s_heap s)) = false)
    ∧ (∀ b, r = Some b → holds b []).
Proof.
  unfold zoom; simpl part_get. pose proof (block_alloc_spec (s_heap s)) as A.
  destruct (malloc_ok _ _).
  - destruct A as (b & -> & B). do 2 eexists. split; [reflexivity|].
    split_and!; [done| |done|by intros ? [= <-]]. intros k L. by apply live_alloc.
  - rewrite A. do 2 eexists. split; [reflexivity|]. split_and!; [done| |done..].
    intros k L. eapply live_eq; [by apply live_keep|simpl; lia].
Qed.

(** What one call does to the writer's state, given its result [r]. *)
Record wrote (base : list pouch_buf) s s' (log : list pouch_entry) : Prop := {
  wr_log : entry_log base s' log;
  wr_frame : writer_frame s s';
  wr_balanced k : balanced s k → balanced s' k;
  wr_stream : s_stream s' = s_stream s;
}.

(** How an entry is judged: it is refused for lack of memory or because no block can hold it. *)
Record verdict s e (r : status) : Prop := {
  vd_result : r = SUCCESS ∨ r = NEG ENOMEM;
  vd_size : r = SUCCESS → entry_size e ≤ MAX_BLOCK_PAYLOAD_SIZE;
  vd_success : malloc_never_fails (s_heap s) → entry_size e ≤ MAX_BLOCK_PAYLOAD_SIZE → r = SUCCESS;
}.

Definition accepted (r : status) e : list pouch_entry := if decide (r = SUCCESS) then [e] else [].

(** Writing to an empty block. *)
Lemma fresh_write b e :
  holds b [] → entry_wf e →
  ∃ r b', write_entry b e = OK (r, b') ∧ holds b' (accepted r e) ∧ ∀ s, verdict s e r.
Proof.
  intros B W. destruct (write_entry_spec b [] e B W) as (r & b' & E & H).
  exists r, b'. split; [done|]. destruct H as [(-> & H & L)|(-> & -> & L)].
  - split; [done|]. intros s. split; auto.
  - split; [done|]. intros s. split; [by right|done|]. simpl in L. lia.
Qed.

(** The second half of a write: the current block was full, it is sent and the entry goes to a new
    one. *)
Lemma retry_write base s b es cur e :
  s_block s = Some b → flushed base s es → holds b cur → entry_wf e →
  ∃ r s',
    (block ← lift (block_finish b);
     uplink_enqueue block;;
     block ← zoom block_alloc;
     modify (set_block block);;
     match block with
     | None => mret (NEG ENOMEM)
     | Some block =>
       '(err, block) ← lift (write_entry block e);
       modify (set_block (Some block));;
       mret err
     end) s = OK (r, s')
    ∧ wrote base s s' ((es ++ cur) ++ accepted r e) ∧ verdict s e r.
Proof.
  intros E F H W. destruct (holds_finish _ _ H) as (fb & Ef & Hf).
  rewrite (st_bind_OK _ _ s fb s) by (unfold lift; by rewrite Ef).
  rewrite (st_bind_OK _ _ _ _ _ (uplink_enqueue_run fb s)).
  destruct (zoom_block_alloc (enqueued fb s)) as (r & h & Ea & Em & Hl & Hn & Hr).
  rewrite (st_bind_OK _ _ _ _ _ Ea). run_st.
  pose proof (flushed_enqueued _ _ _ _ _ F Hf) as F'.
  assert (∀ k, balanced s k → live h (owned s + k + occ r)) as Hk.
  { intros k L. eapply live_eq; [apply (Hl (k - 1))|]; [|rewrite owned_enqueued; lia].
    solve_balanced. }
  destruct r as [b2|].
  - destruct (fresh_write b2 e) as (r & b3 & -> & Hw & V); [by apply Hr|done|].
    do 2 eexists. split; [reflexivity|]. split; [|by apply V]. split.
    + exists (es ++ cur), (accepted r e). by split_and!.
    + etrans; [apply enqueued_frame|]. etrans; [by apply (set_heap_frame h)|].
      etrans; apply set_block_frame.
    + intros k L. specialize (Hk k L). solve_balanced.
    + done.
  - do 2 eexists. split; [reflexivity|]. split; split.
    + exists (es ++ cur), []. by split_and!.
    + etrans; [apply enqueued_frame|]. etrans; [by apply (set_heap_frame h)|].
      apply set_block_frame.
    + intros k L. specialize (Hk k L). solve_balanced.
    + done.
    + by right.
    + done.
    + intros A _. specialize (Hn eq_refl). simpl in Hn. by rewrite A in Hn.
Qed.

(** The path is passed as a C string. *)
Lemma entry_write_cstr p d ct n lock s :
  pouch_uplink_entry_write (Some p) d ct n lock s = pouch_uplink_entry_write (Some (cstr p)) d ct n lock s.
Proof.
  assert (∀ b d, write_entry b (Entry p ct n d) = write_entry b (Entry (cstr p) ct n d)) as E.
  { intros b d'. unfold write_entry. cbn [path data_len content_type data].
    assert (strlen (cstr p) = strlen p) as L by (by rewrite strlen_no_nul, len_cstr by apply cstr_no_nul).
    assert (load (cstr p) (strlen p) = load p (strlen p)) as Ld.
    { rewrite <- (len_cstr p) at 1. rewrite load_all. unfold load. pose proof (strlen_bounds p).
      rewrite guard_true by (rewrite andb_true_iff, !Z.leb_le; lia). done. }
    by rewrite L, Ld. }
  unfold pouch_uplink_entry_write. destruct d as [d|]; [|done]. destruct (n =? 0); [done|].
  destruct lock; [done|]. cbv zeta.
  repeat first
    [ reflexivity
    | rewrite E
    | apply st_bind_ext; intros
    | match goal with |- (match ?x with _ => _ end) _ = _ => destruct x end ].
Qed.

(** One write. *)
Lemma entry_write_run base s log e :
  entry_log base s log → entry_wf e → data_len e ≠ 0 →
  ∃ r s',
    pouch_uplink_entry_write (Some (path e)) (Some (data e)) (content_type e) (data_len e) None s
      = OK (r, s')
    ∧ wrote base s s' (log ++ accepted r e) ∧ verdict s e r.
Proof.
  intros (es & cur & F & H & <-) W N. unfold pouch_uplink_entry_write, current in *.
  rewrite (proj2 (Z.eqb_neq _ _)) by done.
  replace (Entry _ _ _ _) with e by by destruct e.
  rewrite (st_bind_OK _ _ s (s_block s) s) by done. destruct (s_block s) as [b|] eqn:Eb.
  - rewrite (st_bind_OK _ _ s false s) by done.
    rewrite (st_bind_OK _ _ s (Some b) s) by (unfold gets; by rewrite Eb).
    destruct (write_entry_spec b cur e H W) as (r & b' & E & Hw).
    rewrite (st_bind_OK _ _ s (r, b') s) by (unfold lift; by rewrite E).
    rewrite (st_bind_OK _ _ s tt (set_block (Some b') s)) by done.
    destruct Hw as [(-> & H' & L)|(-> & -> & L)].
    + rewrite bool_decide_eq_false_2 by naive_solver. simpl.
      do 2 eexists. split; [reflexivity|]. split; split; auto using set_block_frame.
      * exists es, (cur ++ [e]). split_and!; [done..|]. by rewrite <- app_assoc.
      * intros k B. solve_balanced.
    + rewrite bool_decide_eq_true_2 by done. simpl.
      replace (set_block (Some b) s) with s by (destruct s; simpl in *; by subst).
      by apply retry_write.
  - destruct (zoom_block_alloc s) as (r & h & Ea & Em & Hl & Hn & Hr).
    rewrite (st_bind_OK _ _ s true (set_block r (set_heap h s))).
    2:{ rewrite (st_bind_OK _ _ _ _ _ Ea). done. }
    rewrite (st_bind_OK _ _ _ r (set_block r (set_heap h s))) by done.
    assert (writer_frame s (set_block r (set_heap h s))) as Fr.
    { etrans; [by apply (set_heap_frame h)|apply set_block_frame]. }
    subst cur. rewrite app_nil_r. destruct r as [b|].
    + destruct (fresh_write b e) as (r & b' & E & H' & V); [by apply Hr|done|].
      run_st. rewrite E. rewrite andb_false_r.
      do 2 eexists. split; [reflexivity|]. split; [split|by apply V].
      * exists es, (accepted r e). by split_and!.
      * etrans; [done|]. apply set_block_frame.
      * intros k B. specialize (Hl k B). solve_balanced.
      * done.
    + do 2 eexists. split; [reflexivity|]. split; split; auto.
      * exists es, []. by split_and!.
      * intros k B. specialize (Hl k B). solve_balanced.
      * done.
      * intros A _. specialize (Hn eq_refl). by rewrite A in Hn.
Qed.

(** Closing the pouch's entry block enqueues every accepted entry not yet enqueued. *)
Lemma entry_close_run base s log :
  entry_log base s log →
  ∃ s', entry_block_close None s = OK (SUCCESS, s')
    ∧ flushed base s' log ∧ s_block s' = None ∧ wrote base s s' log.
Proof.
  intros (es & cur & F & H & <-). unfold entry_block_close, current in *.
  rewrite (st_bind_OK _ _ s (s_block s) s) by done. destruct (s_block s) as [b|] eqn:Eb.
  - pose proof (is_block_bytes _ _ _ H). unfold block_size_get, buf_size_get.
    rewrite (proj2 (Z.ltb_lt _ _)) by lia.
    destruct (holds_finish _ _ H) as (fb & Ef & Hf).
    rewrite (st_bind_OK _ _ s fb s) by (unfold lift; by rewrite Ef).
    rewrite (st_bind_OK _ _ _ _ _ (uplink_enqueue_run fb s)).
    eexists. split; [reflexivity|].
    pose proof (flushed_enqueued _ _ _ _ _ F Hf) as F'. split_and!; [done..|]. split.
    + exists (es ++ cur), []. split_and!; [done..|]. by rewrite app_nil_r.
    + etrans; [apply enqueued_frame|apply set_block_frame].
    + intros k B. solve_balanced.
    + done.
  - subst cur. rewrite app_nil_r. eexists. split; [reflexivity|]. split_and!; [done..|].
    split; [|done|done|done]. exists es, []. unfold current. rewrite Eb, app_nil_r. done.
Qed.

(** A sequence of writes, and the entries accepted by their results. *)
Fixpoint write_all (es : list pouch_entry) : st (sys C) (list status) :=
  match es with
  | [] => mret []
  | e :: es =>
    r ← pouch_uplink_entry_write (Some (path e)) (Some (data e)) (content_type e) (data_len e) None;
    rs ← write_all es;
    mret (r :: rs)
  end.

Lemma write_all_length es : ∀ s rs s', write_all es s = OK (rs, s') → length rs = length es.
Proof.
  induction es as [|e es IH]; intros s rs s' H; cbn [write_all] in H; [by injection H as <- <-|].
  apply st_bind_OK_inv in H as (r & s1 & _ & H). apply st_bind_OK_inv in H as (rs1 & s2 & E & H).
  injection H as <- <-. simpl. f_equal. by eapply IH.
Qed.

(** Code that writes [es], whatever becomes of each of them. *)
Definition writes (m : st (sys C) unit) (es : list pouch_entry) : Prop :=
  ∀ s, m s = (write_all es;; mret tt) s.

Lemma writes_nil : writes (mret tt) [].
Proof. done. Qed.

Lemma writes_app m1 m2 es1 es2 : writes m1 es1 → writes m2 es2 → writes (m1;; m2) (es1 ++ es2).
Proof.
  intros W1 W2 s. unfold mbind at 1, st_bind at 1. rewrite W1. clear W1. revert s.
  induction es1 as [|e es1 IH]; intros s; [apply W2|]. cbn [write_all app]. unfold mbind, st_bind in *.
  destruct (pouch_uplink_entry_write _ _ _ _ _ s) as [[r s1]|]; [|done]. specialize (IH s1).
  destruct (write_all es1 s1) as [[rs s2]|]; cbn in IH |- *.
  - rewrite IH. destruct (write_all (es1 ++ es2) s1) as [[]|]; done.
  - by destruct (write_all (es1 ++ es2) s1) as [[]|].
Qed.

Definition accepted_all (rs : list status) (es : list pouch_entry) : list pouch_entry :=
  concat (zip_with accepted rs es).

Lemma wrote_trans base s1 s2 s3 l1 l2 :
  wrote base s1 s2 l1 → wrote base s2 s3 l2 → wrote base s1 s3 l2.
Proof. intros [L1 F1 B1 S1] [L2 F2 B2 S2]. split; [done|by etrans|auto|congruence]. Qed.

Lemma entry_writes_run es : ∀ base s log,
  entry_log base s log → Forall (λ e, entry_wf e ∧ data_len e ≠ 0) es →
  ∃ rs s',
    write_all es s = OK (rs, s') ∧ wrote base s s' (log ++ accepted_all rs es)
    ∧ Forall (λ r, r = SUCCESS ∨ r = NEG ENOMEM) rs
    ∧ (malloc_never_fails (s_heap s) → rs = map (λ e,
         if entry_size e <=? MAX_BLOCK_PAYLOAD_SIZE then SUCCESS else NEG ENOMEM) es).
Proof.
  induction es as [|e es IH]; intros base s log L F; cbn [write_all].
  { do 2 eexists. split; [reflexivity|]. split_and!; [|done..].
    split; [by rewrite app_nil_r|done..]. }
  apply Forall_cons in F as [[W N] F].
  destruct (entry_write_run base s log e L W N) as (r & s1 & E1 & W1 & V1).
  destruct (IH base s1 _ (wr_log _ _ _ _ W1) F) as (rs & s2 & E2 & W2 & R2 & M2).
  rewrite (st_bind_OK _ _ _ _ _ E1), (st_bind_OK _ _ _ _ _ E2).
  do 2 eexists. split; [reflexivity|]. split_and!.
  - eapply wrote_trans; [done|]. unfold accepted_all; simpl. by rewrite <- app_assoc in W2.
  - constructor; [|done]. apply V1.
  - intros A. simpl. rewrite M2.
    2:{ intros n. rewrite (wf_malloc _ _ (wr_frame _ _ _ _ W1)). apply A. }
    f_equal. destruct V1 as [[-> | ->] S K]; destruct (Z.leb_spec (entry_size e) MAX_BLOCK_PAYLOAD_SIZE);
      try done; [specialize (S eq_refl); lia|by apply K].
Qed.

(** Any sequence of writes accepts or refuses each entry, and nothing else: it never faults, the
    accepted entries stay in their order, none is split, lost or duplicated, no buffer is leaked, and
    an entry is refused (with -ENOMEM) only when memory runs out or no block can hold it. *)
Theorem entry_writes_log es : ∀ base s log,
  entry_log base s log → Forall (λ e, entry_wf e ∧ data_len e ≠ 0) es →
  ∃ rs s',
    write_all es s = OK (rs, s') ∧ wrote base s s' (log ++ accepted_all rs es)
    ∧ Forall (λ r, r = SUCCESS ∨ r = NEG ENOMEM) rs
    ∧ (malloc_never_fails (s_heap s) → rs = map (λ e,
         if entry_size e <=? MAX_BLOCK_PAYLOAD_SIZE then SUCCESS else NEG ENOMEM) es).
Proof. apply entry_writes_run. Qed.

(** Bad arguments and a mutex that is not obtained in time leave the pouch as it was. *)
Theorem entry_write_rejects s (p d : option (list byte)) ct n lock :
  (p = None ∨ d = None ∨ n = 0 →
    pouch_uplink_entry_write p d ct n lock s = OK (NEG EINVAL, s)) ∧
  (∀ err : errno, p ≠ None → d ≠ None → n ≠ 0 → lock = NEG err →
    pouch_uplink_entry_write p d ct n lock s = OK (NEG err, s)).
Proof.
  unfold pouch_uplink_entry_write. split.
  - intros [-> | [-> | ->]]; [done|by destruct p|]. by destruct p, d.
  - intros err. destruct p, d; try done. intros _ _ N ->.
    by rewrite (proj2 (Z.eqb_neq _ _)) by done.
Qed.

End WriterLemmas.

(** * What the parser delivers *)

Section ParserLemmas.
Context {BO : ByteOrder} {CF : Config} {A : Type} (handlers : list (pouch_downlink_handler A)).
Implicit Types (b : pouch_buf) (e : pouch_entry) (a : A).

(** What a position in a buffer being read satisfies. *)
Record reading b (o : Z) (l : list byte) : Prop := {
  rd_wf : buf_wf b;
  rd_off : 0 ≤ o ≤ bytes b;
  rd_rest : rest b o = l;
}.

Lemma reading_next b o d k n : reading b o (d ++ k) → n = len d → reading b (o + n) k.
Proof.
  intros [W O E] ->. pose proof (next_fits b o d k W O E).
  split; [done|lia|]. by eapply rest_next.
Qed.

Lemma reading_available b o l : reading b o l → pouch_bufview_available (view_at b o) = len l.
Proof. intros [W O <-]. by apply available_at. Qed.

Lemma reading_be16 b o v k : reading b o (sys_put_be16 v ++ k) → 0 ≤ v < 65536 →
  pouch_bufview_read_be16 (view_at b o) = OK (v, view_at b (o + 2)) ∧ reading b (o + 2) k.
Proof.
  intros R V. split; [destruct R; by eapply read_be16_put|].
  apply (reading_next _ _ _ _ _ R). by rewrite len_put_be16.
Qed.

Lemma reading_byte b o x k : reading b o (x :: k) →
  pouch_bufview_read_byte (view_at b o) = OK (Z_of_byte x, view_at b (o + 1))
  ∧ reading b (o + 1) k.
Proof.
  intros R. split; [destruct R; by eapply read_byte_next|].
  by apply (reading_next _ _ [x] k _ R).
Qed.

Lemma reading_ptr b o d k n : reading b o (d ++ k) → n = len d →
  pouch_bufview_read (view_at b o) n = OK (Some o, view_at b (o + n))
  ∧ reading b (o + n) k
  ∧ (∀ v, v_buf v = Some b → view_load v o n = OK d).
Proof.
  intros R ->. split_and!.
  - destruct R. by eapply pouch_bufview_read_next.
  - by apply (reading_next _ _ _ _ _ R).
  - intros v. destruct R. by eapply view_load_next.
Qed.

Lemma entry_path_byte e : len (path e) < 256 → Z_of_byte (byte_of_Z (len (path e))) = len (path e).
Proof. intros. rewrite Z_of_byte_of_Z. apply u8_small. lia. Qed.

(** Delivery of one entry to every handler. *)
Definition deliver a e : A :=
  downlink_data handlers 0 (Some (data e)) (data_len e) true
    (downlink_start handlers 0 (path e) (content_type e) a).

Lemma entries_push_one_spec b o e k a :
  reading b o (entry_bytes e ++ k) → entry_representable e →
  entries_push_one handlers (view_at b o) a
    = OK (view_at b (o + entry_size e), deliver a e)
  ∧ reading b (o + entry_size e) k.
Proof.
  intros R ([N L S] & P & D & T). unfold entry_bytes in R. rewrite <- !app_assoc in R.
  rewrite (u16_small (data_len e)), (u16_small (content_type e)) in R by lia.
  destruct (reading_be16 _ _ _ _ R) as [E1 R1]; [lia|].
  destruct (reading_be16 _ _ _ _ R1) as [E2 R2]; [lia|].
  destruct (reading_byte _ _ _ _ R2) as [E3 R3].
  destruct (reading_ptr _ _ _ _ _ R3 eq_refl) as (E4 & R4 & V4).
  destruct (reading_ptr _ _ _ _ (data_len e) R4 L) as (E5 & R5 & V5).
  unfold entries_push_one.
  rewrite E1, bind_OK, E2, bind_OK, E3, bind_OK, entry_path_byte, E4, bind_OK, E5 by done.
  rewrite bind_OK. unfold deref, deref_data, of_ptr.
  rewrite bind_OK, V4, bind_OK, V5, bind_OK by done. rewrite bind_OK.
  unfold deliver, entry_size, ENTRY_HEADER_OVERHEAD.
  replace (o + 2 + 2 + 1 + len (path e) + data_len e) with (o + (5 + len (path e) + len (data e)))
    in * by lia. done.
Qed.

Lemma entries_push_spec es : ∀ fuel b o a,
  reading b o (concat (map entry_bytes es)) → Forall entry_representable es →
  (length es ≤ fuel)%nat →
  entries_push handlers fuel (view_at b o) a = OK (view_at b (bytes b), foldl deliver a es).
Proof.
  induction es as [|e es IH]; intros fuel b o a R F Hf.
  - pose proof (reading_available _ _ _ R) as Av. simpl in Av. destruct R as [W O E].
    pose proof (len_rest b o W O) as Lr. rewrite E in Lr. simpl in Lr.
    destruct fuel; cbn [entries_push]; rewrite Av; simpl; do 2 f_equal; unfold view_at; f_equal; lia.
  - pose proof (reading_available _ _ _ R) as Av. apply Forall_cons in F as [F0 F].
    simpl in R, Hf. destruct fuel as [|fuel]; [lia|]. cbn [entries_push].
    rewrite Av. pose proof (len_entry_bytes e). unfold entry_size, ENTRY_HEADER_OVERHEAD in *.
    rewrite (proj2 (Z.eqb_neq _ _)) by (simpl; solve_len).
    destruct (entries_push_one_spec b o e _ a R F0) as [-> R'].
    rewrite bind_OK. apply IH; [done..|lia].
Qed.

(** The header of a block received whole. *)
Lemma reading_hdr b id first last p :
  buf_wf b → 0 ≤ id < 32 → len p < 65535 → contents b = frame (id_byte id first last) p →
  block_decode_hdr (pouch_bufview_init b) =
    OK (BlockHdr (len p + 1) id (negb (id =? 0)) first last, view_at b 3) ∧ reading b 3 p.
Proof.
  intros W I Lp E. rewrite view_init_at.
  destruct (block_decode_hdr_frame b id first last p W I Lp E) as [-> R]. split; [done|].
  split; [done| |done]. rewrite <- len_contents, E, len_frame by done. lia.
Qed.

(** A block of entries delivers exactly its entries, in order, each with its path, content type
    and data to every registered handler, and reads nothing outside the block. *)
Lemma block_push_entries b es first last a :
  buf_wf b → contents b = frame (id_byte 0 first last) (concat (map entry_bytes es)) →
  len (concat (map entry_bytes es)) < 65535 → Forall entry_representable es →
  pouch_downlink_block_push handlers b a = OK (foldl deliver a es).
Proof.
  intros W E Lp F. unfold pouch_downlink_block_push.
  destruct (reading_hdr b 0 first last _ W ltac:(lia) Lp E) as [-> R]. rewrite bind_OK. simpl.
  unfold pouch_downlink_entries_push. rewrite (entries_push_spec es); [done..|].
  unfold view_fuel; simpl. pose proof (wf_bytes b W).
  assert (len es ≤ len (concat (map entry_bytes es))) as L.
  { clear. induction es as [|e es IH]; simpl; [lia|].
    pose proof (len_entry_bytes e). unfold entry_size, ENTRY_HEADER_OVERHEAD in *. solve_len. }
  pose proof (len_frame (id_byte 0 first last) _ Lp) as Lf. rewrite <- E in Lf.
  rewrite len_contents in Lf by done. lia.
Qed.

(** The bytes that open a stream. *)
Definition stream_header (content_type : Z) (path : list byte) : list byte :=
  sys_put_be16 content_type ++ [byte_of_Z (len path)] ++ path.

(** What one block of a stream delivers. *)
Definition deliver_stream a (id : Z) (opening : option (Z * list byte)) (d : list byte)
    (last : bool) : A :=
  downlink_data handlers id (Some d) (len d) last
    (match opening with
     | Some (ct, path) => downlink_start handlers id path ct a
     | None => a
     end).

Definition stream_payload (opening : option (Z * list byte)) (d : list byte) : list byte :=
  match opening with Some (ct, path) => stream_header ct path ++ d | None => d end.

Definition is_opening (opening : option (Z * list byte)) : bool :=
  match opening with Some _ => true | None => false end.

Definition opening_wf (opening : option (Z * list byte)) : Prop :=
  match opening with Some (ct, path) => 0 ≤ ct < 65536 ∧ len path < 256 | None => True end.

(** A block of a stream delivers the stream's path and content type if it is the first block,
    then the data it carries, marked last or not. *)
Lemma block_push_stream b id opening d last a :
  buf_wf b → 0 < id < 32 → opening_wf opening → len (stream_payload opening d) < 65535 →
  contents b = frame (id_byte id (is_opening opening) last) (stream_payload opening d) →
  pouch_downlink_block_push handlers b a = OK (deliver_stream a id opening d last).
Proof.
  intros W I O Lp E. unfold pouch_downlink_block_push.
  destruct (reading_hdr b id _ last _ W ltac:(lia) Lp E) as [-> R]. rewrite bind_OK.
  cbn [hdr_is_stream hdr_stream_id hdr_is_first hdr_is_last].
  rewrite (proj2 (Z.eqb_neq _ _)) by lia. cbn [negb]. unfold pouch_downlink_stream_push.
  destruct opening as [[ct path]|]; simpl in R, Lp |- *.
  - unfold stream_header in *. rewrite <- !app_assoc in R. destruct O as [Ct P].
    destruct (reading_be16 _ _ _ _ R Ct) as [E1 R1].
    destruct (reading_byte _ _ _ _ R1) as [E2 R2].
    destruct (reading_ptr _ _ _ _ _ R2 eq_refl) as (E3 & R3 & V3).
    rewrite E1, bind_OK, E2, bind_OK, Z_of_byte_of_Z, u8_small, E3, bind_OK by lia.
    unfold deref, of_ptr. rewrite bind_OK, V3, !bind_OK by done.
    rewrite (reading_available _ _ _ R3), u16_small by solve_len.
    rewrite <- (app_nil_r d) in R3. destruct (reading_ptr _ _ _ _ _ R3 eq_refl) as (E4 & _ & V4).
    rewrite app_nil_r in *. rewrite E4, bind_OK. unfold deref_data.
    by rewrite V4, !bind_OK by done.
  - rewrite (reading_available _ _ _ R), u16_small by lia.
    rewrite <- (app_nil_r d) in R. destruct (reading_ptr _ _ _ _ _ R eq_refl) as (E4 & _ & V4).
    rewrite app_nil_r in *. rewrite E4, bind_OK. unfold deref_data.
    by rewrite V4, !bind_OK by done.
Qed.

(** ** Termination *)

Lemma mem_read_inv b p n d : mem_read p n b = OK d → 0 ≤ p ∧ 0 ≤ n ∧ p + n ≤ len (mem b).
Proof.
  unfold mem_read. intros (u & G & _)%bind_OK_inv. apply guard_OK_inv in G.
  rewrite !andb_true_iff, !Z.leb_le in G. lia.
Qed.

Lemma view_load_inv b o p n d :
  view_load (view_at b o) p n = OK d → 0 ≤ p ∧ 0 ≤ n ∧ p + n ≤ len (mem b).
Proof. apply mem_read_inv. Qed.

Lemma read_be16_inv b o r v :
  0 ≤ o → len (mem b) < 2147483648 → pouch_bufview_read_be16 (view_at b o) = OK (r, v) →
  v = view_at b (o + 2) ∧ o + 2 ≤ len (mem b).
Proof.
  intros O M. unfold pouch_bufview_read_be16, bufview_read, of_ptr; cbn [v_buf v_offset view_at]. rewrite !bind_OK.
  intros (d & E%mem_read_inv & H)%bind_OK_inv. simplify_eq. rewrite u32_small by lia.
  split; [done|lia].
Qed.

Lemma read_byte_inv b o r v :
  0 ≤ o → len (mem b) < 2147483648 → pouch_bufview_read_byte (view_at b o) = OK (r, v) →
  v = view_at b (o + 1) ∧ o + 1 ≤ len (mem b) ∧ 0 ≤ r < 256.
Proof.
  intros O M. unfold pouch_bufview_read_byte, bufview_read, of_ptr; cbn [v_buf v_offset view_at]. rewrite !bind_OK.
  intros (d & E%mem_read_inv & H)%bind_OK_inv. simplify_eq. rewrite u32_small by lia.
  split; [done|]. split; [lia|]. destruct d as [|x []]; [lia| |lia]. apply Z_of_byte_range.
Qed.

Lemma read_inv b o n r v :
  0 ≤ o → 0 ≤ n → o + n < 4294967296 → pouch_bufview_read (view_at b o) n = OK (r, v) →
  ∃ o', v = view_at b o' ∧ o ≤ o' ≤ o + n.
Proof.
  intros O N M. unfold pouch_bufview_read. destruct (_ <? n).
  - intros [= <- <-]. exists o. split; [done|lia].
  - unfold bufview_read, of_ptr; cbn [v_buf v_offset view_at]. rewrite !bind_OK. intros [= <- <-].
    rewrite u32_small by lia. exists (o + n). split; [done|lia].
Qed.

Lemma sys_get_be16_range b p d : mem_read p 2 b = OK d → 0 ≤ sys_get_be16 d < 65536.
Proof.
  intros E. pose proof (mem_read_inv _ _ _ _ E) as I. revert E. unfold mem_read.
  intros (u & _ & [= <-])%bind_OK_inv.
  assert (length (ztake 2 (zdrop p (mem b))) = 2%nat) as L by solve_len.
  destruct (ztake _ _) as [|x [|y []]]; try done. rewrite sys_get_be16_spec.
  pose proof (Z_of_byte_range x). pose proof (Z_of_byte_range y). lia.
Qed.

Lemma read_be16_range b o r v :
  pouch_bufview_read_be16 (view_at b o) = OK (r, v) → 0 ≤ r < 65536.
Proof.
  unfold pouch_bufview_read_be16, bufview_read, of_ptr; cbn [v_buf v_offset view_at]. rewrite !bind_OK.
  intros (d & E%sys_get_be16_range & H)%bind_OK_inv. by simplify_eq.
Qed.

(** A pass that does not fault starts with an entry header inside the buffer and moves past it. *)
Lemma entries_push_one_progress b o a v a' :
  len (mem b) < 2147483648 → 0 ≤ o →
  entries_push_one handlers (view_at b o) a = OK (v, a') →
  ∃ o', v = view_at b o' ∧ o + 5 ≤ o' ∧ o + 5 ≤ len (mem b).
Proof.
  intros M O. unfold entries_push_one.
  intros ([n v1] & E1 & H)%bind_OK_inv. pose proof (read_be16_range _ _ _ _ E1).
  apply read_be16_inv in E1 as [-> L1]; [|lia..].
  apply bind_OK_inv in H as ([ct v2] & E2 & H). apply read_be16_inv in E2 as [-> L2]; [|lia..].
  apply bind_OK_inv in H as ([pl v3] & E3 & H).
  apply read_byte_inv in E3 as (-> & L3 & P); [|lia..].
  apply bind_OK_inv in H as ([p v4] & E4 & H). apply read_inv in E4 as (o4 & -> & L4); [|lia..].
  apply bind_OK_inv in H as ([d v5] & E5 & H). apply read_inv in E5 as (o5 & -> & L5); [|lia..].
  apply bind_OK_inv in H as (pt & _ & H). apply bind_OK_inv in H as (dt & _ & H).
  simplify_eq. exists o5. split; [done|lia].
Qed.

(** One turn of the loop as written: its condition and its body. *)
Definition entries_turn (va : pouch_bufview * A) : outcome (pouch_bufview * A + pouch_bufview * A) :=
  if pouch_bufview_available va.1 =? 0 then OK (inr va) else
  va ← entries_push_one handlers va.1 va.2; OK (inl va).

Lemma entries_push_loops b : len (mem b) < 2147483648 → ∀ fuel o a,
  0 ≤ o → len (mem b) - o < 5 * Z.of_nat fuel →
  loops entries_turn (view_at b o, a) (entries_push handlers fuel (view_at b o) a).
Proof.
  intros M. induction fuel as [|fuel IH]; intros o a O H; cbn [entries_push];
    destruct (_ =? 0) eqn:Av.
  1, 3: by apply loops_done; unfold entries_turn; simpl; rewrite Av.
  - apply loops_fault. unfold entries_turn; simpl. rewrite Av.
    destruct (entries_push_one _ _ _) as [[v a']|] eqn:E; [|done].
    apply entries_push_one_progress in E as (o' & _ & _ & ?); [lia|done..].
  - destruct (entries_push_one handlers (view_at b o) a) as [[v a']|] eqn:E.
    + apply loops_next with (v, a'); [by unfold entries_turn; simpl; rewrite Av, E|]. rewrite bind_OK.
      apply entries_push_one_progress in E as (o' & -> & ? & ?); [|done..]. apply IH; lia.
    + apply loops_fault. unfold entries_turn; simpl. by rewrite Av, E.
Qed.

(** C13: parsing a block terminates whatever the block holds: a pass over an entry reads at least five
    bytes of the block, so the loop ends, by running out of bytes or by a pass that faults, and what
    [pouch_downlink_entries_push] returns is the outcome of the loop. *)
Theorem entries_push_terminates b o a :
  buf_wf b → 0 ≤ o →
  ∃ r, loops entries_turn (view_at b o, a) r
    ∧ pouch_downlink_entries_push handlers (view_at b o) a = ('(_, a) ← r; OK a).
Proof.
  intros [? ? ?] O. eexists. split; [|reflexivity]. apply entries_push_loops; [lia|done|].
  unfold view_fuel; simpl. lia.
Qed.

End ParserLemmas.

(** * Writer and parser *)

Section RoundTrip.
Context {BO : ByteOrder} {SL : SList} {KW : KWork} {MQ : MsgQ} {CF : Config} {C A : Type}.
Context (handlers : list (pouch_downlink_handler A)).

(** A peer that parses blocks one after the other. *)
Fixpoint push_all (bs : list pouch_buf) (a : A) : outcome A :=
  match bs with
  | [] => OK a
  | b :: bs => a ← pouch_downlink_block_push handlers b a; push_all bs a
  end.

Lemma push_all_app bs bs' a :
  push_all (bs ++ bs') a = (a ← push_all bs a; push_all bs' a).
Proof.
  revert a. induction bs as [|b bs IH]; intros a; simpl; [done|].
  destruct (pouch_downlink_block_push handlers b a); simpl; [apply IH|done].
Qed.

Lemma push_all_entries bs gs a :
  Forall2 holds_finished bs gs → Forall entry_representable (concat gs) →
  push_all bs a = OK (foldl (deliver handlers) a (concat gs)).
Proof.
  intros F. revert a. induction F as [|b es bs gs H F IH]; intros a R; [done|]. simpl in *.
  apply Forall_app in R as [R1 R2]. destruct H as [B E].
  pose proof (is_block_len _ _ _ B). pose proof MAX_BLOCK_PAYLOAD_SIZE_range.
  rewrite (block_push_entries _ b es true true) by (done || lia || apply B).
  rewrite bind_OK, IH by done. by rewrite foldl_app.
Qed.

(** A round trip: the blocks that hold the accepted entries, parsed one after the other, deliver
    exactly these entries in the order they were accepted. *)
Theorem entries_roundtrip base (s : sys C) es a :
  flushed base s es → Forall entry_representable es →
  ∃ bs, pending s = base ++ bs ∧ push_all bs a = OK (foldl (deliver handlers) a es).
Proof.
  intros (bs & gs & E & F & <-) R. exists bs. split; [done|]. by apply push_all_entries.
Qed.

End RoundTrip.

Module EntryWitness.
#[local] Existing Instances Native.byte_order Native.config_none Native.list_slist Native.flag_work
  Native.list_msgq.

Definition ex_entry : pouch_entry := Entry [x2e; x73] 60 3 [x01; x02; x03].
Definition ex_sys : sys CryptoNone.state := boot Native.heap0 4 None.

Lemma ex_entry_ok : entry_representable ex_entry.
Proof.
  split; [split|]; try done. apply (bool_decide_unpack _). by vm_compute.
Qed.

Lemma entry_writes_log_witness :
  ∃ rs s', write_all [ex_entry; ex_entry] ex_sys = OK (rs, s')
    ∧ wrote [] ex_sys s' ([] ++ accepted_all rs [ex_entry; ex_entry])
    ∧ Forall (λ r, r = SUCCESS ∨ r = NEG ENOMEM) rs
    ∧ (malloc_never_fails (s_heap ex_sys) → rs = [SUCCESS; SUCCESS]).
Proof.
  assert (Forall (λ e, entry_wf e ∧ data_len e ≠ 0) [ex_entry; ex_entry]) as F.
  { do 2 (constructor; [split; [apply ex_entry_ok|done]|]). constructor. }
  exact (entry_writes_log [ex_entry; ex_entry] [] ex_sys [] (entry_log_start ex_sys eq_refl) F).
Defined.

Lemma entry_write_rejects_witness :
  pouch_uplink_entry_write None (Some [x01]) 60 1 None ex_sys = OK (NEG EINVAL, ex_sys) ∧
  pouch_uplink_entry_write (Some [x73]) (Some [x01]) 60 1 (NEG EAGAIN) ex_sys = OK (NEG EAGAIN, ex_sys).
Proof.
  split; [apply (proj1 (entry_write_rejects ex_sys None (Some [x01]) 60 1 None)); by left|].
  by apply (proj2 (entry_write_rejects ex_sys (Some [x73]) (Some [x01]) 60 1 (NEG EAGAIN))).
Defined.

(** A block that holds [ex_entry], and handlers that log what they are called with. *)
Definition ex_block : pouch_buf :=
  PBuf 515 13 [x00; x0b; xc0; x00; x03; x00; x3c; x02; x2e; x73; x01; x02; x03].

Definition ex_handlers : list (pouch_downlink_handler (list (list byte))) :=
  [Handler (λ _ path _ a, a ++ [path]) (λ _ d _ _ a, a ++ [default [] d])].

Lemma ex_block_wf b : bool_decide (0 ≤ bytes b ≤ len (mem b) ∧ len (mem b) ≤ cap b ∧ cap b < 2147483648)
  = true → buf_wf b.
Proof. intros H%bool_decide_eq_true. split; lia. Qed.

(** A stream block: stream 1, first and last, path "s", content type 0, data 7. *)
Definition ex_stream : pouch_buf := PBuf 515 8 [x00; x06; xc1; x00; x00; x01; x73; x07].

(** Five bytes of nonsense. *)
Lemma entries_push_terminates_witness :
  ∃ r, loops (entries_turn ex_handlers) (view_at ex_stream 3, []) r
    ∧ pouch_downlink_entries_push ex_handlers (view_at ex_stream 3) [] = ('(_, a) ← r; OK a).
Proof. apply (entries_push_terminates ex_handlers ex_stream 3 []); [by apply ex_block_wf|lia]. Defined.

(** The block of [ex_entry] in the processing queue. *)
Definition ex_sent : sys CryptoNone.state := enqueued ex_block ex_sys.

Lemma entries_roundtrip_witness :
  ∃ bs, pending ex_sent = [] ++ bs
    ∧ push_all ex_handlers bs [] = OK [[x2e; x73]; [x01; x02; x03]].
Proof.
  apply (entries_roundtrip ex_handlers [] ex_sent [ex_entry] []).
  - exists [ex_block], [[ex_entry]]. split_and!; [done| |done]. constructor; [|done].
    split; [|done]. split; [by apply ex_block_wf|done|]. by exists x00, x0b.
  - by repeat constructor; apply ex_entry_ok.
Defined.
End EntryWitness.
