(* ===== verification/Stream.v ===== *)
(** Uplink streams: src/src/stream.c.

    A stream owns the block it is filling; full blocks are enqueued for processing. An open stream
    is a value of [pouch_stream] that the caller holds and passes back. *)
From S2P Require Import Prelude Platform Buf Block Crypto State Entry.

(** include/pouch/uplink.h *)
Definition POUCH_STREAMS_MAX : Z := 126.

Record pouch_stream := Stream {
  st_id : Z;
  st_buf : pouch_buf;
  st_bytes : Z;
  st_session_id : Z;
}.

Definition set_st_buf b (x : pouch_stream) : pouch_stream :=
  Stream (st_id x) b (st_bytes x) (st_session_id x).
Definition set_st_bytes n (x : pouch_stream) : pouch_stream :=
  Stream (st_id x) (st_buf x) n (st_session_id x).

(** Loading [n] bytes at index [i] of a caller's array. *)
Definition load_at (d : list byte) (i n : Z) : outcome (list byte) :=
  guard ((0 <=? i) && (0 <=? n) && (i + n <=? len d));;
  OK (ztake n (zdrop i d)).

Section Stream.
Context {BO : ByteOrder} {SL : SList} {KW : KWork} {MQ : MsgQ} {CF : Config} {C : Type}.

Definition write_stream_header (block : pouch_buf) (content_type : Z) (path : list byte)
    : outcome pouch_buf :=
  let path_len := strlen path in
  let '(p, block) := buf_claim block 2 in
  block ← mem_write p (sys_put_be16 (u16 content_type)) block;
  let '(p, block) := buf_claim block 1 in
  block ← mem_write p [byte_of_Z path_len] block;
  d ← load path path_len;
  buf_write block d.

Definition inc_open_streams : st (sys C) Z := zoom (
  old ← gets open_streams;
  modify (λ x, StreamStatics (stream_id x) (atomic_inc (open_streams x)).2);;
  mret old : st stream_statics Z).

Definition dec_open_streams : st (sys C) unit := zoom (
  modify (λ x, StreamStatics (stream_id x) (atomic_dec (open_streams x)).2) : st stream_statics unit).

(** The do-while loop, with fuel; [fresh_stream_id_fuel] shows that two passes are enough. *)
Fixpoint fresh_stream_id (fuel : nat) : st stream_statics Z :=
  match fuel with
  | O => fault
  | S fuel =>
    old ← gets stream_id;
    modify (λ x, StreamStatics (atomic_inc (stream_id x)).2 (open_streams x));;
    let id := Z.land old BLOCK_ID_MASK in
    if id =? 0 then fresh_stream_id fuel else mret id
  end.

Definition new_stream_id : st stream_statics Z := fresh_stream_id 2.

Definition pouch_uplink_stream_open (path : list byte) (content_type : Z)
    : st (sys C) (option pouch_stream) :=
  old ← inc_open_streams;
  if POUCH_STREAMS_MAX <=? old then
    dec_open_streams;; mret None
  else
    ok ← zoom malloc;
    if negb ok then dec_open_streams;; mret None else
    id ← zoom new_stream_id;
    session_id ← uplink_session_id;
    buf ← zoom (block_alloc_stream id true);
    match buf with
    | None => dec_open_streams;; mret None
    | Some buf =>
      buf ← lift (write_stream_header buf content_type path);
      mret (Some (Stream id buf 0 session_id))
    end.

Definition pouch_stream_is_valid (stream : option pouch_stream) : st (sys C) bool :=
  match stream with
  | None => mret false
  | Some stream => id ← uplink_session_id; mret (st_session_id stream =? id)
  end.

(** The loop of [pouch_stream_write], with fuel; running out of it is reported as a fault. *)
Fixpoint stream_write_loop (fuel : nat) (stream : pouch_stream) (data : list byte) (n written : Z)
    : st (sys C) (Z * pouch_stream) :=
  if negb (written <? n) then mret (written, stream) else
  match fuel with
  | O => fault
  | S fuel =>
    let append (stream : pouch_stream) :=
      let space := block_space_get (st_buf stream) in
      let write_len := Z.min space (n - written) in
      d ← lift (load_at data written write_len);
      buf ← lift (buf_write (st_buf stream) d);
      stream_write_loop fuel (set_st_buf buf stream) data n (written + write_len) in
    if block_space_get (st_buf stream) =? 0 then
      buf ← zoom (block_alloc_stream (st_id stream) false);
      match buf with
      | None => mret (written, stream)
      | Some buf =>
        full ← lift (block_finish_stream (st_buf stream) (st_id stream) false);
        uplink_enqueue full;;
        append (set_st_buf buf stream)
      end
    else append stream
  end.

Definition pouch_stream_write (stream : option pouch_stream) (data : list byte) (n : Z)
    : st (sys C) (Z * option pouch_stream) :=
  valid ← pouch_stream_is_valid stream;
  match valid, stream with
  | true, Some stream =>
    '(written, stream) ← stream_write_loop (Z.to_nat n) stream data n 0;
    mret (written, Some (set_st_bytes (u32 (st_bytes stream + written)) stream))
  | _, _ => mret (0, stream)
  end.

Definition pouch_stream_close (stream : option pouch_stream) : st (sys C) status :=
  match stream with
  | None => mret (NEG EINVAL)
  | Some stream =>
    valid ← pouch_stream_is_valid (Some stream);
    (if valid && (0 <? st_bytes stream) then
       block ← lift (block_finish_stream (st_buf stream) (st_id stream) true);
       uplink_enqueue block
     else zoom (block_free (Some (st_buf stream))));;
    dec_open_streams;;
    mret SUCCESS
  end.

End Stream.

(** * Stream ids *)

Section Ids.
Implicit Types (x : stream_statics).

Definition next_id (v : Z) : Z := Z.land v BLOCK_ID_MASK.

Lemma next_id_range v : 0 ≤ next_id v < 32.
Proof.
  unfold next_id, BLOCK_ID_MASK. change 31 with (Z.ones 5). rewrite Z.land_ones by lia.
  apply Z.mod_pos_bound. done.
Qed.

Lemma next_id_mod v : next_id v = v mod 32.
Proof. unfold next_id, BLOCK_ID_MASK. change 31 with (Z.ones 5). by rewrite Z.land_ones. Qed.

Lemma i32_mod32 v : i32 v mod 32 = v mod 32.
Proof. unfold i32. dlia. Qed.

(** What a call returns and leaves: it skips the reserved id 0. *)
Lemma fresh_stream_id_fuel x fuel :
  let v := stream_id x in
  let id := next_id (if next_id v =? 0 then v + 1 else v) in
  let v' := i32 (if next_id v =? 0 then v + 2 else v + 1) in
  fresh_stream_id (S (S fuel)) x = OK (id, StreamStatics v' (open_streams x)) ∧ 0 < id < 32.
Proof.
  cbn [fresh_stream_id]. run_st. unfold atomic_inc. cbn [snd stream_id open_streams].
  fold (next_id (stream_id x)).
  pose proof (next_id_range (stream_id x)).
  destruct (Z.eqb_spec (next_id (stream_id x)) 0) as [E|E]; [|split; [done|lia]].
  assert (Z.land (i32 (stream_id x + 1)) BLOCK_ID_MASK = 1) as E1.
  { change (next_id (i32 (stream_id x + 1)) = 1). rewrite next_id_mod, i32_mod32.
    rewrite next_id_mod in E. dlia. }
  cbn [stream_id open_streams]. rewrite E1. change (1 =? 0) with false. cbv iota. rewrite i32_add_l.
  assert (next_id (stream_id x + 1) = 1) as -> by (rewrite next_id_mod in *; dlia).
  split; [|lia]. do 4 f_equal. lia.
Qed.

(** The ids handed out by consecutive calls. *)
Fixpoint stream_ids (n : nat) x : list Z :=
  match n with
  | O => []
  | S n => match new_stream_id x with OK (id, x) => id :: stream_ids n x | Fault => [] end
  end.

(** C8: [new_stream_id] terminates in two passes whatever its counter holds, never faults and returns
    an id a block header can carry and that is not the id of entry blocks. *)
Theorem new_stream_id_total x :
  ∃ id x', new_stream_id x = OK (id, x') ∧ 0 < id < 32 ∧ id ≠ BLOCK_ID_ENTRY
    ∧ open_streams x' = open_streams x
    ∧ ∀ fuel, fresh_stream_id (S (S fuel)) x = OK (id, x').
Proof.
  pose proof (λ f, fresh_stream_id_fuel x f) as F. cbv zeta in F.
  do 2 eexists. split; [apply (F 0%nat)|].
  split_and!; [apply (F 0%nat)..| |done|intros f; apply F].
  unfold BLOCK_ID_ENTRY. pose proof (proj2 (F 0%nat)). lia.
Qed.

(** The ids depend only on the low five bits of the counter. *)
Lemma stream_ids_mod n : ∀ x y,
  stream_id x mod 32 = stream_id y mod 32 → stream_ids n x = stream_ids n y.
Proof.
  induction n as [|n IH]; intros x y E; [done|]. cbn [stream_ids]. unfold new_stream_id.
  pose proof (fresh_stream_id_fuel x 0) as [Hx _]. pose proof (fresh_stream_id_fuel y 0) as [Hy _].
  rewrite !next_id_mod, E in Hx. rewrite !next_id_mod in Hy.
  set (z := stream_id y mod 32 =? 0) in *. rewrite Hx, Hy. destruct z.
  - f_equal; [dlia|]. apply IH. cbn [stream_id]. rewrite !i32_mod32. dlia.
  - f_equal; [done|]. apply IH. cbn [stream_id]. rewrite !i32_mod32. dlia.
Qed.

Lemma stream_ids_cases n (P : list Z → Prop) :
  Forall (λ v, P (stream_ids n (StreamStatics v 0))) (seqZ 0 32) → ∀ x, P (stream_ids n x).
Proof.
  intros F x. rewrite (stream_ids_mod n x (StreamStatics (stream_id x mod 32) 0))
    by (simpl; by rewrite Zmod_mod).
  rewrite Forall_forall in F. apply F, elem_of_seqZ. pose proof (Z.mod_pos_bound (stream_id x) 32).
  lia.
Qed.

(** Any 31 consecutive calls of [new_stream_id] return 31 different ids, wherever its counter
    stands: all the ids a block header can carry besides the one of entry blocks. The 32nd call
    returns the first of them again. *)
Theorem new_stream_id_cycle x :
  let ids := stream_ids 32 x in
  NoDup (take 31 ids) ∧ Forall (λ id, 0 < id < 32) ids ∧ length ids = 32%nat
  ∧ ids !! 31%nat = ids !! 0%nat.
Proof.
  revert x. apply (stream_ids_cases 32 (λ ids, NoDup (take 31 ids) ∧ Forall (λ id, 0 < id < 32) ids
    ∧ length ids = 32%nat ∧ ids !! 31%nat = ids !! 0%nat)).
  apply (bool_decide_unpack _). by vm_compute.
Qed.
End Ids.

(** * The bytes of a stream *)

Section StreamLemmas.
Context {BO : ByteOrder} {SL : SList} {KW : KWork} {MQ : MsgQ} {CF : Config} {C : Type}.
Implicit Types (s : sys C) (x : pouch_stream).

Abbreviation opening_t := (option (Z * list byte)).

(** Finished blocks of stream [id] that carry the pieces [cs] of its data, the first one with the
    stream header if the stream is [opening]. [last] marks the last block. *)
Fixpoint sent (id : Z) (opening : opening_t) (last : bool) (bs : list pouch_buf)
    (cs : list (list byte)) : Prop :=
  match bs, cs with
  | [], [] => True
  | [b], [c] => finished_block b (id_byte id (is_opening opening) last) (stream_payload opening c)
  | b :: bs, c :: cs =>
    finished_block b (id_byte id (is_opening opening) false) (stream_payload opening c)
    ∧ sent id None last bs cs
  | _, _ => False
  end.

(** Whether the next block of the stream carries its header. *)
Definition opening_after (opening : opening_t) (bs : list pouch_buf) : opening_t :=
  match bs with [] => opening | _ => None end.

(** The blocks [bs] and the block being filled hold the bytes [log]. *)
Definition stream_pieces (opening : opening_t) (bs : list pouch_buf) x (log : list byte) : Prop :=
  ∃ cs c,
    sent (st_id x) opening false bs cs
    ∧ is_block (st_buf x) (id_byte (st_id x) (is_opening (opening_after opening bs)) false)
        (stream_payload (opening_after opening bs) c)
    ∧ concat cs ++ c = log.

(** Abstract view of an open stream: [bs] are the blocks it has enqueued, and they hold, with the
    block it is filling, exactly the bytes [log] written to it. *)
Record stream_log (opening : opening_t) (bs : list pouch_buf) x (log : list byte) : Prop := {
  sl_id : 0 < st_id x < 32;
  sl_bytes : st_bytes x = u32 (len log);
  sl_pieces : stream_pieces opening bs x log;
}.

Lemma stream_payload_app opening c d :
  stream_payload opening (c ++ d) = stream_payload opening c ++ d.
Proof. destruct opening as [[]|]; simpl; [by rewrite app_assoc|done]. Qed.

Lemma opening_after_snoc opening bs b : opening_after opening (bs ++ [b]) = None.
Proof. by destruct bs. Qed.

Lemma sent_snoc id last b c : ∀ bs opening cs,
  sent id opening false bs cs →
  finished_block b (id_byte id (is_opening (opening_after opening bs)) last)
    (stream_payload (opening_after opening bs) c) →
  sent id opening last (bs ++ [b]) (cs ++ [c]).
Proof.
  induction bs as [|b0 bs IH]; intros opening [|c0 cs] S F; try done; [by destruct bs|].
  destruct bs as [|b1 bs], cs as [|c1 cs].
  - by split.
  - by destruct S.
  - destruct S as [_ S]. by destruct bs.
  - destruct S as [S0 S]. split; [done|]. by apply (IH None).
Qed.

(** ** One round of the write loop *)

Lemma append_data x opening c d :
  is_block (st_buf x) (id_byte (st_id x) (is_opening opening) false) (stream_payload opening c) →
  len d ≤ block_space_get (st_buf x) →
  buf_write (st_buf x) d = OK (pushed (st_buf x) d)
  ∧ is_block (pushed (st_buf x) d) (id_byte (st_id x) (is_opening opening) false)
      (stream_payload opening (c ++ d)).
Proof.
  intros B L. rewrite (block_space_get_spec _ _ _ B) in L. rewrite stream_payload_app.
  apply (block_write _ _ _ d B). lia.
Qed.

Lemma load_at_slice d i n : 0 ≤ i → 0 ≤ n → i + n ≤ len d →
  load_at d i n = OK (ztake n (zdrop i d)).
Proof.
  intros. unfold load_at. by rewrite guard_true by (rewrite !andb_true_iff, !Z.leb_le; lia).
Qed.

Lemma zoom_block_alloc_stream id first s :
  ∃ r h, zoom (block_alloc_stream id first) s = OK (r, set_heap h s)
    ∧ malloc_ok h = malloc_ok (s_heap s)
    ∧ (∀ k, balanced s k → live h (owned s + k + occ r))
    ∧ (r = None → malloc_ok (s_heap s) (malloc_n (s_heap s)) = false)
    ∧ (∀ b, r = Some b → is_block b (id_byte id first false) []).
Proof.
  unfold zoom; simpl part_get. pose proof (block_alloc_stream_spec id first (s_heap s)) as A.
  destruct (malloc_ok _ _).
  - destruct A as (b & -> & B). do 2 eexists. split; [reflexivity|].
    split_and!; [done| |done|by intros ? [= <-]]. intros k L. by apply live_alloc.
  - rewrite A. do 2 eexists. split; [reflexivity|]. split_and!; [done| |done..].
    intros k L. eapply live_eq; [by apply live_keep|simpl; lia].
Qed.

(** Nothing of a stream changes but its buffer. *)
Definition same_stream x x' : Prop := x' = set_st_buf (st_buf x') x.

(** The writer's part of the state after the blocks [new] were enqueued. *)
Record stream_step (new : list pouch_buf) s s' : Prop := {
  ss_pending : pending s' = pending s ++ new;
  ss_frame : writer_frame s s';
  ss_block : s_block s' = s_block s;
  ss_balanced k : balanced s k → balanced s' k;
}.

Lemma stream_step_refl s : stream_step [] s s.
Proof. split; [by rewrite app_nil_r|done..]. Qed.

Lemma stream_step_trans bs bs' s1 s2 s3 :
  stream_step bs s1 s2 → stream_step bs' s2 s3 → stream_step (bs ++ bs') s1 s3.
Proof.
  intros [E1 F1 B1 K1] [E2 F2 B2 K2]. split; [by rewrite E2, E1, app_assoc|by etrans|congruence|auto].
Qed.

(** A new block replaces a full one, which is enqueued. *)
Lemma swap_step s h b :
  malloc_ok h = malloc_ok (s_heap s) → (∀ k, balanced s k → live h (owned s + k + 1)) →
  stream_step [b] s (enqueued b (set_heap h s)).
Proof.
  intros M L. split.
  - by rewrite pending_enqueued.
  - etrans; [by apply (set_heap_frame h)|apply enqueued_frame].
  - done.
  - intros k B. specialize (L k B). solve_balanced.
Qed.

Lemma alloc_failed_step s h :
  malloc_ok h = malloc_ok (s_heap s) → (∀ k, balanced s k → live h (owned s + k + 0)) →
  stream_step [] s (set_heap h s).
Proof.
  intros M L. split; [by rewrite app_nil_r|by apply set_heap_frame|done|].
  intros k B. specialize (L k B). solve_balanced.
Qed.

(** Appending a slice of the data to the current block. *)
Lemma append_slice opening bs x log data w n :
  stream_pieces opening bs x log → 0 ≤ w < n → n = len data →
  let m := Z.min (block_space_get (st_buf x)) (n - w) in
  ∃ d b, load_at data w m = OK d ∧ d = ztake m (zdrop w data) ∧ buf_write (st_buf x) d = OK b
    ∧ 0 ≤ m ≤ n - w ∧ (block_space_get (st_buf x) ≠ 0 → 0 < m)
    ∧ stream_pieces opening bs (set_st_buf b x) (log ++ d).
Proof.
  intros (cs & c & S & B & <-) W -> m. pose proof (block_space_get_spec _ _ _ B) as Sp.
  pose proof (is_block_len _ _ _ B) as L.
  assert (0 ≤ m ≤ len data - w) by lia.
  set (d := ztake m (zdrop w data)). assert (len d = m) as Ld by (unfold d; solve_len).
  destruct (append_data x _ c d B) as [E B']; [lia|].
  exists d, (pushed (st_buf x) d). split_and!; [by rewrite load_at_slice by lia|done..|lia|lia|lia|].
  exists cs, (c ++ d). split_and!; [done..|]. by rewrite app_assoc.
Qed.

(** What the write loop promises of a run that starts with [w] bytes written. *)
Definition loop_result data n opening bs x log w s (run : outcome (Z * pouch_stream * sys C)) :=
  ∃ w' x' s' new,
    run = OK ((w', x'), s') ∧ w ≤ w' ≤ n ∧ same_stream x x'
    ∧ stream_pieces opening (bs ++ new) x' (log ++ ztake (w' - w) (zdrop w data))
    ∧ stream_step new s s' ∧ s_stream s' = s_stream s
    ∧ (malloc_never_fails (s_heap s) → w' = n).

Lemma loop_stop data n opening bs x log w s s' :
  stream_pieces opening bs x log → w ≤ n → stream_step [] s s' → s_stream s' = s_stream s →
  (malloc_never_fails (s_heap s) → w = n) →
  loop_result data n opening bs x log w s (OK ((w, x), s')).
Proof.
  intros P W S T M. exists w, x, s', []. split_and!; [done|lia|lia|by destruct x| |done..].
  rewrite Z.sub_diag. simpl. by rewrite !app_nil_r.
Qed.

Lemma loop_append data n opening bs x b log w m s run :
  0 ≤ w → 0 ≤ m → w + m ≤ n →
  loop_result data n opening bs (set_st_buf b x) (log ++ ztake m (zdrop w data)) (w + m) s run →
  loop_result data n opening bs x log w s run.
Proof.
  intros W M N (w' & x' & s' & new & -> & R & X & P & S & T & F). exists w', x', s', new.
  split_and!; [done|lia|lia|exact X| |done..].
  rewrite <- app_assoc in P. rewrite <- (zdrop_zdrop data w m), ztake_zdrop_split in P by lia.
  by replace (m + (w' - (w + m))) with (w' - w) in P by lia.
Qed.

Lemma loop_swap data n opening bs x b fb log w s s' run :
  stream_step [fb] s s' → s_stream s' = s_stream s → malloc_ok (s_heap s') = malloc_ok (s_heap s) →
  loop_result data n opening (bs ++ [fb]) (set_st_buf b x) log w s' run →
  loop_result data n opening bs x log w s run.
Proof.
  intros S0 T0 M (w' & x' & s2 & new & -> & R & X & P & S & T & F). exists w', x', s2, (fb :: new).
  split_and!; [done|lia|lia|exact X| | |congruence|].
  - by rewrite <- app_assoc in P.
  - by apply (stream_step_trans [fb] new _ s').
  - intros A. apply F. unfold malloc_never_fails in *. by rewrite M.
Qed.

(** A full block, finished, is one more piece. *)
Lemma swap_pieces opening bs x b log :
  0 < st_id x < 32 → stream_pieces opening bs x log →
  is_block b (id_byte (st_id x) false false) [] →
  ∃ fb, block_finish_stream (st_buf x) (st_id x) false = OK fb
    ∧ stream_pieces opening (bs ++ [fb]) (set_st_buf b x) log.
Proof.
  intros I (cs & c & S & B & <-) Bb. assert (0 ≤ st_id x < 32) as I' by lia.
  destruct (block_finish_stream_spec _ _ _ false _ I' B) as (fb & E & F).
  exists fb. split; [done|]. exists (cs ++ [c]), []. rewrite opening_after_snoc.
  split_and!; [by apply sent_snoc|done|]. rewrite concat_app. simpl. by rewrite !app_nil_r.
Qed.

Lemma stream_write_loop_spec data n : n = len data → ∀ fuel x s w opening bs log,
  0 < st_id x < 32 → stream_pieces opening bs x log → 0 ≤ w ≤ n → n - w ≤ Z.of_nat fuel →
  loop_result data n opening bs x log w s (stream_write_loop fuel x data n w s).
Proof.
  intros En fuel. induction fuel as [|fuel IH]; intros x s w opening bs log I P W Hf;
    cbn [stream_write_loop]; destruct (Z.ltb_spec w n); cbn [negb]; try lia;
    try (apply loop_stop; auto using stream_step_refl; lia).
  assert (∀ x s bs, 0 < st_id x < 32 → stream_pieces opening bs x log →
    block_space_get (st_buf x) ≠ 0 → loop_result data n opening bs x log w s
      ((d ← lift (load_at data w (Z.min (block_space_get (st_buf x)) (n - w)));
        buf ← lift (buf_write (st_buf x) d);
        stream_write_loop fuel (set_st_buf buf x) data n
          (w + Z.min (block_space_get (st_buf x)) (n - w))) s)) as A.
  { clear x s bs I P. intros x s bs I P Sp.
    destruct (append_slice _ _ _ _ data w n P) as (d & b & E1 & Ed & E2 & M & M0 & P');
      [lia|done|]. specialize (M0 Sp).
    rewrite E1, (st_bind_OK _ _ s d s) by done.
    rewrite E2, (st_bind_OK _ _ s b s) by done.
    apply (loop_append _ _ _ _ _ b _ _ (Z.min (block_space_get (st_buf x)) (n - w)));
      [lia..|]. rewrite <- Ed. apply IH; [done|done|lia|lia]. }
  destruct (Z.eqb_spec (block_space_get (st_buf x)) 0); [|by apply A].
  destruct (zoom_block_alloc_stream (st_id x) false s) as (r & h & E & M & L & N & B).
  rewrite (st_bind_OK _ _ _ _ _ E). destruct r as [b|].
  - destruct (swap_pieces _ _ _ b _ I P) as (fb & Ef & P'); [by apply B|].
    rewrite Ef, (st_bind_OK _ _ _ fb (set_heap h s)) by done.
    rewrite (st_bind_OK _ _ _ _ _ (uplink_enqueue_run fb (set_heap h s))).
    eapply loop_swap; [by apply swap_step|done|done|]. apply A; [done..|].
    cbn [st_buf set_st_buf]. rewrite (block_space_get_spec _ _ _ (B b eq_refl)). simpl.
    pose proof MAX_BLOCK_PAYLOAD_SIZE_range. lia.
  - apply loop_stop; [done|lia|by apply alloc_failed_step|done|]. intros F.
    specialize (N eq_refl). by rewrite F in N.
Qed.

(** ** Opening *)

Definition session_valid x s : bool := st_session_id x =? u32 (u_id (s_uplink s)).

Lemma session_valid_run x s : pouch_stream_is_valid (Some x) s = OK (session_valid x s, s).
Proof. done. Qed.

Lemma session_valid_frame x s s' : writer_frame s s' → session_valid x s' = session_valid x s.
Proof. intros [_ _ _ _ (q & w & E)]. unfold session_valid. by rewrite E. Qed.

(** What the format can carry of a stream's path. *)
Definition path_representable (path : list byte) : Prop :=
  no_nul path ∧ len path < 256 ∧ BLOCK_HEADER_SIZE + len path ≤ MAX_BLOCK_PAYLOAD_SIZE.

Lemma write_stream_header_spec b i ct path :
  is_block b i [] → path_representable path →
  ∃ b', write_stream_header b ct path = OK b' ∧ is_block b' i (stream_header (u16 ct) path).
Proof.
  intros B (N & P & F). unfold write_stream_header, buf_claim, BLOCK_HEADER_SIZE in *.
  rewrite strlen_no_nul by done. pose proof (len_put_be16 _ (u16_range ct)) as L.
  destruct (block_claim_write b i [] 2 (sys_put_be16 (u16 ct)) B) as [-> B1]; [lia|simpl; lia|].
  rewrite bind_OK. simpl app in B1.
  destruct (block_claim_write _ _ _ 1 [byte_of_Z (len path)] B1) as [-> B2]; [done|solve_len|].
  rewrite bind_OK, (load_all path), bind_OK.
  destruct (block_write _ _ _ path B2) as [-> B3]; [solve_len|].
  eexists. split; [done|]. unfold stream_header. by rewrite <- app_assoc in B3.
Qed.

(** The counter of open streams, changed by [d]. *)
Definition opened (d : Z) s s' : Prop := open_streams (s_stream s') = open_streams (s_stream s) + d.

Definition counter_ok s : Prop := 0 ≤ open_streams (s_stream s) ≤ POUCH_STREAMS_MAX.

Lemma set_stream_step y s : stream_step [] s (set_stream y s).
Proof. split; [by rewrite app_nil_r|apply set_stream_frame|done|intros k B; solve_balanced]. Qed.

Lemma stream_step_nil s1 s2 s3 : stream_step [] s1 s2 → stream_step [] s2 s3 → stream_step [] s1 s3.
Proof. apply (stream_step_trans [] []). Qed.

Lemma inc_run s : counter_ok s →
  inc_open_streams s = OK (open_streams (s_stream s),
    set_stream (StreamStatics (stream_id (s_stream s)) (open_streams (s_stream s) + 1)) s).
Proof.
  unfold counter_ok, POUCH_STREAMS_MAX. intros. unfold inc_open_streams, zoom. run_st. simpl.
  by rewrite i32_small by lia.
Qed.

Lemma dec_run s : 1 ≤ open_streams (s_stream s) ≤ POUCH_STREAMS_MAX + 1 →
  dec_open_streams s = OK (tt,
    set_stream (StreamStatics (stream_id (s_stream s)) (open_streams (s_stream s) - 1)) s).
Proof.
  unfold POUCH_STREAMS_MAX. intros. unfold dec_open_streams, zoom. run_st. simpl.
  by rewrite i32_small by lia.
Qed.

Lemma malloc_run s :
  ∃ h, zoom malloc s = OK (malloc_ok (s_heap s) (malloc_n (s_heap s)), set_heap h s)
    ∧ malloc_ok h = malloc_ok (s_heap s) ∧ bufs h = bufs (s_heap s).
Proof. by eexists (Heap _ _ _). Qed.

Lemma malloc_step s h :
  malloc_ok h = malloc_ok (s_heap s) → bufs h = bufs (s_heap s) → stream_step [] s (set_heap h s).
Proof.
  intros M B. apply alloc_failed_step; [done|]. intros k L. unfold live. rewrite B, Z.add_0_r.
  apply L.
Qed.

Lemma new_stream_id_run s :
  ∃ id y, zoom new_stream_id s = OK (id, set_stream y s) ∧ 0 < id < 32
    ∧ open_streams y = open_streams (s_stream s).
Proof.
  pose proof (fresh_stream_id_fuel (s_stream s) 0) as [E I]. unfold zoom, new_stream_id.
  change (part_get s) with (s_stream s). rewrite E. by do 2 eexists.
Qed.

(** What [pouch_uplink_stream_open] promises. *)
Definition open_result (ct : Z) (path : list byte) s (r : option pouch_stream) s' : Prop :=
  match r with
  | Some x =>
    stream_log (Some (u16 ct, path)) [] x [] ∧ session_valid x s' = true ∧ opened 1 s s'
    ∧ open_streams (s_stream s) < POUCH_STREAMS_MAX
    ∧ pending s' = pending s ∧ s_block s' = s_block s ∧ writer_frame s s'
    ∧ ∀ k, balanced s k → balanced s' (k + 1)
  | None =>
    stream_step [] s s' ∧ opened 0 s s'
    ∧ (malloc_never_fails (s_heap s) → POUCH_STREAMS_MAX ≤ open_streams (s_stream s))
  end.

Lemma stream_open_run s ct path :
  counter_ok s → path_representable path →
  ∃ r s', pouch_uplink_stream_open path ct s = OK (r, s') ∧ open_result ct path s r s'.
Proof.
  intros Cn P. unfold pouch_uplink_stream_open. rewrite (st_bind_OK _ _ _ _ _ (inc_run s Cn)).
  unfold counter_ok, open_result, opened in *.
  set (y1 := StreamStatics _ _). set (s1 := set_stream y1 s).
  assert (1 ≤ open_streams (s_stream s1) ≤ POUCH_STREAMS_MAX + 1) as C1 by (simpl; lia).
  pose proof (set_stream_step y1 s) as S1. fold s1 in S1.
  destruct (Z.leb_spec POUCH_STREAMS_MAX (open_streams (s_stream s))).
  { rewrite (st_bind_OK _ _ _ _ _ (dec_run s1 C1)). eexists None, _. split; [reflexivity|].
    split_and!; [by eapply stream_step_nil, set_stream_step|simpl; lia|done]. }
  destruct (malloc_run s1) as (h1 & Em & M1 & B1). rewrite (st_bind_OK _ _ _ _ _ Em).
  set (s2 := set_heap h1 s1). pose proof (stream_step_nil _ _ _ S1 (malloc_step s1 h1 M1 B1)) as S2.
  fold s2 in S2. destruct (malloc_ok _ _) eqn:Ok; cbn [negb].
  2:{ rewrite (st_bind_OK _ _ _ _ _ (dec_run s2 C1)). eexists None, _. split; [reflexivity|].
    split_and!; [by eapply stream_step_nil, set_stream_step|simpl; lia|].
    intros A. by rewrite A in Ok. }
  destruct (new_stream_id_run s2) as (id & y3 & Ei & I & O3). rewrite (st_bind_OK _ _ _ _ _ Ei).
  set (s3 := set_stream y3 s2). pose proof (stream_step_nil _ _ _ S2 (set_stream_step y3 s2)) as S3.
  fold s3 in S3. rewrite (st_bind_OK _ _ s3 (u32 (u_id (s_uplink s3))) s3) by done.
  destruct (zoom_block_alloc_stream id true s3) as (r & h & Ea & M & L & N & B).
  rewrite (st_bind_OK _ _ _ _ _ Ea). set (s4 := set_heap h s3). destruct r as [b|].
  - destruct (write_stream_header_spec b _ ct path (B b eq_refl) P) as (b' & Eh & Bh).
    rewrite Eh, (st_bind_OK _ _ s4 b' s4) by done.
    eexists (Some _), s4. split; [reflexivity|]. destruct S3 as [Pe Fr Bl Ba].
    split_and!.
    + split; simpl; [done|done|]. exists [], []. split_and!; [done| |done].
      simpl. by rewrite app_nil_r.
    + apply Z.eqb_refl.
    + simpl. rewrite O3. done.
    + done.
    + rewrite app_nil_r in Pe. apply Pe.
    + done.
    + etrans; [apply Fr|]. by apply set_heap_frame.
    + intros k K. specialize (L k (Ba k K)). unfold s4. solve_balanced.
  - assert (1 ≤ open_streams (s_stream s4) ≤ POUCH_STREAMS_MAX + 1) as C4
      by (simpl; rewrite O3; simpl in *; lia).
    rewrite (st_bind_OK _ _ _ _ _ (dec_run s4 C4)). eexists None, _. split; [reflexivity|].
    split_and!.
    + eapply stream_step_nil; [apply S3|]. eapply stream_step_nil, set_stream_step.
      by apply alloc_failed_step.
    + simpl. rewrite O3. simpl. lia.
    + intros A. specialize (N eq_refl). simpl in N. rewrite M1 in N. simpl in N. by rewrite A in N.
Qed.

(** Opening a stream: it yields an empty stream of the current session with an id of its own
    block headers, or NULL when memory runs out or POUCH_STREAMS_MAX streams are open; in the latter
    case the count of open streams is restored and no buffer is kept. It never faults, for a path
    that fits the header. *)
Theorem stream_open_spec s ct path :
  counter_ok s → path_representable path →
  ∃ r s', pouch_uplink_stream_open path ct s = OK (r, s') ∧ open_result ct path s r s'.
Proof. apply stream_open_run. Qed.

Lemma stream_write_pieces opening bs x log data s :
  0 < st_id x < 32 → stream_pieces opening bs x log → session_valid x s = true →
  ∃ w x' s' new,
    pouch_stream_write (Some x) data (len data) s = OK ((w, Some x'), s')
    ∧ 0 ≤ w ≤ len data ∧ st_id x' = st_id x ∧ st_bytes x' = u32 (st_bytes x + w)
    ∧ stream_pieces opening (bs ++ new) x' (log ++ ztake w data)
    ∧ stream_step new s s' ∧ s_stream s' = s_stream s ∧ session_valid x' s' = true
    ∧ (malloc_never_fails (s_heap s) → w = len data).
Proof.
  intros I P V. unfold pouch_stream_write.
  rewrite (st_bind_OK _ _ _ _ _ (session_valid_run x s)), V.
  destruct (stream_write_loop_spec data (len data) eq_refl (Z.to_nat (len data)) x s 0 opening bs log
    I P) as (w & x' & s' & new & E & W & X & P' & S & T & F); [lia|lia|].
  rewrite (st_bind_OK _ _ _ _ _ E). rewrite Z.sub_0_r in P'. simpl in P'.
  do 4 eexists. split; [reflexivity|]. rewrite X. split_and!; try done; try lia.
  - by rewrite X in P'.
  - rewrite (session_valid_frame _ s s') by apply S. exact V.
Qed.

(** Writing to a stream of the current session appends a prefix of the data, all of it when
    memory does not run out; the bytes accepted so far stay in order, each in exactly one block, and
    a write to a stream of an earlier session does nothing. *)
Theorem stream_write_logs opening bs x log data s :
  stream_log opening bs x log →
  (session_valid x s = true →
   ∃ w x' s' new,
     pouch_stream_write (Some x) data (len data) s = OK ((w, Some x'), s')
     ∧ 0 ≤ w ≤ len data ∧ stream_log opening (bs ++ new) x' (log ++ ztake w data)
     ∧ stream_step new s s' ∧ session_valid x' s' = true
     ∧ (malloc_never_fails (s_heap s) → w = len data)) ∧
  (session_valid x s = false →
   pouch_stream_write (Some x) data (len data) s = OK ((0, Some x), s)).
Proof.
  intros [I Eb P]. split; intros V.
  - destruct (stream_write_pieces opening bs x log data s I P V)
      as (w & x' & s' & new & E & W & Ei & En & P' & S & _ & V' & F).
    exists w, x', s', new. split_and!; try done; try lia. split; [by rewrite Ei| |done].
    rewrite En, Eb. assert (len (ztake w data) = w) as <- by solve_len.
    unfold u32. rewrite Zplus_mod_idemp_l. f_equal. solve_len.
  - unfold pouch_stream_write. by rewrite (st_bind_OK _ _ _ _ _ (session_valid_run x s)), V.
Qed.

Lemma stream_close_pieces opening bs x log s :
  0 < st_id x < 32 → stream_pieces opening bs x log → counter_ok s → 1 ≤ open_streams (s_stream s) →
  ∃ s' new,
    pouch_stream_close (Some x) s = OK (SUCCESS, s') ∧ opened (-1) s s'
    ∧ pending s' = pending s ++ new ∧ s_block s' = s_block s ∧ writer_frame s s'
    ∧ (∀ k, balanced s (k + 1) → balanced s' k)
    ∧ (if session_valid x s && (0 <? st_bytes x) then
         ∃ b cs, new = [b] ∧ sent (st_id x) opening true (bs ++ [b]) cs ∧ concat cs = log
       else new = []).
Proof.
  intros I (cs & c & S & B & El) Cn O. unfold pouch_stream_close, counter_ok, opened in *.
  rewrite (st_bind_OK _ _ _ _ _ (session_valid_run x s)).
  destruct (session_valid x s && _).
  - assert (0 ≤ st_id x < 32) as I' by lia.
    destruct (block_finish_stream_spec _ _ _ true _ I' B) as (fb & E & F).
    rewrite (st_bind_OK _ _ s tt (enqueued fb s)) by (run_st; by rewrite E).
    rewrite (st_bind_OK _ _ _ _ _ (dec_run (enqueued fb s) ltac:(simpl; lia))).
    eexists _, [fb]. split; [reflexivity|]. split_and!.
    + simpl; lia.
    + apply pending_enqueued.
    + done.
    + etrans; [apply enqueued_frame|apply set_stream_frame].
    + intros k K. solve_balanced.
    + exists fb, (cs ++ [c]). split_and!; [done|by apply sent_snoc|].
      rewrite concat_app. simpl. by rewrite app_nil_r.
  - set (s1 := set_heap (set_bufs (i32 (bufs (s_heap s) - 1)) (s_heap s)) s).
    rewrite (st_bind_OK _ _ s tt s1) by done.
    rewrite (st_bind_OK _ _ _ _ _ (dec_run s1 ltac:(simpl; lia))).
    eexists _, []. split; [reflexivity|]. split_and!.
    + simpl; lia.
    + by rewrite app_nil_r.
    + done.
    + transitivity s1; [by apply set_heap_frame|apply set_stream_frame].
    + intros k K. apply live_free in K. unfold s1. solve_balanced.
    + done.
Qed.

(** Closing a stream of the current session that was written to enqueues its last block, marked
    as such, and the stream's blocks then hold exactly the bytes written, opened by its header;
    otherwise its block is freed and nothing is enqueued. Either way no buffer is leaked and the
    stream no longer counts as open. *)
Theorem stream_close_spec opening bs x log s :
  stream_log opening bs x log → counter_ok s → 1 ≤ open_streams (s_stream s) →
  ∃ s' new,
    pouch_stream_close (Some x) s = OK (SUCCESS, s') ∧ opened (-1) s s'
    ∧ pending s' = pending s ++ new ∧ writer_frame s s'
    ∧ (∀ k, balanced s (k + 1) → balanced s' k)
    ∧ (if session_valid x s && (0 <? u32 (len log)) then
         ∃ b cs, new = [b] ∧ sent (st_id x) opening true (bs ++ [b]) cs ∧ concat cs = log
       else new = []).
Proof.
  intros [I Eb P] Cn O. rewrite <- Eb.
  destruct (stream_close_pieces opening bs x log s I P Cn O)
    as (s' & new & E & Op & Pe & _ & Fr & K & N).
  exists s', new. by split_and!.
Qed.

(** ** Parsed by the peer *)

(** What the pieces of a stream deliver. *)
Fixpoint deliver_pieces {A} (handlers : list (pouch_downlink_handler A)) (id : Z)
    (opening : opening_t) (cs : list (list byte)) (a : A) : A :=
  match cs with
  | [] => a
  | [c] => deliver_stream handlers a id opening c true
  | c :: cs => deliver_pieces handlers id None cs (deliver_stream handlers a id opening c false)
  end.

Lemma push_sent_block {A} (handlers : list (pouch_downlink_handler A)) id opening last b c a :
  0 < id < 32 → opening_wf opening →
  finished_block b (id_byte id (is_opening opening) last) (stream_payload opening c) →
  pouch_downlink_block_push handlers b a = OK (deliver_stream handlers a id opening c last).
Proof.
  intros I O [B E]. pose proof (is_block_len _ _ _ B). pose proof MAX_BLOCK_PAYLOAD_SIZE_range.
  apply block_push_stream; [apply B|done|done|lia|done].
Qed.

(** C12: a round trip: the blocks of a closed stream, parsed one after the other, deliver the path and
    content type once, then the pieces of the data in order, only the last one marked as last. *)
Theorem stream_roundtrip {A} (handlers : list (pouch_downlink_handler A)) id bs cs a : ∀ opening,
  0 < id < 32 → opening_wf opening → sent id opening true bs cs →
  push_all handlers bs a = OK (deliver_pieces handlers id opening cs a).
Proof.
  revert cs a. induction bs as [|b bs IH]; intros [|c cs] a opening I O S; try done;
    [by destruct bs|].
  cbn [push_all]. destruct bs as [|b' bs], cs as [|c' cs].
  - by rewrite (push_sent_block handlers id opening true b c a I O S).
  - by destruct S.
  - destruct S as [_ S]. by destruct bs.
  - destruct S as [F S]. rewrite (push_sent_block handlers id opening false b c a I O F), bind_OK.
    by rewrite (IH (c' :: cs) _ None I Logic.I S).
Qed.

End StreamLemmas.

Module StreamWitness.
#[local] Existing Instances Native.byte_order Native.config_none Native.list_slist Native.flag_work
  Native.list_msgq.

Definition ex_sys : sys CryptoNone.state := boot Native.heap0 4 None.

Lemma stream_open_spec_witness :
  ∃ r s', pouch_uplink_stream_open [x73] 60 ex_sys = OK (r, s') ∧ open_result 60 [x73] ex_sys r s'.
Proof.
  apply (stream_open_spec ex_sys 60 [x73]); [done|]. split; [|done].
  apply (bool_decide_unpack _). by vm_compute.
Defined.

(** Stream 1 of session 0, opened with path "s" and content type 60, holding byte 7. *)
Definition ex_stream : pouch_stream :=
  Stream 1 (PBuf 515 8 [x00; x00; x41; x00; x3c; x01; x73; x07]) 1 0.

Lemma ex_stream_log : stream_log (Some (60, [x73])) [] ex_stream [x07].
Proof.
  split; [done|done|]. exists [], [x07]. split_and!; [done| |done].
  split; [split; done|done|]. by exists x00, x00.
Qed.

Lemma stream_write_logs_witness :
  session_valid ex_stream ex_sys = true ∧
  ∃ w x' s' new,
    pouch_stream_write (Some ex_stream) [x08; x09] (len [x08; x09]) ex_sys = OK ((w, Some x'), s')
    ∧ 0 ≤ w ≤ len [x08; x09] ∧ stream_log (Some (60, [x73])) ([] ++ new) x' ([x07] ++ ztake w [x08; x09])
    ∧ stream_step new ex_sys s' ∧ session_valid x' s' = true
    ∧ (malloc_never_fails (s_heap ex_sys) → w = len [x08; x09]).
Proof.
  split; [done|]. by apply (stream_write_logs _ _ _ _ [x08; x09] ex_sys ex_stream_log).
Defined.

(** One open stream. *)
Definition ex_open : sys CryptoNone.state := set_stream (StreamStatics 2 1) ex_sys.

Lemma stream_close_spec_witness :
  ∃ s' new,
    pouch_stream_close (Some ex_stream) ex_open = OK (SUCCESS, s') ∧ opened (-1) ex_open s'
    ∧ pending s' = pending ex_open ++ new ∧ writer_frame ex_open s'
    ∧ (∀ k, balanced ex_open (k + 1) → balanced s' k)
    ∧ (∃ b cs, new = [b] ∧ sent 1 (Some (60, [x73])) true [b] cs ∧ concat cs = [x07]).
Proof. apply (stream_close_spec _ _ _ _ ex_open ex_stream_log); done. Defined.

(** Its blocks once closed, with one more block in between. *)
Definition ex_sent : list pouch_buf :=
  [PBuf 515 8 [x00; x06; x41; x00; x3c; x01; x73; x07]; PBuf 515 4 [x00; x02; x81; x08]].

Definition ex_handlers : list (pouch_downlink_handler (list (list byte))) :=
  [Handler (λ _ path _ a, a ++ [path]) (λ _ d _ _ a, a ++ [default [] d])].

Lemma stream_roundtrip_witness :
  push_all ex_handlers ex_sent [] = OK [[x73]; [x07]; [x08]].
Proof.
  apply (stream_roundtrip ex_handlers 1 ex_sent [[x07]; [x08]] [] (Some (60, [x73])));
    [done|done|].
  split; (split; [split; [split; done|done|by eexists _, _]|done]).
Defined.
End StreamWitness.
