(* ===== verification/Header.v ===== *)
(** The pouch header: src/src/header.c.

    The header is encoded into a buffer of its own; [header_bytes] is what it holds for the session the
    encryption layer is in. *)
From S2P Require Import Prelude Platform Buf Block Crypto State.

Definition POUCH_HEADER_VERSION : Z := 1.
Definition POUCH_HEADER_OVERHEAD : Z := 2.
Definition POUCH_HEADER_OVERHEAD_ENCRYPTION_NONE : Z := 3.

Section Header.
Context {CF : Config} {HC : HeaderCodec} {SL : SList} {KW : KWork} {MQ : MsgQ}.
Context {C : Type} {CR : Crypto C}.

Definition POUCH_HEADER_MAX_LEN : Z :=
  match CONFIG_POUCH_ENCRYPTION with
  | ENCRYPTION_NONE =>
    POUCH_HEADER_OVERHEAD + POUCH_HEADER_OVERHEAD_ENCRYPTION_NONE
    + CryptoNone.POUCH_DEVICE_ID_MAX_LEN
  | ENCRYPTION_SAEAD => 16 + SESSION_ID_LEN + CERT_REF_SHORT_LEN
  end.

Definition write_header (buf : pouch_buf) (maxlen : Z) (c : C) : outcome (status * pouch_buf) :=
  '(err, encryption_info_m) ← crypto_header_get c;
  match err with
  | Some e => OK (NEG e, buf)
  | None =>
    let header := PouchHeader POUCH_HEADER_VERSION encryption_info_m in
    match cbor_encode_pouch_header maxlen header with
    | None => OK (NEG ECBOR, buf)
    | Some d =>
      buf ← mem_write (buf_next buf) d buf;
      OK (SUCCESS, (buf_claim buf (len d)).2)
    end
  end.

Definition pouch_header_create : st (sys C) (option pouch_buf) :=
  header ← zoom (buf_alloc POUCH_HEADER_MAX_LEN);
  match header with
  | None => mret None
  | Some header =>
    c ← gets s_crypto;
    '(err, header) ← lift (write_header header POUCH_HEADER_MAX_LEN c);
    match err with
    | Some _ => zoom (buf_free (Some header));; mret None
    | None => mret (Some header)
    end
  end.

(** The header of the session the encryption layer is in, if it has one to give. *)
Definition header_bytes (c : C) : option (list byte) :=
  match crypto_header_get c with
  | OK (None, info) =>
    cbor_encode_pouch_header POUCH_HEADER_MAX_LEN (PouchHeader POUCH_HEADER_VERSION info)
  | _ => None
  end.

Lemma POUCH_HEADER_MAX_LEN_range : 37 ≤ POUCH_HEADER_MAX_LEN ≤ 38.
Proof. unfold POUCH_HEADER_MAX_LEN. destruct CONFIG_POUCH_ENCRYPTION; by compute. Qed.

Context {BO : ByteOrder} {HL : HeaderCodecLaws HC} {CL : CryptoLaws C}.

(** A header is created exactly when memory is available and the encryption layer can fill it; it then
    holds nothing but the encoding. *)
Lemma pouch_header_create_spec (s : sys C) :
  crypto_inv (s_crypto s) →
  ∃ r h, pouch_header_create s = OK (r, set_heap h s)
    ∧ malloc_ok h = malloc_ok (s_heap s)
    ∧ (∀ k, balanced s k → live h (owned s + k + occ r))
    ∧ (match r with
       | Some b => buf_wf b ∧ header_bytes (s_crypto s) = Some (contents b)
                   ∧ 0 < bytes b ≤ POUCH_HEADER_MAX_LEN
       | None => True
       end)
    ∧ (malloc_never_fails (s_heap s) → is_Some (header_bytes (s_crypto s)) → is_Some r).
Proof.
  intros I. unfold pouch_header_create, header_bytes.
  pose proof POUCH_HEADER_MAX_LEN_range. pose proof (header_get_ok _ I) as [[err info] Eh].
  pose proof (buf_alloc_spec POUCH_HEADER_MAX_LEN (s_heap s)) as Ea.
  destruct (malloc_ok (s_heap s) (malloc_n (s_heap s))) eqn:M.
  2:{ rewrite (st_bind_OK _ _ _ _ _ (zoom_OK _ _ _ _ Ea)).
      do 2 eexists. split; [reflexivity|]. split_and!; [done| |done|].
      - intros k L. eapply live_eq; [by apply live_keep|simpl; lia].
      - intros F. by rewrite F in M. }
  rewrite (st_bind_OK _ _ _ _ _ (zoom_OK _ _ _ _ Ea)).
  set (h := Heap _ _ _). change (part_set h s) with (set_heap h s).
  set (b0 := PBuf _ _ _). assert (buf_wf b0) as W0 by (apply fresh_wf; lia).
  assert (∀ k, balanced s k → live h (owned s + k + 1)) as Lh by (intros k L; by apply live_alloc).
  rewrite (st_bind_OK _ _ (set_heap h s) (s_crypto s) (set_heap h s)) by done.
  unfold write_header. rewrite Eh, bind_OK.
  assert (∀ e, ∃ r h', ('(err, header) ← lift (OK (NEG e, b0));
       match err with
       | Some _ => zoom (buf_free (Some header));; mret None
       | None => mret (Some header)
       end) (set_heap h s) = OK (r, set_heap h' s) ∧ r = None
       ∧ malloc_ok h' = malloc_ok (s_heap s) ∧ ∀ k, balanced s k → live h' (owned s + k + 0)) as Fail.
  { intros e. do 2 eexists. split; [reflexivity|]. split_and!; [done..|].
    intros k L. eapply live_eq; [apply live_free, Lh, L|lia]. }
  destruct err as [e|].
  { destruct (Fail e) as (r & h' & E & -> & M' & L'). exists None, h'. rewrite E. by split_and!. }
  destruct (cbor_encode_pouch_header _ _) as [d|] eqn:Ed.
  2:{ destruct (Fail ECBOR) as (r & h' & E & -> & M' & L'). exists None, h'. rewrite E.
      by split_and!. }
  pose proof (encode_fits _ _ _ Ed) as Fd.
  assert (fits b0 d) as F by (unfold fits; simpl; lia).
  destruct (buf_next_store b0 d W0 F) as (b1 & -> & Ec). rewrite bind_OK, Ec.
  exists (Some (pushed b0 d)), h. split; [reflexivity|]. split_and!; [done|done|..|done].
  - by apply pushed_wf.
  - by rewrite pushed_contents.
  - simpl; lia.
  - simpl; lia.
Qed.

End Header.
