(* ===== verification/Uplink.v ===== *)
(** Uplink sessions: src/src/uplink.c, and the event queue of src/src/pouch.c.

    The processing work encrypts the blocks the writers enqueue and moves them to the transport
    queue, the pouch header first; the transport reads the transport queue as one stream of bytes
    with [pouch_uplink_fill] until the closed pouch is drained. *)
From S2P Require Import Prelude Platform Buf Block Crypto State Entry Header.

(** include/pouch/types.h *)
Inductive pouch_result := POUCH_NO_MORE_DATA | POUCH_MORE_DATA | POUCH_ERROR.

#[export] Instance pouch_result_eq_dec : EqDecision pouch_result.
Proof. solve_decision. Defined.

(** * Events: pouch.c *)

Section Events.
Context {KW : KWork} {MQ : MsgQ}.

Definition pouch_event_emit (event : pouch_event) : st event_statics unit :=
  modify (λ e, EventStatics (k_msgq_put event (pouch_event_q e)) (event_work e));;
  modify (λ e, EventStatics (pouch_event_q e) (k_work_submit (event_work e))).

(** The handlers work on a state that contains the queue: they may write entries, close the pouch or
    emit events themselves, so that the loop has fuel; [dispatch_events_spec] says how much is enough. *)
Context {T : Type} `{!Part T event_statics}.
Implicit Types (handlers : list (pouch_event → st T unit)) (s : T).

Fixpoint run_handlers handlers (event : pouch_event) : st T unit :=
  match handlers with
  | [] => mret tt
  | callback :: handlers => callback event;; run_handlers handlers event
  end.

Definition event_get : st event_statics (option pouch_event) := λ e,
  let '(event, q) := k_msgq_get (pouch_event_q e) in OK (event, EventStatics q (event_work e)).

Fixpoint dispatch_loop (fuel : nat) handlers : st T unit :=
  event ← zoom event_get;
  match event, fuel with
  | None, _ => mret tt
  | Some _, O => fault
  | Some event, S fuel => run_handlers handlers event;; dispatch_loop fuel handlers
  end.

(** The event work taken from its queue and run. *)
Definition dispatch_events (fuel : nat) handlers : st T unit :=
  zoom (modify (λ e, EventStatics (pouch_event_q e) (k_work_take (event_work e))));;
  dispatch_loop fuel handlers.

Definition events_of s : list pouch_event := msgq_elems (pouch_event_q (part_get s)).

(** How to reason about the handlers: [I seen s] holds when they have had the events [seen], the first of
    the events [evs] that are delivered. *)
Record handles (evs : list pouch_event) (I : list pouch_event → T → Prop) handlers : Prop := {
  hd_frame seen e s : I seen s → I seen (part_set e s);
  hd_run seen event s : (seen ++ [event]) `prefix_of` evs → I seen s →
    ∃ s', run_handlers handlers event s = OK (tt, s') ∧ I (seen ++ [event]) s'
      ∧ part_get s' = part_get (T := event_statics) s;
}.

Lemma dispatch_loop_spec evs I handlers : handles evs I handlers → ∀ fuel seen s,
  I seen s → evs = seen ++ events_of s → (length (events_of s) ≤ fuel)%nat →
  ∃ s', dispatch_loop fuel handlers s = OK (tt, s') ∧ I evs s' ∧ events_of s' = []
    ∧ event_work (part_get s') = event_work (part_get s).
Proof.
  intros H. induction fuel as [|fuel IH]; intros seen s Is Ev Hf; cbn [dispatch_loop];
    unfold mbind at 1, st_bind at 1, zoom, event_get; unfold events_of in *;
    destruct (k_msgq_get_spec _ (pouch_event_q (part_get s))) as (G1 & G2 & _);
    destruct (k_msgq_get (pouch_event_q (part_get s))) as [ev q]; simpl in G1, G2; subst ev;
    destruct (msgq_elems (pouch_event_q (part_get s))) as [|ev l] eqn:Q; simpl in Hf |- *; try lia;
    try (rewrite app_nil_r in Ev; subst seen; eexists; split; [reflexivity|]; rewrite part_get_set;
         split_and!; [by apply (hd_frame _ _ _ H)|done|done]).
  edestruct (hd_run _ _ _ H seen ev) as (s1 & E1 & I1 & K1).
  { rewrite Ev. exists l. by rewrite <- app_assoc. }
  { by apply (hd_frame _ _ _ H). }
  rewrite (st_bind_OK _ _ _ _ _ E1). rewrite part_get_set in K1.
  destruct (IH _ s1 I1) as (s2 & E2 & I2 & N2 & W2).
  { rewrite K1. simpl. by rewrite G2, <- app_assoc. }
  { rewrite K1. simpl. rewrite G2. simpl. lia. }
  exists s2. rewrite K1 in W2. by split_and!.
Qed.

(** Running the event work delivers every queued event to every handler, in the order they were
    emitted, and leaves the queue empty: it ends after as many passes as there are events when the
    handlers emit none. *)
Theorem dispatch_events_spec I handlers fuel s :
  handles (events_of s) I handlers → I [] s → (length (events_of s) ≤ fuel)%nat →
  ∃ s', dispatch_events fuel handlers s = OK (tt, s') ∧ I (events_of s) s' ∧ events_of s' = []
    ∧ k_work_queued (event_work (part_get s')) = false.
Proof.
  intros H Is Hf. unfold dispatch_events. rewrite (st_bind_OK _ _ _ _ _ (zoom_OK _ _ _ _ eq_refl)).
  match goal with |- context [dispatch_loop _ _ ?t] => assert (events_of t = events_of s) as Et end.
  { unfold events_of. by rewrite part_get_set. }
  destruct (dispatch_loop_spec _ I handlers H fuel [] _ (hd_frame _ _ _ H _ _ _ Is) (eq_sym Et)
    ltac:(by rewrite Et)) as (s' & E & I' & N & W).
  exists s'. split_and!; [done..|]. rewrite W, part_get_set. apply k_work_take_spec.
Qed.

End Events.

(** * Sessions: uplink.c *)

Section Uplink.
Context {BO : ByteOrder} {SL : SList} {KW : KWork} {MQ : MsgQ} {CF : Config} {HC : HeaderCodec}.
Context {C : Type} {CR : Crypto C}.

Definition session_is_active (s : sys C) : bool :=
  negb (Z.land (u_flags (s_uplink s)) (BIT SESSION_ACTIVE) =? 0).

Definition pouch_is_open (s : sys C) : bool :=
  negb (negb (Z.land (u_flags (s_uplink s)) (BIT POUCH_CLOSED) =? 0)).

Definition pouch_is_closing (s : sys C) : bool :=
  negb (Z.land (u_flags (s_uplink s)) (BIT POUCH_CLOSING) =? 0).

(** Changes of the uplink's variables. *)
Definition upd (f : pouch_uplink → pouch_uplink) : st (sys C) unit := modify (λ s, set_uplink (f (s_uplink s)) s).

Definition processing_get : st (sys C) (option pouch_buf) :=
  r ← gets (λ s, (buf_queue_get (u_processing_queue (s_uplink s))).1);
  upd (λ u, set_u_processing_queue (buf_queue_get (u_processing_queue u)).2 u);;
  mret r.

Definition transport_get : st (sys C) (option pouch_buf) :=
  r ← gets (λ s, (buf_queue_get (u_transport_queue (s_uplink s))).1);
  upd (λ u, set_u_transport_queue (buf_queue_get (u_transport_queue u)).2 u);;
  mret r.

Definition transport_submit (b : pouch_buf) : st (sys C) unit :=
  upd (λ u, set_u_transport_queue (buf_queue_submit (u_transport_queue u) b) u).

(** The loop of [process_blocks], with fuel: every pass takes a block from the queue. *)
Fixpoint process_blocks_loop (fuel : nat) : st (sys C) unit :=
  go ← gets (λ s, session_is_active s && pouch_is_open s
                  && negb (buf_queue_is_empty (u_processing_queue (s_uplink s))));
  if (go : bool) then
    match fuel with
    | O => fault
    | S fuel =>
      block ← processing_get;
      encrypted ← zoom (crypto_encrypt_block block);
      match encrypted with
      | None => process_blocks_loop fuel
      | Some encrypted =>
        header ← gets (λ s, u_header (s_uplink s));
        (match header with
         | Some header => transport_submit header;; upd (set_u_header None)
         | None => mret tt
         end);;
        transport_submit encrypted;;
        process_blocks_loop fuel
      end
    end
  else mret tt.

(** The processing work taken from its queue and run. *)
Definition process_blocks : st (sys C) unit :=
  upd (λ u, set_u_processing_work (k_work_take (u_processing_work u)) u);;
  n ← gets (λ s, length (pending s));
  process_blocks_loop n;;
  closing ← gets pouch_is_closing;
  if (closing : bool) then
    upd (λ u, set_u_flags (atomic_set_bit (u_flags u) POUCH_CLOSED) u)
  else mret tt.

Definition end_session : st (sys C) unit :=
  modify (λ s, set_crypto (crypto_session_end (s_crypto s)) s);;
  upd (λ u, set_u_flags (atomic_clear_bit (u_flags u) SESSION_ACTIVE) u);;
  zoom (pouch_event_emit POUCH_EVENT_SESSION_END).

Definition submit_processing : st (sys C) unit :=
  upd (λ u, set_u_processing_work (k_work_submit (u_processing_work u)) u).

Definition pouch_uplink_close (lock : status) : st (sys C) status :=
  closing ← gets (λ s, (atomic_test_and_set_bit (u_flags (s_uplink s)) POUCH_CLOSING).1);
  upd (λ u, set_u_flags (atomic_test_and_set_bit (u_flags u) POUCH_CLOSING).2 u);;
  if (closing : bool) then mret (NEG EALREADY) else
  err ← entry_block_close lock;
  submit_processing;;
  mret err.

Definition uplink_init : st (sys C) unit :=
  upd (set_u_processing_queue buf_queue_init);;
  upd (set_u_transport_queue buf_queue_init);;
  upd (set_u_processing_work k_work_init).

(** [true] stands for the pointer to the uplink, [false] for NULL. *)
Definition pouch_uplink_start : st (sys C) bool :=
  active ← gets (λ s, (atomic_test_and_set_bit (u_flags (s_uplink s)) SESSION_ACTIVE).1);
  upd (λ u, set_u_flags (atomic_test_and_set_bit (u_flags u) SESSION_ACTIVE).2 u);;
  if (active : bool) then mret false else
  let start_failed : st (sys C) bool :=
    upd (λ u, set_u_flags (atomic_clear_bit (u_flags u) SESSION_ACTIVE) u);; mret false in
  err ← gets (λ s, (crypto_session_start (s_crypto s)).1);
  modify (λ s, set_crypto (crypto_session_start (s_crypto s)).2 s);;
  if bool_decide (err ≠ SUCCESS) then start_failed else
  err ← gets (λ s, (crypto_pouch_start (s_crypto s)).1);
  modify (λ s, set_crypto (crypto_pouch_start (s_crypto s)).2 s);;
  if bool_decide (err ≠ SUCCESS) then start_failed else
  header ← pouch_header_create;
  upd (set_u_header header);;
  match header with
  | None => start_failed
  | Some _ =>
    zoom (pouch_event_emit POUCH_EVENT_SESSION_START);;
    empty ← gets (λ s, buf_queue_is_empty (u_processing_queue (s_uplink s)));
    (if negb empty then submit_processing else mret tt);;
    mret true
  end.

(** The loop of [pouch_uplink_fill], with fuel; [out] is what was written to [dst]. *)
Fixpoint fill_loop (fuel : nat) (maxlen : Z) (out : list byte) : st (sys C) (list byte) :=
  if negb (len out <? maxlen) then mret out else
  match fuel with
  | O => fault
  | S fuel =>
    let copy : st (sys C) (list byte) :=
      reader ← gets (λ s, u_transport_reader (s_uplink s));
      '(d, reader) ← lift (pouch_bufview_memcpy reader (maxlen - len out));
      upd (set_u_transport_reader reader);;
      (if pouch_bufview_available reader =? 0 then
         reader ← zoom (pouch_bufview_free reader);
         upd (set_u_transport_reader reader)
       else mret tt);;
      fill_loop fuel maxlen (out ++ d) in
    ready ← gets (λ s, pouch_bufview_is_ready (u_transport_reader (s_uplink s)));
    if (ready : bool) then copy
    else
      buf ← transport_get;
      match buf with
      | None => mret out
      | Some buf => upd (set_u_transport_reader (pouch_bufview_init buf));; copy
      end
  end.

(** The result, the final [*len] and the bytes written to [dst]. *)
Definition pouch_uplink_fill (maxlen : Z) : st (sys C) (pouch_result * Z * list byte) :=
  active ← gets session_is_active;
  if negb active then mret (POUCH_ERROR, maxlen, []) else
  n ← gets (λ s, length (elems (u_transport_queue (s_uplink s))));
  out ← fill_loop (Z.to_nat maxlen + n) maxlen [];
  more ← gets (λ s, pouch_is_open s
    || negb (pouch_bufview_available (u_transport_reader (s_uplink s)) =? 0)
    || negb (buf_queue_is_empty (u_transport_queue (s_uplink s))));
  if (more : bool) then mret (POUCH_MORE_DATA, len out, out)
  else
    end_session;;
    mret (POUCH_NO_MORE_DATA, len out, out).

Definition pouch_uplink_error : st (sys C) Z := gets (λ s, u_error (s_uplink s)).

(** The loop of [pouch_uplink_finish], with fuel: every pass takes a buffer from the queue. *)
Fixpoint free_transport (fuel : nat) : st (sys C) unit :=
  buf ← transport_get;
  match buf with
  | None => mret tt
  | Some buf =>
    match fuel with
    | O => fault
    | S fuel => zoom (buf_free (Some buf));; free_transport fuel
    end
  end.

Definition pouch_uplink_finish : st (sys C) unit :=
  n ← gets (λ s, length (elems (u_transport_queue (s_uplink s))));
  free_transport n;;
  reader ← gets (λ s, u_transport_reader (s_uplink s));
  reader ← zoom (pouch_bufview_free reader);
  upd (set_u_transport_reader reader);;
  header ← gets (λ s, u_header (s_uplink s));
  (match header with
   | Some header => zoom (buf_free (Some header));; upd (set_u_header None)
   | None => mret tt
   end);;
  upd (λ u, set_u_id (atomic_inc (u_id u)).2 u);;
  flags ← gets (λ s, u_flags (s_uplink s));
  upd (set_u_flags 0);;
  if negb (Z.land flags (BIT SESSION_ACTIVE) =? 0) then end_session else mret tt.

End Uplink.

(** * The transport side as a byte stream *)

Section Transport.
Context {BO : ByteOrder} {SL : SList} {KW : KWork} {MQ : MsgQ} {CF : Config} {HC : HeaderCodec}.
Context {C : Type} {CR : Crypto C}.
Implicit Types (s : sys C) (b : pouch_buf) (q : pouch_buf_queue_t) (r : pouch_bufview).

(** A buffer the transport reads. *)
Definition good b : Prop := buf_wf b ∧ 0 < bytes b.

Definition reader_ok r : Prop :=
  match v_buf r with None => True | Some b => buf_wf b ∧ 0 ≤ v_offset r < bytes b end.

Definition unread r : list byte :=
  match v_buf r with None => [] | Some b => rest b (v_offset r) end.

(** The bytes the transport has still to be given. *)
Definition stream_of q r : list byte := unread r ++ concat (map contents (elems q)).

Definition outgoing s : list byte :=
  stream_of (u_transport_queue (s_uplink s)) (u_transport_reader (s_uplink s)).

Definition tx_owned q r : Z := len (elems q) + occ (v_buf r).

(** The state with another heap, transport queue and reader. *)
Definition tx s (h : heap) q r : sys C :=
  set_heap h (set_uplink (set_u_transport_reader r (set_u_transport_queue q (s_uplink s))) s).

Lemma tx_id s : s = tx s (s_heap s) (u_transport_queue (s_uplink s)) (u_transport_reader (s_uplink s)).
Proof. by destruct s as [? ? ? [] ? ? ?]. Qed.

Lemma reader_available r : reader_ok r → pouch_bufview_available r = len (unread r).
Proof.
  destruct r as [[b|] o]; [|done]. intros [W O]; simpl in O. apply (available_at b o W). lia.
Qed.

Lemma reader_empty r : reader_ok r → unread r = [] → v_buf r = None.
Proof.
  destruct r as [[b|] o]; [|done]. intros [W O] E. unfold unread in E; simpl in *.
  pose proof (len_rest b o W ltac:(lia)) as L. rewrite E in L. simpl in L. lia.
Qed.

Lemma good_contents b : good b → 0 < len (contents b).
Proof. intros [W ?]. by rewrite len_contents. Qed.

(** Nothing to send means that no buffer is left. *)
Lemma stream_nil q r : Forall good (elems q) → reader_ok r → stream_of q r = [] →
  elems q = [] ∧ v_buf r = None.
Proof.
  unfold stream_of. intros F R [E1 E2]%app_eq_nil. split; [|by apply reader_empty].
  destruct (elems q) as [|b l]; [done|]. apply Forall_cons in F as [G _].
  apply good_contents in G. simpl in E2. apply app_eq_nil in E2 as [E2 _]. by rewrite E2 in G.
Qed.

(** What the loop promises, from [q] and [r], with [n] bytes to go. *)
Definition fill_result s (n : Z) (out : list byte) h q r (run : outcome (list byte * sys C)) : Prop :=
  ∃ h' q' r',
    run = OK (out ++ ztake n (stream_of q r), tx s h' q' r')
    ∧ stream_of q' r' = zdrop n (stream_of q r) ∧ Forall good (elems q') ∧ reader_ok r'
    ∧ malloc_ok h' = malloc_ok h
    ∧ ∀ k, live h (k + tx_owned q r) → live h' (k + tx_owned q' r').

Lemma fill_stop s n out h q r :
  Forall good (elems q) → reader_ok r → n ≤ 0 ∨ stream_of q r = [] →
  fill_result s n out h q r (OK (out, tx s h q r)).
Proof.
  intros G R E. assert (ztake n (stream_of q r) = [] ∧ zdrop n (stream_of q r) = stream_of q r)
    as [E1 E2].
  { destruct E as [E| ->]; [by replace (Z.to_nat n) with 0%nat by lia|].
    by rewrite take_nil, drop_nil. }
  exists h, q, r. rewrite E1, E2, app_nil_r. by split_and!.
Qed.

Lemma fill_result_eq s n out h q r q2 r2 run :
  stream_of q r = stream_of q2 r2 → tx_owned q r = tx_owned q2 r2 →
  fill_result s n out h q2 r2 run → fill_result s n out h q r run.
Proof. unfold fill_result. by intros -> ->. Qed.

(** The copying half of a pass. *)
(** What is handed out first, and the rest. *)
Lemma fill_more s n out h q r d h1 r1 run :
  stream_of q r = d ++ stream_of q r1 → len d ≤ n → malloc_ok h1 = malloc_ok h →
  (∀ k, live h (k + tx_owned q r) → live h1 (k + tx_owned q r1)) →
  fill_result s (n - len d) (out ++ d) h1 q r1 run → fill_result s n out h q r run.
Proof.
  intros E L M Lv (h' & q' & r' & -> & Es & G & R & Mh & B). exists h', q', r'.
  rewrite E, take_app_ge, drop_app_ge by lia.
  replace (Z.to_nat n - length d)%nat with (Z.to_nat (n - len d)) by lia.
  split_and!; [by rewrite <- app_assoc|done..|congruence|auto].
Qed.

Lemma fill_copy fuel maxlen s out h q b o :
  Forall good (elems q) → buf_wf b → 0 ≤ o < bytes b → len out < maxlen →
  (∀ h' q' r' out', Forall good (elems q') → reader_ok r' → len out' ≤ maxlen →
     length (elems q') = length (elems q) → len out < len out' →
     fill_result s (maxlen - len out') out' h' q' r' (fill_loop fuel maxlen out' (tx s h' q' r'))) →
  fill_result s (maxlen - len out) out h q (view_at b o)
    ((reader ← gets (λ s, u_transport_reader (s_uplink s));
      '(d, reader) ← lift (pouch_bufview_memcpy reader (maxlen - len out));
      upd (set_u_transport_reader reader);;
      (if pouch_bufview_available reader =? 0 then
         reader ← zoom (pouch_bufview_free reader);
         upd (set_u_transport_reader reader)
       else mret tt);;
      fill_loop fuel maxlen (out ++ d)) (tx s h q (view_at b o))).
Proof.
  intros G W O M IH. pose proof (len_rest b o W ltac:(lia)) as Lr.
  rewrite (st_bind_OK _ _ _ (view_at b o) (tx s h q (view_at b o))) by done.
  set (n := maxlen - len out) in *. assert (0 ≤ n) as N by lia.
  set (d := ztake n (rest b o)). set (r' := view_at b (o + Z.min n (len (rest b o)))).
  rewrite (st_bind_OK _ _ _ (d, r') (tx s h q (view_at b o)))
    by (unfold lift, r', d; by rewrite memcpy_at by (done || lia)).
  rewrite (st_bind_OK _ _ _ tt (tx s h q r')) by done.
  assert (pouch_bufview_available r' = len (rest b o) - Z.min n (len (rest b o))) as Av.
  { unfold r'. rewrite available_at, len_rest by (done || lia). lia. }
  assert (len d ≤ n ∧ 0 < len d) as [Ld Pd] by (unfold d; solve_len).
  assert (maxlen - len (out ++ d) = n - len d) as En by solve_len.
  destruct (Z.le_gt_cases (len (rest b o)) n) as [L|L].
  - rewrite Av, (proj2 (Z.eqb_eq _ _)) by lia.
    rewrite (st_bind_OK _ _ _ tt (tx s (set_bufs (i32 (bufs h - 1)) h) q (BufView None 0))) by done.
    apply (fill_more _ _ _ _ _ _ d (set_bufs (i32 (bufs h - 1)) h) (BufView None 0)); [|done|done| |].
    + assert (d = rest b o) as -> by (unfold d; apply ztake_all; lia). done.
    + intros k Lk. unfold tx_owned in *; simpl in *. eapply live_eq; [by apply live_free|lia].
    + rewrite <- En. apply IH; [done|exact I|solve_len..|done|solve_len].
  - rewrite Av, (proj2 (Z.eqb_neq _ _)) by lia.
    rewrite (st_bind_OK _ _ _ tt (tx s h q r')) by done.
    apply (fill_more _ _ _ _ _ _ d h r'); [|done|done|done|].
    + unfold stream_of, r', unread; cbn [v_buf v_offset view_at]. rewrite app_assoc. f_equal.
      unfold d, rest. rewrite Z.min_l, <- zdrop_zdrop by (unfold rest in L; lia). by rewrite take_drop.
    + rewrite <- En. apply IH; [done| |solve_len|done|solve_len].
      split; [done|]. simpl. rewrite Lr in L. lia.
Qed.

Lemma transport_get_run s h q r :
  transport_get (tx s h q r) = OK ((buf_queue_get q).1, tx s h (buf_queue_get q).2 r).
Proof. done. Qed.

Lemma not_ready r : reader_ok r → pouch_bufview_is_ready r = false → v_buf r = None.
Proof.
  intros R. unfold pouch_bufview_is_ready. rewrite reader_available by done.
  destruct (v_buf r) eqn:E; [|done]. intros N%Z.ltb_ge.
  assert (unread r = []) as U by (apply length_zero_iff_nil; lia).
  apply reader_empty in U; [congruence|done].
Qed.

Lemma ready r : pouch_bufview_is_ready r = true → reader_ok r →
  ∃ b, r = view_at b (v_offset r) ∧ buf_wf b ∧ 0 ≤ v_offset r < bytes b.
Proof. destruct r as [[b|] o]; [|done]. intros _ [W O]. by exists b. Qed.

Lemma fill_loop_spec maxlen fuel : ∀ s h q r out,
  Forall good (elems q) → reader_ok r → len out ≤ maxlen →
  maxlen - len out + len (elems q) ≤ Z.of_nat fuel →
  fill_result s (maxlen - len out) out h q r (fill_loop fuel maxlen out (tx s h q r)).
Proof.
  induction fuel as [|fuel IH]; intros s h q r out G R M Hf;
    cbn [fill_loop]; destruct (Z.ltb_spec (len out) maxlen); cbn [negb];
    try (apply fill_stop; [done|done|lia]); try lia.
  rewrite (st_bind_OK _ _ _ (pouch_bufview_is_ready r) (tx s h q r)) by done.
  destruct (pouch_bufview_is_ready r) eqn:Rd.
  - destruct (ready r Rd R) as (b & Er & W & O). rewrite Er.
    apply fill_copy; [done..|]. intros. apply IH; [done..|lia].
  - apply not_ready in Rd; [|done]. rewrite (st_bind_OK _ _ _ _ _ (transport_get_run s h q r)).
    destruct (elems q) as [|b l] eqn:Eq.
    + destruct (buf_queue_get_nil q Eq) as [-> E'].
      apply (fill_result_eq _ _ _ _ _ _ (buf_queue_get q).2 r);
        [by unfold stream_of; rewrite E', Eq|by unfold tx_owned; rewrite E', Eq|].
      apply fill_stop; [by rewrite E'|done|]. right. unfold stream_of, unread. by rewrite Rd, E'.
    + apply Forall_cons in G as [[W O] G].
      destruct (buf_queue_get_cons q b l Eq) as [-> E']. simpl in Hf.
      set (q2 := (buf_queue_get q).2) in *.
      rewrite (st_bind_OK _ _ _ tt (tx s h q2 (view_at b 0))) by done.
      apply (fill_result_eq _ _ _ _ _ _ q2 (view_at b 0)).
      * unfold stream_of, unread. rewrite E', Eq, Rd. done.
      * unfold tx_owned. rewrite E', Eq, Rd. simpl. lia.
      * apply fill_copy; [by rewrite E'|done|lia|done|]. intros h' q' r' out' ? ? ? L ?.
        apply IH; [done..|]. rewrite L, E'. lia.
Qed.

(** ** Filling *)

(** The bits of [u_flags] read by the code. *)
Lemma session_is_active_bit s :
  session_is_active s = Z.testbit (u_flags (s_uplink s)) SESSION_ACTIVE.
Proof. unfold session_is_active. by rewrite land_BIT by done. Qed.

Lemma pouch_is_open_bit s :
  pouch_is_open s = negb (Z.testbit (u_flags (s_uplink s)) POUCH_CLOSED).
Proof. unfold pouch_is_open. by rewrite land_BIT by done. Qed.

Lemma pouch_is_closing_bit s :
  pouch_is_closing s = Z.testbit (u_flags (s_uplink s)) POUCH_CLOSING.
Proof. unfold pouch_is_closing. by rewrite land_BIT by done. Qed.

(** What the transport side of a state satisfies. *)
Record transport_inv s : Prop := {
  ti_queue : Forall good (elems (u_transport_queue (s_uplink s)));
  ti_reader : reader_ok (u_transport_reader (s_uplink s));
}.

(** The state after the session is ended. *)
Definition ended s : sys C :=
  set_events (EventStatics
      (k_msgq_put POUCH_EVENT_SESSION_END (pouch_event_q (s_events s)))
      (k_work_submit (event_work (s_events s))))
    (set_uplink (set_u_flags (Z.clearbit (u_flags (s_uplink s)) SESSION_ACTIVE) (s_uplink s))
      (set_crypto (crypto_session_end (s_crypto s)) s)).

Lemma end_session_run s : end_session s = OK (tt, ended s).
Proof. done. Qed.

(** Only the transport queue, the reader and the heap changed. *)
Definition transport_step s s' : Prop :=
  ∃ h q r, s' = tx s h q r ∧ malloc_ok h = malloc_ok (s_heap s).

Lemma balanced_tx s h q r k :
  (∀ k, live (s_heap s) (k + tx_owned (u_transport_queue (s_uplink s)) (u_transport_reader (s_uplink s)))
    → live h (k + tx_owned q r)) →
  balanced s k → balanced (tx s h q r) k.
Proof.
  intros L B. unfold balanced in *. simpl.
  eapply live_eq; [apply (L (owned s + k
    - tx_owned (u_transport_queue (s_uplink s)) (u_transport_reader (s_uplink s))))|].
  - eapply live_eq; [apply B|lia].
  - unfold owned, tx_owned, pending; simpl. lia.
Qed.

Lemma balanced_ended s k : balanced s k → balanced (ended s) k.
Proof. done. Qed.

(** Whether bytes are left, as the code tests it. *)
Lemma nothing_left s : transport_inv s →
  negb (pouch_bufview_available (u_transport_reader (s_uplink s)) =? 0)
    || negb (buf_queue_is_empty (u_transport_queue (s_uplink s)))
  = bool_decide (outgoing s ≠ []).
Proof.
  intros [G R]. rewrite reader_available, buf_queue_is_empty_spec by done.
  apply eq_true_iff_eq. rewrite bool_decide_eq_true, orb_true_iff, !negb_true_iff,
    Z.eqb_neq, bool_decide_eq_false. unfold outgoing, stream_of. split.
  - intros [N|N] E; apply app_eq_nil in E as [E1 E2]; [by rewrite E1 in N|].
    apply N. destruct (elems _) as [|b l]; [done|]. apply Forall_cons in G as [G _].
    apply good_contents in G. apply app_eq_nil in E2 as [E2 _]. by rewrite E2 in G.
  - intros N. destruct (decide (unread (u_transport_reader (s_uplink s)) = [])) as [E|E].
    + right. intros Q. apply N. by rewrite E, Q.
    + left. intros L. apply E, length_zero_iff_nil. lia.
Qed.

Lemma fill_run s maxlen :
  transport_inv s → session_is_active s = true → 0 ≤ maxlen →
  ∃ m, transport_step s m ∧ transport_inv m ∧ outgoing m = zdrop maxlen (outgoing s)
    ∧ (∀ k, balanced s k → balanced m k)
    ∧ pouch_uplink_fill maxlen s =
      (let out := ztake maxlen (outgoing s) in
       if pouch_is_open s || bool_decide (outgoing m ≠ [])
       then OK ((POUCH_MORE_DATA, len out, out), m)
       else OK ((POUCH_NO_MORE_DATA, len out, out), ended m)).
Proof.
  intros [G R] A N. unfold pouch_uplink_fill.
  rewrite (st_bind_OK _ _ s true s) by (unfold gets; by rewrite A). cbn [negb].
  rewrite (st_bind_OK _ _ s (length (elems (u_transport_queue (s_uplink s)))) s) by done.
  destruct (fill_loop_spec maxlen (Z.to_nat maxlen + length (elems (u_transport_queue (s_uplink s))))
    s (s_heap s) _ _ [] G R) as (h & q & r & E & S & G' & R' & M & B); [simpl; lia|simpl; lia|].
  rewrite <- tx_id in E. simpl in E, S. rewrite Z.sub_0_r in *.
  rewrite (st_bind_OK _ _ _ _ _ E). exists (tx s h q r). split_and!.
  - by exists h, q, r.
  - by split.
  - apply S.
  - intros k. by apply balanced_tx.
  - assert (transport_inv (tx s h q r)) as I by by split.
    pose proof (nothing_left _ I) as NL. cbv zeta. rewrite <- NL, orb_assoc.
    unfold mbind, st_bind, gets. change (pouch_is_open (tx s h q r)) with (pouch_is_open s).
    by destruct (pouch_is_open s || _ || _).
Qed.

(** C14: the transport reads the pouch as one stream of bytes: a fill of any size hands out the next
    bytes of what is left to send and consumes exactly those, whatever buffers they sit in; it frees
    every buffer it empties; it reports the end, and ends the session, exactly when the pouch is
    closed and drained; and a fill outside a session fails without effect. *)
Theorem fill_stream s maxlen :
  transport_inv s → 0 ≤ maxlen →
  (session_is_active s = false → pouch_uplink_fill maxlen s = OK ((POUCH_ERROR, maxlen, []), s)) ∧
  (session_is_active s = true →
   ∃ (r : pouch_result) m, transport_step s m ∧ transport_inv m
     ∧ pouch_uplink_fill maxlen s =
         OK ((r, len (ztake maxlen (outgoing s)), ztake maxlen (outgoing s)),
             if decide (r = POUCH_NO_MORE_DATA) then ended m else m)
     ∧ outgoing m = zdrop maxlen (outgoing s)
     ∧ (∀ k, balanced s k → balanced m k)
     ∧ (r = POUCH_NO_MORE_DATA ∨ r = POUCH_MORE_DATA)
     ∧ (r = POUCH_NO_MORE_DATA ↔ pouch_is_open s = false ∧ outgoing m = [])).
Proof.
  intros I N. split.
  - intros A. unfold pouch_uplink_fill.
    rewrite (st_bind_OK _ _ s false s) by (unfold gets; by rewrite A). done.
  - intros A. destruct (fill_run s maxlen I A N) as (m & T & I' & O & B & E).
    rewrite E. cbv zeta. destruct (pouch_is_open s) eqn:P; simpl.
    { exists POUCH_MORE_DATA, m. split_and!; try done; naive_solver. }
    case_bool_decide as D.
    + exists POUCH_MORE_DATA, m. split_and!; try done; naive_solver.
    + exists POUCH_NO_MORE_DATA, m. assert (outgoing m = []) by (destruct (decide (outgoing m = [])); naive_solver).
      split_and!; try done; naive_solver.
Qed.

End Transport.

(** * Processing *)

Section Processing.
Context {BO : ByteOrder} {SL : SList} {KW : KWork} {MQ : MsgQ} {CF : Config} {HC : HeaderCodec}.
Context {C : Type} {CR : Crypto C}.
Implicit Types (s : sys C) (b : pouch_buf) (q pq tq : pouch_buf_queue_t) (hd : option pouch_buf).

(** Reference: encrypting a list of blocks, in order, keeping what the encryption layer returns. *)
Fixpoint encrypt_all (bs : list pouch_buf) : st (heap * C) (list pouch_buf) :=
  match bs with
  | [] => mret []
  | b :: bs =>
    r ← crypto_encrypt_block (Some b);
    es ← encrypt_all bs;
    mret (option_list r ++ es)
  end.

(** The header goes before the first block. *)
Definition with_header hd (es : list pouch_buf) : list pouch_buf :=
  match es with [] => [] | _ => option_list hd ++ es end.

Definition header_left hd (es : list pouch_buf) : option pouch_buf :=
  match es with [] => hd | _ => None end.

(** The state with what processing changes. *)
Definition px s (h : heap) (c : C) hd pq tq : sys C :=
  set_crypto c (set_heap h (set_uplink
    (set_u_header hd (set_u_processing_queue pq (set_u_transport_queue tq (s_uplink s)))) s)).

Lemma px_id s :
  s = px s (s_heap s) (s_crypto s) (u_header (s_uplink s)) (u_processing_queue (s_uplink s))
        (u_transport_queue (s_uplink s)).
Proof. by destruct s as [? ? ? [] ? ? ?]. Qed.

(** The test of the loop. *)
Definition processing s : bool := session_is_active s && pouch_is_open s.

Lemma process_blocks_loop_spec s : processing s = true → ∀ fuel bs pq tq h c hd es h' c',
  elems pq = bs → (length bs ≤ fuel)%nat → encrypt_all bs (h, c) = OK (es, (h', c')) →
  ∃ pq' tq',
    process_blocks_loop fuel (px s h c hd pq tq)
      = OK (tt, px s h' c' (header_left hd es) pq' tq')
    ∧ elems pq' = [] ∧ elems tq' = elems tq ++ with_header hd es.
Proof.
  intros P fuel. induction fuel as [|fuel IH]; intros bs pq tq h c hd es h' c' Eq Hf E;
    cbn [process_blocks_loop];
    rewrite (st_bind_OK _ _ _ (negb (bool_decide (bs = []))) (px s h c hd pq tq))
      by (unfold gets; change (session_is_active (px s h c hd pq tq)
                                && pouch_is_open (px s h c hd pq tq)) with (processing s);
          rewrite P, buf_queue_is_empty_spec; simpl; by rewrite Eq);
    destruct bs as [|b bs]; simpl in Hf |- *; try lia.
  1,2: injection E as <- <- <-; exists pq, tq; by rewrite app_nil_r.
  destruct (buf_queue_get_cons pq b bs Eq) as [G1 G2].
  rewrite (st_bind_OK _ _ _ (Some b) (px s h c hd (buf_queue_get pq).2 tq))
    by (unfold processing_get; rewrite <- G1; done).
  cbn [encrypt_all] in E. apply st_bind_OK_inv in E as (r & [h1 c1] & E1 & E).
  apply st_bind_OK_inv in E as (es1 & [h2 c2] & E2 & E). injection E as <- <- <-.
  set (pq1 := (buf_queue_get pq).2) in *.
  rewrite (st_bind_OK _ _ _ r (px s h1 c1 hd pq1 tq)).
  2:{ unfold zoom. change (part_get (px s h c hd pq1 tq)) with (h, c). by rewrite E1. }
  destruct r as [e|].
  - rewrite (st_bind_OK _ _ _ hd (px s h1 c1 hd pq1 tq)) by done.
    set (tq1 := match hd with Some x => buf_queue_submit tq x | None => tq end).
    rewrite (st_bind_OK _ _ _ tt (px s h1 c1 None pq1 tq1)) by (unfold tq1; by destruct hd).
    rewrite (st_bind_OK _ _ _ tt (px s h1 c1 None pq1 (buf_queue_submit tq1 e))) by done.
    destruct (IH bs pq1 (buf_queue_submit tq1 e) h1 c1 None es1 h2 c2 G2 ltac:(lia) E2)
      as (pq' & tq' & -> & Ep & Et).
    exists pq', tq'. split_and!; [simpl; by destruct es1|done|].
    rewrite Et, elems_submit. simpl. unfold tq1.
    destruct hd; rewrite ?elems_submit, <- ?app_assoc; by destruct es1.
  - by apply (IH bs pq1 tq h1 c1 hd es1 h2 c2 G2 ltac:(lia) E2).
Qed.

(** The loop does nothing outside an open session. *)
Lemma process_blocks_loop_idle s fuel : processing s = false → process_blocks_loop fuel s = OK (tt, s).
Proof.
  intros P. destruct fuel; cbn [process_blocks_loop];
    rewrite (st_bind_OK _ _ _ false s)
      by (unfold gets; fold (processing s); by rewrite P); done.
Qed.

(** Closing, once the pending blocks are processed. *)
Definition close_if_closing s : sys C :=
  if pouch_is_closing s
  then set_uplink (set_u_flags (Z.setbit (u_flags (s_uplink s)) POUCH_CLOSED) (s_uplink s)) s
  else s.

Definition work_taken s : sys C :=
  set_uplink (set_u_processing_work (k_work_take (u_processing_work (s_uplink s))) (s_uplink s)) s.

Definition finished (b : pouch_buf) : Prop := ∃ i p, finished_block b i p.

Context {CL : CryptoLaws C}.

Lemma encrypt_all_spec bs : ∀ h c n,
  crypto_inv c → Forall finished bs → live h n →
  ∃ es h' c', encrypt_all bs (h, c) = OK (es, (h', c')) ∧ crypto_inv c'
    ∧ malloc_ok h' = malloc_ok h ∧ live h' (n - len bs + len es) ∧ Forall sendable es.
Proof.
  induction bs as [|b bs IH]; intros h c n I F L; cbn [encrypt_all].
  { do 3 eexists. split; [reflexivity|]. split_and!; [done|done| |done].
    eapply live_eq; [done|simpl; lia]. }
  apply Forall_cons in F as [(i & p & Fb) F].
  destruct (encrypt_spec b i p h c n I Fb L) as (r & h1 & c1 & E & I1 & M1 & L1 & S1).
  destruct (IH h1 c1 _ I1 F L1) as (es & h2 & c2 & E2 & I2 & M2 & L2 & S2).
  rewrite (st_bind_OK _ _ _ _ _ E), (st_bind_OK _ _ _ _ _ E2).
  do 3 eexists. split; [reflexivity|]. split_and!; [done|congruence| |].
  - eapply live_eq; [done|]. destruct r; simpl; solve_len.
  - apply Forall_app. split; [|done]. destruct r; simpl; auto.
Qed.

(** The invariant of the uplink: what every queue and variable holds. *)
Record uplink_inv s : Prop := {
  ui_crypto : crypto_inv (s_crypto s);
  ui_pending : Forall finished (pending s);
  ui_transport : transport_inv s;
  ui_header : Forall good (option_list (u_header (s_uplink s)));
}.

Lemma sendable_good b : sendable b → good b.
Proof. intros [W [? ?]]. by split. Qed.

Lemma with_header_good hd es : Forall good (option_list hd) → Forall sendable es →
  Forall good (with_header hd es) ∧ Forall good (option_list (header_left hd es)).
Proof.
  intros G F. assert (Forall good es) by (by eapply Forall_impl, sendable_good).
  destruct es; [by split|]. split; [by apply Forall_app|constructor].
Qed.

Lemma with_header_count hd es :
  len (with_header hd es) + occ (header_left hd es) = occ hd + len es.
Proof. destruct es as [|e es]; [simpl; lia|]. destruct hd; simpl; lia. Qed.

(** What running the processing work promises. *)
Record processed_to s s' (es : list pouch_buf) : Prop := {
  pt_transport : elems (u_transport_queue (s_uplink s'))
                 = elems (u_transport_queue (s_uplink s)) ++ with_header (u_header (s_uplink s)) es;
  pt_header : u_header (s_uplink s') = header_left (u_header (s_uplink s)) es;
  pt_pending : pending s' = [];
  pt_inv : uplink_inv s';
  pt_balanced k : balanced s k → balanced s' k;
}.

Lemma process_blocks_run s :
  uplink_inv s → processing s = true →
  ∃ es h c m,
    encrypt_all (pending s) (s_heap s, s_crypto s) = OK (es, (h, c))
    ∧ m = px (work_taken s) h c (u_header (s_uplink m)) (u_processing_queue (s_uplink m))
            (u_transport_queue (s_uplink m))
    ∧ process_blocks s = OK (tt, close_if_closing m) ∧ processed_to s m es.
Proof.
  intros [I F [T R] H] P.
  set (n := i32 (bufs (s_heap s))).
  assert (live (s_heap s) n) as L.
  { unfold live, n. symmetry. apply i32_small, i32_range. }
  destruct (encrypt_all_spec (pending s) (s_heap s) (s_crypto s) n I F L)
    as (es & h & c & E & I' & M & L' & S).
  assert (processing (work_taken s) = true) as P' by done.
  destruct (process_blocks_loop_spec (work_taken s) P' (length (pending s)) (pending s)
    (u_processing_queue (s_uplink s)) (u_transport_queue (s_uplink s)) _ _
    (u_header (s_uplink s)) es h c eq_refl ltac:(lia) E) as (pq & tq & El & Ep & Et).
  change (px (work_taken s) (s_heap s) (s_crypto s) (u_header (s_uplink s))
    (u_processing_queue (s_uplink s)) (u_transport_queue (s_uplink s))) with
    (px (work_taken s) (s_heap (work_taken s)) (s_crypto (work_taken s))
      (u_header (s_uplink (work_taken s))) (u_processing_queue (s_uplink (work_taken s)))
      (u_transport_queue (s_uplink (work_taken s)))) in El.
  rewrite <- px_id in El.
  destruct (with_header_good _ _ H S) as [G1 G2].
  exists es, h, c, (px (work_taken s) h c (header_left (u_header (s_uplink s)) es) pq tq).
  split_and!; [done|done| |].
  - unfold process_blocks. rewrite (st_bind_OK _ _ s tt (work_taken s)) by done.
    rewrite (st_bind_OK _ _ _ (length (pending s)) (work_taken s)) by done.
    rewrite (st_bind_OK _ _ _ _ _ El). unfold close_if_closing.
    set (m := px _ _ _ _ _ _).
    rewrite (st_bind_OK _ _ m (pouch_is_closing m) m) by done.
    by destruct (pouch_is_closing m).
  - split; simpl; [done|done|done| |].
    + split; simpl; [done|by unfold pending; simpl; rewrite Ep| |done].
      split; simpl; [|done]. rewrite Et. by apply Forall_app.
    + intros k B. unfold balanced in *. simpl.
      assert (i32 (bufs h) = i32 (owned s + k - len (pending s) + len es)) as L2.
      { unfold live in L'. rewrite L'.
        replace (n - len (pending s) + len es) with (n + (len es - len (pending s))) by lia.
        replace (owned s + k - len (pending s) + len es)
          with (owned s + k + (len es - len (pending s))) by lia.
        rewrite <- (i32_add_l (owned s + k)), <- B. unfold n. done. }
      unfold live. rewrite L2. f_equal. unfold owned. simpl.
      pose proof (with_header_count (u_header (s_uplink s)) es).
      unfold pending; simpl. rewrite Ep, Et. solve_len.
Qed.

Lemma process_blocks_idle s :
  processing s = false → process_blocks s = OK (tt, close_if_closing (work_taken s)).
Proof.
  intros P. unfold process_blocks. rewrite (st_bind_OK _ _ s tt (work_taken s)) by done.
  rewrite (st_bind_OK _ _ _ (length (pending s)) (work_taken s)) by done.
  rewrite (st_bind_OK _ _ _ _ _ (process_blocks_loop_idle (work_taken s) _ P)).
  unfold close_if_closing. run_st. by destruct (pouch_is_closing (work_taken s)).
Qed.

(** C15: processing: in an open session, running the work encrypts the pending blocks in order and
    moves what the encryption layer returns to the transport queue, the pouch header once and before
    the first of them; no block is left behind or leaked, nothing faults, and the pouch is marked
    closed if it was closing. Outside an open session the blocks stay where they are. *)
Theorem process_blocks_spec s :
  uplink_inv s →
  (processing s = true → ∃ es h c m,
     encrypt_all (pending s) (s_heap s, s_crypto s) = OK (es, (h, c))
     ∧ process_blocks s = OK (tt, close_if_closing m) ∧ processed_to s m es
     ∧ u_flags (s_uplink m) = u_flags (s_uplink s)) ∧
  (processing s = false → process_blocks s = OK (tt, close_if_closing (work_taken s))).
Proof.
  intros I. split; intros P.
  - destruct (process_blocks_run s I P) as (es & h & c & m & E & Em & R & S).
    exists es, h, c, m. split_and!; [done..|]. by rewrite Em.
  - by apply process_blocks_idle.
Qed.

End Processing.

(** * Sessions *)

Section Sessions.
Context {BO : ByteOrder} {SL : SList} {KW : KWork} {MQ : MsgQ} {CF : Config} {HC : HeaderCodec}.
Context {C : Type} {CR : Crypto C}.
Context {HL : HeaderCodecLaws HC} {CL : CryptoLaws C}.
Implicit Types (s : sys C) (b : pouch_buf).

Definition set_flags (f : Z) s : sys C := set_uplink (set_u_flags f (s_uplink s)) s.

Lemma set_flags_same s : set_flags (u_flags (s_uplink s)) s = s.
Proof. by destruct s as [? ? ? [] ? ? ?]. Qed.

Lemma setbit_id v n : 0 ≤ n → Z.testbit v n = true → Z.setbit v n = v.
Proof.
  intros N T. apply Z.bits_inj'. intros k K. rewrite Z.setbit_eqb by done.
  destruct (Z.eqb_spec n k) as [->|]; [by rewrite T|done].
Qed.

Lemma clearbit_setbit v n : 0 ≤ n → Z.testbit v n = false → Z.clearbit (Z.setbit v n) n = v.
Proof.
  intros N T. apply Z.bits_inj'. intros k K. rewrite Z.clearbit_eqb, Z.setbit_eqb by done.
  destruct (Z.eqb_spec n k) as [->|]; simpl; [by rewrite T|by rewrite andb_true_r].
Qed.

Lemma uplink_inv_flags f s : uplink_inv s → uplink_inv (set_flags f s).
Proof. intros [? ? [? ?] ?]. by repeat split. Qed.

(** The writers keep the invariant of the uplink. *)
Lemma uplink_inv_writer s s' :
  writer_frame s s' → Forall finished (pending s') → uplink_inv s → uplink_inv s'.
Proof.
  intros [_ _ E _ (q & w & U)] F [I _ [G R] H]. split; rewrite ?E, ?U; try done.
  split; by rewrite U.
Qed.

Lemma holds_finished_finished bs gs : Forall2 holds_finished bs gs → Forall finished bs.
Proof. induction 1 as [|b es bs gs H F IH]; constructor; [|done]. by eexists _, _. Qed.

Lemma wrote_finished base s s' l l' :
  entry_log base s l → wrote base s s' l' → Forall finished (pending s) →
  Forall finished (pending s').
Proof.
  intros (es & cur & (bs & gs & P & _ & _) & _ & _) [(es' & cur' & (bs' & gs' & P' & F' & _) & _) _ _ _] F.
  rewrite P in F. apply Forall_app in F as [F _]. rewrite P'. apply Forall_app. split; [done|].
  by eapply holds_finished_finished.
Qed.

(** The state after the processing work is submitted. *)
Definition work_submitted s : sys C :=
  set_uplink (set_u_processing_work (k_work_submit (u_processing_work (s_uplink s))) (s_uplink s)) s.

Definition closing_set s : sys C := set_flags (Z.setbit (u_flags (s_uplink s)) POUCH_CLOSING) s.

Lemma close_run s lock :
  pouch_uplink_close lock s =
    (if pouch_is_closing s then OK (NEG EALREADY, s)
     else match entry_block_close lock (closing_set s) with
          | OK (err, s') => OK (err, work_submitted s')
          | Fault => Fault
          end).
Proof.
  rewrite pouch_is_closing_bit. unfold pouch_uplink_close.
  rewrite (st_bind_OK _ _ s (Z.testbit (u_flags (s_uplink s)) POUCH_CLOSING) s) by done.
  rewrite (st_bind_OK _ _ s tt (closing_set s)) by done.
  destruct (Z.testbit (u_flags (s_uplink s)) POUCH_CLOSING) eqn:T.
  - unfold closing_set. by rewrite setbit_id, set_flags_same.
  - run_st. by destruct (entry_block_close lock (closing_set s)) as [[]|].
Qed.

(** Closing the pouch enqueues every entry accepted and not yet enqueued, marks the pouch as
    closing and submits the processing work, which will mark it closed; a second close reports
    -EALREADY and changes nothing. A close that times out on the entry mutex leaves the entries out
    but the pouch closing, so that no later call can add them. *)
Theorem uplink_close_spec base s log lock :
  entry_log base s log → uplink_inv s →
  (pouch_is_closing s = true → pouch_uplink_close lock s = OK (NEG EALREADY, s)) ∧
  (pouch_is_closing s = false → lock = None →
   ∃ s', pouch_uplink_close lock s = OK (SUCCESS, s')
     ∧ flushed base s' log ∧ s_block s' = None
     ∧ u_flags (s_uplink s') = Z.setbit (u_flags (s_uplink s)) POUCH_CLOSING
     ∧ k_work_queued (u_processing_work (s_uplink s')) = true
     ∧ uplink_inv s' ∧ (∀ k, balanced s k → balanced s' k)) ∧
  (∀ err, pouch_is_closing s = false → lock = NEG err →
   ∃ s', pouch_uplink_close lock s = OK (NEG err, s') ∧ pouch_is_closing s' = true
     ∧ pending s' = pending s ∧ s_block s' = s_block s
     ∧ ∀ lock', pouch_uplink_close lock' s' = OK (NEG EALREADY, s')).
Proof.
  intros L I. rewrite close_run. split_and!.
  - by intros ->.
  - intros -> ->. destruct (entry_close_run base (closing_set s) log L) as (s1 & -> & Fl & Bl & Wr).
    exists (work_submitted s1). split_and!; [done|done|done| |apply k_work_submit_spec|..].
    + destruct Wr as [_ [_ _ _ _ (q & w & U)] _ _]. simpl. by rewrite U.
    + assert (Forall finished (pending s1)) as F.
      { apply (wrote_finished base (closing_set s) s1 log log L Wr), I. }
      assert (uplink_inv s1) as [? ? [? ?] ?].
      { apply (uplink_inv_writer (closing_set s)); [apply Wr|done|]. by apply uplink_inv_flags. }
      by repeat split.
    + intros k B. by apply (wr_balanced _ _ _ _ Wr k).
  - intros err -> ->. exists (work_submitted (closing_set s)). split; [done|].
    assert (pouch_is_closing (work_submitted (closing_set s)) = true) as T.
    { rewrite pouch_is_closing_bit. by apply setbit_same. }
    split_and!; [done..|]. intros lock'. by rewrite close_run, T.
Qed.

(** ** Starting *)

(** The state after the event is emitted. *)
Definition emitted (ev : pouch_event) s : sys C :=
  set_events (EventStatics (k_msgq_put ev (pouch_event_q (s_events s)))
                (k_work_submit (event_work (s_events s)))) s.

(** The state of the encryption layer after the two calls of a start. *)
Definition crypto_started (c : C) : C := (crypto_pouch_start (crypto_session_start c).2).2.

(** The encryption layer and the memory can start a session. *)
Definition can_start s : Prop :=
  malloc_never_fails (s_heap s) ∧ (crypto_session_start (s_crypto s)).1 = SUCCESS
  ∧ (crypto_pouch_start (crypto_session_start (s_crypto s)).2).1 = SUCCESS
  ∧ is_Some (header_bytes (crypto_started (s_crypto s))).

(** What a start that returns [r] leaves. *)
Record started (r : bool) s s' : Prop := {
  sd_inv : uplink_inv s';
  sd_balanced k : balanced s k → balanced s' k;
  sd_pending : pending s' = pending s;
  sd_outgoing : outgoing s' = outgoing s;
  sd_block : s_block s' = s_block s;
  sd_id : u_id (s_uplink s') = u_id (s_uplink s);
  sd_flags : u_flags (s_uplink s') =
    if r then Z.setbit (u_flags (s_uplink s)) SESSION_ACTIVE else u_flags (s_uplink s);
  sd_events : s_events s' =
    if r then s_events (emitted POUCH_EVENT_SESSION_START s) else s_events s;
  sd_header : match u_header (s_uplink s') with
              | Some b => r = true ∧ header_bytes (s_crypto s') = Some (contents b)
              | None => r = false
              end;
  sd_work : r = true → pending s ≠ [] → k_work_queued (u_processing_work (s_uplink s')) = true;
  sd_stream : s_stream s' = s_stream s;
  sd_malloc : malloc_ok (s_heap s') = malloc_ok (s_heap s);
  sd_crypto : r = true → s_crypto s' = crypto_started (s_crypto s);
}.

(** The state when a start gives up before the header. *)
Lemma gave_up s c : crypto_inv c → uplink_inv s → u_header (s_uplink s) = None →
  started false s (set_crypto c s).
Proof.
  intros Ic [I F [G R] H] Hn. split; try done. simpl. by rewrite Hn.
Qed.

Lemma flags_set_clear s c :
  session_is_active s = false →
  set_flags (Z.clearbit (u_flags (s_uplink (set_crypto c (set_flags
    (Z.setbit (u_flags (s_uplink s)) SESSION_ACTIVE) s)))) SESSION_ACTIVE)
    (set_crypto c (set_flags (Z.setbit (u_flags (s_uplink s)) SESSION_ACTIVE) s)) = set_crypto c s.
Proof.
  rewrite session_is_active_bit. intros A. simpl. rewrite clearbit_setbit by done.
  by destruct s as [? ? ? [] ? ? ?].
Qed.

Lemma balanced_header s hd k : balanced s k → u_header (s_uplink s) = None →
  ∀ h, live h (owned s + k + occ hd) →
  balanced (set_uplink (set_u_header hd (s_uplink s)) (set_heap h s)) k.
Proof.
  intros B N h L. unfold balanced. eapply live_eq; [apply L|].
  unfold owned, pending; simpl. rewrite N. simpl. lia.
Qed.

Lemma start_run s :
  uplink_inv s → session_is_active s = false → u_header (s_uplink s) = None →
  ∃ r s', pouch_uplink_start s = OK (r, s') ∧ started r s s' ∧ (can_start s → r = true).
Proof.
  intros I A Hn. pose proof A as A'. rewrite session_is_active_bit in A'. unfold pouch_uplink_start.
  set (s1 := set_flags (Z.setbit (u_flags (s_uplink s)) SESSION_ACTIVE) s).
  rewrite (st_bind_OK _ _ s false s) by (unfold gets, atomic_test_and_set_bit; cbn [fst]; by rewrite A').
  rewrite (st_bind_OK _ _ s tt s1) by done.
  set (e1 := (crypto_session_start (s_crypto s)).1).
  set (c1 := (crypto_session_start (s_crypto s)).2).
  assert (crypto_inv c1) as I1 by (apply session_start_inv, I).
  rewrite (st_bind_OK _ _ s1 e1 s1), (st_bind_OK _ _ s1 tt (set_crypto c1 s1)) by done.
  case_bool_decide as E1.
  { exists false, (set_crypto c1 s). split_and!; [|by apply gave_up|by intros (_ & E & _)].
    transitivity (OK (false, set_crypto c1 s)); [|done]. by rewrite <- (flags_set_clear s c1 A). }
  set (e2 := (crypto_pouch_start c1).1). set (c2 := (crypto_pouch_start c1).2).
  assert (crypto_inv c2) as I2 by (apply pouch_start_inv, I1).
  rewrite (st_bind_OK _ _ (set_crypto c1 s1) e2 (set_crypto c1 s1)),
    (st_bind_OK _ _ (set_crypto c1 s1) tt (set_crypto c2 s1)) by done.
  case_bool_decide as E2.
  { exists false, (set_crypto c2 s). split_and!; [|by apply gave_up|by intros (_ & _ & E & _)].
    transitivity (OK (false, set_crypto c2 s)); [|done]. by rewrite <- (flags_set_clear s c2 A). }
  set (s2 := set_crypto c2 s1).
  destruct (pouch_header_create_spec s2 I2) as (hd & h & Eh & M & Lh & Hh & Mh).
  rewrite (st_bind_OK _ _ _ _ _ Eh).
  set (s3 := set_uplink (set_u_header hd (s_uplink s2)) (set_heap h s2)).
  rewrite (st_bind_OK _ _ (set_heap h s2) tt s3) by done.
  assert (∀ k, balanced s k → balanced s3 k) as Bal.
  { intros k B. apply (balanced_header s2); [exact B|done|]. by apply Lh. }
  destruct I as [_ F [G R] _]. destruct hd as [b|].
  - destruct Hh as (W & Hb & Nb & _).
    set (s4 := emitted POUCH_EVENT_SESSION_START s3).
    rewrite (st_bind_OK _ _ s3 tt s4) by done.
    rewrite (st_bind_OK _ _ s4 (bool_decide (pending s = [])) s4)
      by (unfold gets; by rewrite buf_queue_is_empty_spec).
    exists true, (if bool_decide (pending s = []) then s4 else work_submitted s4). split_and!.
    + case_bool_decide; done.
    + case_bool_decide; split; try done; try (intros _ _; apply k_work_submit_spec);
        (split; [done..|by split|]; simpl; constructor; [by split|constructor]).
    + done.
  - exists false, (set_heap h (set_crypto c2 s)). split_and!.
    + transitivity (OK (false, set_flags (Z.clearbit (u_flags (s_uplink s3)) SESSION_ACTIVE) s3));
        [done|]. do 2 f_equal.
      transitivity (set_heap h (set_crypto c2 s)); [|done]. rewrite <- (flags_set_clear s c2 A).
      unfold s3, s2, s1, set_flags. simpl. destruct s as [? ? ? [] ? ? ?]; simpl in *. by subst.
    + split; try done; [by split; simpl; [..|by rewrite Hn]| |simpl; by rewrite Hn].
      intros k B. apply Bal in B. unfold balanced in *. eapply live_eq; [apply B|].
      unfold owned, pending; simpl. rewrite Hn. done.
    + intros (Mf & _ & _ & S). destruct (Mh Mf S) as [b [=]].
Qed.

(** A header that is left is not looked at; the new one takes its place. *)
Definition forget s : sys C := set_uplink (set_u_header None (s_uplink s)) s.

Lemma header_create_uplink u s :
  pouch_header_create (set_uplink u s) = ('(r, s') ← pouch_header_create s; OK (r, set_uplink u s')).
Proof.
  unfold pouch_header_create, zoom, gets, lift, mbind, st_bind, outcome_bind, mret, st_ret.
  change (part_get (set_uplink u s)) with (s_heap s). change (part_get s) with (s_heap s).
  destruct (buf_alloc POUCH_HEADER_MAX_LEN (s_heap s)) as [[[b|] h]|]; [|done..].
  cbn. destruct (write_header b _ _) as [[[e|] b']|]; done.
Qed.

Lemma start_forget s : crypto_inv (s_crypto s) → session_is_active s = false →
  (∃ c, crypto_inv c ∧ pouch_uplink_start s = OK (false, set_crypto c s))
  ∨ pouch_uplink_start s = pouch_uplink_start (forget s).
Proof.
  intros I A. pose proof A as A'. rewrite session_is_active_bit in A'. unfold pouch_uplink_start.
  set (s1 := set_flags (Z.setbit (u_flags (s_uplink s)) SESSION_ACTIVE) s).
  rewrite (st_bind_OK _ _ s false s) by (unfold gets, atomic_test_and_set_bit; cbn [fst]; by rewrite A').
  rewrite (st_bind_OK _ _ (forget s) false (forget s))
    by (unfold gets, atomic_test_and_set_bit; cbn [fst];
        change (u_flags (s_uplink (forget s))) with (u_flags (s_uplink s)); by rewrite A').
  rewrite (st_bind_OK _ _ s tt s1), (st_bind_OK _ _ (forget s) tt (forget s1)) by done.
  set (e1 := (crypto_session_start (s_crypto s)).1).
  set (c1 := (crypto_session_start (s_crypto s)).2).
  assert (crypto_inv c1) as I1 by (apply session_start_inv, I).
  rewrite (st_bind_OK _ _ s1 e1 s1), (st_bind_OK _ _ s1 tt (set_crypto c1 s1)),
    (st_bind_OK _ _ (forget s1) e1 (forget s1)), (st_bind_OK _ _ (forget s1) tt (set_crypto c1 (forget s1))) by done.
  case_bool_decide as E1.
  { left. exists c1. split; [done|]. transitivity (OK (false, set_crypto c1 s)); [|done].
    by rewrite <- (flags_set_clear s c1 A). }
  set (e2 := (crypto_pouch_start c1).1). set (c2 := (crypto_pouch_start c1).2).
  assert (crypto_inv c2) as I2 by (apply pouch_start_inv, I1).
  rewrite (st_bind_OK _ _ (set_crypto c1 s1) e2 (set_crypto c1 s1)),
    (st_bind_OK _ _ (set_crypto c1 s1) tt (set_crypto c2 s1)),
    (st_bind_OK _ _ (set_crypto c1 (forget s1)) e2 (set_crypto c1 (forget s1))),
    (st_bind_OK _ _ (set_crypto c1 (forget s1)) tt (set_crypto c2 (forget s1))) by done.
  case_bool_decide as E2.
  { left. exists c2. split; [done|]. transitivity (OK (false, set_crypto c2 s)); [|done].
    by rewrite <- (flags_set_clear s c2 A). }
  right. set (s2 := set_crypto c2 s1).
  destruct (pouch_header_create_spec s2 I2) as (hd & h & Eh & _).
  rewrite (st_bind_OK _ _ _ _ _ Eh), (st_bind_OK _ _ (set_crypto c2 (forget s1)) hd (set_heap h (forget s2))).
  - done.
  - change (set_crypto c2 (forget s1)) with (set_uplink (set_u_header None (s_uplink s1)) s2).
    by rewrite header_create_uplink, Eh.
Qed.

Lemma start_active s : session_is_active s = true → pouch_uplink_start s = OK (false, s).
Proof.
  intros A. rewrite session_is_active_bit in A. unfold pouch_uplink_start.
  rewrite (st_bind_OK _ _ s true s) by (unfold gets, atomic_test_and_set_bit; cbn [fst]; by rewrite A).
  rewrite (st_bind_OK _ _ s tt s); [done|].
  change (OK (tt, set_flags (Z.setbit (u_flags (s_uplink s)) SESSION_ACTIVE) s) = OK (tt, s)).
  by rewrite setbit_id, set_flags_same.
Qed.

(** Starting: it returns NULL, changing nothing but the encryption layer's state and emitting no
    event, when a session is active or the encryption layer or the memory fail; otherwise the session
    becomes active, SESSION_START is emitted, the header of the session the encryption layer started
    is ready and kept back until there is data, and the blocks written before the session are
    processed. *)
Theorem uplink_start_spec s :
  uplink_inv s →
  (session_is_active s = true → pouch_uplink_start s = OK (false, s)) ∧
  (session_is_active s = false → u_header (s_uplink s) = None →
   ∃ r s', pouch_uplink_start s = OK (r, s') ∧ started r s s' ∧ (can_start s → r = true)).
Proof. intros I. split; [apply start_active|by apply start_run]. Qed.

(** ** Finishing *)

Lemma free_transport_spec s h r : ∀ fuel q,
  (length (elems q) ≤ fuel)%nat →
  ∃ h' q', free_transport fuel (tx s h q r) = OK (tt, tx s h' q' r)
    ∧ elems q' = [] ∧ malloc_ok h' = malloc_ok h
    ∧ ∀ k, live h (k + tx_owned q r) → live h' (k + tx_owned q' r).
Proof.
  intros fuel. revert h. induction fuel as [|fuel IH]; intros h q Hf; cbn [free_transport];
    rewrite (st_bind_OK _ _ _ _ _ (transport_get_run s h q r));
    destruct (elems q) as [|b l] eqn:Eq; simpl in Hf; try lia.
  1,2: destruct (buf_queue_get_nil q Eq) as [-> E]; exists h, (buf_queue_get q).2;
    split_and!; [done..|]; unfold tx_owned; by rewrite E, Eq.
  destruct (buf_queue_get_cons q b l Eq) as [-> E]. set (q2 := (buf_queue_get q).2) in *.
  set (h2 := set_bufs (i32 (bufs h - 1)) h).
  rewrite (st_bind_OK _ _ _ tt (tx s h2 q2 r)) by done.
  destruct (IH h2 q2 ltac:(rewrite E; lia)) as (h' & q' & -> & E' & M & L).
  exists h', q'. split_and!; [done..|]. intros k K. apply L. unfold tx_owned in *.
  rewrite Eq in K. rewrite E. apply live_free in K. eapply live_eq; [apply K|simpl; lia].
Qed.

(** What a finish leaves: an uplink ready for the next session, the blocks not yet processed kept. *)
Record finish_result s s' : Prop := {
  fr_transport : elems (u_transport_queue (s_uplink s')) = [];
  fr_reader : u_transport_reader (s_uplink s') = BufView None 0;
  fr_header : u_header (s_uplink s') = None;
  fr_flags : u_flags (s_uplink s') = 0;
  fr_id : u_id (s_uplink s') = i32 (u_id (s_uplink s) + 1);
  fr_pending : pending s' = pending s;
  fr_block : s_block s' = s_block s;
  fr_events : s_events s' =
    if session_is_active s then s_events (emitted POUCH_EVENT_SESSION_END s) else s_events s;
  fr_crypto : s_crypto s' =
    if session_is_active s then crypto_session_end (s_crypto s) else s_crypto s;
  fr_inv : uplink_inv s → uplink_inv s';
  fr_balanced k : balanced s k → balanced s' k;
}.

(** The state after the buffers are released, before the session id and the flags change. *)
Definition released s (h : heap) q : sys C :=
  set_heap h (set_uplink (set_u_header None (set_u_transport_reader (BufView None 0)
    (set_u_transport_queue q (s_uplink s)))) s).

Definition next_session s : sys C :=
  set_uplink (set_u_flags 0 (set_u_id (i32 (u_id (s_uplink s) + 1)) (s_uplink s))) s.

Lemma finish_run s :
  ∃ h q, elems q = [] ∧ (∀ k, balanced s k → balanced (released s h q) k)
    ∧ pouch_uplink_finish s =
        OK (tt, if session_is_active s then ended (next_session (released s h q))
                else next_session (released s h q)).
Proof.
  unfold pouch_uplink_finish.
  rewrite (st_bind_OK _ _ s (length (elems (u_transport_queue (s_uplink s)))) s) by done.
  set (r := u_transport_reader (s_uplink s)).
  destruct (free_transport_spec s (s_heap s) r _ (u_transport_queue (s_uplink s)) (le_n _))
    as (h & q & E & Eq & M & L).
  assert (tx s (s_heap s) (u_transport_queue (s_uplink s)) r = s) as Ex by (symmetry; apply tx_id).
  rewrite Ex in E. rewrite (st_bind_OK _ _ _ _ _ E).
  rewrite (st_bind_OK _ _ _ r (tx s h q r)) by done.
  set (h1 := match v_buf r with Some _ => set_bufs (i32 (bufs h - 1)) h | None => h end).
  rewrite (st_bind_OK _ _ _ (BufView None 0) (tx s h1 q r)) by (unfold h1; by destruct r as [[]]).
  rewrite (st_bind_OK _ _ _ tt (tx s h1 q (BufView None 0))) by done.
  set (hd := u_header (s_uplink s)).
  rewrite (st_bind_OK _ _ _ hd (tx s h1 q (BufView None 0))) by done.
  set (h2 := match hd with Some _ => set_bufs (i32 (bufs h1 - 1)) h1 | None => h1 end).
  rewrite (st_bind_OK _ _ _ tt (released s h2 q)).
  2:{ unfold h2. destruct hd eqn:Eh; [done|]. unfold mret, st_ret, tx, released. do 3 f_equal.
      unfold hd in Eh. by rewrite <- Eh. }
  rewrite (st_bind_OK _ _ _ tt (set_uplink (set_u_id (i32 (u_id (s_uplink s) + 1))
    (s_uplink (released s h2 q))) (released s h2 q))) by done.
  rewrite (st_bind_OK _ _ _ (u_flags (s_uplink s)) (set_uplink (set_u_id
    (i32 (u_id (s_uplink s) + 1)) (s_uplink (released s h2 q))) (released s h2 q))) by done.
  rewrite (st_bind_OK _ _ _ tt (next_session (released s h2 q))) by done.
  exists h2, q. split_and!; [done| |].
  - intros k B. apply (balanced_tx s h q r) in B; [|done].
    unfold balanced in *. cbn [s_heap tx set_heap] in B. unfold released; cbn [s_heap set_heap].
    set (n := owned (tx s h q r) + k) in *.
    assert (live h1 (n - occ (v_buf r))) as B1.
    { unfold h1. destruct (v_buf r); [by apply live_free|]. eapply live_eq; [done|simpl; lia]. }
    assert (live h2 (n - occ (v_buf r) - occ hd)) as B2.
    { unfold h2. destruct hd; [by apply live_free|]. eapply live_eq; [done|simpl; lia]. }
    eapply live_eq; [apply B2|]. unfold n, owned, pending, hd; simpl. lia.
  - fold (session_is_active s). by destruct (session_is_active s).
Qed.

Lemma uplink_finish_run s : ∃ s', pouch_uplink_finish s = OK (tt, s') ∧ finish_result s s'.
Proof.
  destruct (finish_run s) as (h & q & Eq & B & E). rewrite E.
  eexists. split; [reflexivity|].
  destruct (session_is_active s) eqn:A; split; try done; rewrite ?A; try done.
  - intros [I F [G R] H]. split; simpl; [by apply session_end_inv|done| |done].
    split; simpl; [by rewrite Eq|done].
  - intros [I F [G R] H]. split; simpl; [done|done| |done].
    split; simpl; [by rewrite Eq|done].
Qed.

(** Finishing releases every buffer of the pouch that was not sent, keeps the blocks not yet
    processed for the next session, makes the streams of this session invalid by moving to the next
    session id, clears every flag, and emits SESSION_END exactly when the session was still active. *)
Theorem uplink_finish_spec s :
  ∃ s', pouch_uplink_finish s = OK (tt, s') ∧ finish_result s s' ∧ outgoing s' = [].
Proof.
  destruct (uplink_finish_run s) as (s' & E & F). exists s'. split_and!; [done..|].
  unfold outgoing, stream_of. by rewrite (fr_transport _ _ F), (fr_reader _ _ F).
Qed.

(** ** Any sequence of operations *)

(** The operations of the application, the transport and the work queue on the uplink. *)
Inductive uplink_op :=
| OpStart
| OpFill (maxlen : Z)
| OpFinish
| OpClose (lock : status)
| OpProcess
| OpWrite (e : pouch_entry) (lock : status).

Definition run_op (op : uplink_op) : st (sys C) unit :=
  match op with
  | OpStart => pouch_uplink_start;; mret tt
  | OpFill maxlen => pouch_uplink_fill maxlen;; mret tt
  | OpFinish => pouch_uplink_finish
  | OpClose lock => pouch_uplink_close lock;; mret tt
  | OpProcess => process_blocks
  | OpWrite e lock =>
    pouch_uplink_entry_write (Some (path e)) (Some (data e)) (content_type e) (data_len e) lock;;
    mret tt
  end.

(** What the arguments are: a length is not negative and an entry is well-formed. *)
Definition op_args (op : uplink_op) : Prop :=
  match op with
  | OpFill maxlen => 0 ≤ maxlen
  | OpWrite e _ => entry_wf e
  | _ => True
  end.

Fixpoint run_ops (ops : list uplink_op) : st (sys C) unit :=
  match ops with [] => mret tt | op :: ops => run_op op;; run_ops ops end.

(** The transport's contract: it starts a session only when it has finished the one before, so that no
    header is left. *)
Definition header_gone (op : uplink_op) s : Prop :=
  match op with OpStart => session_is_active s = true ∨ u_header (s_uplink s) = None | _ => True end.

Fixpoint finished_before (ops : list uplink_op) s : Prop :=
  match ops with
  | [] => True
  | op :: ops => header_gone op s ∧ ∀ s', run_op op s = OK (tt, s') → finished_before ops s'
  end.

Fixpoint starts (ops : list uplink_op) : Z :=
  match ops with [] => 0 | op :: ops => match op with OpStart => 1 | _ => 0 end + starts ops end.

Definition sys_inv s : Prop := uplink_inv s ∧ ∃ es, current s es.

(** The event a change of the session calls for. *)
Definition session_event (before after : bool) : list pouch_event :=
  match before, after with
  | false, true => [POUCH_EVENT_SESSION_START]
  | true, false => [POUCH_EVENT_SESSION_END]
  | _, _ => []
  end.

Definition put_all (evs : list pouch_event) (q : msgq pouch_event) : msgq pouch_event :=
  foldl (λ q ev, k_msgq_put ev q) q evs.

(** What one operation does to the whole. *)
Record op_effect s s' : Prop := {
  oe_inv : sys_inv s';
  oe_balanced k : balanced s k → balanced s' k;
  oe_events : pouch_event_q (s_events s') =
    put_all (session_event (session_is_active s) (session_is_active s')) (pouch_event_q (s_events s));
}.

Lemma quiet_effect s s' :
  sys_inv s' → (∀ k, balanced s k → balanced s' k) → s_events s' = s_events s →
  session_is_active s' = session_is_active s → op_effect s s'.
Proof. intros I B E A. split; [done..|]. rewrite E, A. by destruct (session_is_active s). Qed.

Lemma active_setbit s f :
  session_is_active (set_flags (Z.setbit f SESSION_ACTIVE) s) = true.
Proof. rewrite session_is_active_bit. by apply setbit_same. Qed.

Lemma active_clearbit s f :
  session_is_active (set_flags (Z.clearbit f SESSION_ACTIVE) s) = false.
Proof. rewrite session_is_active_bit. apply clearbit_same. Qed.

(** A start, when no header is left. *)
Lemma start_effect s : sys_inv s → header_gone OpStart s →
  ∃ s', run_op OpStart s = OK (tt, s') ∧ op_effect s s'.
Proof.
  intros [I [es Cu]] A. simpl. destruct (session_is_active s) eqn:Ac.
  - rewrite (st_bind_OK _ _ _ _ _ (start_active s Ac)). exists s. split; [done|].
    apply quiet_effect; try done. split; [done|by exists es].
  - destruct A as [A|A]; [congruence|].
    destruct (start_run s I Ac A) as (r & s' & E & S & _). rewrite (st_bind_OK _ _ _ _ _ E).
    exists s'. split; [done|]. destruct S. split.
    + split; [done|]. exists es. unfold current in *. by rewrite sd_block0.
    + done.
    + rewrite sd_events0, Ac. rewrite session_is_active_bit, sd_flags0.
      rewrite session_is_active_bit in Ac. destruct r; [by rewrite setbit_same|by rewrite Ac].
Qed.

Lemma forget_balanced s k : balanced s k → balanced (forget s) (k + occ (u_header (s_uplink s))).
Proof. intros B. unfold balanced in *. eapply live_eq; [apply B|]. unfold owned, pending; simpl. lia. Qed.

(** Any start: it is a start without the header that is left, whose buffer nobody owns any more. *)
Lemma start_any_effect s : sys_inv s →
  ∃ s' s0, run_op OpStart s = OK (tt, s') ∧ op_effect s0 s' ∧ s_events s0 = s_events s
    ∧ session_is_active s0 = session_is_active s ∧ (header_gone OpStart s → s0 = s)
    ∧ ∃ lost, 0 ≤ lost ≤ 1 ∧ (s0 = s → lost = 0) ∧ ∀ k, balanced s k → balanced s0 (k + lost).
Proof.
  intros Si. assert (header_gone OpStart s → ∃ s' s0, run_op OpStart s = OK (tt, s') ∧ op_effect s0 s'
    ∧ s_events s0 = s_events s ∧ session_is_active s0 = session_is_active s ∧ (header_gone OpStart s → s0 = s)
    ∧ ∃ lost, 0 ≤ lost ≤ 1 ∧ (s0 = s → lost = 0) ∧ ∀ k, balanced s k → balanced s0 (k + lost)) as Same.
  { intros G. destruct (start_effect s Si G) as (s' & E & Ef). exists s', s. split_and!; [done..|].
    exists 0. split_and!; [done..|]. intros k. by rewrite Z.add_0_r. }
  destruct (session_is_active s) eqn:A; [apply Same; by left|].
  destruct (u_header (s_uplink s)) as [b|] eqn:Hb; [|apply Same; by right].
  destruct Si as [I [es Cu]]. destruct (start_forget s (ui_crypto _ I) A) as [(c & Ic & E)|E].
  - exists (set_crypto c s), s. cbn [run_op]. rewrite (st_bind_OK _ _ _ _ _ E). split_and!; [done| |done..|].
    + apply quiet_effect; [|done..]. split; [destruct I as [? ? [? ?] ?]; by repeat split|by exists es].
    + exists 0. split_and!; [done..|]. intros k. by rewrite Z.add_0_r.
  - destruct (start_effect (forget s)) as (s' & E' & Ef).
    { split; [destruct I as [? ? [? ?] ?]; by repeat split|by exists es]. }
    { by right. }
    exists s', (forget s). split_and!; [|done|done|by rewrite <- A| |].
    + cbn [run_op] in E' |- *. unfold mbind, st_bind in *. by rewrite E.
    + intros [G|G]; congruence.
    + exists 1. split_and!; [done..| |].
      * intros F. exfalso. assert (u_header (s_uplink (forget s)) = u_header (s_uplink s)) as H by by rewrite F.
        by rewrite Hb in H.
      * intros k B. apply forget_balanced in B. by rewrite Hb in B.
Qed.

Lemma fill_effect s maxlen : sys_inv s → op_args (OpFill maxlen) →
  ∃ s', run_op (OpFill maxlen) s = OK (tt, s') ∧ op_effect s s'.
Proof.
  intros [I [es Cu]] N. simpl. destruct (session_is_active s) eqn:A.
  2:{ exists s. split; [|by apply quiet_effect; [split; [|exists es]|..]].
      unfold pouch_uplink_fill. run_st. by rewrite A. }
  destruct (fill_run s maxlen (ui_transport _ I) A N) as (m & (h & q & r & -> & M) & T & _ & B & E).
  set (m := tx s h q r) in *.
  assert (sys_inv m) as Im.
  { split; [|by exists es]. destruct I. by split. }
  destruct (pouch_is_open s || bool_decide (outgoing m ≠ [])).
  - rewrite (st_bind_OK _ _ _ _ _ E). exists m. split; [done|]. by apply quiet_effect.
  - rewrite (st_bind_OK _ _ _ _ _ E). exists (ended m). split; [done|].
    destruct Im as [[? ? [? ?] ?] ?]. split.
    + split; [|done]. split; simpl; [by apply session_end_inv|done|by split|done].
    + intros k K. by apply B in K.
    + rewrite A. rewrite session_is_active_bit. cbn [ended s_uplink set_events set_uplink u_flags
        set_u_flags set_crypto]. by rewrite clearbit_same.
Qed.

Lemma finish_effect s : sys_inv s → ∃ s', run_op OpFinish s = OK (tt, s') ∧ op_effect s s'.
Proof.
  intros [I [es Cu]]. simpl. destruct (uplink_finish_run s) as (s' & E & F). exists s'.
  split; [done|]. split.
  - split; [by apply F|]. exists es. unfold current in *. by rewrite (fr_block _ _ F).
  - apply F.
  - rewrite (fr_events _ _ F). rewrite (session_is_active_bit s'), (fr_flags _ _ F), Z.bits_0.
    by destruct (session_is_active s).
Qed.

Lemma close_effect s lock : sys_inv s → ∃ s', run_op (OpClose lock) s = OK (tt, s') ∧ op_effect s s'.
Proof.
  intros [I [es Cu]]. simpl. pose proof (close_run s lock) as E.
  destruct (pouch_is_closing s) eqn:P.
  { rewrite (st_bind_OK _ _ _ _ _ E). exists s. split; [done|].
    apply quiet_effect; try done. split; [done|by exists es]. }
  assert (entry_log (pending s) s es) as L.
  { exists [], es. split_and!; [exists [], []; by rewrite app_nil_r|done|done]. }
  assert (session_is_active (closing_set s) = session_is_active s) as Ac.
  { rewrite !session_is_active_bit. by apply setbit_other. }
  destruct lock as [err|].
  - simpl in E. rewrite (st_bind_OK _ _ _ _ _ E). exists (work_submitted (closing_set s)).
    split; [done|]. apply quiet_effect; [|done|done|exact Ac].
    split; [|by exists es]. destruct I as [? ? [? ?] ?]. by repeat split.
  - destruct (entry_close_run (pending s) (closing_set s) es L) as (s1 & E1 & Fl & Bl & Wr).
    rewrite E1 in E. rewrite (st_bind_OK _ _ _ _ _ E). exists (work_submitted s1). split; [done|].
    assert (uplink_inv s1) as I1.
    { apply (uplink_inv_writer (closing_set s)); [apply Wr| |by apply uplink_inv_flags].
      apply (wrote_finished (pending s) (closing_set s) s1 es es L Wr), I. }
    destruct I1 as [? ? [? ?] ?]. destruct Wr as [_ [_ Ev _ _ (q & w & U)] Ba].
    apply quiet_effect.
    + split; [by repeat split|]. exists []. unfold current. simpl. by rewrite Bl.
    + intros k K. by apply (Ba k).
    + apply Ev.
    + rewrite <- Ac, !session_is_active_bit. simpl. by rewrite U.
Qed.

Lemma active_close s : session_is_active (close_if_closing s) = session_is_active s.
Proof.
  unfold close_if_closing. destruct (pouch_is_closing s); [|done].
  rewrite !session_is_active_bit. by apply setbit_other.
Qed.

Lemma sys_inv_close s : sys_inv s → sys_inv (close_if_closing s).
Proof.
  intros [[? ? [? ?] ?] [es ?]]. unfold close_if_closing. destruct (pouch_is_closing s);
    (split; [by repeat split|by exists es]).
Qed.

Lemma balanced_close s k : balanced s k → balanced (close_if_closing s) k.
Proof. unfold close_if_closing. by destruct (pouch_is_closing s). Qed.

Lemma process_effect s : sys_inv s → ∃ s', run_op OpProcess s = OK (tt, s') ∧ op_effect s s'.
Proof.
  intros [I [es Cu]]. simpl. destruct (processing s) eqn:P.
  - destruct (process_blocks_run s I P) as (bs & h & c & m & _ & Em & E & R).
    exists (close_if_closing m). split; [done|]. apply quiet_effect.
    + apply sys_inv_close. split; [apply R|]. exists es. by rewrite Em.
    + intros k K. by apply balanced_close, R.
    + transitivity (s_events m); [unfold close_if_closing; by destruct (pouch_is_closing m)|].
      by rewrite Em.
    + rewrite active_close. rewrite Em. done.
  - exists (close_if_closing (work_taken s)). split; [by apply process_blocks_idle|].
    apply quiet_effect.
    + apply sys_inv_close. destruct I as [? ? [? ?] ?]. split; [by repeat split|by exists es].
    + intros k K. by apply balanced_close.
    + unfold close_if_closing. by destruct (pouch_is_closing (work_taken s)).
    + by rewrite active_close.
Qed.

Lemma write_effect s e lock : sys_inv s → op_args (OpWrite e lock) →
  ∃ s', run_op (OpWrite e lock) s = OK (tt, s') ∧ op_effect s s'.
Proof.
  intros [I [es Cu]] W. cbn [op_args run_op] in *.
  assert (op_effect s s) as Id by (apply quiet_effect; try done; split; [done|by exists es]).
  destruct (Z.eqb_spec (data_len e) 0) as [E0|N].
  { exists s. split; [|done]. unfold pouch_uplink_entry_write. by rewrite E0. }
  destruct lock as [err|].
  { exists s. split; [|done]. unfold pouch_uplink_entry_write.
    by rewrite (proj2 (Z.eqb_neq _ _)) by done. }
  assert (entry_log (pending s) s es) as L.
  { exists [], es. split_and!; [exists [], []; by rewrite app_nil_r|done|done]. }
  destruct (entry_write_run _ s es e L W N) as (r & s' & E & Wr & _).
  rewrite (st_bind_OK _ _ _ _ _ E). exists s'. split; [done|].
  destruct (wr_log _ _ _ _ Wr) as (es' & cur & _ & Cu' & _). apply quiet_effect.
  - split; [|by exists cur]. apply (uplink_inv_writer s); [apply Wr| |done].
    apply (wrote_finished (pending s) s s' es _ L Wr), I.
  - apply Wr.
  - apply Wr.
  - destruct (wr_frame _ _ _ _ Wr) as [_ _ _ _ (q & w & U)].
    rewrite !session_is_active_bit. by rewrite U.
Qed.

(** One operation: [lost] is the buffer of a header that a start replaced. *)
Lemma run_op_safe op s : sys_inv s → op_args op →
  ∃ s' lost, run_op op s = OK (tt, s') ∧ sys_inv s' ∧ (∀ k, balanced s k → balanced s' (k + lost))
    ∧ pouch_event_q (s_events s') =
        put_all (session_event (session_is_active s) (session_is_active s')) (pouch_event_q (s_events s))
    ∧ 0 ≤ lost ≤ starts [op] ∧ (header_gone op s → lost = 0).
Proof.
  intros I A.
  assert (∀ s', run_op op s = OK (tt, s') → op_effect s s' →
    ∃ s' lost, run_op op s = OK (tt, s') ∧ sys_inv s' ∧ (∀ k, balanced s k → balanced s' (k + lost))
    ∧ pouch_event_q (s_events s') =
        put_all (session_event (session_is_active s) (session_is_active s')) (pouch_event_q (s_events s))
    ∧ 0 ≤ lost ≤ starts [op] ∧ (header_gone op s → lost = 0)) as Go.
  { intros s' E [Is Ba Ev]. exists s', 0. split_and!; [done|done| |done|done|by destruct op|done].
    intros k. rewrite Z.add_0_r. apply Ba. }
  destruct op.
  - destruct (start_any_effect s I) as (s' & s0 & E & [Is Ba Ev] & Q & Ac & Same & lost & Ll & L0 & Bl).
    exists s', lost. rewrite Q, Ac in Ev. cbn [starts]. split_and!; [done|done| |done|lia|lia|].
    + intros k B. by apply Ba, Bl.
    + intros G. by apply L0, Same.
  - destruct (fill_effect s maxlen I A) as (s' & E & Ef). by apply (Go s').
  - destruct (finish_effect s I) as (s' & E & Ef). by apply (Go s').
  - destruct (close_effect s lock I) as (s' & E & Ef). by apply (Go s').
  - destruct (process_effect s I) as (s' & E & Ef). by apply (Go s').
  - destruct (write_effect s e lock I A) as (s' & E & Ef). by apply (Go s').
Qed.

(** Sessions start and end in turn: [alternates active evs active'] when the events [evs] take an
    uplink whose session is [active] or not to [active']. *)
Fixpoint alternates (active : bool) (evs : list pouch_event) (active' : bool) : Prop :=
  match evs with
  | [] => active' = active
  | POUCH_EVENT_SESSION_START :: evs => active = false ∧ alternates true evs active'
  | POUCH_EVENT_SESSION_END :: evs => active = true ∧ alternates false evs active'
  end.

Lemma alternates_session_event a a' evs a'' :
  alternates a' evs a'' → alternates a (session_event a a' ++ evs) a''.
Proof. by destruct a, a'. Qed.

(** C16: whatever sequence of starts, fills, finishes, closes, entry writes and runs of the processing
    work the application and the transport make, nothing faults, the invariant of the uplink holds
    throughout, and the events emitted are SESSION_START and SESSION_END in turn, telling exactly whether
    a session is active. No buffer is freed twice, and none is leaked when the transport finishes a
    session before it starts the next; a start that comes while the header of an ended session is left
    loses that header's buffer and nothing else. *)
Theorem uplink_ops_safe ops : ∀ s,
  sys_inv s → Forall op_args ops →
  ∃ s' evs lost, run_ops ops s = OK (tt, s') ∧ sys_inv s' ∧ (∀ k, balanced s k → balanced s' (k + lost))
    ∧ pouch_event_q (s_events s') = put_all evs (pouch_event_q (s_events s))
    ∧ alternates (session_is_active s) evs (session_is_active s')
    ∧ 0 ≤ lost ≤ starts ops ∧ (finished_before ops s → lost = 0).
Proof.
  induction ops as [|op ops IH]; intros s I O; cbn [run_ops].
  { exists s, [], 0. split_and!; try done. intros k. by rewrite Z.add_0_r. }
  apply Forall_cons in O as [A O].
  destruct (run_op_safe op s I A) as (s1 & lost1 & E1 & I1 & B1 & Q1 & L1 & Z1).
  destruct (IH s1 I1 O) as (s2 & evs & lost2 & E2 & I2 & B2 & Q2 & A2 & L2 & Z2).
  rewrite (st_bind_OK _ _ _ _ _ E1).
  exists s2, (session_event (session_is_active s) (session_is_active s1) ++ evs), (lost1 + lost2).
  split_and!; [done|done| | |by apply alternates_session_event|lia|cbn [starts] in *; lia|].
  - intros k K. rewrite Z.add_assoc. by apply B2, B1.
  - rewrite Q2, Q1. unfold put_all. by rewrite foldl_app.
  - intros [G F]. rewrite (Z1 G), (Z2 (F s1 E1)). done.
Qed.

End Sessions.

Module UplinkWitness.
#[local] Existing Instances Native.byte_order Native.config_none Native.list_slist Native.flag_work
  Native.list_msgq NativeCodec.codec NativeCodec.codec_laws CryptoNone.crypto_none
  CryptoNone.crypto_none_laws.

(** A device called "d", before its first session. *)
Definition ex_sys : sys CryptoNone.state := boot Native.heap0 4 (Some [x64]).

Definition ex_entry : pouch_entry := Entry [x2e; x73] 60 3 [x01; x02; x03].

Lemma ex_entry_wf : entry_wf ex_entry.
Proof. split; try done. apply (bool_decide_unpack _). by vm_compute. Qed.

Lemma ex_inv : sys_inv ex_sys.
Proof.
  split; [|by exists []]. split; simpl; [by eexists|constructor| |constructor].
  split; simpl; [constructor|done].
Qed.

(** One byte-sized block, finished. *)
Definition ex_block : pouch_buf := PBuf 515 4 [x00; x02; xc0; x07].

Lemma up_block_wf : buf_wf ex_block.
Proof. by split. Qed.

Lemma ex_finished : finished ex_block.
Proof.
  exists xc0, [x07]. split; [|done]. split; [by split|done|]. by exists x00, x02.
Qed.

(** An open session with a block to process and one to send. *)
Definition ex_active : sys CryptoNone.state :=
  set_flags 1 (set_uplink (set_u_transport_queue [ex_block] (set_u_processing_queue [ex_block]
    (s_uplink ex_sys))) ex_sys).

Lemma ex_active_inv : uplink_inv ex_active.
Proof.
  split; simpl; [by eexists|constructor; [apply ex_finished|constructor]| |constructor].
  split; simpl; [|done]. by constructor; [split; [apply up_block_wf|]|constructor].
Qed.

Lemma fill_stream_witness :
  ∃ (r : pouch_result) m, transport_step ex_active m ∧ transport_inv m
    ∧ pouch_uplink_fill 3 ex_active =
        OK ((r, 3, [x00; x02; xc0]), if decide (r = POUCH_NO_MORE_DATA) then ended m else m)
    ∧ outgoing m = [x07]
    ∧ (∀ k, balanced ex_active k → balanced m k)
    ∧ (r = POUCH_NO_MORE_DATA ∨ r = POUCH_MORE_DATA)
    ∧ (r = POUCH_NO_MORE_DATA ↔ pouch_is_open ex_active = false ∧ outgoing m = []).
Proof.
  exact (proj2 (fill_stream ex_active 3 (ui_transport _ ex_active_inv) ltac:(lia)) eq_refl).
Defined.

Lemma process_blocks_spec_witness :
  ∃ es h c m,
    encrypt_all [ex_block] (s_heap ex_active, s_crypto ex_active) = OK (es, (h, c))
    ∧ process_blocks ex_active = OK (tt, close_if_closing m) ∧ processed_to ex_active m es
    ∧ u_flags (s_uplink m) = 1.
Proof. exact (proj1 (process_blocks_spec ex_active ex_active_inv) eq_refl). Defined.

Lemma uplink_close_spec_witness :
  ∃ s', pouch_uplink_close None ex_active = OK (SUCCESS, s')
    ∧ flushed [ex_block] s' [] ∧ s_block s' = None
    ∧ u_flags (s_uplink s') = 3
    ∧ k_work_queued (u_processing_work (s_uplink s')) = true
    ∧ uplink_inv s' ∧ (∀ k, balanced ex_active k → balanced s' k).
Proof.
  exact (proj1 (proj2 (uplink_close_spec [ex_block] ex_active [] None
    (entry_log_start ex_active eq_refl) ex_active_inv)) eq_refl eq_refl).
Defined.

Lemma uplink_start_spec_witness :
  ∃ r s', pouch_uplink_start ex_sys = OK (r, s') ∧ started r ex_sys s' ∧ (can_start ex_sys → r = true).
Proof. exact (proj2 (uplink_start_spec ex_sys (proj1 ex_inv)) eq_refl eq_refl). Defined.

(** A whole session. *)
Definition ex_ops : list uplink_op :=
  [OpStart; OpWrite ex_entry None; OpClose None; OpProcess; OpFill 4; OpFill 100; OpFinish].

Lemma ex_args : Forall op_args ex_ops.
Proof. repeat constructor; apply ex_entry_wf || done. Qed.

Lemma ex_finished_before : finished_before ex_ops ex_sys.
Proof. split; [by right|]. intros ? _. by repeat (split; [done|]; intros ? _). Qed.

Lemma uplink_ops_safe_witness :
  ∃ s' evs, run_ops ex_ops ex_sys = OK (tt, s') ∧ sys_inv s'
    ∧ (∀ k, balanced ex_sys k → balanced s' (k + 0))
    ∧ pouch_event_q (s_events s') = put_all evs (4%nat, [])
    ∧ alternates false evs (session_is_active s').
Proof.
  destruct (uplink_ops_safe ex_ops ex_sys ex_inv ex_args) as (s' & evs & lost & E & I & B & Q & A & _ & L).
  exists s', evs. rewrite (L ex_finished_before) in B. exact (conj E (conj I (conj B (conj Q A)))).
Defined.

(** Two sessions without data, the first not finished: its header's buffer is lost, as two buffers are live
    and the uplink owns one. *)
Example unfinished_loses_header :
  match run_ops [OpStart; OpClose None; OpProcess; OpFill 4; OpStart] ex_sys with
  | OK (_, s) => bufs (s_heap s) = 2 ∧ owned s = 1
  | Fault => False
  end.
Proof. vm_compute. by split. Qed.

(** The bytes of that session: the header and the block of the entry. *)
Example ex_session_bytes :
  (run_ops [OpStart; OpWrite ex_entry None; OpClose None; OpProcess];; pouch_uplink_fill 100) ex_sys
    ≫= (λ r, OK r.1) =
  OK (POUCH_NO_MORE_DATA, 19,
      [x82; x01; x82; x00; x61; x64; x00; x0b; xc0; x00; x03; x00; x3c; x02; x2e; x73; x01; x02; x03]).
Proof. vm_compute. reflexivity. Qed.
End UplinkWitness.
