(* ===== verification/Sender.v ===== *)
(** The sender: one session of the uplink, whatever the encryption layer.

    The application writes entries, opens, writes and closes streams, the processing work runs and the
    transport reads, in any order; the pouch is closed; then works and reads go on until a read reports
    the end. The invariant ([sending]) accounts for every block ever queued. *)
From S2P Require Import Prelude Platform Buf Block Crypto State Entry Stream Header Uplink.

(** * Pieces *)

(** What a block of a pouch carries: entries, or a part of the data of the [k]th stream, the first with
    the content type and the path. *)
Inductive piece :=
| PieceEntries (es : list pouch_entry)
| PieceStream (k : nat) (id : Z) (opening : option (Z * list byte)) (c : list byte) (last : bool).

Definition piece_entries (p : piece) : list pouch_entry :=
  match p with PieceEntries es => es | PieceStream _ _ _ _ _ => [] end.

Definition of_stream (k : nat) (p : piece) : bool :=
  match p with PieceEntries _ => false | PieceStream j _ _ _ _ => bool_decide (j = k) end.

(** The entries of a trace of pieces, and its pieces of stream [k]. *)
Definition entries_of (ps : list piece) : list pouch_entry := concat (map piece_entries ps).
Definition pieces_of (k : nat) (ps : list piece) : list piece := filter (λ p, of_stream k p = true) ps.

(** Stream [k] in the parts [cs]. *)
Fixpoint chunks (k : nat) (id : Z) (opening : option (Z * list byte)) (last : bool)
    (cs : list (list byte)) : list piece :=
  match cs with
  | [] => []
  | [c] => [PieceStream k id opening c last]
  | c :: cs => PieceStream k id opening c false :: chunks k id None last cs
  end.

Definition after (opening : option (Z * list byte)) (cs : list (list byte)) : option (Z * list byte) :=
  match cs with [] => opening | _ => None end.

Lemma entries_of_app ps qs : entries_of (ps ++ qs) = entries_of ps ++ entries_of qs.
Proof. unfold entries_of. by rewrite map_app, concat_app. Qed.

Lemma entries_of_entries gs : entries_of (map PieceEntries gs) = concat gs.
Proof. induction gs as [|es gs IH]; [done|]. unfold entries_of in *. simpl. by rewrite IH. Qed.

Lemma pieces_of_app k ps qs : pieces_of k (ps ++ qs) = pieces_of k ps ++ pieces_of k qs.
Proof. apply filter_app. Qed.

Lemma pieces_of_entries k gs : pieces_of k (map PieceEntries gs) = [].
Proof. induction gs as [|es gs IH]; [done|]. unfold pieces_of in *. simpl. by rewrite filter_cons_False. Qed.

Lemma entries_of_chunks k id last cs : ∀ opening, entries_of (chunks k id opening last cs) = [].
Proof.
  induction cs as [|c cs IH]; intros opening; [done|]. destruct cs; [done|].
  change (entries_of (chunks k id None last (l :: cs)) = []). apply IH.
Qed.

Lemma pieces_of_chunks j k id last cs : ∀ opening,
  pieces_of j (chunks k id opening last cs) = if decide (j = k) then chunks k id opening last cs else [].
Proof.
  assert (∀ opening c l ps, pieces_of j (PieceStream k id opening c l :: ps)
    = (if decide (j = k) then [PieceStream k id opening c l] else []) ++ pieces_of j ps) as Cons.
  { intros opening c l ps. unfold pieces_of. case_decide as D.
    - rewrite filter_cons_True; [done|]. by apply bool_decide_eq_true.
    - rewrite filter_cons_False; [done|]. simpl. by rewrite bool_decide_eq_true. }
  induction cs as [|c cs IH]; intros opening; [by case_decide|].
  destruct cs as [|c2 cs].
  - simpl chunks. rewrite Cons. by case_decide.
  - change (chunks k id opening last (c :: c2 :: cs))
      with (PieceStream k id opening c false :: chunks k id None last (c2 :: cs)).
    rewrite Cons, IH. by case_decide.
Qed.

Lemma chunks_app k id last cs2 : ∀ cs1 opening, cs2 ≠ [] ∨ last = false →
  chunks k id opening last (cs1 ++ cs2) = chunks k id opening false cs1 ++ chunks k id (after opening cs1) last cs2.
Proof.
  induction cs1 as [|c cs1 IH]; intros opening H; [done|].
  destruct cs1 as [|c1 cs1].
  - destruct cs2; [|done]. destruct H as [H| ->]; done.
  - change (chunks k id opening last ((c :: c1 :: cs1) ++ cs2))
      with (PieceStream k id opening c false :: chunks k id None last ((c1 :: cs1) ++ cs2)).
    by rewrite IH.
Qed.

Section Pieces.
Context {BO : ByteOrder} {CF : Config}.

(** What is delivered to the handlers of the peer. *)
Definition deliver_piece {A} (handlers : list (pouch_downlink_handler A)) (a : A) (p : piece) : A :=
  match p with
  | PieceEntries es => foldl (deliver handlers) a es
  | PieceStream _ id opening c last => deliver_stream handlers a id opening c last
  end.

Definition block_holds (b : pouch_buf) (p : piece) : Prop :=
  match p with
  | PieceEntries es => holds_finished b es
  | PieceStream _ id opening c last =>
    0 < id < 32 ∧ opening_wf opening
    ∧ finished_block b (id_byte id (is_opening opening) last) (stream_payload opening c)
  end.

Lemma block_holds_finished bs ps : Forall2 block_holds bs ps → Forall finished bs.
Proof.
  induction 1 as [|b p bs ps H F IH]; [constructor|]. constructor; [|done].
  destruct p; [by do 2 eexists|]. destruct H as (_ & _ & H). by do 2 eexists.
Qed.

Lemma holds_pieces bs gs : Forall2 holds_finished bs gs → Forall2 block_holds bs (map PieceEntries gs).
Proof. induction 1; by constructor. Qed.

Lemma sent_pieces k id last bs cs : ∀ opening, 0 < id < 32 → opening_wf opening →
  sent id opening last bs cs → Forall2 block_holds bs (chunks k id opening last cs).
Proof.
  revert cs. induction bs as [|b bs IH]; intros [|c cs] opening I O S; try done.
  { by destruct bs. }
  destruct bs as [|b2 bs], cs as [|c2 cs]; simpl sent in S.
  - constructor; [done|constructor].
  - by destruct S.
  - destruct S as [_ S]. by destruct bs.
  - destruct S as [F S]. constructor; [done|]. by apply (IH (c2 :: cs) None).
Qed.

End Pieces.

(** The bytes of a pouch: its header and its blocks; nothing at all when there is no block. *)
Definition pouch_bytes (header : list byte) (bs : list pouch_buf) : list byte :=
  match bs with [] => [] | _ => header ++ concat (map contents bs) end.

Lemma pouch_bytes_app header bs es :
  pouch_bytes header (bs ++ es) =
    pouch_bytes header bs ++ match bs, es with
                             | [], _ => pouch_bytes header es
                             | _, _ => concat (map contents es)
                             end.
Proof.
  destruct bs as [|b bs]; [done|]. cbn [pouch_bytes app]. rewrite app_comm_cons, map_app, concat_app.
  by rewrite app_assoc.
Qed.

Section Sender.
Context {BO : ByteOrder} {SL : SList} {KW : KWork} {MQ : MsgQ} {CF : Config} {HC : HeaderCodec}.
Context {HL : HeaderCodecLaws HC} {C : Type} {CR : Crypto C} {CL : CryptoLaws C}.
Implicit Types (s : sys C) (c : C) (e : pouch_entry) (log : list pouch_entry) (out hb : list byte).

(** * What the encryption layer makes of the blocks *)

(** The blocks [bs], encrypted one after the other from [c], give the blocks [es]; one that fails is
    dropped. [M] tells which allocations succeed. *)
Inductive encrypts (M : nat → bool) : C → list pouch_buf → list pouch_buf → C → Prop :=
| encrypts_nil c : encrypts M c [] [] c
| encrypts_cons c b r c1 bs es c2 h h' :
    malloc_ok h = M → crypto_encrypt_block (Some b) (h, c) = OK (r, (h', c1)) →
    encrypts M c1 bs es c2 → encrypts M c (b :: bs) (option_list r ++ es) c2.

Lemma encrypts_app M c bs es c1 bs' es' c2 :
  encrypts M c bs es c1 → encrypts M c1 bs' es' c2 → encrypts M c (bs ++ bs') (es ++ es') c2.
Proof.
  induction 1 as [|c b r c1' bs es c3 h h' Mh E _ IH]; intros H; [done|].
  simpl. rewrite <- app_assoc. by eapply encrypts_cons; [..|apply IH].
Qed.

Lemma encrypt_all_encrypts bs : ∀ h c es h' c',
  crypto_inv c → Forall finished bs → encrypt_all bs (h, c) = OK (es, (h', c')) →
  encrypts (malloc_ok h) c bs es c' ∧ malloc_ok h' = malloc_ok h.
Proof.
  induction bs as [|b bs IH]; intros h c es h' c' I F E.
  { injection E as <- <- <-. split; [constructor|done]. }
  apply Forall_cons in F as [(i & p & Fb) F]. cbn [encrypt_all] in E.
  apply st_bind_OK_inv in E as (r & [h1 c1] & E1 & E). apply st_bind_OK_inv in E as (es1 & [h2 c2] & E2 & E).
  injection E as <- <- <-.
  assert (live h (i32 (bufs h))) as L by (unfold live; symmetry; apply i32_small, i32_range).
  destruct (encrypt_spec b i p h c _ I Fb L) as (r' & h1' & c1' & E1' & I1 & M1 & _).
  rewrite E1 in E1'. injection E1' as <- <- <-. destruct (IH h1 c1 es1 h2 c2 I1 F E2) as [En M2].
  rewrite M1 in En, M2. split; [|done]. by apply (encrypts_cons _ c b r c1 bs es1 c2 h h1).
Qed.

(** * The steps of a session *)

(** A stream as its user knows it: what it was opened with, the data the library took, and the pointer,
    NULL when it was not opened or is closed. *)
Record client_stream := ClientStream {
  cs_path : list byte;
  cs_content_type : Z;
  cs_data : list byte;
  cs_stream : option pouch_stream;
}.

(** The streams opened so far, and the library. *)
Definition world : Type := list client_stream * sys C.

Inductive pouch_op :=
| PWrite (e : pouch_entry)
| POpen (path : list byte) (content_type : Z)
| PStream (k : nat) (d : list byte)
| PCloseStream (k : nat)
| PProcess
| PFill (maxlen : Z).

Definition op_ok (op : pouch_op) : Prop :=
  match op with
  | PWrite e => entry_wf e ∧ data_len e ≠ 0
  | POpen path _ => path_representable path
  | PFill maxlen => 0 ≤ maxlen
  | _ => True
  end.

(** The steps of the library itself. *)
Definition is_internal (op : pouch_op) : bool :=
  match op with PProcess | PFill _ => true | _ => false end.

Definition on_sys {A} (m : st (sys C) A) : st world A := λ '(ys, s),
  '(a, s) ← m s; OK (a, (ys, s)).

(** A call with the pointer of stream [k], and what the user then knows of the stream. *)
Definition on_stream {A} (k : nat) (m : option pouch_stream → st (sys C) A)
    (f : A → client_stream → client_stream) : st world unit := λ '(ys, s),
  match ys !! k with
  | None => OK (tt, (ys, s))
  | Some y => '(a, s) ← m (cs_stream y) s; OK (tt, (<[k := f a y]> ys, s))
  end.

(** The entries accepted and the bytes given to the transport. *)
Definition run_pouch_op (op : pouch_op) : st world (list pouch_entry * list byte) :=
  match op with
  | PWrite e =>
    r ← on_sys (pouch_uplink_entry_write (Some (path e)) (Some (data e)) (content_type e) (data_len e) None);
    mret (accepted r e, [])
  | POpen p ct =>
    x ← on_sys (pouch_uplink_stream_open p ct);
    modify (λ w, (w.1 ++ [ClientStream p ct [] x], w.2));;
    mret ([], [])
  | PStream k d =>
    on_stream k (λ x, pouch_stream_write x d (len d))
      (λ r y, ClientStream (cs_path y) (cs_content_type y) (cs_data y ++ ztake r.1 d) r.2);;
    mret ([], [])
  | PCloseStream k =>
    on_stream k pouch_stream_close
      (λ _ y, ClientStream (cs_path y) (cs_content_type y) (cs_data y) None);;
    mret ([], [])
  | PProcess => on_sys process_blocks;; mret ([], [])
  | PFill maxlen => '(_, out) ← on_sys (pouch_uplink_fill maxlen); mret ([], out)
  end.

Fixpoint run_pouch (ops : list pouch_op) : st world (list pouch_entry * list byte) :=
  match ops with
  | [] => mret ([], [])
  | op :: ops =>
    '(es, out) ← run_pouch_op op;
    '(es', out') ← run_pouch ops;
    mret (es ++ es', out ++ out')
  end.

(** From the start to the last read but one: the close comes between [ops1] and [ops2]. *)
Definition session (ops1 ops2 : list pouch_op) : st world (list pouch_entry * list byte) :=
  '(es, out1) ← run_pouch ops1;
  on_sys (pouch_uplink_close None);;
  '(_, out2) ← run_pouch ops2;
  mret (es, out1 ++ out2).

(** ** What the steps are meant to do *)

(** A stream that takes all data while it is open. *)
Record abstract_stream := AbstractStream {
  as_path : list byte;
  as_content_type : Z;
  as_data : list byte;
  as_open : bool;
}.

Definition abs (y : client_stream) : abstract_stream :=
  AbstractStream (cs_path y) (cs_content_type y) (cs_data y) (bool_decide (is_Some (cs_stream y))).

Definition spec_write (d : list byte) (a : abstract_stream) : abstract_stream :=
  if as_open a then AbstractStream (as_path a) (as_content_type a) (as_data a ++ d) true else a.
Definition spec_close (a : abstract_stream) : abstract_stream :=
  AbstractStream (as_path a) (as_content_type a) (as_data a) false.

(** With memory for everything: an entry is accepted when a block can hold it, a stream is opened
    unless POUCH_STREAMS_MAX are open ([open0] of them since before), and takes all its data. *)
Definition spec_op (open0 : Z) (op : pouch_op) (l : list abstract_stream)
    : list pouch_entry * list abstract_stream :=
  match op with
  | PWrite e => (if entry_size e <=? MAX_BLOCK_PAYLOAD_SIZE then [e] else [], l)
  | POpen p ct =>
    ([], l ++ [AbstractStream p ct []
                 (open0 + len (filter (λ a, as_open a = true) l) <? POUCH_STREAMS_MAX)])
  | PStream k d => ([], alter (spec_write d) k l)
  | PCloseStream k => ([], alter spec_close k l)
  | PProcess | PFill _ => ([], l)
  end.

Fixpoint spec_ops (open0 : Z) (ops : list pouch_op) (l : list abstract_stream)
    : list pouch_entry * list abstract_stream :=
  match ops with
  | [] => ([], l)
  | op :: ops =>
    let '(es, l) := spec_op open0 op l in
    let '(es', l) := spec_ops open0 ops l in
    (es ++ es', l)
  end.

Lemma abs_insert ys k y y' f :
  ys !! k = Some y → abs y' = f (abs y) → map abs (<[k := y']> ys) = alter f k (map abs ys).
Proof.
  revert k. induction ys as [|z ys IH]; intros [|k] Hk E; try done; simpl in *.
  - injection Hk as ->. by rewrite E.
  - f_equal. by apply IH.
Qed.

Lemma alter_none ys k (f : abstract_stream → abstract_stream) : ys !! k = None → alter f k (map abs ys) = map abs ys.
Proof. revert k. induction ys as [|z ys IH]; intros [|k] N; try done. simpl in *. f_equal. by apply IH. Qed.

(** * The invariant *)

Definition opening_of (y : client_stream) : option (Z * list byte) :=
  Some (u16 (cs_content_type y), cs_path y).

(** The data of stream [k] that is in the pieces [ps], with what an open stream holds besides. A closed
    one is complete, unless nothing counted as written. *)
Definition stream_ok (ps : list piece) (k : nat) (y : client_stream) s : Prop :=
  match cs_stream y with
  | Some x =>
    0 < st_id x < 32 ∧ st_bytes x = u32 (len (cs_data y)) ∧ session_valid x s = true
    ∧ opening_wf (opening_of y)
    ∧ ∃ cs (d : list byte), pieces_of k ps = chunks k (st_id x) (opening_of y) false cs
        ∧ stream_pieces (after (opening_of y) cs) [] x d ∧ concat cs ++ d = cs_data y
  | None =>
    ∃ id cs,
      if 0 <? u32 (len (cs_data y))
      then pieces_of k ps = chunks k id (opening_of y) true cs ∧ concat cs = cs_data y
      else pieces_of k ps = chunks k id (opening_of y) false cs ∧ concat cs `prefix_of` cs_data y
  end.

(** What the writers were given is in the pieces [ps] and in the blocks under construction. *)
Record content (ys : list client_stream) s log (ps : list piece) : Prop := {
  ct_entries : ∃ cur, current s cur ∧ entries_of ps ++ cur = log;
  ct_streams k y : ys !! k = Some y → stream_ok ps k y s;
  ct_new k : (length ys ≤ k)%nat → pieces_of k ps = [];
}.

Definition is_open (y : client_stream) : Prop := is_Some (cs_stream y).
#[export] Instance is_open_dec y : Decision (is_open y) := _.

Definition num_open (ys : list client_stream) : Z := len (filter is_open ys).

Section Session.
Context (hb : list byte) (c0 : C) (M : nat → bool) (open0 held0 : Z).

(** Of the pieces [ps], the blocks of those at the front, [gone], were processed and became [es]; what
    was read and what is still to be read are the bytes of these; the others wait. *)
Record sending_at (gone : list pouch_buf) (ps : list piece) (es : list pouch_buf) (c : C)
    (ys : list client_stream) s log out : Prop := {
  sg_inv : uplink_inv s;
  sg_malloc : malloc_ok (s_heap s) = M;
  sg_open : 0 ≤ open0 ∧ open_streams (s_stream s) = open0 + num_open ys;
  sg_counter : counter_ok s;
  sg_balanced : balanced s (held0 + num_open ys);
  sg_blocks : Forall2 block_holds (gone ++ pending s) ps;
  sg_content : content ys s log ps;
  sg_encrypts : encrypts M c0 gone es c;
  sg_crypto : session_is_active s = true → s_crypto s = c;
  sg_out : out ++ outgoing s = pouch_bytes hb es;
  sg_header : match es with
              | [] => ∃ b, u_header (s_uplink s) = Some b ∧ contents b = hb
              | _ => u_header (s_uplink s) = None
              end;
}.

Definition sending (w : world) log out : Prop :=
  ∃ gone ps es c, sending_at gone ps es c w.1 w.2 log out.

(** ** Steps of the writers *)

Lemma after_app opening cs1 cs2 : after opening (cs1 ++ cs2) = after (after opening cs1) cs2.
Proof. destruct cs1, cs2; done. Qed.

Lemma sent_after id opening last bs cs : sent id opening last bs cs → opening_after opening bs = after opening cs.
Proof. by destruct bs as [|b [|]], cs. Qed.

Lemma after_wf opening cs : opening_wf opening → opening_wf (after opening cs).
Proof. by destruct cs. Qed.

Lemma stream_ok_ext ps qs k y s s' :
  u_id (s_uplink s') = u_id (s_uplink s) → pieces_of k qs = [] →
  stream_ok ps k y s → stream_ok (ps ++ qs) k y s'.
Proof.
  intros U Q. unfold stream_ok, session_valid. by rewrite U, pieces_of_app, Q, app_nil_r.
Qed.

Lemma frame_id s s' : writer_frame s s' → u_id (s_uplink s') = u_id (s_uplink s).
Proof. intros [_ _ _ _ (q & w & ->)]. done. Qed.
Lemma frame_outgoing s s' : writer_frame s s' → outgoing s' = outgoing s.
Proof. intros [_ _ _ _ (q & w & U)]. unfold outgoing. by rewrite U. Qed.
Lemma frame_header s s' : writer_frame s s' → u_header (s_uplink s') = u_header (s_uplink s).
Proof. intros [_ _ _ _ (q & w & U)]. by rewrite U. Qed.
Lemma frame_flags s s' : writer_frame s s' → u_flags (s_uplink s') = u_flags (s_uplink s).
Proof. intros [_ _ _ _ (q & w & U)]. by rewrite U. Qed.

Lemma flag_tests s s' : u_flags (s_uplink s') = u_flags (s_uplink s) →
  session_is_active s' = session_is_active s ∧ pouch_is_open s' = pouch_is_open s
  ∧ pouch_is_closing s' = pouch_is_closing s.
Proof. intros E. unfold session_is_active, pouch_is_open, pouch_is_closing. by rewrite E. Qed.

(** A step of a writer adds the pieces [nps], in the blocks [new]. *)
Lemma sending_wrote gone ps es c ys s ys' s' log log' out new nps :
  sending_at gone ps es c ys s log out →
  writer_frame s s' → pending s' = pending s ++ new → Forall2 block_holds new nps →
  open_streams (s_stream s') - open_streams (s_stream s) = num_open ys' - num_open ys → counter_ok s' →
  balanced s' (held0 + num_open ys') → content ys' s' log' (ps ++ nps) →
  sending_at gone (ps ++ nps) es c ys' s' log' out.
Proof.
  intros [I Ma [O0 O] Cn Ba Bl Co En Cr Eo Hd] Fr P F N Cn' Ba' Co'.
  assert (Forall2 block_holds (gone ++ pending s') (ps ++ nps)) as Bl'
    by (rewrite P, app_assoc; by apply Forall2_app).
  split; try done.
  - eapply uplink_inv_writer; [done| |done]. apply block_holds_finished in Bl'.
    by apply Forall_app in Bl' as [_ ?].
  - by rewrite (wf_malloc _ _ Fr).
  - split; [done|lia].
  - intros A. rewrite (wf_crypto _ _ Fr). apply Cr.
    by rewrite <- (proj1 (flag_tests _ _ (frame_flags _ _ Fr))).
  - by rewrite (frame_outgoing _ _ Fr).
  - by rewrite (frame_header _ _ Fr).
Qed.

(** Entries: the pieces of the blocks that were enqueued. *)
Lemma content_entries ys s s' log acc ps cur gs cur' :
  content ys s log ps → u_id (s_uplink s') = u_id (s_uplink s) → current s cur → current s' cur' →
  concat gs ++ cur' = cur ++ acc → entries_of ps ++ cur = log →
  content ys s' (log ++ acc) (ps ++ map PieceEntries gs).
Proof.
  intros [_ St Nw] U Cu Cu' E El. split.
  - exists cur'. split; [done|].
    by rewrite entries_of_app, entries_of_entries, <- app_assoc, E, <- El, app_assoc.
  - intros k y Hk. apply stream_ok_ext with s; [done|apply pieces_of_entries|by apply St].
  - intros k Hk. by rewrite pieces_of_app, pieces_of_entries, Nw.
Qed.

Lemma write_step w log out e :
  sending w log out → entry_wf e → data_len e ≠ 0 →
  ∃ r s', pouch_uplink_entry_write (Some (path e)) (Some (data e)) (content_type e) (data_len e) None w.2
      = OK (r, s')
    ∧ sending (w.1, s') (log ++ accepted r e) out ∧ u_flags (s_uplink s') = u_flags (s_uplink w.2)
    ∧ verdict w.2 e r.
Proof.
  destruct w as [ys s]; cbn [fst snd]. intros (gone & ps & es & c & Sg) W N. cbn [fst snd] in Sg.
  pose proof (ct_entries _ _ _ _ (sg_content _ _ _ _ _ _ _ _ Sg)) as (cur & Cu & El). simpl in Cu.
  assert (entry_log (pending s) s cur) as L.
  { exists [], cur. split_and!; [|done|done]. exists [], []. by rewrite app_nil_r. }
  destruct (entry_write_run (pending s) s cur e L W N) as (r & s' & E & [Wl Wf Wb Ws] & V).
  exists r, s'. split_and!; [done| |by apply frame_flags|done].
  destruct Wl as (es' & cur' & (bs & gs & P & F & G) & Cu' & Ew).
  exists gone, (ps ++ map PieceEntries gs), es, c. pose proof Sg as [_ _ [_ _] Cn Ba _ Co _ _ _ _].
  eapply (sending_wrote gone ps es c ys s ys s'); [done|done|exact P|by apply holds_pieces|..].
  - rewrite Ws. lia.
  - unfold counter_ok in *. by rewrite Ws.
  - by apply Wb.
  - eapply content_entries; [done|by apply frame_id|exact Cu|exact Cu'| |exact El].
    by rewrite G.
Qed.

Lemma num_open_insert ys k y y' :
  ys !! k = Some y →
  num_open (<[k := y']> ys) + (if decide (is_open y) then 1 else 0)
    = num_open ys + (if decide (is_open y') then 1 else 0).
Proof.
  intros Hk. pose proof (lookup_lt_Some _ _ _ Hk). unfold num_open.
  rewrite <- (take_drop_middle ys k y Hk) at 2. rewrite insert_take_drop by done.
  rewrite !filter_app, !filter_cons. repeat case_decide; solve_len.
Qed.

Lemma num_open_nonneg ys : 0 ≤ num_open ys.
Proof. unfold num_open. lia. Qed.

(** Stream [k] changed from [y] to [y'] and added the pieces [nps]; the others are as they were. *)
Lemma content_stream ys s s' log ps nps k y y' :
  content ys s log ps → ys !! k = Some y → u_id (s_uplink s') = u_id (s_uplink s) →
  s_block s' = s_block s → entries_of nps = [] → (∀ j, j ≠ k → pieces_of j nps = []) →
  stream_ok (ps ++ nps) k y' s' → content (<[k := y']> ys) s' log (ps ++ nps).
Proof.
  intros [(cur & Cu & El) St Nw] Hk U B En Pn Sk. split.
  - exists cur. unfold current in *. rewrite B, entries_of_app, En, app_nil_r. done.
  - intros j z Hj. destruct (decide (j = k)) as [->|N].
    + rewrite list_lookup_insert_eq in Hj by (by eapply lookup_lt_Some). by injection Hj as <-.
    + rewrite list_lookup_insert_ne in Hj by done.
      apply stream_ok_ext with s; [done|by apply Pn|by apply St].
  - intros j Hj. rewrite length_insert in Hj. rewrite pieces_of_app, Nw by done.
    apply lookup_lt_Some in Hk. apply Pn. lia.
Qed.

Lemma open_step w log out path ct :
  sending w log out → path_representable path →
  ∃ x s', pouch_uplink_stream_open path ct w.2 = OK (x, s')
    ∧ sending (w.1 ++ [ClientStream path ct [] x], s') log out
    ∧ u_flags (s_uplink s') = u_flags (s_uplink w.2)
    ∧ ((∀ n, M n = true) → bool_decide (is_Some x) = (open0 + num_open w.1 <? POUCH_STREAMS_MAX)).
Proof.
  destruct w as [ys s]; cbn [fst snd]. intros (gone & ps & es & c & Sg) P. cbn [fst snd] in Sg.
  destruct (stream_open_run s ct path (sg_counter _ _ _ _ _ _ _ _ Sg) P) as (x & s' & E & R).
  exists x, s'. set (y := ClientStream path ct [] x).
  assert (writer_frame s s' ∧ pending s' = pending s ∧ s_block s' = s_block s
    ∧ open_streams (s_stream s') - open_streams (s_stream s) = occ x
    ∧ counter_ok s' ∧ balanced s' (held0 + num_open ys + occ x)
    ∧ (pieces_of (length ys) ps = [] → stream_ok ps (length ys) y s')) as (Fr & Pe & Bl & N & Cn & Ba & So).
  { pose proof Sg as [_ _ _ Cn Ba _ _ _ _ _ _]. unfold counter_ok in Cn.
    destruct x as [x|]; simpl in R; unfold opened in R.
    - destruct R as ([I Eb Sp] & V & O & Lt & Pe & Bl & Fr & K).
      split_and!; [done..|simpl; lia|unfold counter_ok; lia|by apply K|]. intros Np. unfold stream_ok; simpl.
      refine (conj I (conj Eb (conj V (conj _ _)))).
      + split; [apply u16_range|]. by destruct P as (_ & ? & _).
      + exists [], []. split_and!; [done| |done]. exact Sp.
    - destruct R as ([Pe Fr Bl K] & O & _). rewrite app_nil_r in Pe.
      split_and!; [done..|simpl; lia|unfold counter_ok; lia|simpl; rewrite Z.add_0_r; by apply K|].
      intros Np. unfold stream_ok; simpl. exists 1, []. by rewrite Np. }
  assert (num_open (ys ++ [y]) = num_open ys + occ x) as No.
  { unfold num_open. rewrite filter_app, length_app, filter_cons. unfold is_open, y; simpl.
    case_decide as D; destruct x; simpl; try lia; by destruct D. }
  split_and!; [done| |by apply frame_flags|].
  2:{ intros Mt. pose proof Sg as [_ Ma [_ O] _ _ _ _ _ _ _ _]. rewrite <- O.
      destruct x as [x|]; simpl in R; symmetry.
      - destruct R as (_ & _ & _ & Lt & _). rewrite bool_decide_eq_true_2 by eauto. by apply Z.ltb_lt.
      - destruct R as (_ & _ & R). rewrite bool_decide_eq_false_2 by (by intros []).
        apply Z.ltb_ge, R. intros n. by rewrite Ma. }
  exists gone, (ps ++ []), es, c.
  apply (sending_wrote gone ps es c ys s (ys ++ [y]) s' log log out [] []); [done|done|by rewrite Pe, app_nil_r|done|lia|done|..].
  { rewrite No. by replace (held0 + (num_open ys + occ x)) with (held0 + num_open ys + occ x) by lia. }
  rewrite app_nil_r. pose proof (sg_content _ _ _ _ _ _ _ _ Sg) as [(cur & Cu & El) St Nw]. split.
  - exists cur. unfold current in *. by rewrite Bl.
  - intros k z Hk. apply lookup_app_Some in Hk as [Hk|[Lk Hk]].
    + rewrite <- (app_nil_r ps). apply stream_ok_ext with s; [by apply frame_id|done|by apply St].
    + apply list_lookup_singleton_Some in Hk as [K <-].
      replace k with (length ys) by lia. apply So, Nw. lia.
  - intros k Hk. apply Nw. rewrite length_app in Hk. simpl in Hk. lia.
Qed.

(** A call with a NULL pointer changes nothing. *)
Lemma null_step ys s log out k y :
  sending (ys, s) log out → ys !! k = Some y → cs_stream y = None →
  sending (<[k := ClientStream (cs_path y) (cs_content_type y) (cs_data y) None]> ys, s) log out.
Proof.
  intros Sg Hk N. rewrite list_insert_id; [done|]. rewrite Hk. f_equal. destruct y; simpl in *. by subst.
Qed.

Lemma stream_ok_open ps k y x s :
  cs_stream y = Some x → stream_ok ps k y s →
  0 < st_id x < 32 ∧ st_bytes x = u32 (len (cs_data y)) ∧ session_valid x s = true
  ∧ opening_wf (opening_of y)
  ∧ ∃ cs (d : list byte), pieces_of k ps = chunks k (st_id x) (opening_of y) false cs
      ∧ stream_pieces (after (opening_of y) cs) [] x d ∧ concat cs ++ d = cs_data y.
Proof. intros E. unfold stream_ok. by rewrite E. Qed.

Lemma is_open_1 y x : cs_stream y = Some x → (if decide (is_open y) then 1 else 0) = 1.
Proof. intros E. rewrite decide_True; [done|]. unfold is_open. rewrite E. eauto. Qed.
Lemma is_open_0 y : cs_stream y = None → (if decide (is_open y) then 1 else 0) = 0.
Proof. intros E. rewrite decide_False; [done|]. unfold is_open. rewrite E. by intros []. Qed.

Lemma u32_add_l a b : u32 (u32 a + b) = u32 (a + b).
Proof. unfold u32. by rewrite Zplus_mod_idemp_l. Qed.

Lemma stream_step_run w log out k d :
  sending w log out →
  ∃ w', run_pouch_op (PStream k d) w = OK (([], []), w') ∧ sending w' log out
    ∧ u_flags (s_uplink w'.2) = u_flags (s_uplink w.2)
    ∧ ((∀ n, M n = true) → map abs w'.1 = alter (spec_write d) k (map abs w.1)).
Proof.
  destruct w as [ys s]. intros Sg. cbn [run_pouch_op]. unfold on_stream.
  destruct (ys !! k) as [y|] eqn:Hk.
  2:{ rewrite (st_bind_OK _ _ (ys, s) tt (ys, s)) by (by rewrite Hk). exists (ys, s).
      split_and!; [done..|]. intros _. by rewrite alter_none. }
  destruct (cs_stream y) as [x|] eqn:Ex.
  2:{ pose proof (null_step ys s log out k y Sg Hk Ex) as Sg'.
      rewrite (st_bind_OK _ _ (ys, s) tt
        (<[k := ClientStream (cs_path y) (cs_content_type y) (cs_data y) None]> ys, s)).
      - eexists. split; [reflexivity|]. split_and!; [done..|]. intros _.
        apply abs_insert with y; [done|]. unfold abs, spec_write; simpl. rewrite Ex. done.
      - rewrite Hk, Ex. assert (pouch_stream_write None d (len d) s = OK ((0, None), s)) as -> by done.
        rewrite bind_OK. cbn [fst snd]. change (ztake 0 d) with (@nil byte). by rewrite app_nil_r. }
  pose proof Sg as (gone & ps & es & c & Sa). cbn [fst snd] in Sa.
  pose proof (ct_streams _ _ _ _ (sg_content _ _ _ _ _ _ _ _ Sa) k y Hk) as So.
  apply (stream_ok_open ps k y x s Ex) in So as (I & Eb & V & Ow & cs & d0 & Ep & Sp & Ed).
  destruct (stream_write_pieces _ [] x d0 d s I Sp V)
    as (n & x' & s' & new & E & R & Ei & En & Sp' & [Pe Fr Bl K] & Ss & V' & Wn).
  set (y' := ClientStream (cs_path y) (cs_content_type y) (cs_data y ++ ztake n d) (Some x')).
  rewrite (st_bind_OK _ _ (ys, s) tt (<[k := y']> ys, s')) by (rewrite Hk, Ex, E; reflexivity).
  eexists. split; [reflexivity|]. split_and!; [|by apply frame_flags|].
  2:{ intros Mt. apply abs_insert with y; [done|]. unfold abs, spec_write, y'; simpl. rewrite Ex; simpl.
      rewrite Wn by (intros m; by rewrite (sg_malloc _ _ _ _ _ _ _ _ Sa)). by rewrite ztake_all. }
  destruct Sp' as (cs' & d' & Sn & B' & Ed'). rewrite app_nil_l in Sn, B'.
  rewrite Ei in Sn, B'. rewrite (sent_after _ _ _ _ _ Sn), <- after_app in B'.
  exists gone, (ps ++ chunks k (st_id x) (after (opening_of y) cs) false cs'), es, c. cbn [fst snd].
  pose proof (num_open_insert ys k y y' Hk) as No.
  rewrite (is_open_1 y x Ex), (is_open_1 y' x' eq_refl) in No.
  apply (sending_wrote gone ps es c ys s (<[k := y']> ys) s' log log out new); [done|done|done|..].
  - by apply sent_pieces; [|apply after_wf|].
  - rewrite Ss. lia.
  - unfold counter_ok. rewrite Ss. apply Sa.
  - replace (num_open (<[k := y']> ys)) with (num_open ys) by lia. apply K, Sa.
  - apply (content_stream ys s s' log ps _ k y y'); [apply Sa|done|by apply frame_id|done|..].
    + apply entries_of_chunks.
    + intros j N. by rewrite pieces_of_chunks, decide_False.
    + unfold stream_ok. cbn [cs_stream cs_data y']. rewrite Ei.
      refine (conj I (conj _ (conj V' (conj Ow _)))).
      { rewrite En, Eb, u32_add_l. f_equal. solve_len. }
      exists (cs ++ cs'), d'. split_and!.
      * rewrite pieces_of_app, Ep, pieces_of_chunks, decide_True by done.
        by rewrite chunks_app by (by right).
      * exists [], d'. split; [done|]. split; [|done]. rewrite Ei. exact B'.
      * rewrite concat_app, <- app_assoc, Ed'. by rewrite app_assoc, Ed.
Qed.

Lemma close_stream_step_run w log out k :
  sending w log out →
  ∃ w', run_pouch_op (PCloseStream k) w = OK (([], []), w') ∧ sending w' log out
    ∧ u_flags (s_uplink w'.2) = u_flags (s_uplink w.2)
    ∧ map abs w'.1 = alter spec_close k (map abs w.1).
Proof.
  destruct w as [ys s]. intros Sg. cbn [run_pouch_op]. unfold on_stream.
  destruct (ys !! k) as [y|] eqn:Hk.
  2:{ rewrite (st_bind_OK _ _ (ys, s) tt (ys, s)) by (by rewrite Hk). exists (ys, s).
      split_and!; [done..|]. by rewrite alter_none. }
  set (y' := ClientStream (cs_path y) (cs_content_type y) (cs_data y) None).
  destruct (cs_stream y) as [x|] eqn:Ex.
  2:{ pose proof (null_step ys s log out k y Sg Hk Ex) as Sg'.
      rewrite (st_bind_OK _ _ (ys, s) tt (<[k := y']> ys, s)) by (by rewrite Hk, Ex).
      eexists. split; [reflexivity|]. split_and!; [done..|]. by apply abs_insert with y. }
  pose proof Sg as (gone & ps & es & c & Sa). cbn [fst snd] in Sa.
  pose proof (ct_streams _ _ _ _ (sg_content _ _ _ _ _ _ _ _ Sa) k y Hk) as So.
  apply (stream_ok_open ps k y x s Ex) in So as (I & Eb & V & Ow & cs & d0 & Ep & Sp & Ed).
  pose proof (num_open_insert ys k y y' Hk) as No.
  rewrite (is_open_1 y x Ex), (is_open_0 y' eq_refl) in No.
  pose proof Sa as [_ _ [O0 Oo] Cn Ba _ Co _ _ _ _]. pose proof (num_open_nonneg (<[k := y']> ys)).
  destruct (stream_close_pieces _ [] x d0 s I Sp Cn ltac:(lia))
    as (s' & new & E & Op & Pe & Bl & Fr & K & N). unfold opened, counter_ok in *.
  rewrite (st_bind_OK _ _ (ys, s) tt (<[k := y']> ys, s')) by (rewrite Hk, Ex, E; reflexivity).
  eexists. split; [reflexivity|]. split_and!; [|by apply frame_flags|by apply abs_insert with y].
  assert (∃ cs', sent (st_id x) (after (opening_of y) cs) true new cs'
    ∧ if 0 <? u32 (len (cs_data y)) then cs' ≠ [] ∧ concat cs' = d0 else cs' = []) as (cs' & Sn & Nn).
  { rewrite V, Eb in N. simpl in N. destruct (0 <? u32 _).
    - destruct N as (b & cs' & -> & Sn & Ec). exists cs'. split; [done|]. split; [by destruct cs'|done].
    - subst new. by exists []. }
  exists gone, (ps ++ chunks k (st_id x) (after (opening_of y) cs) true cs'), es, c. cbn [fst snd].
  apply (sending_wrote gone ps es c ys s (<[k := y']> ys) s' log log out new); [done|done|done|..].
  - by apply sent_pieces; [|apply after_wf|].
  - lia.
  - unfold counter_ok. lia.
  - apply K. by replace (held0 + num_open (<[k := y']> ys) + 1) with (held0 + num_open ys) by lia.
  - apply (content_stream ys s s' log ps _ k y y'); [apply Sa|done|by apply frame_id|done|..].
    + apply entries_of_chunks.
    + intros j Nj. by rewrite pieces_of_chunks, decide_False.
    + unfold stream_ok. cbn [cs_stream cs_data y']. exists (st_id x), (cs ++ cs').
      rewrite pieces_of_app, Ep, pieces_of_chunks, decide_True by done.
      destruct (0 <? u32 _).
      * destruct Nn as [Nc Ec]. rewrite chunks_app by (by left). split; [done|].
        by rewrite concat_app, Ec.
      * subst cs'. rewrite !app_nil_r. split; [done|]. by exists d0.
Qed.

(** ** Steps of the library *)

(** A step that touches neither what the writers keep nor the bytes to send. *)
Lemma sending_ext gone ps es c ys s s' log out :
  sending_at gone ps es c ys s log out →
  uplink_inv s' → malloc_ok (s_heap s') = malloc_ok (s_heap s) → s_stream s' = s_stream s →
  (∀ k, balanced s k → balanced s' k) → pending s' = pending s → s_block s' = s_block s →
  u_id (s_uplink s') = u_id (s_uplink s) → outgoing s' = outgoing s →
  u_header (s_uplink s') = u_header (s_uplink s) →
  (session_is_active s' = true → session_is_active s = true ∧ s_crypto s' = s_crypto s) →
  sending_at gone ps es c ys s' log out.
Proof.
  intros [I Ma O Cn Ba Bl [(cur & Cu & El) St Nw] En Cr Eo Hd] I' Ma' Ss Ba' P B U Og H A.
  split; rewrite ?Ss, ?P, ?Og, ?H; auto.
  - congruence.
  - unfold counter_ok. by rewrite Ss.
  - split; [|intros k y Hk|done].
    + exists cur. unfold current in *. by rewrite B.
    + rewrite <- (app_nil_r ps). apply stream_ok_ext with s; [done|done|by apply St].
  - intros Ac. apply A in Ac as [Ac ->]. by apply Cr.
Qed.

Lemma close_if_closing_frame gone ps es c ys s log out :
  sending_at gone ps es c ys s log out → sending_at gone ps es c ys (close_if_closing s) log out.
Proof.
  intros Sg. unfold close_if_closing. destruct (pouch_is_closing s); [|done].
  apply (sending_ext gone ps es c ys s); try done.
  - by apply uplink_inv_flags, Sg.
  - intros A. split; [|done]. rewrite session_is_active_bit in A |- *.
    cbn [s_uplink set_uplink set_u_flags u_flags] in A. by rewrite setbit_other in A.
Qed.

(** Processed blocks go behind what is still to be read, the header before the first. *)
Lemma processed_bytes s m out es es2 :
  processed_to s m es2 → u_transport_reader (s_uplink m) = u_transport_reader (s_uplink s) →
  out ++ outgoing s = pouch_bytes hb es →
  match es with
  | [] => ∃ b, u_header (s_uplink s) = Some b ∧ contents b = hb
  | _ => u_header (s_uplink s) = None
  end →
  out ++ outgoing m = pouch_bytes hb (es ++ es2)
  ∧ match es ++ es2 with
    | [] => ∃ b, u_header (s_uplink m) = Some b ∧ contents b = hb
    | _ => u_header (s_uplink m) = None
    end.
Proof.
  intros [T H _ _ _] R E Hd.
  assert (outgoing m = outgoing s ++ concat (map contents (with_header (u_header (s_uplink s)) es2)))
    as Eo by (unfold outgoing, stream_of; rewrite R, T, map_app, concat_app; by rewrite app_assoc).
  rewrite Eo, app_assoc, E, H, pouch_bytes_app. destruct es as [|e es].
  - destruct Hd as (b & -> & <-). destruct es2; simpl; [by eauto|done].
  - rewrite Hd. by destruct es2.
Qed.

Lemma process_step ys s log out :
  sending (ys, s) log out →
  ∃ s', process_blocks s = OK (tt, s') ∧ sending (ys, s') log out
    ∧ (if processing s then pending s' = [] else pending s' = pending s)
    ∧ s_block s' = s_block s
    ∧ u_flags (s_uplink s') = if pouch_is_closing s then Z.setbit (u_flags (s_uplink s)) POUCH_CLOSED
                              else u_flags (s_uplink s).
Proof.
  intros (gone & ps & es & c & Sg). cbn [fst snd] in Sg. destruct (processing s) eqn:P.
  - pose proof Sg as [I Ma O Cn Ba Bl Co En Cr Eo Hd].
    destruct (process_blocks_run s I P) as (es2 & h & c2 & m & E & Em & Er & Pt).
    destruct (encrypt_all_encrypts _ _ _ _ _ _ (ui_crypto _ I) (ui_pending _ I) E) as [En2 M2].
    apply andb_true_iff in P as [Ac Op]. rewrite (Cr Ac), Ma in En2.
    assert (∀ T (f : sys C → T), f m = f (px (work_taken s) h c2 (u_header (s_uplink m))
      (u_processing_queue (s_uplink m)) (u_transport_queue (s_uplink m)))) as Fm by (intros; by rewrite <- Em).
    assert (u_flags (s_uplink m) = u_flags (s_uplink s)) as Fl by by rewrite Em.
    assert (u_transport_reader (s_uplink m) = u_transport_reader (s_uplink s)) as R by by rewrite Em.
    destruct (processed_bytes s m out es es2 Pt R Eo Hd) as [Eo' Hd'].
    assert (sending_at (gone ++ pending s) ps (es ++ es2) c2 ys m log out) as Sm.
    { split; [apply Pt| | | |by apply Pt| | | | |done|done].
      - rewrite Em. simpl. congruence.
      - by rewrite Em.
      - unfold counter_ok. by rewrite Em.
      - by rewrite (pt_pending _ _ _ Pt), app_nil_r.
      - destruct Co as [(cur & Cu & El) St Nw]. split; [|intros k y Hk|done].
        + exists cur. unfold current in *. by rewrite Em.
        + rewrite <- (app_nil_r ps). apply stream_ok_ext with s; [by rewrite Em|done|by apply St].
      - by eapply encrypts_app.
      - by rewrite Em. }
    eexists. split; [exact Er|]. split; [by do 4 eexists; apply close_if_closing_frame|].
    assert (pending (close_if_closing m) = pending m ∧ s_block (close_if_closing m) = s_block m) as [-> ->]
      by (unfold close_if_closing; by destruct (pouch_is_closing m)).
    split_and!; [apply Pt|by rewrite Em|].
    unfold close_if_closing. rewrite !pouch_is_closing_bit, Fl. by destruct (Z.testbit _ _).
  - rewrite (process_blocks_idle s P). eexists. split; [reflexivity|].
    assert (sending_at gone ps es c ys (work_taken s) log out) as Sw.
    { apply (sending_ext gone ps es c ys s); try done. pose proof Sg as [[? ? [? ?] ?] _]. by repeat split. }
    split; [by do 4 eexists; apply close_if_closing_frame|].
    unfold close_if_closing. change (pouch_is_closing (work_taken s)) with (pouch_is_closing s).
    by destruct (pouch_is_closing s).
Qed.

Lemma fill_step ys s log out n :
  sending (ys, s) log out → 0 ≤ n →
  ∃ r k d s', pouch_uplink_fill n s = OK ((r, k, d), s') ∧ sending (ys, s') log (out ++ d)
    ∧ pending s' = pending s ∧ s_block s' = s_block s
    ∧ (s' = s ∧ session_is_active s = false ∧ r = POUCH_ERROR
       ∨ session_is_active s = true ∧ outgoing s' = zdrop n (outgoing s) ∧
         if pouch_is_open s || bool_decide (outgoing s' ≠ [])
         then u_flags (s_uplink s') = u_flags (s_uplink s) ∧ r = POUCH_MORE_DATA
         else u_flags (s_uplink s') = Z.clearbit (u_flags (s_uplink s)) SESSION_ACTIVE
              ∧ r = POUCH_NO_MORE_DATA).
Proof.
  intros Sg N. destruct (session_is_active s) eqn:A.
  2:{ do 4 eexists. split; [unfold pouch_uplink_fill; run_st; rewrite A; reflexivity|].
      rewrite app_nil_r. split_and!; [done..|by left]. }
  destruct Sg as (gone & ps & es & c & Sg). cbn [fst snd] in Sg.
  destruct (fill_run s n (ui_transport _ (sg_inv _ _ _ _ _ _ _ _ Sg)) A N)
    as (m & (h & q & r & -> & M') & T & Eo & Bm & E).
  set (m := tx s h q r) in *. rewrite E. cbv zeta.
  assert (sending_at gone ps es c ys m log (out ++ ztake n (outgoing s))) as Sm.
  { destruct Sg as [[? ? ? ?] Ma ? ? ? ? [? St ?] ? ? Es ?]. split; try done.
    - simpl. congruence.
    - by apply Bm.
    - by rewrite Eo, <- app_assoc, take_drop. }
  destruct (pouch_is_open s || bool_decide (outgoing m ≠ [])) eqn:D.
  - do 4 eexists. split; [reflexivity|]. split_and!; [by do 4 eexists|done|done|]. right. by rewrite D.
  - do 4 eexists. split; [reflexivity|].
    change (outgoing (ended m)) with (outgoing m). split_and!; [|done|done|right; by rewrite D].
    do 4 eexists. apply (sending_ext gone ps es c ys m); try done.
    + destruct Sm as [[Ic ? [? ?] ?] _]. repeat split; try done. by apply session_end_inv.
    + intros Ac. cbn [fst snd] in Ac. rewrite session_is_active_bit in Ac.
      cbn [s_uplink ended set_events set_uplink set_u_flags u_flags] in Ac. by rewrite clearbit_same in Ac.
Qed.

(** ** Any step, and any sequence of steps *)

Lemma num_open_abs ys : len (filter (λ a, as_open a = true) (map abs ys)) = num_open ys.
Proof.
  unfold num_open. f_equal. induction ys as [|y ys IH]; [done|]. cbn [map]. rewrite !filter_cons.
  destruct (decide (as_open (abs y) = true)) as [S|S], (decide (is_open y)) as [O|O];
    unfold abs, is_open in S, O; cbn [as_open] in S; rewrite bool_decide_eq_true in S; try done.
  simpl. by rewrite IH.
Qed.

Lemma op_step w log out op :
  sending w log out → op_ok op →
  ∃ es d w', run_pouch_op op w = OK ((es, d), w') ∧ sending w' (log ++ es) (out ++ d)
    ∧ ((∀ n, M n = true) → spec_op open0 op (map abs w.1) = (es, map abs w'.1)).
Proof.
  intros Sg O. destruct w as [ys s]. destruct op as [e|p ct|k d|k| |n].
  - destruct O as [W N]. destruct (write_step (ys, s) log out e Sg W N) as (r & s' & E & Sg' & _ & [V1 V2 V3]).
    cbn [run_pouch_op]. cbn [fst snd] in *.
    rewrite (st_bind_OK _ _ (ys, s) r (ys, s')) by (unfold on_sys; by rewrite E).
    do 3 eexists. split; [reflexivity|]. rewrite app_nil_r. split; [done|]. intros Mt. cbn. f_equal.
    assert (malloc_never_fails (s_heap s)) as Mn.
    { destruct Sg as (gone & ps & es & c & Sg). cbn [fst snd] in Sg. intros n. by rewrite (sg_malloc _ _ _ _ _ _ _ _ Sg). }
    unfold accepted. destruct (Z.leb_spec (entry_size e) MAX_BLOCK_PAYLOAD_SIZE) as [L|L].
    + by rewrite (V3 Mn L).
    + rewrite decide_False; [done|]. intros ->. specialize (V2 eq_refl). lia.
  - destruct (open_step (ys, s) log out p ct Sg O) as (x & s' & E & Sg' & _ & Op). cbn [run_pouch_op].
    cbn [fst snd] in *. rewrite (st_bind_OK _ _ (ys, s) x (ys, s')) by (unfold on_sys; by rewrite E).
    do 3 eexists. split; [reflexivity|]. rewrite !app_nil_r. split; [done|]. intros Mt. cbn.
    by rewrite num_open_abs, map_app, <- Op.
  - destruct (stream_step_run (ys, s) log out k d Sg) as (w' & E & Sg' & _ & Sp).
    do 3 eexists. split; [exact E|]. rewrite !app_nil_r. split; [done|]. intros Mt. cbn. by rewrite Sp.
  - destruct (close_stream_step_run (ys, s) log out k Sg) as (w' & E & Sg' & _ & Sp).
    do 3 eexists. split; [exact E|]. rewrite !app_nil_r. split; [done|]. intros Mt. cbn. by rewrite Sp.
  - destruct (process_step ys s log out Sg) as (s' & E & Sg' & _). cbn [run_pouch_op].
    rewrite (st_bind_OK _ _ (ys, s) tt (ys, s')) by (unfold on_sys; by rewrite E).
    do 3 eexists. split; [reflexivity|]. by rewrite !app_nil_r.
  - destruct (fill_step ys s log out n Sg O) as (r & k & d & s' & E & Sg' & _). cbn [run_pouch_op].
    rewrite (st_bind_OK _ _ (ys, s) (r, k, d) (ys, s')) by (unfold on_sys; by rewrite E).
    do 3 eexists. split; [reflexivity|]. by rewrite app_nil_r.
Qed.

(** Steps that keep a property, over any sequence of them. *)
Lemma run_pouch_keeps (P : sys C → Prop) (ok : pouch_op → Prop) :
  (∀ op w log out es d w', ok op → op_ok op → sending w log out → P w.2 →
     run_pouch_op op w = OK ((es, d), w') → P w'.2) →
  ∀ ops w log out, Forall ok ops → Forall op_ok ops → sending w log out → P w.2 →
  ∃ es d w', run_pouch ops w = OK ((es, d), w') ∧ sending w' (log ++ es) (out ++ d) ∧ P w'.2
    ∧ ((∀ n, M n = true) → spec_ops open0 ops (map abs w.1) = (es, map abs w'.1)).
Proof.
  intros K. induction ops as [|op ops IH]; intros w log out Fk Fo Sg Ps; cbn [run_pouch].
  { do 3 eexists. split; [reflexivity|]. by rewrite !app_nil_r. }
  apply Forall_cons in Fk as [Ok Fk]. apply Forall_cons in Fo as [Oo Fo].
  destruct (op_step w log out op Sg Oo) as (es & d & w1 & E & Sg1 & S1).
  destruct (IH w1 _ _ Fk Fo Sg1 (K op w log out es d w1 Ok Oo Sg Ps E))
    as (es' & d' & w2 & E2 & Sg2 & P2 & S2).
  rewrite (st_bind_OK _ _ _ _ _ E), (st_bind_OK _ _ _ _ _ E2).
  do 3 eexists. split; [reflexivity|]. rewrite !app_assoc. split_and!; [done..|].
  intros Mt. cbn [spec_ops]. by rewrite S1, S2.
Qed.

(** Before the close, the session stays active and the pouch open. *)
Definition open s : Prop :=
  session_is_active s = true ∧ pouch_is_open s = true ∧ pouch_is_closing s = false.

Lemma open_flags s s' : u_flags (s_uplink s') = u_flags (s_uplink s) → open s → open s'.
Proof. intros (A & B & D)%flag_tests. unfold open. by rewrite A, B, D. Qed.

Lemma on_sys_inv {A} (m : st (sys C) A) (w w' : world) a :
  on_sys m w = OK (a, w') → ∃ s', m w.2 = OK (a, s') ∧ w' = (w.1, s').
Proof.
  destruct w as [ys s]. unfold on_sys. intros ([a' s'] & E & [= -> <-])%bind_OK_inv. by exists s'.
Qed.

Lemma open_keeps op w log out es d w' :
  op_ok op → sending w log out → open w.2 → run_pouch_op op w = OK ((es, d), w') → open w'.2.
Proof.
  intros O Sg (A & P & Cl) E. apply (open_flags w.2); [|done]. destruct w as [ys s].
  destruct op as [e|p ct|k d'|k| |n]; cbn [run_pouch_op] in E.
  - apply st_bind_OK_inv in E as (r & w1 & (s1 & E & ->)%on_sys_inv & [= <- <- <-]).
    destruct O as [W N]. destruct (write_step (ys, s) log out e Sg W N) as (r' & s2 & E' & _ & F & _).
    cbn [snd] in *. rewrite E in E'. by injection E' as _ <-.
  - apply st_bind_OK_inv in E as (x & w1 & (s1 & E & ->)%on_sys_inv & [= <- <- <-]).
    destruct (open_step (ys, s) log out p ct Sg O) as (x' & s2 & E' & _ & F & _).
    cbn [snd] in *. rewrite E in E'. by injection E' as _ <-.
  - destruct (stream_step_run (ys, s) log out k d' Sg) as (w2 & E' & _ & F & _).
    cbn [run_pouch_op] in E'. rewrite E in E'. by injection E' as _ _ <-.
  - destruct (close_stream_step_run (ys, s) log out k Sg) as (w2 & E' & _ & F & _).
    cbn [run_pouch_op] in E'. rewrite E in E'. by injection E' as _ _ <-.
  - apply st_bind_OK_inv in E as (x & w1 & (s1 & E & ->)%on_sys_inv & [= <- <- <-]).
    destruct (process_step ys s log out Sg) as (s2 & E' & _ & _ & _ & F).
    cbn [snd] in *. rewrite E in E'. injection E' as _ <-. by rewrite Cl in F.
  - apply st_bind_OK_inv in E as ([[r k] d2] & w1 & (s1 & E & ->)%on_sys_inv & [= <- <- <-]).
    destruct (fill_step ys s log out n Sg O) as (r' & k' & d' & s2 & E' & _ & _ & _ & R).
    cbn [snd] in *. rewrite E in E'. injection E' as -> -> -> ->.
    destruct R as [(_ & ? & _)|(_ & _ & R)]; [congruence|]. rewrite P in R. apply R.
Qed.

(** After the close, a pouch that is no longer open has nothing waiting. *)
Record sealed s : Prop := {
  se_block : s_block s = None;
  se_closing : pouch_is_closing s = true;
  se_waiting : pouch_is_open s = false → pending s = [];
  se_open : session_is_active s = true ∨ pouch_is_open s = false;
}.

Lemma sealed_keeps op w log out es d w' :
  is_internal op = true → op_ok op → sending w log out → sealed w.2 →
  run_pouch_op op w = OK ((es, d), w') → sealed w'.2 ∧ es = [] ∧ w'.1 = w.1.
Proof.
  intros Nw O Sg [B Cl W A] E. destruct w as [ys s]. cbn [fst snd] in *.
  destruct op as [e|p ct|k d'|k| |n]; try done; cbn [run_pouch_op] in E.
  - apply st_bind_OK_inv in E as (x & w1 & (s1 & E & ->)%on_sys_inv & [= <- <- <-]).
    destruct (process_step ys s log out Sg) as (s2 & E' & _ & Pe & Bl & F).
    cbn [fst snd] in *. rewrite E in E'. injection E' as _ <-. split; [|done].
    rewrite Cl in F. assert (pouch_is_open s1 = false) as Cd.
    { rewrite pouch_is_open_bit, F. by rewrite setbit_same by done. }
    split; [congruence| | |by right].
    + rewrite pouch_is_closing_bit, F, setbit_other by done. by rewrite <- pouch_is_closing_bit.
    + intros _. destruct (processing s) eqn:P; [done|]. rewrite Pe. apply W.
      unfold processing in P. destruct A as [A|A]; [|done]. by rewrite A in P.
  - apply st_bind_OK_inv in E as ([[r k] d2] & w1 & (s1 & E & ->)%on_sys_inv & [= <- <- <-]).
    destruct (fill_step ys s log out n Sg O) as (r' & k' & d' & s2 & E' & _ & Pe & Bl & R).
    cbn [fst snd] in *. rewrite E in E'. injection E' as -> -> -> ->. split; [|done].
    destruct R as [(-> & _)|(Ac & _ & R)]; [by split|].
    destruct (pouch_is_open s || _) eqn:D; destruct R as [F _].
    + apply flag_tests in F as (F1 & F2 & F3). split; rewrite ?F1, ?F2, ?F3, ?Pe; congruence || auto.
    + apply orb_false_iff in D as [D _].
      assert (pouch_is_open s2 = false) as Cd.
      { rewrite pouch_is_open_bit in D |- *. by rewrite F, clearbit_other by done. }
      split; [congruence| |rewrite Pe; auto|by right].
      rewrite pouch_is_closing_bit, F, clearbit_other by done. by rewrite <- pouch_is_closing_bit.
Qed.

Lemma close_step ys s log out :
  sending (ys, s) log out → open s →
  ∃ s', pouch_uplink_close None s = OK (SUCCESS, s') ∧ sending (ys, s') log out ∧ sealed s'.
Proof.
  intros (gone & ps & es & c & Sg) (A & P & Cl). cbn [fst snd] in Sg. rewrite close_run, Cl.
  assert (sending_at gone ps es c ys (closing_set s) log out) as Sc.
  { apply (sending_ext gone ps es c ys s); try done. by apply uplink_inv_flags, Sg. }
  pose proof (ct_entries _ _ _ _ (sg_content _ _ _ _ _ _ _ _ Sc)) as (cur & Cu & El). simpl in Cu.
  assert (entry_log (pending (closing_set s)) (closing_set s) cur) as L.
  { exists [], cur. split_and!; [|done|done]. exists [], []. by rewrite app_nil_r. }
  destruct (entry_close_run _ (closing_set s) cur L) as (s1 & E & Fl & B & [Wl Wf Wb Ws]). rewrite E.
  destruct Fl as (bs & gs & Pe & F & G).
  assert (sending_at gone (ps ++ map PieceEntries gs) es c ys s1 log out) as S1.
  { pose proof Sc as [_ _ [_ _] Cn Ba _ Co _ _ _ _].
    apply (sending_wrote gone ps es c ys (closing_set s) ys s1 log log out bs);
      [done|done|done|by apply holds_pieces|..].
    - rewrite Ws. lia.
    - unfold counter_ok in *. by rewrite Ws.
    - by apply Wb.
    - rewrite <- (app_nil_r log).
      eapply content_entries; [done|by apply frame_id|exact Cu| | |exact El].
      + unfold current. by rewrite B.
      + by rewrite G. }
  eexists. split; [reflexivity|].
  assert (u_flags (s_uplink (work_submitted s1)) = Z.setbit (u_flags (s_uplink s)) POUCH_CLOSING) as Ff
    by apply (frame_flags _ _ Wf).
  assert (pouch_is_open (work_submitted s1) = true) as P'.
  { rewrite pouch_is_open_bit in P |- *. by rewrite Ff, setbit_other. }
  assert (session_is_active (work_submitted s1) = true) as A'.
  { rewrite session_is_active_bit in A |- *. by rewrite Ff, setbit_other. }
  split.
  - do 4 eexists. apply (sending_ext gone (ps ++ map PieceEntries gs) es c ys s1); try done.
    destruct S1 as [[? ? [? ?] ?] _]. by repeat split.
  - split; [done| |by rewrite P'|by left]. by rewrite pouch_is_closing_bit, Ff, setbit_same.
Qed.


End Session.

(** * A whole session *)

(** A state between two sessions, in which the entries [log] were written but not yet sent. *)
Record between s log : Prop := {
  bt_inv : uplink_inv s;
  bt_flags : u_flags (s_uplink s) = 0;
  bt_header : u_header (s_uplink s) = None;
  bt_outgoing : outgoing s = [];
  bt_log : entry_log [] s log;
  bt_counter : counter_ok s;
}.

(** The pieces of stream [k]: all of its data and an end, if it was closed and has any; otherwise the
    start of its data. *)
Definition stream_sent (ps : list piece) (k : nat) (y : client_stream) : Prop :=
  ∃ id cs,
    if bool_decide (cs_stream y = None) && (0 <? u32 (len (cs_data y)))
    then pieces_of k ps = chunks k id (opening_of y) true cs ∧ concat cs = cs_data y
    else pieces_of k ps = chunks k id (opening_of y) false cs ∧ concat cs `prefix_of` cs_data y.

Lemma stream_ok_sent ps k y s : stream_ok ps k y s → stream_sent ps k y.
Proof.
  unfold stream_ok, stream_sent. destruct (cs_stream y) as [x|].
  - intros (_ & _ & _ & _ & cs & d & E & _ & <-). exists (st_id x), cs.
    rewrite bool_decide_eq_false_2 by done. split; [done|]. by exists d.
  - intros (id & cs & H). exists id, cs. by rewrite bool_decide_eq_true_2.
Qed.

(** The bytes [out] are the pouch of these entries and streams, encrypted from the state [c0]. *)
Definition pouch_of (hb : list byte) (c0 : C) (M : nat → bool) log (ys : list client_stream) out : Prop :=
  ∃ bs ps eb c, out = pouch_bytes hb eb ∧ encrypts M c0 bs eb c ∧ Forall2 block_holds bs ps
    ∧ entries_of ps = log ∧ (∀ k y, ys !! k = Some y → stream_sent ps k y)
    ∧ ∀ k, (length ys ≤ k)%nat → pieces_of k ps = [].

Lemma started_sending s s0 log held :
  between s log → balanced s held → pouch_uplink_start s = OK (true, s0) →
  ∃ hb, header_bytes (s_crypto s0) = Some hb
    ∧ sending hb (s_crypto s0) (malloc_ok (s_heap s)) (open_streams (s_stream s)) held ([], s0) log []
    ∧ open s0.
Proof.
  intros [I F H O (es & cur & (bs & gs & P & Fg & G) & Cu & El) Cn] Ba E.
  assert (session_is_active s = false) as A by (by rewrite session_is_active_bit, F).
  destruct (start_run s I A H) as (r & s' & E' & St & _). rewrite E in E'. injection E' as <- <-.
  destruct St as [I' Bk P' O' B U Fl _ Hd _ Ss Ma _]. rewrite F in Fl. simpl in Fl.
  destruct (u_header (s_uplink s0)) as [b|] eqn:Eh; [|done]. destruct Hd as [_ Hd].
  exists (contents b). split_and!; [done| |by unfold open, session_is_active, pouch_is_open, pouch_is_closing; rewrite Fl].
  exists [], (map PieceEntries gs), [], (s_crypto s0). cbn [fst snd]. unfold counter_ok in Cn.
  split; try done.
  - rewrite Ss. change (num_open []) with 0. lia.
  - unfold counter_ok. by rewrite Ss.
  - change (num_open []) with 0. rewrite Z.add_0_r. by apply Bk.
  - rewrite P', P. by apply holds_pieces.
  - split; [|done|intros k _; apply pieces_of_entries].
    exists cur. unfold current in *. by rewrite B, entries_of_entries, G.
  - constructor.
  - by rewrite O', O.
  - rewrite Eh. by exists b.
Qed.

Lemma run_internal ops hb c0 M o0 h0 : ∀ w log out,
  Forall (λ op, is_internal op = true) ops → Forall op_ok ops → sending hb c0 M o0 h0 w log out → sealed w.2 →
  ∃ d w', run_pouch ops w = OK (([], d), w') ∧ sending hb c0 M o0 h0 w' log (out ++ d) ∧ sealed w'.2
    ∧ w'.1 = w.1.
Proof.
  induction ops as [|op ops IH]; intros w log out Fi Fo Sg Se; cbn [run_pouch].
  { do 2 eexists. split; [reflexivity|]. by rewrite app_nil_r. }
  apply Forall_cons in Fi as [Oi Fi]. apply Forall_cons in Fo as [Oo Fo].
  destruct (op_step hb c0 M o0 h0 w log out op Sg Oo) as (es & d & w1 & E & Sg1 & _).
  destruct (sealed_keeps hb c0 M o0 h0 op w log out es d w1 Oi Oo Sg Se E) as (Se1 & -> & Ey).
  rewrite app_nil_r in Sg1. destruct (IH w1 log _ Fi Fo Sg1 Se1) as (d' & w2 & E2 & Sg2 & Se2 & Ey2).
  rewrite (st_bind_OK _ _ _ _ _ E), (st_bind_OK _ _ _ _ _ E2).
  do 2 eexists. split; [reflexivity|]. rewrite app_assoc. split_and!; [done..|congruence].
Qed.

Lemma session_run s s0 log ops1 ops2 held :
  between s log → balanced s held → pouch_uplink_start s = OK (true, s0) →
  Forall op_ok ops1 → Forall op_ok ops2 → Forall (λ op, is_internal op = true) ops2 →
  ∃ hb es out ys s1,
    header_bytes (s_crypto s0) = Some hb ∧ session ops1 ops2 ([], s0) = OK ((es, out), (ys, s1))
    ∧ sending hb (s_crypto s0) (malloc_ok (s_heap s)) (open_streams (s_stream s)) held (ys, s1) (log ++ es) out
    ∧ sealed s1
    ∧ (malloc_never_fails (s_heap s) → spec_ops (open_streams (s_stream s)) ops1 [] = (es, map abs ys)).
Proof.
  intros B Ba E O1 O2 N2. destruct (started_sending s s0 log held B Ba E) as (hb & Hh & Sg & Op).
  destruct (run_pouch_keeps hb (s_crypto s0) (malloc_ok (s_heap s)) (open_streams (s_stream s)) held open (λ _, True)) with (ops := ops1) (w := ([], s0) : world)
    (log := log) (out := @nil byte) as (es & d1 & [ys s1] & E1 & Sg1 & Op1 & Sp); [|by apply Forall_true|done|exact Sg|done|].
  { intros. by eapply open_keeps. }
  destruct (close_step _ _ _ _ _ ys s1 _ _ Sg1 Op1) as (s2 & E2 & Sg2 & Se2).
  destruct (run_internal ops2 _ _ _ _ _ (ys, s2) (log ++ es) ([] ++ d1) N2 O2 Sg2 Se2)
    as (d2 & [ys3 s3] & E3 & Sg3 & Se3 & Ey). simpl in Ey. subst ys3.
  exists hb, es, (d1 ++ d2), ys, s3. split_and!; [done| |done|done|exact Sp]. unfold session.
  rewrite (st_bind_OK _ _ _ _ _ E1).
  rewrite (st_bind_OK _ _ (ys, s1) SUCCESS (ys, s2)) by (unfold on_sys; by rewrite E2).
  by rewrite (st_bind_OK _ _ _ _ _ E3).
Qed.

(** ** Code that writes a batch of entries and closes *)

Lemma run_writes es : ∀ ys s,
  run_pouch (map PWrite es) (ys, s) =
    match write_all es s with OK (rs, s') => OK ((accepted_all rs es, []), (ys, s')) | Fault => Fault end.
Proof.
  induction es as [|e es IH]; intros ys s; [done|]. cbn [map run_pouch run_pouch_op write_all].
  unfold mbind, st_bind, on_sys, mret, st_ret in *. cbn [mbind outcome_bind].
  destruct (pouch_uplink_entry_write _ _ _ _ _ s) as [[r s1]|]; [|done]. cbn. rewrite IH.
  by destruct (write_all es s1) as [[rs s2]|].
Qed.

Lemma spec_writes o0 es l :
  spec_ops o0 (map PWrite es) l = (filter (λ e, entry_size e ≤ MAX_BLOCK_PAYLOAD_SIZE) es, l).
Proof.
  induction es as [|e es IH]; [done|]. cbn [map spec_ops spec_op]. rewrite IH, filter_cons.
  destruct (Z.leb_spec (entry_size e) MAX_BLOCK_PAYLOAD_SIZE); [by rewrite decide_True|by rewrite decide_False by lia].
Qed.

Lemma accepted_sublist rs : ∀ es, accepted_all rs es `sublist_of` es.
Proof.
  unfold accepted_all. induction rs as [|r rs IH]; intros [|e es]; cbn; [done|apply sublist_nil_l..|].
  unfold accepted at 1. case_decide; cbn; [by constructor|by apply sublist_cons].
Qed.

Lemma sending_entry_log hb c0 M o0 h0 ys s log out :
  sending hb c0 M o0 h0 (ys, s) log out → ∃ cur, entry_log (pending s) s cur.
Proof.
  intros (gone & ps & es & c & Sg). destruct (ct_entries _ _ _ _ (sg_content _ _ _ _ _ _ _ _ _ _ _ _ _ Sg))
    as (cur & Cu & El). exists cur, [], cur. split_and!; [|done|done]. exists [], []. by rewrite app_nil_r.
Qed.

Lemma close_frame base s log s' r :
  entry_log base s log → pouch_uplink_close None s = OK (r, s') →
  s_events s' = s_events s ∧ session_is_active s' = session_is_active s.
Proof.
  intros L. rewrite close_run. destruct (pouch_is_closing s); [by intros [= _ <-]|].
  destruct (entry_close_run base (closing_set s) log L) as (s1 & -> & _ & _ & [_ Wf _ _]).
  intros [= _ <-]. split; [exact (wf_events _ _ Wf)|].
  rewrite !session_is_active_bit.
  assert (u_flags (s_uplink (work_submitted s1)) = Z.setbit (u_flags (s_uplink s)) POUCH_CLOSING) as ->
    by apply (frame_flags _ _ Wf).
  by rewrite setbit_other.
Qed.

(** Code that writes the entries [es] and closes the pouch, in an open session. *)
Lemma batch_run hb c0 M o0 h0 m es ys s log out :
  sending hb c0 M o0 h0 (ys, s) log out → open s →
  writes m es → Forall (λ e, entry_wf e ∧ data_len e ≠ 0) es →
  ∃ es' s', (m;; pouch_uplink_close None) s = OK (SUCCESS, s')
    ∧ sending hb c0 M o0 h0 (ys, s') (log ++ es') out ∧ sealed s' ∧ es' `sublist_of` es
    ∧ ((∀ n, M n = true) → es' = filter (λ e, entry_size e ≤ MAX_BLOCK_PAYLOAD_SIZE) es)
    ∧ s_events s' = s_events s ∧ session_is_active s' = true.
Proof.
  intros Sg Op Wr Wf. destruct (run_pouch_keeps hb c0 M o0 h0 open (λ _, True)) with (ops := map PWrite es)
    (w := (ys, s) : world) (log := log) (out := out) as (es' & d & [ys1 s1] & E & Sg1 & Op1 & Sp);
    [intros; by eapply open_keeps|by apply Forall_true|by apply Forall_map|done|done|].
  rewrite run_writes in E. destruct (sending_entry_log _ _ _ _ _ _ _ _ _ Sg) as [cur L].
  destruct (entry_writes_run es _ s cur L Wf) as (rs & s1' & Ew & Ws & _). rewrite Ew in E.
  injection E as <- <- <- <-. rewrite app_nil_r in Sg1. cbn [snd] in Op1.
  destruct (close_step _ _ _ _ _ ys s1' _ _ Sg1 Op1) as (s2 & Ec & Sg2 & Se2).
  exists (accepted_all rs es), s2. split_and!; [|done|done|apply accepted_sublist| | |].
  - rewrite (st_bind_OK _ _ s tt s1'); [done|]. by rewrite Wr, (st_bind_OK _ _ _ _ _ Ew).
  - intros Mt. specialize (Sp Mt). rewrite spec_writes in Sp. by injection Sp as ->.
  - destruct (sending_entry_log _ _ _ _ _ _ _ _ _ Sg1) as [cur1 L1].
    rewrite (proj1 (close_frame _ _ _ _ _ L1 Ec)). exact (wf_events _ _ (wr_frame _ _ _ _ Ws)).
  - destruct (sending_entry_log _ _ _ _ _ _ _ _ _ Sg1) as [cur1 L1].
    rewrite (proj2 (close_frame _ _ _ _ _ L1 Ec)). apply Op1.
Qed.

(** Once a closed pouch is processed, all that was accepted is in the blocks that were read and those that
    are ready to be. *)
Lemma sealed_pouch hb c0 M o0 h0 ys s log out :
  sending hb c0 M o0 h0 (ys, s) log out → sealed s → pouch_is_open s = false →
  pouch_of hb c0 M log ys (out ++ outgoing s).
Proof.
  intros (gone & ps & es & c & [_ _ _ _ _ Bb [(cur & Cu & El) St Nw] En _ Eo _]) [B _ W _] D.
  cbn [fst snd] in *. rewrite (W D), app_nil_r in Bb. unfold current in Cu. rewrite B in Cu. subst cur.
  rewrite app_nil_r in El. exists gone, ps, es, c. split_and!; [done..| |done].
  intros j y Hj. eapply stream_ok_sent. by apply St.
Qed.

(** The end of the session, when a read reports it. *)
Lemma session_end hb c0 M o0 h0 ys s log out n r k d s' :
  sending hb c0 M o0 h0 (ys, s) log out → sealed s → 0 ≤ n →
  pouch_uplink_fill n s = OK ((r, k, d), s') → r = POUCH_NO_MORE_DATA →
  pouch_of hb c0 M log ys (out ++ d).
Proof.
  intros Sg Se N E ->. destruct (fill_step hb c0 M o0 h0 ys s log out n Sg N)
    as (r & k' & d' & s2 & E' & Sg' & _ & _ & R).
  rewrite E in E'. injection E' as <- -> -> ->.
  assert (run_pouch_op (PFill n) (ys, s) = OK (([], d'), (ys, s2))) as Ep.
  { cbn [run_pouch_op]. by rewrite (st_bind_OK _ _ (ys, s) (POUCH_NO_MORE_DATA, k', d') (ys, s2))
      by (unfold on_sys; by rewrite E). }
  destruct R as [(_ & _ & [=])|(_ & _ & R)].
  destruct (pouch_is_open s || _) eqn:D; destruct R as [F Rr]; [done|].
  apply orb_false_iff in D as [D O]. apply bool_decide_eq_false, dec_stable in O.
  destruct (sealed_keeps hb c0 M o0 h0 (PFill n) (ys, s) log out [] d' (ys, s2) eq_refl N Sg Se Ep) as [Se' _].
  rewrite <- (app_nil_r (out ++ d')), <- O. apply (sealed_pouch hb c0 M o0 h0 ys s2 log _ Sg' Se').
  rewrite pouch_is_open_bit in D |- *. by rewrite F, clearbit_other.
Qed.

(** It can always be reached: one run of the work and one read that is large enough. *)
Lemma session_can_end hb c0 M o0 h0 ys s log out :
  sending hb c0 M o0 h0 (ys, s) log out → sealed s → session_is_active s = true →
  ∃ s1, process_blocks s = OK (tt, s1) ∧
    ∀ n, len (outgoing s1) ≤ n → ∃ k d s2, pouch_uplink_fill n s1 = OK ((POUCH_NO_MORE_DATA, k, d), s2).
Proof.
  intros Sg [B Cl W _] A.
  destruct (process_step hb c0 M o0 h0 ys s log out Sg) as (s1 & E & Sg1 & _ & _ & F).
  exists s1. split; [done|]. intros n Ln. rewrite Cl in F.
  destruct (fill_step hb c0 M o0 h0 ys s1 log out n Sg1 ltac:(lia)) as (r & k & d & s2 & E2 & _ & _ & _ & R).
  exists k, d, s2. rewrite E2. destruct R as [(_ & A1 & _)|(_ & Eo & R)].
  { rewrite session_is_active_bit, F, setbit_other, <- session_is_active_bit in A1 by done. congruence. }
  rewrite zdrop_all in Eo by done. rewrite Eo in R.
  rewrite pouch_is_open_bit, F, setbit_same in R by done. by destruct R as [_ ->].
Qed.

(** C3: sending: whatever order the application's writes, the opening, writing and closing of its
    streams, the runs of the processing work and the reads of the transport come in, before the pouch
    is closed and after, nothing faults and no buffer is lost; with memory for it, exactly the entries
    that fit and all the data of the streams are accepted. What was read and is ready to be read is the
    header and what the encryption layer makes of blocks that hold the accepted entries in order; when a
    read reports the end, all entries were read, and the data of every stream, whole and with an end if
    it was closed; and as long as the session is active, one run of the work and one read that is large
    enough reach the end. *)
Theorem pouch_sent s s0 log ops1 ops2 held :
  between s log → balanced s held → pouch_uplink_start s = OK (true, s0) →
  Forall op_ok ops1 → Forall op_ok ops2 → Forall (λ op, is_internal op = true) ops2 →
  let M := malloc_ok (s_heap s) in
  ∃ hb es out ys s1,
    header_bytes (s_crypto s0) = Some hb ∧ session ops1 ops2 ([], s0) = OK ((es, out), (ys, s1))
    ∧ balanced s1 (held + num_open ys)
    ∧ (malloc_never_fails (s_heap s) → spec_ops (open_streams (s_stream s)) ops1 [] = (es, map abs ys))
    ∧ (∃ bs ps eb c, out ++ outgoing s1 = pouch_bytes hb eb ∧ encrypts M (s_crypto s0) bs eb c
        ∧ Forall2 block_holds bs ps ∧ entries_of ps `prefix_of` log ++ es)
    ∧ (∀ n k d s2, 0 ≤ n → pouch_uplink_fill n s1 = OK ((POUCH_NO_MORE_DATA, k, d), s2) →
        pouch_of hb (s_crypto s0) M (log ++ es) ys (out ++ d))
    ∧ (session_is_active s1 = true → ∃ s2, process_blocks s1 = OK (tt, s2) ∧
        ∀ n, len (outgoing s2) ≤ n →
          ∃ k d s3, pouch_uplink_fill n s2 = OK ((POUCH_NO_MORE_DATA, k, d), s3)).
Proof.
  intros B Ba E O1 O2 N2 M.
  destruct (session_run s s0 log ops1 ops2 held B Ba E O1 O2 N2)
    as (hb & es & out & ys & s1 & Hh & Es & Sg & Se & Sp).
  exists hb, es, out, ys, s1. split_and!; [done|done| |done|..].
  - destruct Sg as (gone & ps & eb & c & Sg). apply Sg.
  - destruct Sg as (gone & ps & eb & c & [_ _ _ _ _ Bb [(cur & _ & El) _ _] En _ Eo _]).
    cbn [fst snd] in *. apply Forall2_app_inv_l in Bb as (ps1 & ps2 & F1 & F2 & ->).
    exists gone, ps1, eb, c. split_and!; [done..|]. rewrite <- El, entries_of_app, <- app_assoc.
    by eexists.
  - intros n k d s2 N Ef. by eapply session_end.
  - by eapply session_can_end.
Qed.

End Sender.
