(* ===== verification/Downlink.v ===== *)
(** Downlink: src/src/downlink.c.

    The transport pushes the bytes of a pouch in chunks of any size; [pouch_downlink_push] parses the
    header, cuts the rest into blocks and queues them; two works decrypt the blocks and parse them. *)
From stdpp Require Import relations.
From S2P Require Import Prelude Platform Buf Block Crypto State Entry.

Section Downlink.
Context {BO : ByteOrder} {SL : SList} {KW : KWork} {MQ : MsgQ} {CF : Config} {HC : HeaderCodec}.
Context {C : Type} {CR : Crypto C}.

(** Changes of the downlink's variables. *)
Definition set_d_pouch_buf x (d : downlink_statics) : downlink_statics :=
  DownlinkStatics x (d_pouch_header d) (d_decrypt_queue d) (d_decrypt_work d) (d_consume_queue d)
    (d_consume_work d).
Definition set_d_pouch_header x (d : downlink_statics) : downlink_statics :=
  DownlinkStatics (d_pouch_buf d) x (d_decrypt_queue d) (d_decrypt_work d) (d_consume_queue d)
    (d_consume_work d).
Definition set_d_decrypt q w (d : downlink_statics) : downlink_statics :=
  DownlinkStatics (d_pouch_buf d) (d_pouch_header d) q w (d_consume_queue d) (d_consume_work d).
Definition set_d_consume q w (d : downlink_statics) : downlink_statics :=
  DownlinkStatics (d_pouch_buf d) (d_pouch_header d) (d_decrypt_queue d) (d_decrypt_work d) q w.

Definition dupd (f : downlink_statics → downlink_statics) : st (sys C) unit :=
  modify (λ s, set_downlink (f (s_downlink s)) s).

Definition downlink_init : st (sys C) unit :=
  dupd (set_d_decrypt buf_queue_init k_work_init);;
  dupd (set_d_consume buf_queue_init k_work_init).

(** The consume work taken from its queue and run. *)
Definition consume_blocks {A} (handlers : list (pouch_downlink_handler A)) (a : A) : st (sys C) A :=
  dupd (λ d, set_d_consume (d_consume_queue d) (k_work_take (d_consume_work d)) d);;
  pbuf ← gets (λ s, (buf_queue_get (d_consume_queue (s_downlink s))).1);
  dupd (λ d, set_d_consume (buf_queue_get (d_consume_queue d)).2 (d_consume_work d) d);;
  match pbuf with
  | None => mret a
  | Some pbuf =>
    a ← lift (pouch_downlink_block_push handlers pbuf a);
    zoom (buf_free (Some pbuf));;
    empty ← gets (λ s, buf_queue_is_empty (d_consume_queue (s_downlink s)));
    (if negb empty then
       dupd (λ d, set_d_consume (d_consume_queue d) (k_work_submit (d_consume_work d)) d)
     else mret tt);;
    mret a
  end.

(** The decrypt work taken from its queue and run. *)
Definition decrypt_blocks : st (sys C) unit :=
  dupd (λ d, set_d_decrypt (d_decrypt_queue d) (k_work_take (d_decrypt_work d)) d);;
  block ← gets (λ s, (buf_queue_get (d_decrypt_queue (s_downlink s))).1);
  dupd (λ d, set_d_decrypt (buf_queue_get (d_decrypt_queue d)).2 (d_decrypt_work d) d);;
  decrypted ← zoom (crypto_decrypt_block block);
  match decrypted with
  | None => mret tt
  | Some decrypted =>
    dupd (λ d, set_d_consume (buf_queue_submit (d_consume_queue d) decrypted) (d_consume_work d) d);;
    dupd (λ d, set_d_consume (d_consume_queue d) (k_work_submit (d_consume_work d)) d);;
    empty ← gets (λ s, buf_queue_is_empty (d_decrypt_queue (s_downlink s)));
    if negb empty then
      dupd (λ d, set_d_decrypt (d_decrypt_queue d) (k_work_submit (d_decrypt_work d)) d)
    else mret tt
  end.

Definition block_downlink_push (pbuf : pouch_buf) : st (sys C) unit :=
  dupd (λ d, set_d_decrypt (buf_queue_submit (d_decrypt_queue d) pbuf) (d_decrypt_work d) d);;
  dupd (λ d, set_d_decrypt (d_decrypt_queue d) (k_work_submit (d_decrypt_work d)) d).

Definition pouch_downlink_start : st (sys C) unit :=
  dupd (set_d_pouch_header false);;
  b ← zoom (buf_alloc MAX_CIPHERTEXT_BLOCK_SIZE);
  dupd (set_d_pouch_buf b).

(** The status and, on success, the length of the header. *)
Definition pouch_downlink_parse_header (v : pouch_bufview) : st (sys C) (status * Z) :=
  '(header_raw, v) ← lift (pouch_bufview_read v 0);
  raw ← lift (p ← of_ptr header_raw; view_load v p (pouch_bufview_available v));
  match cbor_decode_pouch_header raw with
  | None => mret (NEG EIO, 0)
  | Some (header, header_len) =>
    err ← gets (λ s, (crypto_downlink_start (encryption_info_m header) (s_crypto s)).1);
    modify (λ s, set_crypto (crypto_downlink_start (encryption_info_m header) (s_crypto s)).2 s);;
    mret (err, header_len)
  end.

(** The last part of a pass: a complete block at the start of the buffer is cut off and queued. The
    view [v] is at the start of [pbuf]. [false] stands for the return in the middle. *)
Definition push_block (pbuf : pouch_buf) (v : pouch_bufview) : st (sys C) bool :=
  if 2 <? pouch_bufview_available v then
    '(block_size, v) ← lift (pouch_bufview_read_be16 v);
    if MAX_BLOCK_SIZE_FIELD_VALUE <? block_size then mret false else
    if block_size <=? pouch_bufview_available v then
      fresh ← zoom (buf_alloc MAX_CIPHERTEXT_BLOCK_SIZE);
      dupd (set_d_pouch_buf fresh);;
      to_send ←
        (match fresh with
         | Some fresh =>
           if block_size <? pouch_bufview_available v then
             '(remaining, v) ← lift (pouch_bufview_read v 0);
             remaining ← lift (of_ptr remaining);
             let remaining_len := u32 (pouch_bufview_available v - block_size) in
             d ← lift (view_load v (remaining + block_size) remaining_len);
             fresh ← lift (buf_write fresh d);
             dupd (set_d_pouch_buf (Some fresh));;
             mret (buf_trim_end pbuf remaining_len).2
           else mret pbuf
         | None => mret pbuf
         end : st (sys C) _);
      block_downlink_push to_send;;
      mret true
    else mret true
  else mret true.

(** One pass of the loop of [pouch_downlink_push]: what is left of [buf], or [None] for a return in
    the middle. *)
Definition push_one (buf : list byte) : st (sys C) (option (list byte)) :=
  pbuf ← gets (λ s, d_pouch_buf (s_downlink s));
  match pbuf with
  | None => mret None
  | Some pbuf =>
    if MAX_CIPHERTEXT_BLOCK_SIZE <=? buf_size_get pbuf then mret None else
    let buf_written := Z.min (len buf) (MAX_CIPHERTEXT_BLOCK_SIZE - buf_size_get pbuf) in
    pbuf ← lift (buf_write pbuf (ztake buf_written buf));
    dupd (set_d_pouch_buf (Some pbuf));;
    let buf := zdrop buf_written buf in
    let v := pouch_bufview_init pbuf in
    pouch_header ← gets (λ s, d_pouch_header (s_downlink s));
    ready ←
      (if (pouch_header : bool) then mret (Some pbuf) else
         '(err, header_len) ← pouch_downlink_parse_header v;
         match err with
         | Some _ => mret None
         | None =>
           dupd (set_d_pouch_header true);;
           '(_, pbuf) ← lift (buf_trim_start pbuf header_len);
           dupd (set_d_pouch_buf (Some pbuf));;
           mret (Some pbuf)
         end : st (sys C) (option pouch_buf));
    match ready with
    | None => mret None
    | Some pbuf =>
      (* The view was taken before the trim, at offset 0, and points to the buffer. *)
      ok ← push_block pbuf (BufView (Some pbuf) (v_offset v));
      mret (if (ok : bool) then Some buf else None)
    end
  end.

(** The loop, with fuel: every pass takes at least one byte. *)
Fixpoint push_loop (fuel : nat) (buf : list byte) : st (sys C) unit :=
  match buf with
  | [] => mret tt
  | _ =>
    match fuel with
    | O => fault
    | S fuel =>
      left ← push_one buf;
      match left with
      | Some buf => push_loop fuel buf
      | None => mret tt
      end
    end
  end.

Definition pouch_downlink_push (buf : list byte) : st (sys C) unit := push_loop (length buf) buf.

Definition pouch_downlink_finish : st (sys C) unit := mret tt.

End Downlink.

(** * Reference: cutting a byte string *)

Section Reference.
Context {BO : ByteOrder} {CF : Config} {HC : HeaderCodec} {C : Type} {CR : Crypto C}.
Implicit Types (l d : list byte).

(** What stands at the start of [l]: not yet a block, a size no block can have, or a block. *)
Inductive cut_result := Incomplete | Oversize | Complete (blk rest : list byte).

Definition cut l : cut_result :=
  if len l <=? 2 then Incomplete else
  let n := sys_get_be16 (take 2 l) in
  if MAX_BLOCK_SIZE_FIELD_VALUE <? n then Oversize
  else if n <=? len l - 2 then Complete (ztake (2 + n) l) (zdrop (2 + n) l)
  else Incomplete.

(** The header, if it is still to be read: [None] when it is not there yet or refused. *)
Definition strip (hdr : bool) (c : C) l : option (list byte) * C :=
  if hdr then (Some l, c) else
  match cbor_decode_pouch_header l with
  | None => (None, c)
  | Some (h, n) =>
    let '(err, c) := crypto_downlink_start (encryption_info_m h) c in
    match err with Some _ => (None, c) | None => (Some (zdrop n l), c) end
  end.

(** What a push of [d] does to the unparsed bytes [l]: the blocks cut off, whether the header has been
    read, the encryption layer's state, the bytes kept and the bytes dropped. *)
Record feed_result := Fed {
  fd_blocks : list (list byte);
  fd_hdr : bool;
  fd_crypto : C;
  fd_left : list byte;
  fd_dropped : list byte;
}.

Definition add_block blk (r : feed_result) : feed_result :=
  Fed (blk :: fd_blocks r) (fd_hdr r) (fd_crypto r) (fd_left r) (fd_dropped r).

Fixpoint feed (fuel : nat) (hdr : bool) (c : C) l d : feed_result :=
  match fuel, d with
  | S fuel, _ :: _ =>
    if MAX_CIPHERTEXT_BLOCK_SIZE <=? len l then Fed [] hdr c l d else
    let k := Z.min (len d) (MAX_CIPHERTEXT_BLOCK_SIZE - len l) in
    let l := l ++ ztake k d in
    let d := zdrop k d in
    let '(ready, c) := strip hdr c l in
    match ready with
    | None => Fed [] hdr c l d
    | Some l =>
      match cut l with
      | Incomplete => feed fuel true c l d
      | Oversize => Fed [] true c l d
      | Complete blk l => add_block blk (feed fuel true c l d)
      end
    end
  | _, _ => Fed [] hdr c l d
  end.

Lemma MAX_FIELD_range : 2 ≤ MAX_BLOCK_SIZE_FIELD_VALUE ≤ MAX_CIPHERTEXT_BLOCK_SIZE - 2.
Proof.
  unfold MAX_BLOCK_SIZE_FIELD_VALUE. pose proof MAX_CIPHERTEXT_range. pose proof MAX_PLAINTEXT_range.
  lia.
Qed.

Lemma cut_Complete l blk r :
  cut l = Complete blk r → l = blk ++ r ∧ 2 ≤ len blk ∧ len blk ≤ MAX_CIPHERTEXT_BLOCK_SIZE.
Proof.
  unfold cut. destruct (Z.leb_spec (len l) 2); [done|].
  destruct (Z.ltb_spec MAX_BLOCK_SIZE_FIELD_VALUE (sys_get_be16 (take 2 l))); [done|].
  destruct (Z.leb_spec (sys_get_be16 (take 2 l)) (len l - 2)); [|done]. intros [= <- <-].
  pose proof MAX_FIELD_range.
  assert (0 ≤ sys_get_be16 (take 2 l)).
  { destruct l as [|x [|y l]]; try done. simpl. rewrite sys_get_be16_spec.
    pose proof (Z_of_byte_range x). pose proof (Z_of_byte_range y). lia. }
  rewrite take_drop. split; [done|]. solve_len.
Qed.

(** As long as its size field says. *)
Definition sized blk : Prop := len blk = 2 + sys_get_be16 (take 2 blk).

Lemma cut_sized l blk r : cut l = Complete blk r → sized blk.
Proof.
  intros E. pose proof (cut_Complete _ _ _ E) as (El & L2 & _). revert E. unfold cut.
  destruct (Z.leb_spec (len l) 2); [done|].
  destruct (Z.ltb_spec MAX_BLOCK_SIZE_FIELD_VALUE (sys_get_be16 (take 2 l))); [done|].
  destruct (Z.leb_spec (sys_get_be16 (take 2 l)) (len l - 2)); [|done]. intros [= Eb _].
  assert (take 2 l = take 2 blk) as T by (rewrite El; apply take_app_le; lia).
  unfold sized. rewrite <- T. subst blk. revert L2. solve_len.
Qed.

(** A full buffer holds a block, or a size no block can have. *)
Lemma cut_full l : cut l = Incomplete → len l < MAX_CIPHERTEXT_BLOCK_SIZE.
Proof.
  unfold cut. pose proof MAX_FIELD_range. destruct (Z.leb_spec (len l) 2); [lia|].
  destruct (Z.ltb_spec MAX_BLOCK_SIZE_FIELD_VALUE (sys_get_be16 (take 2 l))); [done|].
  destruct (Z.leb_spec (sys_get_be16 (take 2 l)) (len l - 2)); [done|lia].
Qed.

(** Once the header is read, every byte goes to a block, is kept, or is dropped because of a size
    field no block can have. *)
Lemma feed_conserves fuel : ∀ c l d,
  (length d ≤ fuel)%nat → len l < MAX_CIPHERTEXT_BLOCK_SIZE →
  let r := feed fuel true c l d in
  concat (fd_blocks r) ++ fd_left r ++ fd_dropped r = l ++ d ∧ Forall sized (fd_blocks r)
  ∧ (fd_dropped r ≠ [] → cut (fd_left r) = Oversize) ∧ fd_hdr r = true ∧ fd_crypto r = c.
Proof.
  induction fuel as [|fuel IH]; intros c l d Hf L.
  { destruct d; [|simpl in Hf; lia]. simpl. by split_and!. }
  destruct d as [|x d]; [simpl; by split_and!|]. set (d0 := x :: d) in *.
  change (feed (S fuel) true c l d0) with
    (if MAX_CIPHERTEXT_BLOCK_SIZE <=? len l then Fed [] true c l d0 else
     let k := Z.min (len d0) (MAX_CIPHERTEXT_BLOCK_SIZE - len l) in
     match cut (l ++ ztake k d0) with
     | Incomplete => feed fuel true c (l ++ ztake k d0) (zdrop k d0)
     | Oversize => Fed [] true c (l ++ ztake k d0) (zdrop k d0)
     | Complete blk l => add_block blk (feed fuel true c l (zdrop k d0))
     end).
  rewrite (proj2 (Z.leb_gt _ _)) by lia. cbv zeta.
  set (k := Z.min (len d0) (MAX_CIPHERTEXT_BLOCK_SIZE - len l)).
  assert (0 < k) by (unfold k, d0; simpl; lia).
  assert (length (zdrop k d0) ≤ fuel)%nat as Hd by (rewrite length_drop; lia).
  assert (l ++ d0 = (l ++ ztake k d0) ++ zdrop k d0) as Ed by by rewrite <- app_assoc, take_drop.
  assert (len (l ++ ztake k d0) ≤ MAX_CIPHERTEXT_BLOCK_SIZE) as L1 by (unfold k; solve_len).
  destruct (cut (l ++ ztake k d0)) as [| |blk r] eqn:Cut.
  - rewrite Ed. apply IH; [done|]. by apply cut_full.
  - rewrite Ed. simpl. by split_and!.
  - destruct (cut_Complete _ _ _ Cut) as (El & L2 & _).
    destruct (IH c r (zdrop k d0) Hd) as (E1 & S1 & D1 & H1 & C1).
    { rewrite El, length_app in L1. lia. }
    split_and!; [|constructor; [by eapply cut_sized|done]|done..].
    simpl. rewrite <- app_assoc, E1, Ed, El. by rewrite <- app_assoc.
Qed.

End Reference.

(** * The code refines the reference *)

Section Refinement.
Context {BO : ByteOrder} {SL : SList} {KW : KWork} {MQ : MsgQ} {CF : Config} {HC : HeaderCodec}.
Context {C : Type} {CR : Crypto C}.
Implicit Types (s : sys C) (b : pouch_buf) (l d : list byte).

(** A buffer being assembled that holds [l]. *)
Record asm b l : Prop := {
  asm_wf : buf_wf b;
  asm_cap : cap b = MAX_CIPHERTEXT_BLOCK_SIZE;
  asm_contents : contents b = l;
}.

Lemma asm_bytes b l : asm b l → bytes b = len l.
Proof. intros [W _ <-]. by rewrite len_contents. Qed.

Lemma asm_len b l : asm b l → len l ≤ MAX_CIPHERTEXT_BLOCK_SIZE.
Proof. intros A. pose proof (asm_bytes _ _ A). destruct A as [[] ? _]. lia. Qed.

Lemma asm_fresh : asm (PBuf MAX_CIPHERTEXT_BLOCK_SIZE 0 []) [].
Proof.
  pose proof MAX_CIPHERTEXT_range. pose proof MAX_PLAINTEXT_range.
  split; [apply fresh_wf; lia|done|done].
Qed.

Lemma asm_write b l d : asm b l → len l + len d ≤ MAX_CIPHERTEXT_BLOCK_SIZE →
  buf_write b d = OK (pushed b d) ∧ asm (pushed b d) (l ++ d).
Proof.
  intros A L. pose proof (asm_bytes _ _ A). destruct A as [W Ca <-].
  assert (fits b d) by (unfold fits; lia).
  split; [by apply buf_write_fits|]. split; [by apply pushed_wf|done|by rewrite pushed_contents].
Qed.

Lemma asm_rest b l : asm b l → rest b 0 = l.
Proof. by intros [_ _ <-]. Qed.

(** The state with the variables a push changes. *)
Definition dx s (h : heap) (c : C) (pb : option pouch_buf) (hd : bool) (q : pouch_buf_queue_t)
    (w : k_work) : sys C :=
  set_crypto c (set_heap h (set_downlink
    (set_d_decrypt q w (set_d_pouch_header hd (set_d_pouch_buf pb (s_downlink s)))) s)).

Lemma dx_id s :
  s = dx s (s_heap s) (s_crypto s) (d_pouch_buf (s_downlink s)) (d_pouch_header (s_downlink s))
        (d_decrypt_queue (s_downlink s)) (d_decrypt_work (s_downlink s)).
Proof. by destruct s as [? ? ? ? [] ? ?]. Qed.

(** The two bytes of the size. *)
Lemma read_size b l : asm b l → 2 ≤ len l →
  pouch_bufview_read_be16 (view_at b 0) = OK (sys_get_be16 (take 2 l), view_at b 2).
Proof.
  intros A L. destruct l as [|x [|y l]]; [simpl in L; lia..|].
  pose proof (asm_rest _ _ A) as R. pose proof (asm_bytes _ _ A) as B. simpl in B.
  rewrite (read_be16_next b 0 x y l (asm_wf _ _ A) ltac:(lia) R). simpl take.
  by rewrite sys_get_be16_spec.
Qed.

(** Whatever is left after a block goes to the fresh buffer, and the block is trimmed to its size. *)
Lemma split_block b l n :
  asm b l → 0 ≤ n → 2 + n < len l →
  ∃ v, pouch_bufview_read (view_at b 2) 0 = OK (Some 2, v)
    ∧ pouch_bufview_available v = len l - 2
    ∧ u32 (len l - 2 - n) = len (zdrop (2 + n) l)
    ∧ view_load v (2 + n) (len (zdrop (2 + n) l)) = OK (zdrop (2 + n) l)
    ∧ asm (buf_trim_end b (len (zdrop (2 + n) l))).2 (ztake (2 + n) l).
Proof.
  intros A N L. pose proof (asm_bytes _ _ A) as B. pose proof (asm_len _ _ A) as Ml.
  pose proof MAX_CIPHERTEXT_range. destruct A as [W Ca Co].
  assert (len (zdrop (2 + n) l) = len l - 2 - n) as Lr by solve_len.
  exists (view_at b 2). rewrite Lr. split_and!.
  - unfold pouch_bufview_read. rewrite available_at, len_rest by (done || lia).
    rewrite (proj2 (Z.ltb_ge _ _)) by lia. by rewrite bufview_read_at by (done || lia).
  - rewrite available_at, len_rest by (done || lia). lia.
  - rewrite u32_small by lia. done.
  - change (view_load (view_at b 2) (2 + n) (len l - 2 - n)) with
      (mem_read (2 + n) (len l - 2 - n) b).
    rewrite mem_read_contents by (done || lia). rewrite Co. f_equal. apply ztake_all. solve_len.
  - destruct (buf_trim_end_spec b (len l - 2 - n) W ltac:(lia)) as (b' & -> & W' & Ca' & Co').
    split; simpl; [done|congruence|]. rewrite Co', Co, B. f_equal. lia.
Qed.

(** A buffer the decrypt work takes. *)
Definition dl_block b : Prop := buf_wf b ∧ 2 ≤ bytes b ≤ MAX_CIPHERTEXT_BLOCK_SIZE.

Lemma asm_dl_block b l : asm b l → 2 ≤ len l → dl_block b.
Proof.
  intros A L. pose proof (asm_bytes _ _ A). pose proof (asm_len _ _ A).
  split; [apply A|lia].
Qed.

Definition heap_after (ok : bool) (h : heap) : heap :=
  Heap (malloc_ok h) (S (malloc_n h)) (if ok then i32 (bufs h + 1) else bufs h).

Lemma live_after ok h n : live h n → live (heap_after ok h) (n + if ok then 1 else 0).
Proof.
  intros L. destruct ok; [by apply live_alloc|]. eapply live_eq; [by apply live_keep|lia].
Qed.

(** What the last part of a pass does to a buffer that holds [l]. *)
Definition block_result s h c b l q w (run : outcome (bool * sys C)) : Prop :=
  match cut l with
  | Incomplete => run = OK (true, dx s h c (Some b) true q w)
  | Oversize => run = OK (false, dx s h c (Some b) true q w)
  | Complete blk r =>
    if malloc_ok h (malloc_n h) then
      ∃ b1 b2, asm b1 blk ∧ asm b2 r ∧
        run = OK (true, dx s (heap_after true h) c (Some b2) true (buf_queue_submit q b1)
                          (k_work_submit w))
    else run = OK (true, dx s (heap_after false h) c None true (buf_queue_submit q b)
                           (k_work_submit w))
  end.

Lemma push_block_spec s h c b l q w :
  asm b l →
  block_result s h c b l q w (push_block b (view_at b 0) (dx s h c (Some b) true q w)).
Proof.
  intros A. pose proof (asm_bytes _ _ A) as B. pose proof (asm_wf _ _ A) as W.
  pose proof (asm_len _ _ A) as Ml. pose proof MAX_CIPHERTEXT_range.
  set (s0 := dx s h c (Some b) true q w). unfold push_block, block_result, cut.
  rewrite available_at, len_rest by (done || lia). rewrite B, Z.sub_0_r.
  destruct (Z.leb_spec (len l) 2) as [L|L]; [by rewrite (proj2 (Z.ltb_ge 2 _)) by lia|].
  rewrite (proj2 (Z.ltb_lt 2 _)) by lia.
  set (n := sys_get_be16 (take 2 l)).
  rewrite (st_bind_OK _ _ s0 (n, view_at b 2) s0)
    by (unfold lift; by rewrite (read_size b l A) by lia).
  destruct (MAX_BLOCK_SIZE_FIELD_VALUE <? n); [done|].
  rewrite !available_at, !len_rest by (done || lia). rewrite B.
  destruct (Z.leb_spec n (len l - 2)) as [Ln|Ln]; [|done].
  pose proof (buf_alloc_spec MAX_CIPHERTEXT_BLOCK_SIZE h) as Ea.
  destruct (malloc_ok h (malloc_n h)).
  2:{ rewrite (st_bind_OK _ _ s0 None (dx s (heap_after false h) c (Some b) true q w))
        by (unfold zoom; change (part_get s0) with h; by rewrite Ea).
      done. }
  set (b0 := PBuf MAX_CIPHERTEXT_BLOCK_SIZE 0 []).
  rewrite (st_bind_OK _ _ s0 (Some b0) (dx s (heap_after true h) c (Some b) true q w))
    by (unfold zoom; change (part_get s0) with h; by rewrite Ea).
  set (s1 := dx s (heap_after true h) c (Some b0) true q w).
  rewrite (st_bind_OK _ _ _ tt s1) by done.
  assert (0 ≤ n) as N.
  { unfold n. destruct l as [|x [|y l]]; [simpl in L; lia..|]. simpl. rewrite sys_get_be16_spec.
    pose proof (Z_of_byte_range x). pose proof (Z_of_byte_range y). lia. }
  destruct (Z.ltb_spec n (len l - 2)) as [Lt|Ge].
  - destruct (split_block b l n A N ltac:(lia)) as (v & E1 & Av & Eu & E2 & A1).
    set (k := len (zdrop (2 + n) l)) in *.
    destruct (asm_write b0 [] (zdrop (2 + n) l) asm_fresh) as [E3 A2]; [simpl; solve_len|].
    exists (buf_trim_end b k).2, (pushed b0 (zdrop (2 + n) l)). split_and!; [done|done|].
    set (s2 := dx s (heap_after true h) c (Some (pushed b0 (zdrop (2 + n) l))) true q w).
    rewrite (st_bind_OK _ _ s1 (buf_trim_end b k).2 s2); [done|].
    unfold lift. run_st. rewrite E1. simpl of_ptr. rewrite Av, Eu. fold k. rewrite E2, E3. done.
  - rewrite (st_bind_OK _ _ s1 b s1) by done.
    exists b, b0. assert (2 + n = len l) as En by lia. rewrite En.
    rewrite ztake_all, zdrop_all by lia. split_and!; [done|apply asm_fresh|done].
Qed.

Lemma parse_header_spec s b l :
  asm b l →
  pouch_downlink_parse_header (view_at b 0) s =
    match cbor_decode_pouch_header l with
    | None => OK ((NEG EIO, 0), s)
    | Some (header, n) =>
      OK (((crypto_downlink_start (encryption_info_m header) (s_crypto s)).1, n),
          set_crypto (crypto_downlink_start (encryption_info_m header) (s_crypto s)).2 s)
    end.
Proof.
  intros A. pose proof (asm_bytes _ _ A) as B. pose proof (asm_wf _ _ A) as W.
  pose proof (asm_rest _ _ A) as R. unfold pouch_downlink_parse_header.
  assert (pouch_bufview_read (view_at b 0) 0 = OK (Some 0, view_at b 0)) as E.
  { unfold pouch_bufview_read. rewrite available_at by (done || lia).
    rewrite (proj2 (Z.ltb_ge _ _)) by lia. by rewrite bufview_read_at by (done || lia). }
  rewrite (st_bind_OK _ _ s (Some 0, view_at b 0) s) by (unfold lift; by rewrite E).
  rewrite (st_bind_OK _ _ s l s).
  2:{ unfold lift. simpl of_ptr. rewrite bind_OK, available_at, R by (done || lia).
      change (view_load (view_at b 0) 0 (len l)) with (mem_read 0 (len l) b).
      rewrite mem_read_contents by (done || lia). destruct A as [_ _ ->].
      change (zdrop 0 l) with l. by rewrite (ztake_all l (len l)) by lia. }
  by destruct (cbor_decode_pouch_header l) as [[header n]|].
Qed.

Context {HL : HeaderCodecLaws HC}.

(** A pass, up to its last part. *)
Lemma push_one_spec s h c b l hd q w d :
  asm b l → len l < MAX_CIPHERTEXT_BLOCK_SIZE →
  let k := Z.min (len d) (MAX_CIPHERTEXT_BLOCK_SIZE - len l) in
  let '(ready, c') := strip hd c (l ++ ztake k d) in
  match ready with
  | None =>
    ∃ b', asm b' (l ++ ztake k d) ∧ hd = false ∧
      push_one d (dx s h c (Some b) hd q w) = OK (None, dx s h c' (Some b') hd q w)
  | Some l' =>
    ∃ b', asm b' l' ∧ push_one d (dx s h c (Some b) hd q w) =
      match push_block b' (view_at b' 0) (dx s h c' (Some b') true q w) with
      | OK (ok, s') => OK (if ok then Some (zdrop k d) else None, s')
      | Fault => Fault
      end
  end.
Proof.
  intros A L k. pose proof (asm_bytes _ _ A) as B. set (s0 := dx s h c (Some b) hd q w).
  set (l1 := l ++ ztake k d). unfold push_one.
  rewrite (st_bind_OK _ _ s0 (Some b) s0) by done. unfold buf_size_get. rewrite B.
  rewrite (proj2 (Z.leb_gt _ _)) by lia. fold k.
  destruct (asm_write b l (ztake k d) A) as [E1 A1]; [unfold k; solve_len|].
  set (b1 := pushed b (ztake k d)) in *. fold l1 in A1.
  rewrite (st_bind_OK _ _ s0 b1 s0) by (unfold lift; by rewrite E1).
  set (s1 := dx s h c (Some b1) hd q w).
  rewrite (st_bind_OK _ _ s0 tt s1), (st_bind_OK _ _ s1 hd s1) by done.
  unfold strip. destruct hd.
  - rewrite (st_bind_OK _ _ s1 (Some b1) s1) by done. exists b1. split; [done|].
    change (BufView (Some b1) (v_offset (pouch_bufview_init b1))) with (view_at b1 0).
    unfold mbind at 1, st_bind at 1. by destruct (push_block _ _ _) as [[[] ?]|].
  - pose proof (parse_header_spec s1 b1 l1 A1) as P. rewrite view_init_at.
    destruct (cbor_decode_pouch_header l1) as [[header n]|] eqn:D.
    2:{ exists b1. split_and!; [done|done|]. rewrite (st_bind_OK _ _ s1 None s1); [done|].
        by rewrite (st_bind_OK _ _ _ _ _ P). }
    change (s_crypto s1) with c in P.
    destruct (crypto_downlink_start (encryption_info_m header) c) as [err c2].
    cbn [fst snd] in P. destruct err as [e|].
    + exists b1. split_and!; [done|done|].
      rewrite (st_bind_OK _ _ s1 None (dx s h c2 (Some b1) false q w)); [done|].
      by rewrite (st_bind_OK _ _ _ _ _ P).
    + pose proof (decode_consumes _ _ _ D) as [N _].
      destruct (buf_trim_start_spec b1 n (asm_wf _ _ A1) ltac:(lia)) as (b2 & E2 & W2 & C2 & R2).
      assert (asm b2 (zdrop n l1)) as A2.
      { split; [done|rewrite C2; apply A1|]. rewrite R2. by destruct A1 as [_ _ ->]. }
      rewrite (st_bind_OK _ _ s1 (Some b2) (dx s h c2 (Some b2) true q w)).
      2:{ rewrite (st_bind_OK _ _ _ _ _ P). unfold lift. run_st. by rewrite E2. }
      exists b2. split; [done|]. cbn [v_offset view_at]. fold (view_at b2 0).
      unfold mbind at 1, st_bind at 1. by destruct (push_block _ _ _) as [[[] ?]|].
Qed.

(** What a push promises: nothing faults, what it queues can be decrypted, no buffer is leaked, and
    with memory available it does exactly what the reference does. *)
Definition push_result s fuel hd c b l d h q w (run : outcome (unit * sys C)) : Prop :=
  ∃ h' c' pb' hd' q' w' bs,
    run = OK (tt, dx s h' c' pb' hd' q' w')
    ∧ elems q' = elems q ++ bs ∧ Forall dl_block bs
    ∧ (bs = [] ∧ w' = w ∨ bs ≠ [] ∧ k_work_queued w' = true)
    ∧ (∀ b', pb' = Some b' → ∃ l', asm b' l')
    ∧ malloc_ok h' = malloc_ok h
    ∧ (∀ n, live h (n + 1) → live h' (n + occ pb' + len bs))
    ∧ (malloc_never_fails h →
       let r := feed fuel hd c l d in
       map contents bs = fd_blocks r ∧ hd' = fd_hdr r ∧ c' = fd_crypto r
       ∧ ∃ b', pb' = Some b' ∧ asm b' (fd_left r)).

(** The loop stops without a block. *)
Lemma push_settled s fuel hd c b l d h q w hd' c' b' l' d' :
  asm b' l' → feed fuel hd c l d = Fed [] hd' c' l' d' →
  push_result s fuel hd c b l d h q w (OK (tt, dx s h c' (Some b') hd' q w)).
Proof.
  intros A E. exists h, c', (Some b'), hd', q, w, []. rewrite E, app_nil_r.
  split_and!; [done..|by left|by intros ? [= <-]; eauto|done| |].
  - intros n Ln. eapply live_eq; [done|simpl; lia].
  - intros _. simpl. by eauto 10.
Qed.

Lemma feed_nil fuel hd c l : feed fuel hd c l [] = Fed [] hd c l [].
Proof. by destruct fuel. Qed.

(** A pass with room in the buffer. *)
Lemma feed_room fuel hd c l d : d ≠ [] → len l < MAX_CIPHERTEXT_BLOCK_SIZE →
  let k := Z.min (len d) (MAX_CIPHERTEXT_BLOCK_SIZE - len l) in
  feed (S fuel) hd c l d =
    let '(ready, c') := strip hd c (l ++ ztake k d) in
    match ready with
    | None => Fed [] hd c' (l ++ ztake k d) (zdrop k d)
    | Some l =>
      match cut l with
      | Incomplete => feed fuel true c' l (zdrop k d)
      | Oversize => Fed [] true c' l (zdrop k d)
      | Complete blk l => add_block blk (feed fuel true c' l (zdrop k d))
      end
    end.
Proof. intros N L. destruct d as [|x d]; [done|]. cbn [feed]. by rewrite (proj2 (Z.leb_gt _ _)) by lia. Qed.

(** The loop from a buffer that is missing: nothing happens. *)
Lemma push_loop_no_buf s fuel h c hd q w d :
  (length d ≤ fuel)%nat → push_loop fuel d (dx s h c None hd q w) = OK (tt, dx s h c None hd q w).
Proof. intros Hf. destruct d as [|x d], fuel; simpl in Hf; try done. lia. Qed.

(** A result of the rest of the loop extends to the whole. *)
Lemma push_more s fuel hd c b l d h q w c1 b1 l1 d1 run :
  feed (S fuel) hd c l d = feed fuel true c1 l1 d1 →
  push_result s fuel true c1 b1 l1 d1 h q w run →
  push_result s (S fuel) hd c b l d h q w run.
Proof.
  intros E (h' & c' & pb' & hd' & q' & w' & bs & R). exists h', c', pb', hd', q', w', bs.
  by rewrite E.
Qed.

Lemma push_more_block s fuel hd c b l d h q w c1 b1 l1 d1 blk bb run :
  feed (S fuel) hd c l d = add_block blk (feed fuel true c1 l1 d1) →
  asm bb blk → 2 ≤ len blk →
  push_result s fuel true c1 b1 l1 d1 (heap_after true h) (buf_queue_submit q bb)
    (k_work_submit w) run →
  push_result s (S fuel) hd c b l d h q w run.
Proof.
  intros E A L (h' & c' & pb' & hd' & q' & w' & bs & R & Q & F & K & P & M & Li & N).
  exists h', c', pb', hd', q', w', (bb :: bs). rewrite elems_submit, <- app_assoc in Q.
  split_and!; [done|done|constructor; [by eapply asm_dl_block|done]| |done|done| |].
  - right. split; [done|]. destruct K as [[-> ->]|[_ K]]; [apply k_work_submit_spec|done].
  - intros n Ln. apply (live_after true) in Ln.
    eapply live_eq; [apply (Li (n + 1)); by eapply live_eq; [|reflexivity]|simpl; lia].
  - intros Mf. rewrite E. destruct (N Mf) as (N1 & N2). cbv zeta. simpl.
    rewrite N1. destruct A as [_ _ ->]. by split.
Qed.

(** The loop stops with a block, for want of memory for the next. *)
Lemma push_exhausted s fuel hd c b l d h q w c' bb blk :
  asm bb blk → 2 ≤ len blk → malloc_ok h (malloc_n h) = false →
  push_result s fuel hd c b l d h q w
    (OK (tt, dx s (heap_after false h) c' None true (buf_queue_submit q bb) (k_work_submit w))).
Proof.
  intros A L M. exists (heap_after false h), c', None, true, (buf_queue_submit q bb), (k_work_submit w), [bb].
  rewrite elems_submit.
  split_and!; [done|done| |right; split; [done|apply k_work_submit_spec]|done|done| |].
  - constructor; [|constructor]. by eapply asm_dl_block.
  - intros n Ln. apply (live_after false) in Ln. eapply live_eq; [done|simpl; lia].
  - intros Mf. by rewrite Mf in M.
Qed.

Lemma push_loop_spec s fuel : ∀ hd c b l d h q w,
  asm b l → (length d ≤ fuel)%nat →
  push_result s fuel hd c b l d h q w (push_loop fuel d (dx s h c (Some b) hd q w)).
Proof.
  induction fuel as [|fuel IH]; intros hd c b l d h q w A Hf;
    (destruct d as [|x d]; [eapply push_settled; [exact A|apply feed_nil]|]); [simpl in Hf; lia|].
  set (d0 := x :: d) in *. assert (d0 ≠ []) as N0 by done.
  change (push_loop (S fuel) d0) with
    (left ← push_one (C:=C) d0; match left with Some buf => push_loop fuel buf | None => mret tt end).
  destruct (Z.le_gt_cases MAX_CIPHERTEXT_BLOCK_SIZE (len l)) as [Full|L].
  { rewrite (st_bind_OK _ _ _ None (dx s h c (Some b) hd q w)).
    - eapply push_settled; [exact A|]. unfold d0. cbn [feed].
      by rewrite (proj2 (Z.leb_le _ _)) by lia.
    - unfold push_one. run_st. simpl. unfold buf_size_get. rewrite (asm_bytes _ _ A).
      by rewrite (proj2 (Z.leb_le _ _)) by lia. }
  pose proof (push_one_spec s h c b l hd q w d0 A L) as P. pose proof (feed_room fuel hd c l d0 N0 ltac:(lia)) as E.
  cbv zeta in P, E. set (k := Z.min (len d0) (MAX_CIPHERTEXT_BLOCK_SIZE - len l)) in *.
  assert (length (zdrop k d0) ≤ fuel)%nat as Hd.
  { assert (0 < k) by (unfold k, d0; simpl; lia). rewrite length_drop. lia. }
  destruct (strip hd c (l ++ ztake k d0)) as [[l2|] c'].
  2:{ destruct P as (b' & A' & -> & P). rewrite (st_bind_OK _ _ _ _ _ P). by eapply push_settled. }
  destruct P as (b2 & A2 & P). pose proof (push_block_spec s h c' b2 l2 q w A2) as B.
  unfold block_result in B. destruct (cut l2) as [| |blk r] eqn:Cut.
  - rewrite B in P. rewrite (st_bind_OK _ _ _ _ _ P). eapply push_more; [done|]. by apply IH.
  - rewrite B in P. rewrite (st_bind_OK _ _ _ _ _ P). by eapply push_settled.
  - destruct (cut_Complete _ _ _ Cut) as (El & L2 & _).
    destruct (malloc_ok h (malloc_n h)) eqn:M.
    + destruct B as (b3 & b4 & A3 & A4 & B). rewrite B in P. rewrite (st_bind_OK _ _ _ _ _ P).
      eapply push_more_block; [done|done|done|]. by apply IH.
    + rewrite B in P. rewrite (st_bind_OK _ _ _ _ _ P), push_loop_no_buf by done.
      eapply push_exhausted; [done| |done]. rewrite El. solve_len.
Qed.

End Refinement.

(** * Reassembly *)

Section Reassembly.
Context {BO : ByteOrder} {CF : Config} {HC : HeaderCodec} {C : Type} {CR : Crypto C}.
Context {HL : HeaderCodecLaws HC}.
Implicit Types (l d f : list byte) (fs : list (list byte)).

(** The bytes of a block as sent: a size that counts what follows it, then at least an id. *)
Record packet f : Prop := {
  pk_min : 3 ≤ len f;
  pk_max : len f ≤ MAX_CIPHERTEXT_BLOCK_SIZE;
  pk_size : sys_get_be16 (take 2 f) = len f - 2;
}.

Lemma take2_app f r : 2 ≤ len f → take 2 (f ++ r) = take 2 f.
Proof. intros. rewrite take_app_le by lia. done. Qed.

Lemma cut_packet f r : packet f → cut (f ++ r) = Complete f r.
Proof.
  intros [N M S]. unfold cut, MAX_BLOCK_SIZE_FIELD_VALUE. rewrite take2_app, S by lia.
  rewrite length_app, Nat2Z.inj_add.
  rewrite (proj2 (Z.leb_gt _ _)), (proj2 (Z.ltb_ge _ _)), (proj2 (Z.leb_le _ _)) by lia.
  by rewrite take_app_exact, drop_app_exact by lia.
Qed.

Lemma cut_prefix p f k : packet f → f = p ++ k → k ≠ [] → cut p = Incomplete.
Proof.
  intros [N M S] E K. unfold cut, MAX_BLOCK_SIZE_FIELD_VALUE.
  destruct (Z.leb_spec (len p) 2); [done|].
  assert (len p < len f) as L by (rewrite E; destruct k; [done|solve_len]).
  replace (take 2 p) with (take 2 f) by (rewrite E; apply take2_app; lia). rewrite S.
  by rewrite (proj2 (Z.ltb_ge _ _)), (proj2 (Z.leb_gt _ _)) by lia.
Qed.

(** [l] is what has arrived of the first of the packets [fs] still to come, never all of it. *)
Definition ahead l fs : Prop :=
  match fs with [] => l = [] | f :: _ => ∃ k, f = l ++ k ∧ k ≠ [] end.

Lemma ahead_cut l fs : ahead l fs → Forall packet fs → cut l = Incomplete.
Proof.
  destruct fs as [|f fs]; simpl; [by intros ->|]. intros (k & E & N) [P _]%Forall_cons.
  by eapply cut_prefix.
Qed.

Lemma ahead_len l fs : ahead l fs → Forall packet fs → len l < MAX_CIPHERTEXT_BLOCK_SIZE.
Proof.
  pose proof MAX_CIPHERTEXT_range. pose proof MAX_PLAINTEXT_range.
  destruct fs as [|f fs]; simpl; [intros ->; simpl; lia|].
  intros (k & -> & N) [[_ M _] _]%Forall_cons. destruct k; [done|]. solve_len.
Qed.

(** A prefix of the packets shorter than the first of them. *)
Lemma ahead_short l d fs :
  l ++ d `prefix_of` concat fs → (∀ f, head fs = Some f → len l < len f) → ahead l fs.
Proof.
  destruct fs as [|f fs]; simpl.
  - intros E _. apply prefix_nil_inv, app_eq_nil in E. apply E.
  - intros [k E] L. specialize (L f eq_refl). rewrite <- app_assoc in E.
    exists (drop (length l) f). split.
    + assert (take (length l) f = l) as T.
      { transitivity (take (length l) (f ++ concat fs)); [by rewrite take_app_le by lia|].
        rewrite E. by rewrite take_app_length. }
      rewrite <- T at 1. by rewrite take_drop.
    + intros D. apply (f_equal length) in D. rewrite length_drop in D. simpl in D. lia.
Qed.

(** What has arrived when it is longer than the first part [f]. *)
Lemma prefix_split l d f (k : list byte) :
  l ++ d `prefix_of` f ++ k → len f ≤ len l →
  ∃ r, l = f ++ r ∧ r ++ d `prefix_of` k.
Proof.
  intros [q E] L. exists (drop (length f) l).
  assert (take (length f) l = f) as T.
  { transitivity (take (length f) (l ++ d ++ q)); [by rewrite take_app_le by lia|].
    rewrite app_assoc, <- E. by rewrite take_app_length. }
  assert (l = f ++ drop (length f) l) as El by (rewrite <- T at 1; by rewrite take_drop).
  split; [done|]. exists q. rewrite El, <- !app_assoc in E. apply app_inv_head in E.
  by rewrite <- app_assoc.
Qed.

(** The chunk [d], after the bytes [l], ends at most one of the packets: each pass of the loop over a
    push cuts off at most one. *)
Definition ends_one l d fs : Prop := ∀ f1 f2 fs', fs = f1 :: f2 :: fs' → len l + len d < len f1 + len f2.

(** A push of such a chunk cuts off the packet it completes. *)
Definition completes fuel : Prop := ∀ (c : C) l d fs,
  (length d ≤ fuel)%nat → ahead l fs → Forall packet fs → l ++ d `prefix_of` concat fs → ends_one l d fs →
  ∃ got fs' left, fs = got ++ fs' ∧ feed fuel true c l d = Fed got true c left [] ∧ ahead left fs'
    ∧ concat got ++ left = l ++ d.

(** The end of a pass, the buffer holding [l]. *)
Lemma feed_ready fuel (c : C) l d fs : completes fuel →
  (length d ≤ fuel)%nat → Forall packet fs → l ++ d `prefix_of` concat fs → ends_one l d fs →
  ∃ got fs' left,
    fs = got ++ fs'
    ∧ match cut l with
      | Incomplete => feed fuel true c l d
      | Oversize => Fed [] true c l d
      | Complete blk r => add_block blk (feed fuel true c r d)
      end = Fed got true c left []
    ∧ ahead left fs' ∧ concat got ++ left = l ++ d.
Proof.
  intros IH Hf P Pr Sz.
  assert ((∃ f fs1, fs = f :: fs1 ∧ len f ≤ len l) ∨ ahead l fs) as [(f & fs1 & -> & Ge)|A].
  { destruct fs as [|f fs1]; [right; by apply (ahead_short _ d)|].
    destruct (Z.lt_ge_cases (len l) (len f)) as [Lt|Ge]; [right|left; by exists f, fs1].
    apply (ahead_short _ d); [done|by intros ? [= <-]]. }
  - rename fs1 into fs. simpl in Pr.
    destruct (prefix_split _ _ _ _ Pr Ge) as (r & -> & Pr'). apply Forall_cons in P as [P0 P].
    rewrite cut_packet by done.
    assert (∀ f2 fs', fs = f2 :: fs' → len r + len d < len f2) as Lr.
    { intros f2 fs' ->. specialize (Sz _ _ _ eq_refl). rewrite length_app in Sz. lia. }
    destruct (IH c r d fs Hf) as (got & fs' & left & -> & -> & A & Eq); [|done|done| |].
    + apply (ahead_short _ d); [done|]. intros f2 Hf2. destruct fs as [|? fs]; [done|]. injection Hf2 as ->.
      specialize (Lr _ _ eq_refl). lia.
    + intros f2 f3 fs' E. specialize (Lr _ _ E). lia.
    + exists (f :: got), fs', left. split_and!; [done..|]. simpl. by rewrite <- app_assoc, Eq, <- app_assoc.
  - rewrite (ahead_cut l fs A P). by apply IH.
Qed.

Lemma feed_complete fuel : completes fuel.
Proof.
  induction fuel as [|fuel IH]; intros c l d fs Hf A P Pr Sz.
  { destruct d; [|simpl in Hf; lia]. exists [], fs, l. by rewrite app_nil_r. }
  destruct (decide (d = [])) as [->|Nd].
  { exists [], fs, l. by rewrite feed_nil, app_nil_r. }
  pose proof (ahead_len _ _ A P) as Ll. assert (0 < len d) by (destruct d; [done|simpl; lia]).
  rewrite (feed_room fuel true c l d Nd Ll). cbn [strip].
  set (k := Z.min (len d) (MAX_CIPHERTEXT_BLOCK_SIZE - len l)). assert (0 < k ≤ len d) by lia.
  assert (l ++ d = (l ++ ztake k d) ++ zdrop k d) as Ed by by rewrite <- app_assoc, take_drop.
  rewrite Ed in Pr |- *. apply (feed_ready fuel c _ _ fs IH); [rewrite length_drop; lia|done..|].
  intros f1 f2 fs' E. specialize (Sz _ _ _ E). rewrite <- Nat2Z.inj_add, <- length_app, <- Ed, length_app. lia.
Qed.

(** While the header is arriving. *)
Lemma feed_header fuel (c : C) l d hb fs h max :
  cbor_encode_pouch_header max h = Some hb → len hb ≤ MAX_CIPHERTEXT_BLOCK_SIZE →
  (crypto_downlink_start (encryption_info_m h) c).1 = SUCCESS →
  (length d ≤ fuel)%nat → ahead l [hb] → Forall packet fs → l ++ d `prefix_of` hb ++ concat fs →
  (∀ f1 f2 fs', fs = f1 :: f2 :: fs' → len l + len d < len hb + len f1 + len f2) →
  (ahead (l ++ d) [hb] ∧ feed fuel false c l d = Fed [] false c (l ++ d) []) ∨
  ∃ got fs' left,
    fs = got ++ fs'
    ∧ feed fuel false c l d =
        Fed got true (crypto_downlink_start (encryption_info_m h) c).2 left []
    ∧ ahead left fs' ∧ hb ++ concat got ++ left = l ++ d.
Proof.
  intros En Lh St Hf A P Pr Sz. destruct (decide (d = [])) as [->|Nd].
  { left. by rewrite feed_nil, app_nil_r. }
  assert (len l < len hb) as Ll.
  { destruct A as (q & Eq & Nq). rewrite Eq. destruct q; [done|solve_len]. }
  assert (0 < len d) by (destruct d; [done|simpl; lia]).
  destruct fuel as [|fuel]; [destruct d; [done|simpl in Hf; lia]|].
  assert (len l < MAX_CIPHERTEXT_BLOCK_SIZE) as Lr by lia.
  rewrite (feed_room fuel false c l d Nd Lr). cbv zeta.
  set (k := Z.min (len d) (MAX_CIPHERTEXT_BLOCK_SIZE - len l)). assert (0 < k ≤ len d) as K by lia.
  assert (l ++ d = (l ++ ztake k d) ++ zdrop k d) as Ed by by rewrite <- app_assoc, take_drop.
  assert (len (l ++ ztake k d) = len l + k) as L1 by solve_len.
  rewrite Ed in Pr. destruct (Z.lt_ge_cases (len (l ++ ztake k d)) (len hb)) as [Lt|Ge]; unfold strip.
  - assert (zdrop k d = []) as D1.
    { apply length_zero_iff_nil. rewrite length_drop. lia. }
    rewrite D1, app_nil_r in Ed. rewrite D1, <- Ed in *.
    assert (ahead (l ++ d) [hb]) as A1.
    { destruct (ahead_short (l ++ d) [] (hb :: fs)) as (q & Eq & Nq); [done|by intros ? [= <-]|].
      by exists q. }
    rewrite (decode_prefix _ _ _ (l ++ d) En).
    2:{ destruct A1 as (q & Eq & _). by exists q. }
    2:{ intros El. rewrite El in Lt. lia. }
    left. by split.
  - destruct (prefix_split _ _ _ _ Pr Ge) as (r & Er & Pr').
    rewrite Er, (decode_encode _ _ _ r En). rewrite (drop_app_exact hb r) by lia.
    destruct (crypto_downlink_start (encryption_info_m h) c) as [err c2]. simpl in St. subst err. right.
    destruct (feed_ready fuel c2 r (zdrop k d) fs (feed_complete fuel)) as (got & fs' & left & -> & -> & A' & Eq);
      [rewrite length_drop; lia|done|done| |].
    + intros f1 f2 fs' E. specialize (Sz _ _ _ E). rewrite Er in L1. revert L1. solve_len.
    + exists got, fs', left. split_and!; [done..|]. by rewrite Eq, Ed, Er, <- app_assoc.
Qed.

End Reassembly.

(** * Pushes *)

Section Pushes.
Context {BO : ByteOrder} {SL : SList} {KW : KWork} {MQ : MsgQ} {CF : Config} {HC : HeaderCodec}.
Context {C : Type} {CR : Crypto C} {HL : HeaderCodecLaws HC}.
Implicit Types (s : sys C) (b : pouch_buf) (l d : list byte).

Definition decrypting s : list pouch_buf := elems (d_decrypt_queue (s_downlink s)).

(** What the variables of the push satisfy. *)
Record push_inv s : Prop := {
  pi_buf b : d_pouch_buf (s_downlink s) = Some b → ∃ l, asm b l;
  pi_queue : Forall dl_block (decrypting s);
}.

Lemma owned_dx s h c pb hd q w :
  owned (dx s h c pb hd q w) =
    owned s - occ (d_pouch_buf (s_downlink s)) - len (decrypting s) + occ pb + len (elems q).
Proof. unfold owned, decrypting, pending; simpl. lia. Qed.

Lemma push_run s b l d :
  d_pouch_buf (s_downlink s) = Some b → asm b l →
  ∃ s' bs,
    pouch_downlink_push d s = OK (tt, s')
    ∧ decrypting s' = decrypting s ++ bs ∧ Forall dl_block bs
    ∧ (∀ k, balanced s k → balanced s' k)
    ∧ (∀ b', d_pouch_buf (s_downlink s') = Some b' → ∃ l', asm b' l')
    ∧ malloc_ok (s_heap s') = malloc_ok (s_heap s)
    ∧ (bs = [] ∧ d_decrypt_work (s_downlink s') = d_decrypt_work (s_downlink s)
       ∨ bs ≠ [] ∧ k_work_queued (d_decrypt_work (s_downlink s')) = true)
    ∧ (malloc_never_fails (s_heap s) →
       let r := feed (length d) (d_pouch_header (s_downlink s)) (s_crypto s) l d in
       map contents bs = fd_blocks r ∧ d_pouch_header (s_downlink s') = fd_hdr r
       ∧ s_crypto s' = fd_crypto r
       ∧ ∃ b', d_pouch_buf (s_downlink s') = Some b' ∧ asm b' (fd_left r)).
Proof.
  intros Eb A.
  pose proof (push_loop_spec s (length d) (d_pouch_header (s_downlink s)) (s_crypto s) b l d
    (s_heap s) (d_decrypt_queue (s_downlink s)) (d_decrypt_work (s_downlink s)) A ltac:(lia)) as P.
  rewrite <- Eb, <- dx_id in P.
  destruct P as (h' & c' & pb' & hd' & q' & w' & bs & E & Q & F & K & P & M & L & N).
  exists (dx s h' c' pb' hd' q' w'), bs. split_and!; try done.
  intros k B. unfold balanced in *. rewrite owned_dx. cbn [s_heap dx set_crypto set_heap].
  rewrite Eb, Q. eapply live_eq; [apply (L (owned s + k - 1))|].
  - eapply live_eq; [apply B|lia].
  - unfold decrypting. simpl. solve_len.
Qed.

(** C18: a push of any bytes, whatever the peer sends and whatever the memory allows, never faults:
    every access stays inside the reassembly buffer; what is queued for decryption fits a block
    buffer and the decrypt work is submitted for it; and no buffer is leaked or freed twice. *)
Theorem downlink_push_safe s d :
  push_inv s →
  ∃ s', pouch_downlink_push d s = OK (tt, s') ∧ push_inv s' ∧ (∀ k, balanced s k → balanced s' k)
    ∧ ∃ bs, decrypting s' = decrypting s ++ bs
       ∧ (bs ≠ [] → k_work_queued (d_decrypt_work (s_downlink s')) = true).
Proof.
  intros [B Q]. destruct (d_pouch_buf (s_downlink s)) as [b|] eqn:Eb.
  - destruct (B b eq_refl) as [l A].
    destruct (push_run s b l d Eb A) as (s' & bs & E & Qs & F & K & B' & _ & W & _).
    exists s'. split_and!; [done| |done|].
    + split; [done|]. rewrite Qs. by apply Forall_app.
    + exists bs. split; [done|]. intros N. by destruct W as [[-> _]|[_ W]].
  - exists s. split_and!; [|by split; [rewrite Eb|]|done|by exists []; rewrite app_nil_r].
    unfold pouch_downlink_push. rewrite (dx_id s), Eb. by apply push_loop_no_buf.
Qed.

(** Once the header is read, no byte is lost, reordered or duplicated: the blocks cut off, the
    bytes kept for the next push and the bytes dropped are, in this order, the bytes kept before and
    the bytes pushed; every block is as long as its size field says; and bytes are dropped only when
    that field is one no block can have. *)
Theorem downlink_push_conserves s b l d :
  d_pouch_buf (s_downlink s) = Some b → asm b l → len l < MAX_CIPHERTEXT_BLOCK_SIZE →
  d_pouch_header (s_downlink s) = true → malloc_never_fails (s_heap s) →
  ∃ s' bs b' l' dropped,
    pouch_downlink_push d s = OK (tt, s') ∧ decrypting s' = decrypting s ++ bs
    ∧ d_pouch_buf (s_downlink s') = Some b' ∧ asm b' l'
    ∧ concat (map contents bs) ++ l' ++ dropped = l ++ d
    ∧ Forall (λ b, sized (contents b)) bs ∧ (dropped ≠ [] → cut l' = Oversize).
Proof.
  intros Eb A L Hd M. destruct (push_run s b l d Eb A) as (s' & bs & E & Q & _ & _ & _ & _ & _ & N).
  specialize (N M). cbv zeta in N. rewrite Hd in N.
  destruct (feed_conserves (length d) (s_crypto s) l d ltac:(lia) L) as (F1 & F2 & F3 & F4 & F5).
  destruct N as (N1 & N2 & N3 & b' & N4 & N5). rewrite <- N1 in F1, F2.
  exists s', bs, b', (fd_left (feed (length d) true (s_crypto s) l d)),
    (fd_dropped (feed (length d) true (s_crypto s) l d)).
  split_and!; [done|done|done|done|done| |done]. by rewrite Forall_map in F2.
Qed.

(** A sequence of pushes. *)
Fixpoint push_chunks (ds : list (list byte)) : st (sys C) unit :=
  match ds with [] => mret tt | d :: ds => pouch_downlink_push d;; push_chunks ds end.

(** No chunk of [ds] holds the ends of two of the packets, whose first byte is [off] bytes after the first
    of the chunks. *)
Definition one_end (off : Z) (ds fs : list (list byte)) : Prop :=
  ∀ ds1 d ds2 fs1 f1 f2 fs2,
    ds = ds1 ++ d :: ds2 → fs = fs1 ++ f1 :: f2 :: fs2 →
    len (concat ds1) < off + len (concat fs1) + len f1 →
    len (concat ds1) + len d < off + len (concat fs1) + len f1 + len f2.

(** Chunks that are no longer than any packet are such. *)
Lemma small_chunks off ds fs : Forall (λ d, Forall (λ f, len d ≤ len f) fs) ds → one_end off ds fs.
Proof.
  intros Sm ds1 d ds2 fs1 f1 f2 fs2 -> -> L. apply Forall_app in Sm as [_ [Sm _]%Forall_cons].
  apply Forall_app in Sm as [_ [_ [S2 _]%Forall_cons]%Forall_cons]. lia.
Qed.

(** The first chunk. *)
Lemma one_end_first off d ds fs f1 f2 fs' :
  one_end off (d :: ds) fs → fs = f1 :: f2 :: fs' → 0 < off + len f1 → len d < off + len f1 + len f2.
Proof. intros O -> L. specialize (O [] d ds [] f1 f2 fs' eq_refl eq_refl). simpl in O. lia. Qed.

(** After the first chunk, which completed the packets [got]. *)
Lemma one_end_next off off' d ds got fs :
  one_end off (d :: ds) (got ++ fs) → off' = off + len (concat got) - len d → one_end off' ds fs.
Proof.
  intros O -> ds1 d1 ds2 fs1 f1 f2 fs2 -> -> L.
  specialize (O (d :: ds1) d1 ds2 (got ++ fs1) f1 f2 fs2 eq_refl). rewrite <- app_assoc in O.
  specialize (O eq_refl). rewrite concat_app in O. simpl in O. rewrite !length_app in O. lia.
Qed.

Lemma ahead_ends_one l d ds fs : ahead l fs → one_end (- len l) (d :: ds) fs → ends_one l d fs.
Proof.
  intros A O f1 f2 fs' E. pose proof (one_end_first _ _ _ _ _ _ _ O E) as L. subst fs.
  destruct A as (k & -> & N). destruct k; [done|]. rewrite length_app in *. simpl in *. lia.
Qed.

Lemma header_ends_one l d ds hb fs : ahead l [hb] → one_end (len hb - len l) (d :: ds) fs →
  ∀ f1 f2 fs', fs = f1 :: f2 :: fs' → len l + len d < len hb + len f1 + len f2.
Proof.
  intros (k & -> & N) O f1 f2 fs' E. pose proof (one_end_first _ _ _ _ _ _ _ O E) as L.
  destruct k; [done|]. rewrite length_app in *. simpl in *. lia.
Qed.

Lemma pushes_packets ds : ∀ s b l fs,
  d_pouch_buf (s_downlink s) = Some b → asm b l → d_pouch_header (s_downlink s) = true →
  malloc_never_fails (s_heap s) → ahead l fs → Forall packet fs → one_end (- len l) ds fs →
  l ++ concat ds = concat fs →
  ∃ s' bs b',
    push_chunks ds s = OK (tt, s') ∧ decrypting s' = decrypting s ++ bs
    ∧ map contents bs = fs ∧ d_pouch_buf (s_downlink s') = Some b' ∧ asm b' []
    ∧ s_crypto s' = s_crypto s ∧ Forall dl_block bs ∧ (∀ k, balanced s k → balanced s' k).
Proof.
  induction ds as [|d ds IH]; intros s b l fs Eb A Hd M Ah P Sm E; cbn [push_chunks].
  { exists s, [], b. simpl in E. rewrite app_nil_r in *.
    assert (fs = [] ∧ l = []) as [-> ->].
    { destruct fs as [|f fs]; [done|]. destruct Ah as (k & Ek & Nk).
      rewrite Ek in E. simpl in E. rewrite <- app_assoc in E.
      apply (f_equal length) in E. rewrite !length_app in E. destruct k; [done|]. simpl in E. lia. }
    split_and!; try done. }
  destruct (push_run s b l d Eb A) as (s1 & bs1 & E1 & Q1 & F1 & K1 & _ & M1 & _ & N1).
  specialize (N1 M). cbv zeta in N1. rewrite Hd in N1.
  assert (l ++ d `prefix_of` concat fs) as Pr by (exists (concat ds); by rewrite <- app_assoc, <- E).
  destruct (feed_complete (length d) (s_crypto s) l d fs ltac:(lia) Ah P Pr (ahead_ends_one _ _ _ _ Ah Sm))
    as (got & fs' & left & -> & Ef & Ah' & Eq).
  rewrite Ef in N1. destruct N1 as (Nb & Nh & Nc & b1 & Nbuf & A1). cbn in Nb, Nh, Nc, A1.
  apply Forall_app in P as [_ P'].
  assert (left ++ concat ds = concat fs') as E'.
  { apply (app_inv_head (concat got)). rewrite <- concat_app, <- E. simpl.
    by rewrite app_assoc, Eq, app_assoc. }
  assert (one_end (- len left) ds fs') as Sm'.
  { eapply one_end_next; [done|]. apply (f_equal length) in Eq. rewrite !length_app in Eq. lia. }
  assert (malloc_never_fails (s_heap s1)) as M' by (unfold malloc_never_fails; by rewrite M1).
  destruct (IH s1 b1 left fs' Nbuf A1 Nh M' Ah' P' Sm' E')
    as (s2 & bs2 & b2 & E2 & Q2 & Eb2 & Nb2 & A2 & C2 & F2 & K2).
  exists s2, (bs1 ++ bs2), b2. rewrite (st_bind_OK _ _ _ _ _ E1).
  split_and!; [done|by rewrite Q2, Q1, app_assoc|by rewrite map_app, Nb, Eb2|done|done|congruence
    |by apply Forall_app|auto].
Qed.

(** The same while the header is arriving. *)
Lemma pushes_header h hb max : cbor_encode_pouch_header max h = Some hb →
  len hb ≤ MAX_CIPHERTEXT_BLOCK_SIZE → ∀ ds s b l fs,
  (crypto_downlink_start (encryption_info_m h) (s_crypto s)).1 = SUCCESS →
  d_pouch_buf (s_downlink s) = Some b → asm b l → d_pouch_header (s_downlink s) = false →
  malloc_never_fails (s_heap s) → ahead l [hb] → Forall packet fs → one_end (len hb - len l) ds fs →
  l ++ concat ds = hb ++ concat fs →
  ∃ s' bs b',
    push_chunks ds s = OK (tt, s') ∧ decrypting s' = decrypting s ++ bs
    ∧ map contents bs = fs ∧ d_pouch_buf (s_downlink s') = Some b' ∧ asm b' []
    ∧ s_crypto s' = (crypto_downlink_start (encryption_info_m h) (s_crypto s)).2
    ∧ Forall dl_block bs ∧ (∀ k, balanced s k → balanced s' k).
Proof.
  intros En Lh. induction ds as [|d ds IH]; intros s b l fs St Eb A Hd M Ah P Sm E; cbn [push_chunks].
  { exfalso. destruct Ah as (k & Ek & Nk). simpl in E. rewrite app_nil_r, Ek, <- app_assoc in E.
    apply (f_equal length) in E. rewrite !length_app in E. destruct k; [done|]. simpl in E. lia. }
  destruct (push_run s b l d Eb A) as (s1 & bs1 & E1 & Q1 & F1 & K1 & _ & M1 & _ & N1).
  specialize (N1 M). cbv zeta in N1. rewrite Hd in N1.
  assert (l ++ d `prefix_of` hb ++ concat fs) as Pr.
  { exists (concat ds). by rewrite <- app_assoc, <- E. }
  assert (malloc_never_fails (s_heap s1)) as M' by (unfold malloc_never_fails; by rewrite M1).
  rewrite (st_bind_OK _ _ _ _ _ E1).
  destruct (feed_header (length d) (s_crypto s) l d hb fs h max En Lh St ltac:(lia) Ah P Pr
      (header_ends_one _ _ _ _ _ Ah Sm))
    as [[Ah' Ef]|(got & fs' & left & -> & Ef & Ah' & Eq)];
    rewrite Ef in N1; destruct N1 as (Nb & Nh & Nc & b1 & Nbuf & A1); cbn in Nb, Nh, Nc, A1.
  - apply map_eq_nil in Nb as ->. rewrite app_nil_r in Q1.
    destruct (IH s1 b1 (l ++ d) fs) as (s2 & bs2 & b2 & E2 & Q2 & Eb2 & Nb2 & A2 & C2 & F2 & K2);
      [by rewrite Nc|done..| |by rewrite <- app_assoc|].
    { apply (one_end_next (len hb - len l) _ d ds [] fs Sm). rewrite length_app. simpl. lia. }
    exists s2, bs2, b2. rewrite <- Nc, <- Q1. split_and!; auto.
  - assert (left ++ concat ds = concat fs') as E'.
    { apply (app_inv_head (hb ++ concat got)). rewrite <- (app_assoc hb _ (concat fs')), <- concat_app, <- E.
      simpl. rewrite app_assoc, <- (app_assoc hb), Eq. by rewrite app_assoc. }
    apply Forall_app in P as [_ P'].
    assert (one_end (- len left) ds fs') as Sm'.
    { eapply one_end_next; [done|]. apply (f_equal length) in Eq. rewrite !length_app in Eq. lia. }
    destruct (pushes_packets ds s1 b1 left fs' Nbuf A1 Nh M' Ah' P' Sm' E')
      as (s2 & bs2 & b2 & E2 & Q2 & Eb2 & Nb2 & A2 & C2 & F2 & K2).
    exists s2, (bs1 ++ bs2), b2.
    split_and!; [done|by rewrite Q2, Q1, app_assoc|by rewrite map_app, Nb, Eb2|done|done|congruence
      |by apply Forall_app|auto].
Qed.

(** The state after the start: an empty buffer and no header yet. *)
Definition downlink_started s : sys C :=
  dx s (heap_after true (s_heap s)) (s_crypto s) (Some (PBuf MAX_CIPHERTEXT_BLOCK_SIZE 0 [])) false
    (d_decrypt_queue (s_downlink s)) (d_decrypt_work (s_downlink s)).

Lemma downlink_start_run s : malloc_never_fails (s_heap s) →
  pouch_downlink_start s = OK (tt, downlink_started s).
Proof.
  intros M. pose proof (buf_alloc_spec MAX_CIPHERTEXT_BLOCK_SIZE (s_heap s)) as Ea. rewrite M in Ea.
  unfold pouch_downlink_start, dupd, zoom. run_st.
  change (part_get (set_downlink (set_d_pouch_header false (s_downlink s)) s)) with (s_heap s).
  by rewrite Ea.
Qed.

(** C17: reassembly: after [pouch_downlink_start], a pouch sent as its header and its blocks, cut into
    chunks in any way such that no chunk holds the ends of two blocks, is put together again exactly: the
    blocks are queued for decryption one for one, in order, the header has started the encryption
    layer's session and nothing is left in the buffer. *)
Theorem downlink_reassembles h hb max s ds fs :
  cbor_encode_pouch_header max h = Some hb → len hb ≤ MAX_CIPHERTEXT_BLOCK_SIZE →
  (crypto_downlink_start (encryption_info_m h) (s_crypto s)).1 = SUCCESS →
  malloc_never_fails (s_heap s) → Forall packet fs → one_end (len hb) ds fs →
  concat ds = hb ++ concat fs →
  ∃ s' bs b',
    (pouch_downlink_start;; push_chunks ds) s = OK (tt, s')
    ∧ decrypting s' = decrypting s ++ bs ∧ map contents bs = fs
    ∧ d_pouch_buf (s_downlink s') = Some b' ∧ asm b' []
    ∧ s_crypto s' = (crypto_downlink_start (encryption_info_m h) (s_crypto s)).2
    ∧ Forall dl_block bs
    ∧ (d_pouch_buf (s_downlink s) = None → ∀ k, balanced s k → balanced s' k).
Proof.
  intros En Lh St M P Sm E. pose proof (encode_fits _ _ _ En) as Nh.
  rewrite (st_bind_OK _ _ _ _ _ (downlink_start_run s M)). set (s1 := downlink_started s).
  set (b0 := PBuf MAX_CIPHERTEXT_BLOCK_SIZE 0 []).
  destruct (pushes_header h hb max En Lh ds s1 b0 [] fs) as (s2 & bs & b2 & E2 & Q & Eb & Nb & A & Cr & F & K).
  - done.
  - done.
  - apply asm_fresh.
  - done.
  - done.
  - exists hb. split; [done|]. intros ->. simpl in Nh. lia.
  - done.
  - by rewrite Z.sub_0_r.
  - done.
  - exists s2, bs, b2. split_and!; [done..|]. intros N k B. apply K. unfold balanced in *.
    unfold s1, downlink_started. rewrite owned_dx, N. cbn [s_heap dx set_crypto set_heap].
    eapply live_eq; [by apply (live_after true), B|]. unfold decrypting. simpl. lia.
Qed.

End Pushes.

(** * From the decrypt queue to the handlers *)

(** The two works may run in any order: [work_step] is one run of a work that is queued. *)
Section Works.
Context {BO : ByteOrder} {SL : SList} {KW : KWork} {MQ : MsgQ} {CF : Config} {HC : HeaderCodec}.
Context {C : Type} {CR : Crypto C} {A : Type} (handlers : list (pouch_downlink_handler A)).
Implicit Types (s : sys C) (b : pouch_buf) (a : A).

Definition decrypt_queued s : bool := k_work_queued (d_decrypt_work (s_downlink s)).
Definition consume_queued s : bool := k_work_queued (d_consume_work (s_downlink s)).
Definition consuming s : list pouch_buf := elems (d_consume_queue (s_downlink s)).

Inductive work_step : sys C * A → sys C * A → Prop :=
| step_decrypt s s' a :
    decrypt_queued s = true → decrypt_blocks s = OK (tt, s') → work_step (s, a) (s', a)
| step_consume s s' a a' :
    consume_queued s = true → consume_blocks handlers a s = OK (a', s') →
    work_step (s, a) (s', a').

Definition idle s : Prop := decrypt_queued s = false ∧ consume_queued s = false.

(** The state after a work was taken and a block removed from its queue. *)
Definition decrypt_taken s (q : pouch_buf_queue_t) : sys C :=
  set_downlink (set_d_decrypt q (k_work_take (d_decrypt_work (s_downlink s))) (s_downlink s)) s.

Definition consume_taken s (q : pouch_buf_queue_t) : sys C :=
  set_downlink (set_d_consume q (k_work_take (d_consume_work (s_downlink s))) (s_downlink s)) s.

Definition resubmit_decrypt s : sys C :=
  set_downlink (set_d_decrypt (d_decrypt_queue (s_downlink s))
    (k_work_submit (d_decrypt_work (s_downlink s))) (s_downlink s)) s.

Definition resubmit_consume s : sys C :=
  set_downlink (set_d_consume (d_consume_queue (s_downlink s))
    (k_work_submit (d_consume_work (s_downlink s))) (s_downlink s)) s.

(** One run of the decrypt work, given what the encryption layer makes of the first block. *)
Lemma decrypt_run s b l r h c :
  decrypting s = b :: l → crypto_decrypt_block (Some b) (s_heap s, s_crypto s) = OK (r, (h, c)) →
  ∃ q, elems q = l ∧
    decrypt_blocks s =
      (let s1 := set_crypto c (set_heap h (decrypt_taken s q)) in
       match r with
       | None => OK (tt, s1)
       | Some e =>
         let s2 := set_downlink (set_d_consume (buf_queue_submit (d_consume_queue (s_downlink s)) e)
                     (k_work_submit (d_consume_work (s_downlink s))) (s_downlink s1)) s1 in
         OK (tt, if bool_decide (l = []) then s2 else resubmit_decrypt s2)
       end).
Proof.
  intros Q D. destruct (buf_queue_get_cons (d_decrypt_queue (s_downlink s)) b l Q) as [G1 G2].
  set (q := (buf_queue_get (d_decrypt_queue (s_downlink s))).2) in *. exists q. split; [done|].
  unfold decrypt_blocks. set (s0 := decrypt_taken s (d_decrypt_queue (s_downlink s))).
  rewrite (st_bind_OK _ _ s tt s0), (st_bind_OK _ _ s0 (Some b) s0) by (done || by rewrite <- G1).
  rewrite (st_bind_OK _ _ s0 tt (decrypt_taken s q)) by done.
  rewrite (st_bind_OK _ _ _ r (set_crypto c (set_heap h (decrypt_taken s q)))).
  2:{ unfold zoom. change (part_get (decrypt_taken s q)) with (s_heap s, s_crypto s). by rewrite D. }
  destruct r as [e|]; [|done]. run_st. unfold dupd, modify.
  rewrite buf_queue_is_empty_spec. cbn -[bool_decide]. rewrite G2. by case_bool_decide.
Qed.

(** One run of the consume work. *)
Lemma consume_run s b l a a' :
  consuming s = b :: l → pouch_downlink_block_push handlers b a = OK a' →
  ∃ q, elems q = l ∧
    consume_blocks handlers a s =
      (let s1 := set_heap (set_bufs (i32 (bufs (s_heap s) - 1)) (s_heap s)) (consume_taken s q) in
       OK (a', if bool_decide (l = []) then s1 else resubmit_consume s1)).
Proof.
  intros Q P. destruct (buf_queue_get_cons (d_consume_queue (s_downlink s)) b l Q) as [G1 G2].
  set (q := (buf_queue_get (d_consume_queue (s_downlink s))).2) in *. exists q. split; [done|].
  unfold consume_blocks. set (s0 := consume_taken s (d_consume_queue (s_downlink s))).
  rewrite (st_bind_OK _ _ s tt s0), (st_bind_OK _ _ s0 (Some b) s0) by (done || by rewrite <- G1).
  rewrite (st_bind_OK _ _ s0 tt (consume_taken s q)) by done.
  unfold lift. run_st. rewrite P. unfold dupd, modify, zoom. cbn -[bool_decide].
  rewrite buf_queue_is_empty_spec. cbn -[bool_decide]. rewrite G2. by case_bool_decide.
Qed.

(** A block that cannot be decrypted stops the pipeline: the work is not submitted again, whatever
    waits behind the block. *)
Lemma decrypt_failure_stalls s b l h c :
  decrypting s = b :: l → crypto_decrypt_block (Some b) (s_heap s, s_crypto s) = OK (None, (h, c)) →
  ∃ s', decrypt_blocks s = OK (tt, s') ∧ decrypting s' = l ∧ decrypt_queued s' = false.
Proof.
  intros Q D. destruct (decrypt_run s b l None h c Q D) as (q & Eq & E).
  eexists. split; [apply E|]. split; [done|]. apply k_work_take_spec.
Qed.

End Works.

Module DownlinkWitness.
#[local] Existing Instances Native.byte_order Native.config_none Native.list_slist Native.flag_work
  Native.list_msgq NativeCodec.codec NativeCodec.codec_laws CryptoNone.crypto_none.

Definition ex_sys : sys CryptoNone.state := boot Native.heap0 4 (Some [x64]).

Lemma ex_push_inv : push_inv ex_sys.
Proof. by split. Qed.

Lemma downlink_push_safe_witness :
  ∃ s', pouch_downlink_push [x01; x02] ex_sys = OK (tt, s') ∧ push_inv s'
    ∧ (∀ k, balanced ex_sys k → balanced s' k)
    ∧ ∃ bs, decrypting s' = [] ++ bs
       ∧ (bs ≠ [] → k_work_queued (d_decrypt_work (s_downlink s')) = true).
Proof. exact (downlink_push_safe ex_sys [x01; x02] ex_push_inv). Defined.

(** The header has been read and two bytes of a block have arrived. *)
Definition ex_buf : pouch_buf := PBuf 515 2 [x00; x0b].
Definition ex_receiving : sys CryptoNone.state :=
  set_downlink (set_d_pouch_header true (set_d_pouch_buf (Some ex_buf) (s_downlink ex_sys))) ex_sys.

Lemma ex_asm : asm ex_buf [x00; x0b].
Proof. by split. Qed.

(** The rest of the block of one entry: path ".s", content type 60, data 1, 2, 3. *)
Definition ex_rest : list byte := [xc0; x00; x03; x00; x3c; x02; x2e; x73; x01; x02; x03].

Lemma downlink_push_conserves_witness :
  ∃ s' bs b' l' dropped,
    pouch_downlink_push ex_rest ex_receiving = OK (tt, s') ∧ decrypting s' = [] ++ bs
    ∧ d_pouch_buf (s_downlink s') = Some b' ∧ asm b' l'
    ∧ concat (map contents bs) ++ l' ++ dropped = [x00; x0b] ++ ex_rest
    ∧ Forall (λ b, sized (contents b)) bs ∧ (dropped ≠ [] → cut l' = Oversize).
Proof.
  apply (downlink_push_conserves ex_receiving ex_buf [x00; x0b] ex_rest);
    [done|apply ex_asm|done|done|done].
Defined.

(** A pouch of two blocks in three chunks, the second one longer than the second block. *)
Definition ex_header : pouch_header := PouchHeader 1 (plaintext_info [x64]).
Definition ex_packet : list byte := [x00; x0b] ++ ex_rest.
Definition ex_packet2 : list byte := [x00; x02; xc0; x00].
Definition ex_chunks : list (list byte) :=
  [[x82; x01; x82]; [x00; x61; x64; x00; x0b; xc0; x00; x03; x00; x3c; x02; x2e; x73; x01; x02; x03; x00; x02];
   [xc0; x00]].

Lemma ex_one_end : one_end 6 ex_chunks [ex_packet; ex_packet2].
Proof.
  intros ds1 d ds2 fs1 f1 f2 fs2 Ed Ef. destruct fs1 as [|? fs1]; [|by destruct fs1 as [|? []]].
  injection Ef as <- <- <-. intros L. destruct ds1 as [|? [|? [|? ds1]]]; [| | |by destruct ds1].
  - injection Ed as <- _. by vm_compute.
  - injection Ed as <- <- _. by vm_compute.
  - injection Ed as <- <- <- _. by vm_compute in L.
Qed.

Lemma downlink_reassembles_witness :
  ∃ s' bs b',
    (pouch_downlink_start;; push_chunks ex_chunks) ex_sys = OK (tt, s')
    ∧ decrypting s' = decrypting ex_sys ++ bs ∧ map contents bs = [ex_packet; ex_packet2]
    ∧ d_pouch_buf (s_downlink s') = Some b' ∧ asm b' []
    ∧ s_crypto s' = (crypto_downlink_start (encryption_info_m ex_header) (s_crypto ex_sys)).2
    ∧ Forall dl_block bs
    ∧ (d_pouch_buf (s_downlink ex_sys) = None → ∀ k, balanced ex_sys k → balanced s' k).
Proof.
  apply (downlink_reassembles ex_header [x82; x01; x82; x00; x61; x64] 37 ex_sys ex_chunks
    [ex_packet; ex_packet2]); [done|done|done|done| |exact ex_one_end|done].
  constructor; [by split|]. constructor; [by split|constructor].
Defined.

(** The same pouch with the ends of both blocks in one chunk: the second block stays in the buffer. *)
Example last_block_stays :
  match (pouch_downlink_start;; push_chunks [[x82; x01; x82; x00; x61; x64]; ex_packet ++ ex_packet2]) ex_sys with
  | OK (_, s) => map contents (decrypting s) = [ex_packet]
                 ∧ (contents <$> d_pouch_buf (s_downlink s)) = Some ex_packet2
  | Fault => False
  end.
Proof. vm_compute. by split. Qed.
End DownlinkWitness.
