(* ===== verification/Receiver.v ===== *)
(** The receiver: from the bytes the transport pushes to the handlers, whatever the encryption layer.

    Pushes and the two works of the downlink happen in any order. What the encryption layer makes of
    the blocks is the relation [opens]; what the parser makes of them, [accepts]. *)
From stdpp Require Import relations.
From S2P Require Import Prelude Platform Buf Block Crypto State Entry Downlink.

Section Receiver.
Context {BO : ByteOrder} {SL : SList} {KW : KWork} {MQ : MsgQ} {CF : Config} {HC : HeaderCodec}.
Context {HL : HeaderCodecLaws HC} {C : Type} {CR : Crypto C}.
Context {A : Type} (handlers : list (pouch_downlink_handler A)).
Implicit Types (s : sys C) (c : C) (a : A) (b : pouch_buf) (f p : list byte) (ds fs ps : list (list byte)).

(** * What becomes of the blocks *)

(** From the state [c], a block of the bytes [f] is decrypted to one of the bytes [p], whatever buffer
    holds it, as long as there is memory. *)
Definition opens_block c f p c' : Prop := ∀ b h,
  contents b = f → dl_block b → malloc_never_fails h →
  ∃ e h', crypto_decrypt_block (Some b) (h, c) = OK (Some e, (h', c'))
    ∧ contents e = p ∧ dl_block e ∧ malloc_ok h' = malloc_ok h ∧ (∀ n, live h n → live h' n).

(** Blocks, one after the other. *)
Inductive opens : C → list (list byte) → list (list byte) → C → Prop :=
| opens_nil c : opens c [] [] c
| opens_cons c f p c1 fs ps c2 :
    opens_block c f p c1 → opens c1 fs ps c2 → opens c (f :: fs) (p :: ps) c2.

(** The handlers take blocks with the bytes [ps] from [a0] to [a1], whatever buffers hold them. *)
Definition accepts ps a0 a1 : Prop :=
  ∀ bs, map contents bs = ps → Forall dl_block bs → push_all handlers bs a0 = OK a1.

(** Bytes that fit a buffer of the downlink. *)
Definition holdable f : Prop := 2 ≤ len f ≤ MAX_CIPHERTEXT_BLOCK_SIZE.

Lemma holdable_buffer f : holdable f → ∃ b, contents b = f ∧ dl_block b.
Proof.
  intros [N M]. pose proof MAX_CIPHERTEXT_range. pose proof MAX_PLAINTEXT_range.
  assert (asm (PBuf MAX_CIPHERTEXT_BLOCK_SIZE (len f) f) f) as As.
  { split; [split; simpl; lia|done|]. unfold contents; simpl. by rewrite ztake_all. }
  exists (PBuf MAX_CIPHERTEXT_BLOCK_SIZE (len f) f). split; [apply As|]. by eapply asm_dl_block.
Qed.

Lemma dl_block_holdable b : dl_block b → holdable (contents b).
Proof. intros [W B]. unfold holdable. by rewrite len_contents. Qed.

Lemma packet_holdable f : packet f → holdable f.
Proof. intros [N M _]. split; lia. Qed.

(** The decrypted blocks fit as well. *)
Lemma opens_buffers c fs ps c' :
  opens c fs ps c' → Forall holdable fs → ∃ bs, map contents bs = ps ∧ Forall dl_block bs.
Proof.
  induction 1 as [|c f p c1 fs ps c2 O _ IH]; intros F; [by exists []|].
  apply Forall_cons in F as [F0 F]. destruct (IH F) as (bs & E & D).
  destruct (holdable_buffer f F0) as (b & Eb & Db).
  destruct (O b (Heap (λ _, true) 0 0) Eb Db (λ _, eq_refl)) as (e & h & _ & Ee & De & _).
  exists (e :: bs). simpl. rewrite Ee, E. split; [done|by constructor].
Qed.

(** * Steps *)

(** One step: the transport pushes the next chunk, or a work that is queued runs. *)
Inductive rx_step : list (list byte) * sys C * A → list (list byte) * sys C * A → Prop :=
| rx_push d ds s s' a : pouch_downlink_push d s = OK (tt, s') → rx_step (d :: ds, s, a) (ds, s', a)
| rx_work ds s a s' a' : work_step handlers (s, a) (s', a') → rx_step (ds, s, a) (ds, s', a').

(** Pushes leave the consume queue and its work alone. *)
Lemma push_frame s b l d s' :
  d_pouch_buf (s_downlink s) = Some b → asm b l → pouch_downlink_push d s = OK (tt, s') →
  consuming s' = consuming s ∧ consume_queued s' = consume_queued s.
Proof.
  intros Eb As E.
  pose proof (push_loop_spec s (length d) (d_pouch_header (s_downlink s)) (s_crypto s) b l d
    (s_heap s) (d_decrypt_queue (s_downlink s)) (d_decrypt_work (s_downlink s)) As ltac:(lia)) as P.
  rewrite <- Eb, <- dx_id in P. destruct P as (? & ? & ? & ? & ? & ? & ? & E' & _).
  unfold pouch_downlink_push in E. rewrite E in E'. by injection E' as ->.
Qed.

(** How much the works have left to do. *)
Definition left_to_do s : nat := (2 * length (decrypting s) + length (consuming s))%nat.

(** The works leave the variables of the push alone, lose no buffer and bring the blocks nearer to the
    handlers. *)
Record work_frame s s' : Prop := {
  wk_buf : d_pouch_buf (s_downlink s') = d_pouch_buf (s_downlink s);
  wk_header : d_pouch_header (s_downlink s') = d_pouch_header (s_downlink s);
  wk_malloc : malloc_ok (s_heap s') = malloc_ok (s_heap s);
  wk_balanced k : balanced s k → balanced s' k;
  wk_less : (left_to_do s' < left_to_do s)%nat;
}.

Lemma queued_nonempty {T} (l : list T) : bool_decide (l ≠ []) = true → ∃ x l', l = x :: l'.
Proof. rewrite bool_decide_eq_true. destruct l; [done|by eauto]. Qed.

(** Reads the queues and the works of an explicit state. *)
Ltac unfold_queues :=
  unfold decrypt_queued, consume_queued, consuming, decrypting; cbn -[buf_queue_submit bool_decide].

Section Pouch.
Context (ps : list (list byte)) (c1 : C) (a0 a1 : A) (Haccepts : accepts ps a0 a1).

(** The blocks between the decrypt queue and the handlers, and those to come, [fs]: what the handlers
    have seen, what waits for them and what the encryption layer makes of the others is [ps]. A queue
    that is not empty has its work queued, and only such a queue. *)
Record in_pipeline fs s a : Prop := {
  ip_blocks : ∃ seen rest,
    push_all handlers seen a0 = OK a ∧ Forall dl_block (seen ++ consuming s)
    ∧ map contents (seen ++ consuming s) ++ rest = ps
    ∧ opens (s_crypto s) (map contents (decrypting s) ++ fs) rest c1;
  ip_to_come : Forall holdable fs;
  ip_blocks_wf : Forall dl_block (decrypting s);
  ip_malloc : malloc_never_fails (s_heap s);
  ip_decrypt : decrypt_queued s = bool_decide (decrypting s ≠ []);
  ip_consume : consume_queued s = bool_decide (consuming s ≠ []);
}.

Lemma map_holdable bs : Forall dl_block bs → Forall holdable (map contents bs).
Proof. intros F. apply Forall_map. eapply Forall_impl; [apply F|]. apply dl_block_holdable. Qed.

(** The parser accepts what waits for it. *)
Lemma waiting_accepted fs s a seen rest :
  in_pipeline fs s a → Forall dl_block (seen ++ consuming s) →
  map contents (seen ++ consuming s) ++ rest = ps →
  opens (s_crypto s) (map contents (decrypting s) ++ fs) rest c1 →
  is_OK (push_all handlers (seen ++ consuming s) a0).
Proof.
  intros I F E O. destruct (opens_buffers _ _ _ _ O) as (bs & Eb & D).
  { apply Forall_app. split; [|apply I]. apply map_holdable, I. }
  assert (push_all handlers ((seen ++ consuming s) ++ bs) a0 = OK a1) as P.
  { apply Haccepts; [by rewrite map_app, Eb|by apply Forall_app]. }
  rewrite push_all_app in P. apply bind_OK_inv in P as (a' & P & _). by exists a'.
Qed.

(** A run of the decrypt work. *)
Lemma decrypt_step fs s a :
  in_pipeline fs s a → decrypt_queued s = true →
  ∃ s', decrypt_blocks s = OK (tt, s') ∧ in_pipeline fs s' a ∧ work_frame s s'.
Proof.
  intros [(seen & rest & P & F & E & O) Fs Fd M D Co] W. rewrite D in W.
  destruct (queued_nonempty _ W) as (b & l & Q). rewrite Q in O, Fd. cbn [map app] in O.
  apply Forall_cons in Fd as [Db Fd]. inversion O as [|? ? p c2 ? rest2 ? Ob Or]; subst.
  destruct (Ob b (s_heap s) eq_refl Db M) as (e & h & Eq & Ee & De & Mh & Lh).
  destruct (decrypt_run s b l (Some e) h c2 Q Eq) as (q & El & Er). cbv zeta in Er.
  assert (elems (buf_queue_submit (d_consume_queue (s_downlink s)) e) = consuming s ++ [e]) as Es
    by apply elems_submit.
  eexists. split; [exact Er|].
  assert (∀ s', decrypting s' = l → consuming s' = consuming s ++ [e] → s_crypto s' = c2 →
    s_heap s' = h → decrypt_queued s' = bool_decide (l ≠ []) → consume_queued s' = true →
    d_pouch_buf (s_downlink s') = d_pouch_buf (s_downlink s) →
    d_pouch_header (s_downlink s') = d_pouch_header (s_downlink s) →
    owned s' = owned s → in_pipeline fs s' a ∧ work_frame s s') as Fin.
  { intros s' D' C' Cr' H' Dq Cq Pb Ph Ow. split; split; rewrite ?D', ?C', ?Cr', ?H'; try done.
    - exists seen, rest2. split_and!; [done| | |done]; rewrite app_assoc.
      + apply Forall_app. split; [done|by constructor].
      + rewrite (map_app _ _ [e]), <- app_assoc. cbn [map app]. by rewrite Ee.
    - unfold malloc_never_fails. by rewrite Mh.
    - rewrite Cq. symmetry. apply bool_decide_eq_true. by destruct (consuming s).
    - intros k Bk. unfold balanced in *. rewrite H', Ow. by apply Lh.
    - unfold left_to_do. rewrite D', C', Q, length_app. simpl. lia. }
  destruct l as [|b2 l]; [rewrite bool_decide_eq_true_2 by done|rewrite bool_decide_eq_false_2 by done];
    (apply Fin; unfold_queues; rewrite ?k_work_submit_spec, ?k_work_take_spec, ?Es; try done;
     unfold owned, pending, decrypting, consuming in *; cbn -[buf_queue_submit]; rewrite Es, El, Q;
     solve_len).
Qed.

(** A run of the consume work. *)
Lemma consume_step fs s a :
  in_pipeline fs s a → consume_queued s = true →
  ∃ s' a', consume_blocks handlers a s = OK (a', s') ∧ in_pipeline fs s' a' ∧ work_frame s s'.
Proof.
  intros I W. pose proof I as [(seen & rest & P & F & E & O) Fs Fd M D Co]. rewrite Co in W.
  destruct (waiting_accepted fs s a seen rest I F E O) as [af Fa].
  destruct (queued_nonempty _ W) as (b & l & Q). rewrite Q in *.
  rewrite push_all_app, P in Fa. simpl in Fa. apply bind_OK_inv in Fa as (a2 & Pb & _).
  destruct (consume_run handlers s b l a a2 Q Pb) as (q & El & Er). cbv zeta in Er.
  eexists _, a2. split; [exact Er|].
  assert (∀ s', decrypting s' = decrypting s → consuming s' = l → s_crypto s' = s_crypto s →
    s_heap s' = set_bufs (i32 (bufs (s_heap s) - 1)) (s_heap s) →
    decrypt_queued s' = decrypt_queued s → consume_queued s' = bool_decide (l ≠ []) →
    d_pouch_buf (s_downlink s') = d_pouch_buf (s_downlink s) →
    d_pouch_header (s_downlink s') = d_pouch_header (s_downlink s) →
    owned s' = owned s - 1 → in_pipeline fs s' a2 ∧ work_frame s s') as Fin.
  { intros s' D' C' Cr' H' Dq Cq Pu Ph Ow. split; split; rewrite ?D', ?C', ?Cr', ?H'; try done.
    - exists (seen ++ [b]), rest. rewrite <- app_assoc. split_and!; [|done..].
      rewrite push_all_app, P. simpl. by rewrite Pb.
    - by rewrite Dq.
    - intros k Bk. unfold balanced in *. rewrite H', Ow.
      eapply live_eq; [by apply live_free, Bk|simpl; lia].
    - unfold left_to_do. rewrite D', C', Q. simpl. lia. }
  destruct l as [|b2 l]; [rewrite bool_decide_eq_true_2 by done|rewrite bool_decide_eq_false_2 by done];
    (apply Fin; unfold_queues; rewrite ?k_work_submit_spec, ?k_work_take_spec; try done;
     unfold owned, pending, decrypting, consuming in *; simpl; rewrite El, Q; solve_len).
Qed.

Lemma work_keeps fs s a s' a' :
  in_pipeline fs s a → work_step handlers (s, a) (s', a') → in_pipeline fs s' a' ∧ work_frame s s'.
Proof.
  intros I W. inversion W as [? ? ? Wd R|? ? ? ? Wc R]; subst.
  - destruct (decrypt_step fs s a' I Wd) as (s2 & R' & K). rewrite R in R'. by injection R' as <-.
  - destruct (consume_step fs s a I Wc) as (s2 & a2 & R' & K). rewrite R in R'. by injection R' as <- <-.
Qed.

(** As long as a work is queued, one can run. *)
Lemma work_progress fs s a :
  in_pipeline fs s a → ¬ idle s → ∃ s' a', work_step handlers (s, a) (s', a').
Proof.
  intros I N. destruct (decrypt_queued s) eqn:Wd.
  - destruct (decrypt_step fs s a I Wd) as (s2 & R & _). exists s2, a. by constructor.
  - destruct (consume_queued s) eqn:Wc; [|by destruct N].
    destruct (consume_step fs s a I Wc) as (s2 & a2 & R & _). exists s2, a2. by constructor.
Qed.

(** With nothing to come and no work queued, everything has been delivered. *)
Lemma pipeline_empty s a :
  in_pipeline [] s a → idle s →
  a = a1 ∧ s_crypto s = c1 ∧ decrypting s = [] ∧ consuming s = [].
Proof.
  intros [(seen & rest & P & F & E & O) _ _ _ D Co] [D0 C0]. rewrite D0 in D. rewrite C0 in Co.
  symmetry in D, Co. apply bool_decide_eq_false, dec_stable in D, Co.
  rewrite D in O. simpl in O. inversion O; subst. rewrite Co, !app_nil_r in *.
  rewrite (Haccepts seen) in P by (done || by rewrite <- E). by injection P as ->.
Qed.

Lemma works_keep fs x y :
  rtc (work_step handlers) x y → in_pipeline fs x.1 x.2 → in_pipeline fs y.1 y.2.
Proof.
  intros R. induction R as [|[s a] [s' a'] z W R IH]; [done|]. intros I. apply IH.
  by eapply work_keeps.
Qed.

Lemma works_end fs s : ∀ a, in_pipeline fs s a →
  ∃ s' a', rtc (work_step handlers) (s, a) (s', a') ∧ idle s'.
Proof.
  induction s as [s IH] using (well_founded_ind (well_founded_ltof _ left_to_do)). intros a I.
  destruct (decide (decrypt_queued s = false ∧ consume_queued s = false)) as [Id|N]; [by exists s, a|].
  destruct (work_progress fs s a I N) as (s1 & b & W). destruct (work_keeps fs s a s1 b I W) as [I1 F1].
  destruct (IH s1 (wk_less _ _ F1) b I1) as (s2 & c & R & Id). exists s2, c.
  split; [by eapply rtc_l|done].
Qed.

End Pouch.

(** Blocks queued for decryption reach the handlers, each exactly once and in order, whatever order
    the decrypt and the consume work run in: no run faults, running the works ends, and it ends with
    nothing left in the queues and the handlers having seen what the encryption layer makes of every
    block. (The blocks decrypt one after the other, and the handlers' parser accepts the results.) *)
Theorem pipeline_delivers bs ps c1 a0 a1 s :
  decrypting s = bs → consuming s = [] → decrypt_queued s = bool_decide (bs ≠ []) →
  consume_queued s = false → Forall dl_block bs → malloc_never_fails (s_heap s) →
  opens (s_crypto s) (map contents bs) ps c1 → accepts ps a0 a1 →
  (∃ s', rtc (work_step handlers) (s, a0) (s', a1) ∧ idle s') ∧
  (∀ s' a', rtc (work_step handlers) (s, a0) (s', a') →
     (idle s' → a' = a1 ∧ s_crypto s' = c1 ∧ decrypting s' = [] ∧ consuming s' = []) ∧
     (¬ idle s' → ∃ s2 a2, work_step handlers (s', a') (s2, a2))).
Proof.
  intros Q Cq Wd Wc F M O Ac.
  assert (in_pipeline ps c1 a0 [] s a0) as I.
  { split; rewrite ?Q, ?Cq; try done. exists [], ps. split_and!; try done.
    by rewrite app_nil_r. }
  split.
  - destruct (works_end ps c1 a0 a1 Ac [] s a0 I) as (s' & a' & R & Id). exists s'.
    pose proof (works_keep ps c1 a0 a1 Ac [] _ _ R I) as I'.
    by destruct (pipeline_empty ps c1 a0 a1 Ac s' a' I' Id) as (<- & _).
  - intros s' a' R. apply (works_keep ps c1 a0 a1 Ac [] _ _ R) in I. simpl in I. split.
    + by apply (pipeline_empty ps c1 a0 a1 Ac).
    + by eapply (work_progress ps c1 a0 a1 Ac).
Qed.

(** * Pushes and works *)

(** A receiver with nothing in its queues. *)
Record quiet s : Prop := {
  qt_malloc : malloc_never_fails (s_heap s);
  qt_decrypting : decrypting s = [];
  qt_consuming : consuming s = [];
  qt_idle : idle s;
}.

Section Receiving.
Context (max : Z) (h : pouch_header) (hb : list byte) (fs ps : list (list byte)).
Context (c0 c c1 : C) (a0 a1 : A) (s0 : sys C).
Context (Hencode : cbor_encode_pouch_header max h = Some hb).
Context (Hlen : len hb ≤ MAX_CIPHERTEXT_BLOCK_SIZE).
Context (Hstart : crypto_downlink_start (encryption_info_m h) c0 = (SUCCESS, c)).
Context (Hopens : opens c fs ps c1).
Context (Hpackets : Forall packet fs) (Haccepts : accepts ps a0 a1).

(** What has arrived: the start [l] of the next part and, when the header was read, whole blocks, which
    are in the pipeline; the blocks [fs'] are still to come. *)
Definition receiving ds s a : Prop :=
  ∃ l b fs',
    d_pouch_buf (s_downlink s) = Some b ∧ asm b l ∧ Forall packet fs'
    ∧ (∀ k, balanced s0 k → balanced s k)
    ∧ (if d_pouch_header (s_downlink s)
       then ahead l fs' ∧ one_end (- len l) ds fs' ∧ l ++ concat ds = concat fs'
            ∧ in_pipeline ps c1 a0 fs' s a
       else ahead l [hb] ∧ one_end (len hb - len l) ds fs' ∧ l ++ concat ds = hb ++ concat fs' ∧ fs' = fs ∧ s_crypto s = c0 ∧ quiet s
            ∧ a = a0).

(** What a push adds to the pipeline. *)
Lemma push_in_pipeline fs1 bs fs2 a s s' :
  in_pipeline ps c1 a0 (fs1 ++ fs2) s a → map contents bs = fs1 → Forall dl_block bs →
  decrypting s' = decrypting s ++ bs → consuming s' = consuming s →
  consume_queued s' = consume_queued s → s_crypto s' = s_crypto s →
  malloc_ok (s_heap s') = malloc_ok (s_heap s) →
  (bs = [] ∧ d_decrypt_work (s_downlink s') = d_decrypt_work (s_downlink s)
   ∨ bs ≠ [] ∧ k_work_queued (d_decrypt_work (s_downlink s')) = true) →
  in_pipeline ps c1 a0 fs2 s' a.
Proof.
  intros [(seen & rest & P & F & E & O) Fs Fd M D Co] <- Fb Q Cq Cw Cr Mh W. split.
  - exists seen, rest. rewrite Cq, Q, Cr, (map_app _ (decrypting s)), <- (app_assoc _ _ fs2). by split_and!.
  - by apply Forall_app in Fs as [_ Fs].
  - rewrite Q. by apply Forall_app.
  - unfold malloc_never_fails. by rewrite Mh.
  - unfold decrypt_queued in *. rewrite Q. destruct W as [[-> ->]|[N ->]]; [by rewrite app_nil_r|].
    symmetry. apply bool_decide_eq_true. by intros [_ ?]%app_eq_nil.
  - by rewrite Cq, Cw.
Qed.

(** The pipeline as the header has been read. *)
Lemma pipeline_starts bs fs2 s' :
  fs = map contents bs ++ fs2 → Forall dl_block bs → decrypting s' = bs → consuming s' = [] →
  consume_queued s' = false → s_crypto s' = c → malloc_never_fails (s_heap s') →
  decrypt_queued s' = bool_decide (bs ≠ []) → in_pipeline ps c1 a0 fs2 s' a0.
Proof.
  intros Ef Fb Q Cq Cw Cr M W. split; rewrite ?Q, ?Cq; try done.
  - exists [], ps. rewrite Cr, <- Ef. by split_and!.
  - rewrite Ef in Hpackets. apply Forall_app in Hpackets as [_ P].
    eapply Forall_impl; [apply P|apply packet_holdable].
Qed.

Lemma receiving_push d ds s a :
  receiving (d :: ds) s a → ∃ s', pouch_downlink_push d s = OK (tt, s') ∧ receiving ds s' a.
Proof.
  intros (l & b & fs' & Eb & As & P & Ba & Hd).
  destruct (push_run s b l d Eb As) as (s1 & bs & E1 & Q1 & F1 & K1 & _ & M1 & W1 & N1).
  exists s1. split; [done|]. cbv zeta in N1. destruct (push_frame s b l d s1 Eb As E1) as [Cq Cw].
  assert (∀ k, balanced s0 k → balanced s1 k) as Ba1 by auto.
  assert (∀ got fs2 left off, fs' = got ++ fs2 → d_pouch_header (s_downlink s1) = true →
    (∃ b1, d_pouch_buf (s_downlink s1) = Some b1 ∧ asm b1 left) → ahead left fs2 →
    one_end off (d :: ds) fs' → - len left = off + len (concat got) - len d →
    left ++ concat ds = concat fs2 → in_pipeline ps c1 a0 fs2 s1 a → receiving ds s1 a) as Fin.
  { intros got fs2 left off -> Hh (b1 & Nb & A1) Ah Oe Lo Eq I. exists left, b1, fs2. rewrite Hh.
    apply Forall_app in P as [_ P]. split_and!; try done. by eapply one_end_next. }
  destruct (d_pouch_header (s_downlink s)).
  - destruct Hd as (Ah & Oe & Eq & I). specialize (N1 (ip_malloc _ _ _ _ _ _ I)).
    destruct (feed_complete (length d) (s_crypto s) l d fs' ltac:(lia) Ah P) as
      (got & fs2 & left & -> & Er & Ah' & El); [|by eapply ahead_ends_one|].
    { exists (concat ds). simpl in Eq. by rewrite <- app_assoc. }
    rewrite Er in N1. destruct N1 as (Nb & Nh & Nc & Nbuf). apply (Fin got fs2 left (- len l)); try done.
    + apply (f_equal length) in El. rewrite !length_app in El. lia.
    + apply (app_inv_head (concat got)). rewrite <- concat_app, <- Eq. simpl.
      by rewrite app_assoc, El, app_assoc.
    + by eapply (push_in_pipeline got bs).
  - destruct Hd as (Ah & Oe & Eq & -> & Hc & [Mq Dq Cn [D0 C0]] & ->). specialize (N1 Mq).
    assert (malloc_never_fails (s_heap s1)) as M' by (unfold malloc_never_fails; by rewrite M1).
    rewrite Dq in Q1. rewrite Cn in Cq. rewrite C0 in Cw. simpl in Q1.
    destruct (feed_header (length d) (s_crypto s) l d hb fs h max Hencode Hlen)
      as [[Ah' Er]|(got & fs2 & left & Ef & Er & Ah' & El)]; try done.
    + by rewrite Hc, Hstart.
    + exists (concat ds). simpl in Eq. by rewrite <- app_assoc.
    + by eapply header_ends_one.
    + rewrite Er in N1. destruct N1 as (Nb & Nh & Nc & b1 & Nbuf & A1). cbn in Nb, Nh, Nc, A1.
      apply map_eq_nil in Nb as ->. exists (l ++ d), b1, fs. rewrite Nh, Nc.
      destruct W1 as [[_ W1]|[N _]]; [|done].
      split_and!; try done; [|by rewrite <- app_assoc|].
      * apply (one_end_next (len hb - len l) _ d ds [] fs Oe). rewrite length_app. simpl. lia.
      * split; try done. split; [|done]. unfold decrypt_queued in *. by rewrite W1.
    + rewrite Er in N1. destruct N1 as (Nb & Nh & Nc & Nbuf). cbn in Nb, Nc. rewrite Hc, Hstart in Nc.
      apply (Fin got fs2 left (len hb - len l)); try done.
      * apply (f_equal length) in El. rewrite !length_app in El. lia.
      * apply (app_inv_head (hb ++ concat got)).
        rewrite <- (app_assoc hb _ (concat fs2)), <- concat_app, <- Ef, <- Eq.
        simpl. rewrite app_assoc, <- (app_assoc hb), El. by rewrite app_assoc.
      * apply (pipeline_starts bs); try done; [by rewrite Nb|].
        destruct W1 as [[-> W1]|[N W1]]; unfold decrypt_queued in *; rewrite W1; [done|].
        symmetry. by apply bool_decide_eq_true.
Qed.

Lemma receiving_work ds s a s' a' :
  receiving ds s a → work_step handlers (s, a) (s', a') → receiving ds s' a' ∧ work_frame s s'.
Proof.
  intros (l & b & fs' & Eb & As & P & Ba & Hd) W.
  destruct (d_pouch_header (s_downlink s)) eqn:Eh.
  - destruct Hd as (Ah & Oe & Eq & I).
    destruct (work_keeps ps c1 a0 a1 Haccepts fs' s a s' a' I W) as [I' Wf]. split; [|done].
    exists l, b, fs'. rewrite (wk_buf _ _ Wf), (wk_header _ _ Wf), Eh.
    split_and!; try done. intros k B. by apply Wf, Ba.
  - exfalso. destruct Hd as (_ & _ & _ & _ & _ & [_ _ _ [D0 C0]] & _).
    inversion W; subst; congruence.
Qed.

Lemma rx_keeps x y : rtc rx_step x y → receiving x.1.1 x.1.2 x.2 → receiving y.1.1 y.1.2 y.2.
Proof.
  induction 1 as [|x y z St _ IH]; [done|]. intros R. apply IH.
  inversion St as [d ds s s' a E|ds s a s' a' W]; subst; simpl in *.
  - destruct (receiving_push _ _ _ _ R) as (s2 & E' & R'). rewrite E in E'. by injection E' as ->.
  - by eapply receiving_work.
Qed.

(** Whatever happens first, there is an end: a push uses up a chunk, a work brings a block nearer to
    the handlers. *)
Lemma receiving_terminates ds : ∀ s a, receiving ds s a → sn rx_step (ds, s, a).
Proof.
  induction ds as [|d ds IHd];
    (refine (well_founded_induction (well_founded_ltof _ left_to_do) _ _); intros s IHs a R;
     constructor; intros y St; unfold flip in St).
  - inversion St as [|? ? ? s3 a3 W]; subst. destruct (receiving_work _ _ _ _ _ R W) as [R' Wf].
    by apply IHs; [apply Wf|].
  - destruct (receiving_push _ _ _ _ R) as (s2 & E' & R'). inversion St as [? ? ? s3 ? E3|? ? ? s3 a3 W]; subst.
    { rewrite E3 in E'. injection E' as ->. by apply IHd. }
    destruct (receiving_work _ _ _ _ _ R W) as [R3 Wf]. by apply IHs; [apply Wf|].
Qed.

Lemma all_of_it (l k : list byte) : k ≠ [] → l = l ++ k → False.
Proof. intros N E. apply (f_equal length) in E. rewrite length_app in E. destruct k; [done|simpl in E; lia]. Qed.

(** Where no step is left, everything has been delivered. *)
Lemma receiving_stuck ds s a : receiving ds s a → nf rx_step (ds, s, a) →
  ds = [] ∧ a = a1 ∧ s_crypto s = c1 ∧ quiet s ∧ ∀ k, balanced s0 k → balanced s k.
Proof.
  intros R N. destruct ds as [|d ds].
  2:{ exfalso. apply N. destruct (receiving_push _ _ _ _ R) as (s2 & E & _).
      exists (ds, s2, a). by constructor. }
  destruct R as (l & b & fs' & Eb & As & P & Ba & Hd). rewrite app_nil_r in Hd.
  destruct (d_pouch_header (s_downlink s)).
  - destruct Hd as (Ah & _ & Eq & I). assert (fs' = []) as ->.
    { destruct fs' as [|f fs']; [done|]. destruct Ah as (k & Ek & Nk). exfalso.
      rewrite Ek in Eq. simpl in Eq. rewrite <- app_assoc in Eq.
      apply (all_of_it l (k ++ concat fs')); [by destruct k|done]. }
    assert (idle s) as Id.
    { destruct (decide (decrypt_queued s = false ∧ consume_queued s = false)) as [|Ni]; [done|].
      exfalso. apply N.
      destruct (work_progress ps c1 a0 a1 Haccepts [] s a I Ni) as (s2 & a2 & W).
      exists ([], s2, a2). by constructor. }
    destruct (pipeline_empty ps c1 a0 a1 Haccepts s a I Id) as (-> & Ec & D & Co).
    split_and!; try done. split; [apply I|done..].
  - exfalso. destruct Hd as ((k & Ek & Nk) & _ & Eq & _). rewrite Ek, <- app_assoc in Eq.
    apply (all_of_it l (k ++ concat fs')); [by destruct k|done].
Qed.

End Receiving.

(** What is promised of the chunks [ds] pushed to [s]: every schedule ends, without a fault, with the
    handlers gone from [a0] to [a1], the encryption layer in the state [c1], the queues empty and no
    buffer lost. *)
Definition delivers ds s a0 a1 c1 : Prop :=
  sn rx_step (ds, s, a0) ∧
  ∀ ds' s' a', rtc rx_step (ds, s, a0) (ds', s', a') → nf rx_step (ds', s', a') →
    ds' = [] ∧ a' = a1 ∧ s_crypto s' = c1 ∧ quiet s' ∧ ∀ k, balanced s k → balanced s' k.

Lemma receive_run max h hb fs ps c c1 a0 a1 s ds :
  cbor_encode_pouch_header max h = Some hb → len hb ≤ MAX_CIPHERTEXT_BLOCK_SIZE →
  crypto_downlink_start (encryption_info_m h) (s_crypto s) = (SUCCESS, c) →
  Forall packet fs → opens c fs ps c1 → accepts ps a0 a1 → quiet s →
  one_end (len hb) ds fs → concat ds = hb ++ concat fs →
  ∃ s1, pouch_downlink_start s = OK (tt, s1) ∧ delivers ds s1 a0 a1 c1
    ∧ (d_pouch_buf (s_downlink s) = None → ∀ k, balanced s k → balanced s1 k).
Proof.
  intros En Hl St P O Ac [M Dq Cq [D0 C0]] Sm E. pose proof (encode_fits _ _ _ En) as Nh.
  exists (downlink_started s). split; [by apply downlink_start_run|].
  assert (receiving hb fs ps (s_crypto s) c1 a0 (downlink_started s) ds (downlink_started s) a0) as R.
  { exists [], (PBuf MAX_CIPHERTEXT_BLOCK_SIZE 0 []), fs.
    split_and!; try done; [apply asm_fresh|]. simpl. split_and!; try done.
    - exists hb. split; [done|]. intros ->. simpl in Nh. lia.
    - by rewrite Z.sub_0_r. }
  split_and!; [split|].
  - by eapply (receiving_terminates max h hb fs ps (s_crypto s) c c1 a0 a1 (downlink_started s)).
  - intros ds' s' a' Sr N.
    apply (rx_keeps max h hb fs ps (s_crypto s) c c1 a0 a1 (downlink_started s) En Hl St O P Ac) in Sr; [|done].
    by eapply (receiving_stuck max h hb fs ps (s_crypto s) c c1 a0 a1 (downlink_started s)).
  - intros N k B. unfold balanced, downlink_started in *. rewrite owned_dx, N.
    cbn [s_heap dx set_crypto set_heap].
    eapply live_eq; [by apply (live_after true), B|]. unfold decrypting. simpl. lia.
Qed.

(** C4: receiving a pouch: after [pouch_downlink_start], the chunks of the header and the blocks are
    pushed, the decrypt work and the consume work run, in any order and interleaved in any way; every
    schedule ends, no step faults, and at the end the handlers have seen what the encryption layer
    makes of every block, once and in order, the queues are empty, ready for the next pouch, and no
    buffer is lost. (No chunk holds the ends of two blocks, the encryption layer accepts the header and
    opens the blocks, and the handlers' parser accepts the results.) *)
Theorem pouch_received max h hb fs ps c c1 a0 a1 s ds :
  cbor_encode_pouch_header max h = Some hb → len hb ≤ MAX_CIPHERTEXT_BLOCK_SIZE →
  crypto_downlink_start (encryption_info_m h) (s_crypto s) = (SUCCESS, c) →
  Forall packet fs → opens c fs ps c1 → accepts ps a0 a1 → quiet s →
  one_end (len hb) ds fs → concat ds = hb ++ concat fs →
  ∃ s1, pouch_downlink_start s = OK (tt, s1) ∧ delivers ds s1 a0 a1 c1
    ∧ (d_pouch_buf (s_downlink s) = None → ∀ k, balanced s k → balanced s1 k).
Proof. apply receive_run. Qed.

End Receiver.
