(* ===== verification/Packetizer.v ===== *)
(** The BLE GATT packetizer: src/lib/pouch_ble_gatt_common/packetizer.c.

    A packet is a flags byte (first, last) and a part of the data. The data comes from a buffer or
    from a callback, which acts on the state [U] of its user. *)
From S2P Require Import Prelude Platform Buf.

Inductive packetizer_result := MORE_DATA | NO_MORE_DATA | EMPTY_PAYLOAD | ERROR.

#[export] Instance packetizer_result_eq_dec : EqDecision packetizer_result.
Proof. solve_decision. Defined.

Definition GOLIOTH_BLE_GATT_PACKET_FIRST : Z := 1.
Definition GOLIOTH_BLE_GATT_PACKET_LAST : Z := 2.

(** sizeof(struct golioth_ble_gatt_packet) *)
Definition PACKET_HEADER_SIZE : Z := 1.

Section Packetizer.
Context {U : Type}.

(** The callback gets the room there is and says what it wrote. *)
Definition fill_cb : Type := Z → st U (packetizer_result * list byte).

Inductive fill_source :=
| FILL_BUFFER (src : list byte) (n : Z)
| FILL_CALLBACK (func : fill_cb).

Record packetizer := Packetizer {
  source : fill_source;
  is_first : bool;
  error : option errno;
}.

Definition golioth_ble_gatt_packetizer_start_buffer (src : list byte) (src_len : Z)
    : st heap (option packetizer) :=
  ok ← malloc;
  mret (if (ok : bool) then Some (Packetizer (FILL_BUFFER src src_len) true None) else None).

Definition golioth_ble_gatt_packetizer_start_callback (func : fill_cb) : st heap (option packetizer) :=
  ok ← malloc;
  mret (if (ok : bool) then Some (Packetizer (FILL_CALLBACK func) true None) else None).

(** The result, the final [*dst_len], the bytes written to [dst] and the packetizer. The flags byte is
    written before the room is checked. *)
Definition golioth_ble_gatt_packetizer_get (p : packetizer) (dst_len : Z)
    : st U (packetizer_result * Z * list byte * packetizer) :=
  lift (guard (1 <=? dst_len));;
  if dst_len <=? PACKET_HEADER_SIZE then
    mret (ERROR, dst_len, [byte_of_Z 0], Packetizer (source p) (is_first p) (Some ENOMEM))
  else
    let flags := if is_first p then GOLIOTH_BLE_GATT_PACKET_FIRST else 0 in
    match source p with
    | FILL_BUFFER src n =>
      let bytes_to_copy := dst_len - PACKET_HEADER_SIZE in
      let '(bytes_to_copy, flags, ret) :=
        (if n <=? bytes_to_copy
         then (n, Z.lor flags GOLIOTH_BLE_GATT_PACKET_LAST, NO_MORE_DATA)
         else (bytes_to_copy, flags, MORE_DATA)) in
      d ← lift (load src bytes_to_copy);
      mret (ret, PACKET_HEADER_SIZE + bytes_to_copy, byte_of_Z flags :: d,
            Packetizer (FILL_BUFFER (zdrop bytes_to_copy src) (n - bytes_to_copy)) false (error p))
    | FILL_CALLBACK func =>
      '(cb_result, d) ← func (dst_len - PACKET_HEADER_SIZE);
      match cb_result with
      | ERROR =>
        mret (ERROR, 0, byte_of_Z flags :: d, Packetizer (source p) false (Some ENODATA))
      | _ =>
        let ret := if len d =? 0 then EMPTY_PAYLOAD else MORE_DATA in
        let '(flags, ret) :=
          (if decide (cb_result = NO_MORE_DATA)
           then (Z.lor flags GOLIOTH_BLE_GATT_PACKET_LAST, NO_MORE_DATA)
           else (flags, ret)) in
        mret (ret, PACKET_HEADER_SIZE + len d, byte_of_Z flags :: d,
              Packetizer (source p) false (error p))
      end
    end.

Definition golioth_ble_gatt_packetizer_error (p : packetizer) : option errno := error p.

End Packetizer.
Arguments packetizer : clear implicits.
Arguments fill_cb : clear implicits.

(** [None] is a NULL pointer; [outs] says that no out-parameter is NULL. The payload is what follows
    the flags. *)
Definition golioth_ble_gatt_packetizer_decode (buf : option (list byte)) (outs : bool)
    : errno + (list byte * bool * bool) :=
  match buf with
  | Some (flags :: payload) =>
    if outs then
      inr (payload,
           negb (Z.land (Z_of_byte flags) GOLIOTH_BLE_GATT_PACKET_FIRST =? 0),
           negb (Z.land (Z_of_byte flags) GOLIOTH_BLE_GATT_PACKET_LAST =? 0))
    else inl EINVAL
  | _ => inl EINVAL
  end.

(** * Round trips *)

Section RoundTrip.
Context {U : Type}.
Implicit Types (p : packetizer U) (u : U).

(** A reader that gets packets until the last one, each with the room the connection gives it. Its
    fuel bounds the number of packets. *)
Fixpoint get_all (fuel : nat) (room : nat → Z) p : st U (list (list byte)) :=
  match fuel with
  | O => fault
  | S fuel =>
    '(ret, n, pkt, p) ← golioth_ble_gatt_packetizer_get p (room O);
    match ret with
    | NO_MORE_DATA => mret [pkt]
    | ERROR => mret []
    | _ => pkts ← get_all fuel (λ i, room (S i)) p; mret (pkt :: pkts)
    end
  end.

Definition flags_byte (first last : bool) : byte :=
  byte_of_Z (Z.lor (if first then GOLIOTH_BLE_GATT_PACKET_FIRST else 0)
                   (if last then GOLIOTH_BLE_GATT_PACKET_LAST else 0)).

(** The packets that carry [ps], the first of them marked if [first], the last marked as such. *)
Fixpoint packets (first : bool) (ps : list (list byte)) : list (list byte) :=
  match ps with
  | [] => []
  | [d] => [flags_byte first true :: d]
  | d :: ps => (flags_byte first false :: d) :: packets false ps
  end.

Lemma decode_packet first last d :
  golioth_ble_gatt_packetizer_decode (Some (flags_byte first last :: d)) true
    = inr (d, first, last).
Proof. by destruct first, last. Qed.

(** What decoding the packets gives. *)
Fixpoint decoded (first : bool) (ps : list (list byte)) : list (errno + (list byte * bool * bool)) :=
  match ps with
  | [] => []
  | [d] => [inr (d, first, true)]
  | d :: ps => inr (d, first, false) :: decoded false ps
  end.

Lemma decode_packets ps : ∀ first,
  map (λ pkt, golioth_ble_gatt_packetizer_decode (Some pkt) true) (packets first ps) = decoded first ps.
Proof.
  induction ps as [|d ps IH]; intros first; [done|].
  destruct ps as [|d' ps].
  { change (packets first [d]) with [flags_byte first true :: d].
    by rewrite map_cons, decode_packet. }
  change (packets first (d :: d' :: ps)) with ((flags_byte first false :: d) :: packets false (d' :: ps)).
  rewrite map_cons, decode_packet, IH. done.
Qed.

Lemma get_all_buffer fuel : ∀ room src (first : bool) e u,
  (∀ i, 2 ≤ room i) → (length src < fuel)%nat →
  ∃ ps, get_all fuel room (Packetizer (FILL_BUFFER src (len src)) first e) u
          = OK (packets first ps, u)
    ∧ concat ps = src ∧ ps ≠ []
    ∧ Forall2 (λ d i, len d < room i) ps (seq 0 (length ps))
    ∧ (src ≠ [] → Forall (λ d, d ≠ []) ps).
Proof.
  induction fuel as [|fuel IH]; intros room src first e u R Hf; [lia|].
  cbn [get_all]. pose proof (R 0%nat) as R0.
  unfold golioth_ble_gatt_packetizer_get, PACKET_HEADER_SIZE.
  rewrite guard_true by (apply Z.leb_le; lia). rewrite (proj2 (Z.leb_gt (room 0%nat) 1)) by lia.
  cbn [source is_first error].
  set (fl := if first then GOLIOTH_BLE_GATT_PACKET_FIRST else 0).
  destruct (Z.leb_spec (len src) (room 0%nat - 1)) as [L|L].
  - exists [src]. run_st. unfold load. rewrite guard_true by (rewrite andb_true_iff, !Z.leb_le; lia).
    rewrite bind_OK, ztake_all by lia. split_and!; [done|simpl; by rewrite app_nil_r|done| |].
    + constructor; [lia|constructor].
    + intros N. by constructor.
  - set (k := room 0%nat - 1) in *. assert (0 < k) by lia.
    destruct (IH (λ i, room (S i)) (zdrop k src) false e u) as (ps & E & Ec & N & F & Ne);
      [auto|rewrite length_drop; lia|].
    exists (ztake k src :: ps). run_st. unfold load.
    rewrite guard_true by (rewrite andb_true_iff, !Z.leb_le; lia). rewrite bind_OK.
    replace (len src - k) with (len (zdrop k src)) by solve_len. cbn [fst snd]. rewrite E.
    split_and!; [|simpl; by rewrite Ec, take_drop|done| |].
    + destruct ps; [done|]. by destruct first.
    + simpl. constructor; [solve_len|]. rewrite <- fmap_S_seq. by rewrite Forall2_fmap_r.
    + intros Ns. constructor; [|apply Ne].
      * intros T. apply (f_equal length) in T. rewrite length_take in T. simpl in T. lia.
      * intros T. apply (f_equal length) in T. rewrite length_drop in T. simpl in T. lia.
Qed.

(** C25: packets of a buffer: whatever room each packet is given, at least two bytes, the reader gets
    all of the buffer in order, in packets that fit and that decode to their part of the data, the
    first and only the first marked as first, the last and only the last as last; and it ends after at
    most one packet per byte (one packet for an empty buffer). *)
Theorem buffer_roundtrip room src e u :
  (∀ i, 2 ≤ room i) →
  ∃ pkts ps,
    get_all (S (length src)) room (Packetizer (FILL_BUFFER src (len src)) true e) u = OK (pkts, u)
    ∧ map (λ pkt, golioth_ble_gatt_packetizer_decode (Some pkt) true) pkts = decoded true ps
    ∧ concat ps = src ∧ Forall2 (λ d i, len d < room i) ps (seq 0 (length ps))
    ∧ (src ≠ [] → Forall (λ d, d ≠ []) ps).
Proof.
  intros R. destruct (get_all_buffer (S (length src)) room src true e u R ltac:(lia))
    as (ps & E & Ec & _ & F & N).
  exists (packets true ps), ps. split_and!; [done|apply decode_packets|done..].
Qed.

End RoundTrip.

Module PacketizerWitness.

Definition ex_src : list byte := [x01; x02; x03; x04; x05].

(** Five bytes in packets of three bytes. *)
Example ex_packets :
  get_all (U := unit) 6 (λ _, 3) (Packetizer (FILL_BUFFER ex_src 5) true None) tt
    = OK ([[x01; x01; x02]; [x00; x03; x04]; [x02; x05]], tt).
Proof. reflexivity. Qed.

Lemma buffer_roundtrip_witness :
  (∀ _ : nat, 2 ≤ 3) ∧
  ∃ pkts ps,
    get_all (S (length ex_src)) (λ _, 3) (Packetizer (FILL_BUFFER ex_src (len ex_src)) true None) tt
      = OK (pkts, tt)
    ∧ map (λ pkt, golioth_ble_gatt_packetizer_decode (Some pkt) true) pkts = decoded true ps
    ∧ concat ps = ex_src ∧ Forall2 (λ d (i : nat), len d < 3) ps (seq 0 (length ps))
    ∧ (ex_src ≠ [] → Forall (λ d, d ≠ []) ps).
Proof.
  split; [intros _; lia|].
  exact (buffer_roundtrip (U := unit) (λ _, 3) ex_src None tt (λ _, ltac:(lia))).
Defined.

End PacketizerWitness.
