(* ===== verification/Psa.v ===== *)
(** The cryptographic libraries the encryption layer calls: PSA Crypto (<psa/crypto.h>), the X.509
    parser of Mbed TLS and Zephyr's base64. Classes whose laws state the documented behaviour the
    code relies on; [NativePsa] and [NativeX509] are concrete instances for the examples. *)
From S2P Require Import Prelude Platform.

(** * PSA Crypto *)

Definition psa_status_t : Type := Z.
Definition PSA_SUCCESS : psa_status_t := 0.
Definition psa_key_id_t : Type := Z.
Definition PSA_KEY_ID_NULL : psa_key_id_t := 0.

(** The algorithms the code names; [PSA_ALG_NONE] is the zero of a static variable. *)
Inductive psa_algorithm_t := PSA_ALG_NONE | PSA_ALG_GCM | PSA_ALG_CHACHA20_POLY1305 | PSA_ALG_ECDH.
Inductive psa_key_type_t :=
  PSA_KEY_TYPE_NONE | PSA_KEY_TYPE_AES | PSA_KEY_TYPE_CHACHA20 | PSA_KEY_TYPE_ECC_KEY_PAIR_SECP_R1.

#[export] Instance psa_algorithm_t_eq_dec : EqDecision psa_algorithm_t.
Proof. solve_decision. Defined.

Definition psa_key_usage_t : Type := Z.
Definition PSA_KEY_USAGE_ENCRYPT : psa_key_usage_t := 0x100.
Definition PSA_KEY_USAGE_DECRYPT : psa_key_usage_t := 0x200.
Definition PSA_KEY_USAGE_VERIFY_MESSAGE : psa_key_usage_t := 0x800.
Definition PSA_KEY_USAGE_DERIVE : psa_key_usage_t := 0x4000.

(** Keys are volatile (the default lifetime). *)
Record psa_key_attributes_t := PsaKeyAttributes {
  psa_key_type : psa_key_type_t;
  psa_key_bits : Z;
  psa_key_algorithm : psa_algorithm_t;
  psa_key_usage : psa_key_usage_t;
}.
Definition PSA_KEY_ATTRIBUTES_INIT : psa_key_attributes_t :=
  PsaKeyAttributes PSA_KEY_TYPE_NONE 0 PSA_ALG_NONE 0.

(** [psa_state] is the library's own state: its key store and random generator. A derivation operation
    is a value of [psa_operation]. [psa_aead_*] return the status, what is written to the output and the
    length reported; [psa_key_data] is the key an identifier stands for. *)
Class Psa := {
  psa_state : Type;
  psa_operation : Type;
  PSA_KEY_DERIVATION_OPERATION_INIT : psa_operation;
  psa_key_data : psa_state → psa_key_id_t → list byte;
  psa_generate_random : Z → psa_state → psa_status_t * list byte * psa_state;
  psa_hash_compute : list byte → Z → psa_status_t * list byte * Z;
  (** ECDH followed by HKDF-SHA-256 *)
  psa_key_derivation_setup : psa_operation → psa_state → psa_status_t * psa_operation * psa_state;
  psa_key_derivation_key_agreement :
    psa_key_id_t → list byte → psa_operation → psa_state → psa_status_t * psa_operation * psa_state;
  psa_key_derivation_input_info :
    list byte → psa_operation → psa_state → psa_status_t * psa_operation * psa_state;
  psa_key_derivation_output_key :
    psa_key_attributes_t → psa_operation → psa_state →
    psa_status_t * psa_key_id_t * psa_operation * psa_state;
  psa_key_derivation_abort : psa_operation → psa_state → psa_state;
  psa_destroy_key : psa_key_id_t → psa_state → psa_state;
  psa_copy_key : psa_key_id_t → psa_key_attributes_t → psa_state → psa_status_t * psa_key_id_t * psa_state;
  (** key, algorithm, nonce, additional data, input, size of the output *)
  psa_aead_encrypt : psa_state → psa_key_id_t → psa_algorithm_t → list byte → list byte → list byte →
    Z → psa_status_t * list byte * Z;
  psa_aead_decrypt : psa_state → psa_key_id_t → psa_algorithm_t → list byte → list byte → list byte →
    Z → psa_status_t * list byte * Z;
}.

(** Outputs fit the size given and have the length reported; decrypting with the same key, nonce and
    additional data gives back what was encrypted; a derived key is not the null key. *)
Class PsaLaws {PS : Psa} : Prop := {
  generate_random_len n p : 0 ≤ n → len (psa_generate_random n p).1.2 = n;
  hash_compute_fits d n : 0 ≤ n →
    len (psa_hash_compute d n).1.2 ≤ n
    ∧ ((psa_hash_compute d n).1.1 = PSA_SUCCESS → len (psa_hash_compute d n).1.2 = (psa_hash_compute d n).2);
  aead_encrypt_fits p k alg nonce ad d n : 0 ≤ n →
    len (psa_aead_encrypt p k alg nonce ad d n).1.2 ≤ n
    ∧ ((psa_aead_encrypt p k alg nonce ad d n).1.1 = PSA_SUCCESS →
       len (psa_aead_encrypt p k alg nonce ad d n).1.2 = (psa_aead_encrypt p k alg nonce ad d n).2);
  aead_decrypt_fits p k alg nonce ad d n : 0 ≤ n →
    len (psa_aead_decrypt p k alg nonce ad d n).1.2 ≤ n
    ∧ ((psa_aead_decrypt p k alg nonce ad d n).1.1 = PSA_SUCCESS →
       len (psa_aead_decrypt p k alg nonce ad d n).1.2 = (psa_aead_decrypt p k alg nonce ad d n).2);
  aead_decrypt_encrypt p k p' k' alg nonce ad d n n' ct m :
    psa_aead_encrypt p k alg nonce ad d n = (PSA_SUCCESS, ct, m) →
    psa_key_data p k = psa_key_data p' k' → len d ≤ n' →
    psa_aead_decrypt p' k' alg nonce ad ct n' = (PSA_SUCCESS, d, len d);
  output_key_valid attrs op p k :
    (psa_key_derivation_output_key attrs op p).1.1 = (PSA_SUCCESS, k) → k ≠ PSA_KEY_ID_NULL;
}.
Arguments PsaLaws : clear implicits.

(** * Base64: <zephyr/sys/base64.h> *)

(** The error and the characters written (not counting the NUL). *)
Class Base64 := {
  base64_encode : Z → list byte → status * list byte;
  base64_encode_spec n d : 4 * ((len d + 2) / 3) < n →
    (base64_encode n d).1 = SUCCESS ∧ len (base64_encode n d).2 = 4 * ((len d + 2) / 3);
}.

(** * X.509: <mbedtls/x509_crt.h> *)

(** [mbedtls_x509_crt_verify] is given the certificate, the CA's and the expected common name; the last
    call writes a public key in uncompressed form and returns its result, what it wrote and [*olen]. *)
Class X509 := {
  mbedtls_x509_crt : Type;
  mbedtls_ecp_keypair : Type;
  mbedtls_x509_crt_init : mbedtls_x509_crt;
  mbedtls_x509_crt_parse : mbedtls_x509_crt → list byte → Z * mbedtls_x509_crt;
  mbedtls_x509_crt_verify : mbedtls_x509_crt → mbedtls_x509_crt → list byte → Z;
  crt_serial : mbedtls_x509_crt → list byte;
  mbedtls_pk_ec : mbedtls_x509_crt → option mbedtls_ecp_keypair;
  mbedtls_ecp_write_public_key : mbedtls_ecp_keypair → Z → Z * list byte * Z;
  write_public_key_spec k n : 0 ≤ n →
    len (mbedtls_ecp_write_public_key k n).1.2 ≤ n
    ∧ ((mbedtls_ecp_write_public_key k n).1.1 = 0 →
       len (mbedtls_ecp_write_public_key k n).1.2 = (mbedtls_ecp_write_public_key k n).2);
}.

(** * Concrete instances *)

Module NativePsa.

(** The key store is a list of keys, in reverse order of their identifiers. *)
Definition key_of (p : list (list byte)) (k : Z) : list byte :=
  if (1 <=? k) && (k <=? len p) then nth (Z.to_nat (len p - k)) p [] else [].

(** A checksum in the place of a tag: sixteen bytes that depend on everything authenticated. *)
Definition tag (parts : list (list byte)) : list byte :=
  replicate 16 (byte_of_Z (foldl (λ a b, (a * 31 + Z_of_byte b) mod 256) 7 (concat parts))).

Definition encrypt (p : list (list byte)) k (alg : psa_algorithm_t) (nonce ad d : list byte) n :
    psa_status_t * list byte * Z :=
  if len d + 16 <=? n
  then (PSA_SUCCESS, d ++ tag [key_of p k; nonce; ad; d], len d + 16) else (-1, [], 0).

Definition decrypt (p : list (list byte)) k (alg : psa_algorithm_t) (nonce ad ct : list byte) n :
    psa_status_t * list byte * Z :=
  let d := ztake (len ct - 16) ct in
  if (16 <=? len ct) && (len d <=? n)
     && bool_decide (zdrop (len ct - 16) ct = tag [key_of p k; nonce; ad; d])
  then (PSA_SUCCESS, d, len d) else (-1, [], 0).

#[export] Instance psa : Psa := {|
  psa_state := list (list byte); psa_operation := list byte; PSA_KEY_DERIVATION_OPERATION_INIT := [];
  psa_key_data := key_of;
  psa_generate_random n p := (PSA_SUCCESS, replicate (Z.to_nat n) x5a, p);
  psa_hash_compute d n := if 32 <=? n then (PSA_SUCCESS, replicate 32 (byte_of_Z (len d)), 32)
                          else (-1, [], 0);
  psa_key_derivation_setup op p := (PSA_SUCCESS, op, p);
  psa_key_derivation_key_agreement k peer op p := (PSA_SUCCESS, op ++ key_of p k ++ peer, p);
  psa_key_derivation_input_info i op p := (PSA_SUCCESS, op ++ i, p);
  psa_key_derivation_output_key attrs op p := (PSA_SUCCESS, len p + 1, op, op :: p);
  psa_key_derivation_abort op p := p;
  psa_destroy_key k p := p;
  psa_copy_key k attrs p := (PSA_SUCCESS, len p + 1, key_of p k :: p);
  psa_aead_encrypt := encrypt;
  psa_aead_decrypt := decrypt;
|}.

Lemma len_tag parts : len (tag parts) = 16.
Proof. unfold tag. solve_len. Qed.

#[export] Instance psa_laws : PsaLaws psa.
Proof.
  split; cbn [psa_generate_random psa_hash_compute psa_aead_encrypt psa_aead_decrypt psa_key_data
    psa_key_derivation_output_key psa].
  - intros n p N. simpl. rewrite length_replicate. lia.
  - intros d n N. destruct (Z.leb_spec 32 n); simpl; lia.
  - intros p k alg nonce ad d n N. unfold encrypt.
    destruct (Z.leb_spec (len d + 16) n); simpl; [|lia].
    pose proof (len_tag [key_of p k; nonce; ad; d]). solve_len.
  - intros p k alg nonce ad d n N. unfold decrypt. destruct (_ && _) eqn:E; cbn [fst snd];
      [|simpl; lia].
    rewrite !andb_true_iff, !Z.leb_le in E. lia.
  - intros p k p' k' alg nonce ad d n n' ct m E K L. unfold encrypt in E.
    destruct (Z.leb_spec (len d + 16) n); [|done]. injection E as <- _.
    pose proof (len_tag [key_of p k; nonce; ad; d]). unfold decrypt.
    replace (len (d ++ tag [key_of p k; nonce; ad; d]) - 16) with (len d) by solve_len.
    rewrite Nat2Z.id, take_app_length, drop_app_length.
    rewrite (proj2 (Z.leb_le 16 _)), (proj2 (Z.leb_le _ _)) by solve_len.
    rewrite bool_decide_eq_true_2 by (by rewrite K). done.
  - intros attrs op p k [= <-]. unfold PSA_KEY_ID_NULL. lia.
Qed.

(** RFC 4648 *)
Definition char (n : Z) : byte :=
  byte_of_Z (if n <? 26 then 65 + n else if n <? 52 then 71 + n else if n <? 62 then n - 4
             else if n =? 62 then 43 else 47).

Fixpoint encode64 (d : list byte) : list byte :=
  match d with
  | a :: b :: c :: d =>
    let v := Z_of_byte a * 65536 + Z_of_byte b * 256 + Z_of_byte c in
    char (v / 262144) :: char (v / 4096 mod 64) :: char (v / 64 mod 64) :: char (v mod 64)
      :: encode64 d
  | [a; b] =>
    let v := Z_of_byte a * 65536 + Z_of_byte b * 256 in
    [char (v / 262144); char (v / 4096 mod 64); char (v / 64 mod 64); x3d]
  | [a] =>
    let v := Z_of_byte a * 65536 in [char (v / 262144); char (v / 4096 mod 64); x3d; x3d]
  | [] => []
  end.

Lemma len_encode64 d : len (encode64 d) = 4 * ((len d + 2) / 3).
Proof.
  remember (length d) as n eqn:E. revert d E.
  induction (lt_wf n) as [n _ IH]. intros [|a [|b [|c d]]] ->; [done..|].
  cbn [encode64]. rewrite !length_cons. specialize (IH (length d)). rewrite !Nat2Z.inj_succ.
  rewrite (IH ltac:(simpl; lia) d eq_refl). dlia.
Qed.

#[export, refine] Instance base64 : Base64 := {|
  base64_encode n d := if len (encode64 d) <? n then (SUCCESS, encode64 d) else (NEG ENOMEM, []);
|}.
Proof.
  intros n d L. rewrite len_encode64, (proj2 (Z.ltb_lt _ _)) by done. split; [done|].
  apply len_encode64.
Defined.
End NativePsa.

Module NativeX509.

(** A certificate is its bytes: the first is the length of the serial number, which follows, and then
    the public key; it verifies against a CA certificate equal to its serial number. *)
#[export, refine] Instance x509 : X509 := {|
  mbedtls_x509_crt := list byte; mbedtls_ecp_keypair := list byte; mbedtls_x509_crt_init := [];
  mbedtls_x509_crt_parse _ d := match d with [] => (-1, []) | _ => (0, d) end;
  mbedtls_x509_crt_verify c ca _ :=
    if decide (ca = match c with n :: l => ztake (Z_of_byte n) l | [] => [] end) then 0 else -1;
  crt_serial c := match c with n :: l => ztake (Z_of_byte n) l | [] => [] end;
  mbedtls_pk_ec c := match c with n :: l => Some (zdrop (Z_of_byte n) l) | [] => None end;
  mbedtls_ecp_write_public_key k n := if len k <=? n then (0, k, len k) else (-1, [], len k);
|}.
Proof. intros k n N. destruct (Z.leb_spec (len k) n); simpl; lia. Defined.
End NativeX509.
