(* ===== verification/Cert.v ===== *)
(** Certificates: src/src/cert.c and the transport's certificate API
    (include/pouch/transport/certificate.h).

    The device's certificate and its reference, and the public key and serial number of the server,
    which are stored only from a certificate the CA vouches for. *)
From S2P Require Import Prelude Platform Buf Crypto Psa.

(** The configuration: Kconfig, and the contents of golioth_ca_cert.inc. [PUBKEY_LEN] is
    PSA_EXPORT_PUBLIC_KEY_MAX_SIZE. *)
Class CertConfig := {
  CONFIG_POUCH_VALIDATE_SERVER_CERT : bool;
  CONFIG_POUCH_SERVER_CERT_CN : list byte;
  golioth_ca_cert : list byte;
  PUBKEY_LEN : Z;
  PUBKEY_LEN_range : 1 ≤ PUBKEY_LEN < 65536;
}.

(** include/pouch/types.h: [None] is a NULL pointer. The bytes pointed to are the user's, and stay as
    they are. *)
Record pouch_cert := PouchCert { buffer : option (list byte); size : Z }.

(** pouch.h *)
Record pubkey := Pubkey { pk_data : list byte; pk_len : Z }.

Definition CERT_SERIAL_MAXLEN : Z := 20.
Definition CERT_REF_LEN : Z := 32.

(** Writing [w] at the start of an array. *)
Definition overwritten (w a : list byte) : list byte := w ++ zdrop (len w) a.

Definition array_write (w a : list byte) : outcome (list byte) :=
  guard (len w <=? len a);;
  OK (overwritten w a).

Section Cert.
Context {CC : CertConfig} {PS : Psa} {X : X509}.

Record device_info := DeviceInfo { certificate : pouch_cert; ref : list byte }.
Record server_info := ServerInfo { server_pubkey : pubkey; serial_data : list byte; serial_len : Z }.

Record cert_statics := CertStatics {
  device : device_info;
  server_cert : server_info;
  ca_cert : mbedtls_x509_crt;
  loaded : bool;
}.

Definition set_device d (s : cert_statics) : cert_statics :=
  CertStatics d (server_cert s) (ca_cert s) (loaded s).
Definition set_server_cert c (s : cert_statics) : cert_statics :=
  CertStatics (device s) c (ca_cert s) (loaded s).
Definition set_ca c l (s : cert_statics) : cert_statics :=
  CertStatics (device s) (server_cert s) c l.

Definition raw_ca_cert : list byte :=
  if CONFIG_POUCH_VALIDATE_SERVER_CERT then golioth_ca_cert else [].

Definition cert_is_valid (cert : option pouch_cert) : bool :=
  match cert with
  | Some cert => match buffer cert with Some _ => 0 <? size cert | None => false end
  | None => false
  end.

(** The bytes a valid certificate consists of. *)
Definition cert_load (cert : option pouch_cert) : outcome (list byte) :=
  cert ← of_ptr cert;
  b ← of_ptr (buffer cert);
  load b (size cert).

(** [out] is the object the certificate is parsed into. *)
Definition parse_x509_cert (cert : option pouch_cert) (out : mbedtls_x509_crt)
    : outcome (status * mbedtls_x509_crt) :=
  if negb (cert_is_valid cert) then OK (NEG EINVAL, out) else
  let out := mbedtls_x509_crt_init in
  d ← cert_load cert;
  let '(ret, out) := mbedtls_x509_crt_parse out d in
  OK (if negb (ret =? 0) then NEG EIO else SUCCESS, out).

Definition load_ca_cert : st cert_statics (option mbedtls_x509_crt) :=
  l ← gets loaded;
  c ← gets ca_cert;
  if (l : bool) then mret (Some c) else
  let ca_cert_data := PouchCert (Some raw_ca_cert) (len raw_ca_cert) in
  '(err, c) ← lift (parse_x509_cert (Some ca_cert_data) c);
  modify (set_ca c false);;
  match err with
  | Some _ => mret None
  | None => modify (set_ca c true);; mret (Some c)
  end.

Definition generate_ref (cert : option pouch_cert) (cert_ref : list byte)
    : outcome (status * list byte) :=
  d ← cert_load cert;
  let '(status, w, hash_length) := psa_hash_compute d CERT_REF_LEN in
  cert_ref ← array_write w cert_ref;
  OK (if negb (status =? PSA_SUCCESS) || negb (hash_length =? CERT_REF_LEN)
      then NEG EIO else SUCCESS, cert_ref).

Definition authenticate_server_cert (cert : mbedtls_x509_crt) : st cert_statics status :=
  ca_cert ← load_ca_cert;
  match ca_cert with
  | None => mret (NEG EIO)
  | Some ca_cert =>
    let ret := mbedtls_x509_crt_verify cert ca_cert CONFIG_POUCH_SERVER_CERT_CN in
    mret (if negb (ret =? 0) then NEG EPERM else SUCCESS)
  end.

Definition extract_pubkey (cert : mbedtls_x509_crt) (out : pubkey) : outcome (status * pubkey) :=
  match mbedtls_pk_ec cert with
  | None => OK (NEG EIO, out)
  | Some key =>
    let '(err, w, olen) := mbedtls_ecp_write_public_key key (len (pk_data out)) in
    d ← array_write w (pk_data out);
    OK (if negb (err =? 0) then NEG EIO else SUCCESS, Pubkey d olen)
  end.

Definition cert_device_set (cert : option pouch_cert) : st cert_statics status :=
  if negb (cert_is_valid cert) then mret (NEG EINVAL) else
  dev ← gets device;
  '(err, r) ← lift (generate_ref cert (ref dev));
  modify (set_device (DeviceInfo (certificate dev) r));;
  match err with
  | Some e => mret (NEG e)
  | None =>
    c ← lift (of_ptr cert);
    modify (set_device (DeviceInfo c r));;
    mret SUCCESS
  end.

(** [cert_chain] is a local variable; parsing initialises it. *)
Definition cert_server_set (certbuf : option pouch_cert) : st cert_statics status :=
  if negb (cert_is_valid certbuf) then mret (NEG EINVAL) else
  '(err, cert_chain) ← lift (parse_x509_cert certbuf mbedtls_x509_crt_init);
  match err with
  | Some e => mret (NEG e)
  | None =>
    err ← (if CONFIG_POUCH_VALIDATE_SERVER_CERT then authenticate_server_cert cert_chain
           else mret SUCCESS : st cert_statics status);
    match err with
    | Some e => mret (NEG e)
    | None =>
      sc ← gets server_cert;
      if len (serial_data sc) <? len (crt_serial cert_chain) then mret err else
      '(err, pk) ← lift (extract_pubkey cert_chain (server_pubkey sc));
      modify (set_server_cert (ServerInfo pk (serial_data sc) (serial_len sc)));;
      match err with
      | Some e => mret (NEG e)
      | None =>
        d ← lift (array_write (crt_serial cert_chain) (serial_data sc));
        modify (set_server_cert (ServerInfo pk d (len (crt_serial cert_chain))));;
        mret SUCCESS
      end
    end
  end.

Definition cert_ref_get (s : cert_statics) : option (list byte) :=
  if negb (cert_is_valid (Some (certificate (device s)))) then None else Some (ref (device s)).

Definition cert_server_key_get (s : cert_statics) : pubkey := server_pubkey (server_cert s).

Definition cert_has_server_info (s : cert_statics) : bool :=
  negb (pk_len (server_pubkey (server_cert s)) =? 0).

Definition pouch_server_certificate_set (cert : option pouch_cert) : st cert_statics status :=
  cert_server_set cert.

(** An error, or the bytes copied to the caller's buffer. *)
Definition pouch_server_certificate_serial_get (n : Z) (s : cert_statics)
    : outcome (errno + list byte) :=
  if n <? serial_len (server_cert s) then OK (inl EINVAL) else
  d ← load (serial_data (server_cert s)) (serial_len (server_cert s));
  OK (inr d).

Definition pouch_device_certificate_ref_get (n : Z) (s : cert_statics) : outcome (errno + list byte) :=
  if negb (cert_is_valid (Some (certificate (device s)))) || (len (ref (device s)) <? n)
  then OK (inl EINVAL)
  else d ← load (ref (device s)) n; OK (inr d).

Definition pouch_device_certificate_get (s : cert_statics) : errno + pouch_cert :=
  if negb (cert_is_valid (Some (certificate (device s)))) then inl ENOENT
  else inr (certificate (device s)).

(** The statics as the program starts. *)
Definition cert_boot (ca0 : mbedtls_x509_crt) : cert_statics :=
  CertStatics (DeviceInfo (PouchCert None 0) (replicate (Z.to_nat CERT_REF_LEN) x00))
    (ServerInfo (Pubkey (replicate (Z.to_nat PUBKEY_LEN) x00) 0)
       (replicate (Z.to_nat CERT_SERIAL_MAXLEN) x00) 0) ca0 false.

End Cert.

(** * What is stored *)

Section CertSpec.
Context {CC : CertConfig} {PS : Psa} {PL : PsaLaws PS} {X : X509}.
Implicit Types (s : cert_statics).

(** The CA certificate, if the build has one that parses. *)
Definition the_ca : option mbedtls_x509_crt :=
  if len raw_ca_cert =? 0 then None else
  let '(ret, c) := mbedtls_x509_crt_parse mbedtls_x509_crt_init raw_ca_cert in
  if ret =? 0 then Some c else None.

(** The certificate in the bytes [d], if the device may trust it. *)
Definition judge (d : list byte) : errno + mbedtls_x509_crt :=
  let '(ret, c) := mbedtls_x509_crt_parse mbedtls_x509_crt_init d in
  if negb (ret =? 0) then inl EIO else
  if CONFIG_POUCH_VALIDATE_SERVER_CERT then
    match the_ca with
    | None => inl EIO
    | Some ca =>
      if mbedtls_x509_crt_verify c ca CONFIG_POUCH_SERVER_CERT_CN =? 0 then inr c else inl EPERM
    end
  else inr c.

Record cert_inv s : Prop := {
  ci_ref : len (ref (device s)) = CERT_REF_LEN;
  ci_key : len (pk_data (server_pubkey (server_cert s))) = PUBKEY_LEN;
  ci_serial : len (serial_data (server_cert s)) = CERT_SERIAL_MAXLEN;
  ci_serial_len : 0 ≤ serial_len (server_cert s) ≤ CERT_SERIAL_MAXLEN;
  ci_ca : loaded s = true → the_ca = Some (ca_cert s);
}.

Lemma cert_boot_inv ca0 : cert_inv (cert_boot ca0).
Proof.
  pose proof PUBKEY_LEN_range. split; unfold cert_boot, CERT_REF_LEN, CERT_SERIAL_MAXLEN in *; simpl;
    try done; solve_len.
Qed.

Lemma array_write_fits w a : len w ≤ len a → array_write w a = OK (overwritten w a).
Proof. intros L. unfold array_write. by rewrite guard_true by (apply Z.leb_le; lia). Qed.

Lemma len_array_write w a : len w ≤ len a → len (overwritten w a) = len a.
Proof. intros. unfold overwritten. solve_len. Qed.

Lemma raw_ca_valid :
  cert_is_valid (Some (PouchCert (Some raw_ca_cert) (len raw_ca_cert))) = negb (len raw_ca_cert =? 0).
Proof. simpl. destruct (Z.ltb_spec 0 (len raw_ca_cert)), (Z.eqb_spec (len raw_ca_cert) 0); lia. Qed.

Lemma cert_load_all d : cert_load (Some (PouchCert (Some d) (len d))) = OK d.
Proof. apply (load_all d). Qed.

(** Loading the CA is a cache of [the_ca]. *)
Lemma load_ca_cert_run s :
  cert_inv s →
  ∃ c l, load_ca_cert s = OK (the_ca, set_ca c l s) ∧ (l = true → the_ca = Some c).
Proof.
  intros I. pose proof (ci_ca s I) as Ca. unfold load_ca_cert. run_st.
  destruct (loaded s) eqn:L.
  { exists (ca_cert s), true. rewrite (Ca eq_refl). split; [|done]. destruct s; simpl in *. by subst. }
  unfold parse_x509_cert, the_ca. rewrite raw_ca_valid, cert_load_all.
  destruct (len raw_ca_cert =? 0); cbn [negb].
  { by exists (ca_cert s), false. }
  rewrite bind_OK.
  destruct (mbedtls_x509_crt_parse _ _) as [ret c]. destruct (ret =? 0); cbn [negb].
  - by exists c, true.
  - by exists c, false.
Qed.

Lemma set_ca_inv s c l : cert_inv s → (l = true → the_ca = Some c) → cert_inv (set_ca c l s).
Proof. by intros [] ?. Qed.

(** Authentication, or its absence in a build without it. *)
Lemma authenticate_run s d c :
  cert_inv s → mbedtls_x509_crt_parse mbedtls_x509_crt_init d = (0, c) →
  ∃ c2 l, (if CONFIG_POUCH_VALIDATE_SERVER_CERT then authenticate_server_cert c
           else mret SUCCESS : st cert_statics status) s
      = OK (match judge d with inl e => NEG e | inr _ => SUCCESS end, set_ca c2 l s)
    ∧ cert_inv (set_ca c2 l s) ∧ (∀ c', judge d = inr c' → c' = c).
Proof.
  intros I P. unfold judge. rewrite P. simpl negb. cbv iota.
  destruct CONFIG_POUCH_VALIDATE_SERVER_CERT.
  - destruct (load_ca_cert_run s I) as (c2 & l & E & L). exists c2, l.
    unfold authenticate_server_cert. rewrite (st_bind_OK _ _ _ _ _ E).
    split_and!; [|by apply set_ca_inv|].
    + destruct the_ca as [ca|]; [|done]. by destruct (mbedtls_x509_crt_verify _ _ _ =? 0).
    + intros c'. destruct the_ca as [ca|]; [|done].
      destruct (mbedtls_x509_crt_verify _ _ _ =? 0); congruence.
  - exists (ca_cert s), (loaded s). destruct s; split_and!; [done|done|congruence].
Qed.

(** What [cert_server_set] does to the stored information, given the certificate's bytes. *)
Definition stored (d : list byte) (old : server_info) (err : status) (new : server_info) : Prop :=
  match judge d with
  | inl e => err = NEG e ∧ new = old
  | inr c =>
    if CERT_SERIAL_MAXLEN <? len (crt_serial c) then err = SUCCESS ∧ new = old else
    match mbedtls_pk_ec c with
    | None => err = NEG EIO ∧ new = old
    | Some key =>
      let '(ret, w, n) := mbedtls_ecp_write_public_key key PUBKEY_LEN in
      server_pubkey new = Pubkey (overwritten w (pk_data (server_pubkey old))) n
      ∧ (if ret =? 0 then err = SUCCESS ∧ ztake (serial_len new) (serial_data new) = crt_serial c
         else err = NEG EIO ∧ serial_len new = serial_len old ∧ serial_data new = serial_data old)
    end
  end.

Lemma server_set_run s cert d :
  cert_inv s → cert_is_valid cert = true → cert_load cert = OK d →
  ∃ err s', cert_server_set cert s = OK (err, s') ∧ cert_inv s' ∧ device s' = device s
    ∧ stored d (server_cert s) err (server_cert s').
Proof.
  intros I V Ld. unfold cert_server_set. rewrite V. cbn [negb].
  destruct (mbedtls_x509_crt_parse mbedtls_x509_crt_init d) as [ret c] eqn:P.
  rewrite (st_bind_OK _ _ s (if negb (ret =? 0) then NEG EIO else SUCCESS, c) s).
  2:{ unfold lift, parse_x509_cert. rewrite V, Ld. cbn [negb]. by rewrite bind_OK, P. }
  unfold stored. destruct (Z.eqb_spec ret 0) as [->|R]; cbn [negb]; cbv iota.
  2:{ unfold judge. rewrite P, (proj2 (Z.eqb_neq ret 0) R). by exists (NEG EIO), s. }
  destruct (authenticate_run s d c I P) as (c2 & l & E & I2 & Ec).
  rewrite (st_bind_OK _ _ _ _ _ E). destruct (judge d) as [e|c'] eqn:J.
  { exists (NEG e), (set_ca c2 l s). by split_and!. }
  rewrite <- (Ec c' eq_refl) in *. clear c Ec P. rename c' into c.
  destruct I2 as [Ir Ik Is Il Ica]. simpl in *. run_st. simpl. rewrite Is.
  destruct (Z.ltb_spec CERT_SERIAL_MAXLEN (len (crt_serial c))) as [L|L].
  { exists SUCCESS, (set_ca c2 l s). by split_and!. }
  unfold extract_pubkey. rewrite Ik. destruct (mbedtls_pk_ec c) as [key|].
  2:{ eexists _, _. split; [reflexivity|]. split_and!; try done. by destruct (server_cert s). }
  assert (0 ≤ PUBKEY_LEN) as N0 by (pose proof PUBKEY_LEN_range; lia).
  pose proof (write_public_key_spec key PUBKEY_LEN N0) as [W _].
  destruct (mbedtls_ecp_write_public_key key PUBKEY_LEN) as [[r w] n]. simpl in W.
  rewrite array_write_fits by lia. rewrite bind_OK.
  pose proof (len_array_write w (pk_data (server_pubkey (server_cert s))) ltac:(lia)) as Lk.
  destruct (r =? 0); simpl.
  - rewrite array_write_fits by lia.
    pose proof (len_array_write (crt_serial c) (serial_data (server_cert s)) ltac:(lia)) as Ls.
    eexists _, _. split; [reflexivity|]. split_and!; simpl; [|done|done|done|].
    + split; simpl; try done; lia.
    + unfold overwritten. by rewrite take_app_exact by lia.
  - eexists _, _. split; [reflexivity|]. split_and!; simpl; try done. split; simpl; done || lia.
Qed.

(** ** The server's key and serial number *)

(** A certificate of the CA's, whose key is stored. *)
Definition authentic (pk : pubkey) (d : list byte) : Prop :=
  ∃ c key ret w n old, judge d = inr c ∧ mbedtls_pk_ec c = Some key
    ∧ mbedtls_ecp_write_public_key key PUBKEY_LEN = (ret, w, n) ∧ pk = Pubkey (overwritten w old) n.

Lemma stored_authentic d old err new :
  stored d old err new → server_pubkey new = server_pubkey old ∨ authentic (server_pubkey new) d.
Proof.
  unfold stored, authentic. destruct (judge d) as [e|c]; [intros [_ ->]; by left|].
  destruct (_ <? _); [intros [_ ->]; by left|].
  destruct (mbedtls_pk_ec c) as [key|] eqn:K; [|intros [_ ->]; by left].
  destruct (mbedtls_ecp_write_public_key key PUBKEY_LEN) as [[ret w] n] eqn:W.
  intros [E _]. right. eauto 12.
Qed.

(** The certificates the transport sets one after the other. *)
Fixpoint set_all (cs : list pouch_cert) : st cert_statics unit :=
  match cs with [] => mret tt | c :: cs => pouch_server_certificate_set (Some c);; set_all cs end.

Definition readable (c : pouch_cert) : Prop :=
  cert_is_valid (Some c) = true → is_OK (cert_load (Some c)).

Lemma set_all_run cs : ∀ s, cert_inv s → Forall readable cs →
  ∃ s', set_all cs s = OK (tt, s') ∧ cert_inv s' ∧ device s' = device s
    ∧ (cert_server_key_get s' = cert_server_key_get s
       ∨ ∃ c d, c ∈ cs ∧ cert_load (Some c) = OK d ∧ authentic (cert_server_key_get s') d).
Proof.
  induction cs as [|c cs IH]; intros s I R; cbn [set_all].
  { exists s. split_and!; try done. by left. }
  apply Forall_cons in R as [Rc R]. unfold pouch_server_certificate_set.
  destruct (cert_is_valid (Some c)) eqn:V.
  - destruct (Rc V) as [d Ld].
    destruct (server_set_run s (Some c) d I V Ld) as (err & s1 & E & I1 & D1 & S).
    rewrite (st_bind_OK _ _ _ _ _ E). destruct (IH s1 I1 R) as (s2 & -> & I2 & D2 & A).
    exists s2. split_and!; [done|done|congruence|].
    destruct A as [A|(c' & d' & In & L' & A)].
    + unfold cert_server_key_get in *. rewrite A.
      destruct (stored_authentic _ _ _ _ S) as [->|B]; [by left|]. right. exists c, d.
      split_and!; [by left|done|done].
    + right. exists c', d'. split_and!; [by right|done|done].
  - unfold cert_server_set. rewrite V. cbn [negb]. rewrite (st_bind_OK _ _ s (NEG EINVAL) s) by done.
    destruct (IH s I R) as (s2 & -> & I2 & D2 & A). exists s2. split_and!; try done.
    destruct A as [A|(c' & d' & In & L' & A)]; [by left|]. right. exists c', d'.
    split_and!; [by right|done|done].
Qed.

(** C24: whatever certificates the transport sets, one after the other, no access leaves its object and,
    if the device then has a server key at all, it is the key of one of these certificates that
    parses and that, unless the build disables validation, verifies against the built-in CA under the
    configured common name. *)
Theorem server_key_authentic cs ca0 :
  Forall readable cs →
  ∃ s, set_all cs (cert_boot ca0) = OK (tt, s) ∧ cert_inv s
    ∧ (cert_has_server_info s = true →
       ∃ c d, c ∈ cs ∧ cert_load (Some c) = OK d ∧ authentic (cert_server_key_get s) d).
Proof.
  intros R. destruct (set_all_run cs (cert_boot ca0) (cert_boot_inv ca0) R) as (s & E & I & _ & A).
  exists s. split_and!; [done|done|]. intros H. destruct A as [A|A]; [|done].
  unfold cert_has_server_info, cert_server_key_get in *. by rewrite A in H.
Qed.

(** Setting the server certificate, in every case: a certificate that is absent, empty, not parsed or
    not trusted is refused and changes nothing the transport can read; one that is trusted has its
    key stored, and its serial number, which can be read back; one whose serial number is too long is
    reported as a success but not stored. *)
Theorem cert_server_set_spec s cert :
  cert_inv s →
  (cert_is_valid cert = false → cert_server_set cert s = OK (NEG EINVAL, s)) ∧
  (∀ d, cert_is_valid cert = true → cert_load cert = OK d →
   ∃ err s', cert_server_set cert s = OK (err, s') ∧ cert_inv s' ∧ device s' = device s
     ∧ (∀ e, judge d = inl e → err = NEG e ∧ server_cert s' = server_cert s)
     ∧ (∀ c, judge d = inr c → CERT_SERIAL_MAXLEN < len (crt_serial c) →
         err = SUCCESS ∧ server_cert s' = server_cert s)
     ∧ (∀ c key w n, judge d = inr c → len (crt_serial c) ≤ CERT_SERIAL_MAXLEN →
         mbedtls_pk_ec c = Some key → mbedtls_ecp_write_public_key key PUBKEY_LEN = (0, w, n) →
         err = SUCCESS
         ∧ ztake (pk_len (cert_server_key_get s')) (pk_data (cert_server_key_get s')) = w
         ∧ pouch_server_certificate_serial_get CERT_SERIAL_MAXLEN s' = OK (inr (crt_serial c)))).
Proof.
  intros I. split; [intros V; unfold cert_server_set; by rewrite V|].
  intros d V Ld. destruct (server_set_run s cert d I V Ld) as (err & s' & E & I' & D & S).
  exists err, s'. unfold stored in S. split_and!; [done..| | |].
  - intros e J. by rewrite J in S.
  - intros c J L. rewrite J, (proj2 (Z.ltb_lt _ _) L) in S. done.
  - intros c key w n J L K W. rewrite J, (proj2 (Z.ltb_ge _ _) L), K, W in S. simpl in S.
    destruct S as (Sk & -> & Ss). split; [done|].
    assert (0 ≤ PUBKEY_LEN) as N0 by (pose proof PUBKEY_LEN_range; lia).
    pose proof (write_public_key_spec key PUBKEY_LEN N0) as [_ Wn]. rewrite W in Wn. simpl in Wn.
    unfold cert_server_key_get, pouch_server_certificate_serial_get. rewrite Sk. simpl. split.
    + unfold overwritten. rewrite take_app_exact by (rewrite <- Wn by done; lia). done.
    + destruct I' as [_ _ Is Il _]. rewrite (proj2 (Z.ltb_ge _ _)) by lia.
      unfold load. rewrite guard_true by (rewrite andb_true_iff, !Z.leb_le; lia).
      by rewrite bind_OK, Ss.
Qed.

(** The device's certificate: one that is absent or empty, or that cannot be hashed, is refused;
    otherwise its reference is its SHA-256 hash, of which a prefix of any length up to 32 is handed
    out, and the certificate itself is handed to the transport as it was set. *)
Theorem cert_device_set_spec s cert :
  cert_inv s →
  (cert_is_valid cert = false → cert_device_set cert s = OK (NEG EINVAL, s)) ∧
  (∀ c d, cert = Some c → cert_is_valid cert = true → cert_load cert = OK d →
   let '(status, w, hash_length) := psa_hash_compute d CERT_REF_LEN in
   ∃ err s', cert_device_set cert s = OK (err, s') ∧ cert_inv s' ∧ server_cert s' = server_cert s
     ∧ (err = SUCCESS ↔ status = PSA_SUCCESS ∧ hash_length = CERT_REF_LEN)
     ∧ (err ≠ SUCCESS → certificate (device s') = certificate (device s))
     ∧ (err = SUCCESS →
        cert_ref_get s' = Some w ∧ pouch_device_certificate_get s' = inr c
        ∧ ∀ n, 0 ≤ n ≤ CERT_REF_LEN →
            pouch_device_certificate_ref_get n s' = OK (inr (ztake n w)))).
Proof.
  intros I. split; [intros V; unfold cert_device_set; by rewrite V|].
  intros c d -> V Ld. pose proof (hash_compute_fits d CERT_REF_LEN ltac:(done)) as [F1 F2].
  destruct (psa_hash_compute d CERT_REF_LEN) as [[status w] hl] eqn:H. simpl in F1, F2.
  destruct I as [Ir Ik Is Il Ica].
  pose proof (len_array_write w (ref (device s)) ltac:(lia)) as Lw.
  assert (generate_ref (Some c) (ref (device s)) =
    OK (if negb (status =? PSA_SUCCESS) || negb (hl =? CERT_REF_LEN) then NEG EIO else SUCCESS,
        overwritten w (ref (device s)))) as G.
  { unfold generate_ref. rewrite Ld, bind_OK, H. by rewrite array_write_fits by lia. }
  unfold cert_device_set. rewrite V. cbn [negb].
  rewrite (st_bind_OK _ _ s (device s) s) by done.
  rewrite (st_bind_OK _ _ s _ s) by (unfold lift; by rewrite G). clear G. run_st.
  destruct (Z.eqb_spec status PSA_SUCCESS) as [->|N1]; cbn [negb orb].
  2:{ eexists _, _. split; [reflexivity|]. split_and!; [split; simpl; done || lia|done| |done|done].
      split; [done|by intros [? ?]]. }
  destruct (Z.eqb_spec hl CERT_REF_LEN) as [->|N2]; cbn [negb].
  2:{ eexists _, _. split; [reflexivity|]. split_and!; [split; simpl; done || lia|done| |done|done].
      split; [done|by intros [? ?]]. }
  eexists _, _. split; [reflexivity|]. split_and!; [split; simpl; done || lia|done|done|done|].
  intros _. specialize (F2 eq_refl).
  assert (overwritten w (ref (device s)) = w) as Ew.
  { unfold overwritten. rewrite (zdrop_all (ref (device s))) by lia. apply app_nil_r. }
  unfold cert_ref_get, pouch_device_certificate_get, pouch_device_certificate_ref_get.
  cbn [device set_device certificate ref]. rewrite V, Ew. split_and!; [done|done|].
  intros n Hn. cbn [negb orb]. rewrite (proj2 (Z.ltb_ge _ _)) by lia.
  unfold load. by rewrite guard_true by (rewrite andb_true_iff, !Z.leb_le; lia).
Qed.

End CertSpec.

Module CertWitness.
#[local] Existing Instances NativePsa.psa NativePsa.psa_laws NativeX509.x509.

(** A build whose CA is [[x01; x02]]. *)
#[refine, local] Instance cc : CertConfig := {|
  CONFIG_POUCH_VALIDATE_SERVER_CERT := true; CONFIG_POUCH_SERVER_CERT_CN := [];
  golioth_ca_cert := [x01; x02]; PUBKEY_LEN := 4;
|}.
Proof. lia. Defined.

(** Serial number [[x01; x02]], key [[x07; x08]]; and a certificate of no CA. *)
Definition ex_bytes : list byte := [x02; x01; x02; x07; x08].
Definition ex_cert : pouch_cert := PouchCert (Some ex_bytes) 5.
Definition ex_forged : pouch_cert := PouchCert (Some [x02; x09; x02; x07; x08]) 5.

Example ex_set :
  (let '(e1, s1) := match cert_server_set (Some ex_forged) (cert_boot []) with
                    | OK r => r | Fault => (SUCCESS, cert_boot []) end in
   let '(e2, s2) := match cert_server_set (Some ex_cert) s1 with
                    | OK r => r | Fault => (NEG EIO, s1) end in
   (e1, cert_has_server_info s1, e2, cert_server_key_get s2))
  = (NEG EPERM, false, SUCCESS, Pubkey [x07; x08; x00; x00] 2).
Proof. reflexivity. Qed.

Lemma ex_readable : Forall readable [ex_forged; ex_cert].
Proof. repeat constructor; intros _; by eexists. Qed.

Lemma server_key_authentic_witness :
  Forall readable [ex_forged; ex_cert] ∧
  ∃ s, set_all [ex_forged; ex_cert] (cert_boot []) = OK (tt, s) ∧ cert_inv s
    ∧ (cert_has_server_info s = true →
       ∃ c d, c ∈ [ex_forged; ex_cert] ∧ cert_load (Some c) = OK d
         ∧ authentic (cert_server_key_get s) d).
Proof.
  split; [exact ex_readable|]. exact (server_key_authentic [ex_forged; ex_cert] [] ex_readable).
Defined.

Lemma cert_server_set_spec_witness :
  ∃ s, cert_server_set (Some ex_cert) (cert_boot []) = OK (SUCCESS, s)
    ∧ pouch_server_certificate_serial_get 20 s = OK (inr [x01; x02]).
Proof.
  pose proof (proj2 (cert_server_set_spec (cert_boot []) (Some ex_cert) (cert_boot_inv []))
    ex_bytes eq_refl eq_refl) as (err & s & E & _ & _ & _ & _ & K).
  destruct (K ex_bytes [x07; x08] [x07; x08] 2 eq_refl ltac:(by vm_compute) eq_refl eq_refl)
    as (-> & _ & Sn).
  exists s. split; [exact E|exact Sn].
Defined.

Lemma cert_device_set_spec_witness :
  ∃ s, cert_device_set (Some ex_cert) (cert_boot []) = OK (SUCCESS, s)
    ∧ pouch_device_certificate_get s = inr ex_cert.
Proof.
  pose proof (proj2 (cert_device_set_spec (cert_boot []) (Some ex_cert) (cert_boot_inv []))
    ex_cert ex_bytes eq_refl eq_refl eq_refl) as (err & s & E & _ & _ & Ok & _ & K).
  assert (err = SUCCESS) as -> by (apply Ok; by split).
  exists s. split; [exact E|]. exact (proj1 (proj2 (K eq_refl))).
Defined.
End CertWitness.
