(* ===== verification/Credentials.v ===== *)
(** The credentials of the example application: src/examples/ble_gatt/src/credentials.c.

    The device's certificate and private key are read from files; the key is imported into PSA. The
    file system and the key parser of Mbed TLS are classes; [NativeFs] and [NativePk] are instances. *)
From S2P Require Import Prelude Platform Buf Block Crypto Psa Cert.

(** * File system: <zephyr/fs/fs.h> *)

Inductive fs_dir_entry_type := FS_DIR_ENTRY_FILE | FS_DIR_ENTRY_DIR.

#[export] Instance fs_dir_entry_type_eq_dec : EqDecision fs_dir_entry_type.
Proof. solve_decision. Defined.

Record fs_dirent := FsDirent { fs_type : fs_dir_entry_type; fs_size : Z }.

(** [fs_content] is what a regular file holds, [fs_left] what is left to read of an open one and
    [fs_opened] how many are open. *)
Class FileSystem := {
  fs_state : Type;
  fs_file_t : Type;
  fs_content : fs_state → list byte → option (list byte);
  fs_left : fs_state → fs_file_t → list byte;
  fs_opened : fs_state → Z;
  fs_stat : list byte → fs_state → errno + fs_dirent;
  fs_mkdir : list byte → fs_state → status * fs_state;
  fs_open : list byte → fs_state → (errno + fs_file_t) * fs_state;
  fs_read : fs_file_t → Z → fs_state → (errno + list byte) * fs_state;
  fs_close : fs_file_t → fs_state → fs_state;
  stat_size p s d : fs_stat p s = inr d → 0 ≤ fs_size d < 2147483648;
  stat_content p s d : fs_content s p = Some d → fs_stat p s = inr (FsDirent FS_DIR_ENTRY_FILE (len d));
  mkdir_content q p s d : fs_content s p = Some d → fs_content (fs_mkdir q s).2 p = Some d;
  mkdir_opened q s : fs_opened (fs_mkdir q s).2 = fs_opened s;
  open_failed p s e : (fs_open p s).1 = inl e → fs_opened (fs_open p s).2 = fs_opened s;
  open_opened p s f : (fs_open p s).1 = inr f → fs_opened (fs_open p s).2 = fs_opened s + 1;
  open_left p s f d : (fs_open p s).1 = inr f → fs_content s p = Some d → fs_left (fs_open p s).2 f = d;
  read_left f n s d : (fs_read f n s).1 = inr d → d = ztake n (fs_left s f);
  read_opened f n s : fs_opened (fs_read f n s).2 = fs_opened s;
  close_opened f s : fs_opened (fs_close f s) = fs_opened s - 1;
  mkdir_stat q p s : p ≠ q → fs_stat p (fs_mkdir q s).2 = fs_stat p s;
  open_stat q p s : fs_stat p (fs_open q s).2 = fs_stat p s;
  read_stat f n p s : fs_stat p (fs_read f n s).2 = fs_stat p s;
  close_stat f p s : fs_stat p (fs_close f s) = fs_stat p s;
  open_content q p s : fs_content (fs_open q s).2 p = fs_content s p;
  read_content f n p s : fs_content (fs_read f n s).2 p = fs_content s p;
  close_content f p s : fs_content (fs_close f s) p = fs_content s p;
}.

(** * Private keys: <mbedtls/pk.h> *)

(** The parser is given the key and a random generator. [pk_owned] counts the memory a context owns,
    which [mbedtls_pk_free] releases: a parsed key is in such memory. *)
Class Pk {PS : Psa} := {
  mbedtls_pk_context : Type;
  mbedtls_pk_init : mbedtls_pk_context;
  mbedtls_pk_parse_key : mbedtls_pk_context → list byte →
    (Z → psa_state → psa_status_t * list byte * psa_state) → psa_state →
    Z * mbedtls_pk_context * psa_state;
  mbedtls_pk_import_into_psa : mbedtls_pk_context → psa_key_attributes_t → psa_state →
    psa_status_t * psa_key_id_t * psa_state;
  pk_owned : mbedtls_pk_context → Z;
  init_owned : pk_owned mbedtls_pk_init = 0;
  parse_owned d rng p :
    let '(err, pk, _) := mbedtls_pk_parse_key mbedtls_pk_init d rng p in
    0 ≤ pk_owned pk ∧ (err = 0 → 0 < pk_owned pk);
  import_valid pk attrs p k : (mbedtls_pk_import_into_psa pk attrs p).1 = (0, k) → k ≠ PSA_KEY_ID_NULL;
}.
Arguments Pk : clear implicits.

(** CONFIG_EXAMPLE_CREDENTIALS_DIR *)
Class CredentialsConfig := { CERT_DIR : list byte }.

Section Credentials.
Context {PS : Psa} {FS : FileSystem} {PK : Pk PS} {CD : CredentialsConfig}.

Definition CERT_FILE : list byte := CERT_DIR ++ ["/"; "c"; "r"; "t"; "."; "d"; "e"; "r"]%byte.
Definition KEY_FILE : list byte := CERT_DIR ++ ["/"; "k"; "e"; "y"; "."; "d"; "e"; "r"]%byte.

(** [cr_live] counts what is allocated here and not yet freed: the buffers, and the memory of contexts. *)
Record cred := Cred { cr_fs : fs_state; cr_psa : psa_state; cr_heap : heap; cr_live : Z }.

#[export, refine] Instance cred_fs : Part cred fs_state :=
  {| part_get := cr_fs; part_set f c := Cred f (cr_psa c) (cr_heap c) (cr_live c) |}.
Proof. done. Defined.

(** [malloc] of a file's contents, and [free]. *)
Definition buffer_malloc : st cred bool := λ c,
  '(ok, h) ← malloc (cr_heap c);
  OK (ok, Cred (cr_fs c) (cr_psa c) h (if (ok : bool) then cr_live c + 1 else cr_live c)).

Definition buffer_free : st cred unit :=
  modify (λ c, Cred (cr_fs c) (cr_psa c) (cr_heap c) (cr_live c - 1)).

(** A call that changes the file system. *)
Definition fs_do {R} (f : fs_state → R * fs_state) : st cred R := zoom (λ s, OK (f s)).

Definition psa_rng_for_mbedtls (output_len : Z) (p : psa_state) : psa_status_t * list byte * psa_state :=
  psa_generate_random output_len p.

(** What the parser allocates for [pk] is still allocated when [pk] goes out of scope. *)
Definition import_raw_pk (private_key : list byte) (size : Z) : st cred psa_key_id_t := λ c,
  d ← load private_key size;
  let '(err, pk, p) := mbedtls_pk_parse_key mbedtls_pk_init d psa_rng_for_mbedtls (cr_psa c) in
  let live := cr_live c + pk_owned pk - pk_owned mbedtls_pk_init in
  if negb (err =? 0) then OK (PSA_KEY_ID_NULL, Cred (cr_fs c) p (cr_heap c) live) else
  let attrs := PsaKeyAttributes PSA_KEY_TYPE_ECC_KEY_PAIR_SECP_R1 (psa_key_bits PSA_KEY_ATTRIBUTES_INIT)
                 PSA_ALG_ECDH PSA_KEY_USAGE_DERIVE in
  let '(err, key_id, p) := mbedtls_pk_import_into_psa pk attrs p in
  OK (if negb (err =? 0) then PSA_KEY_ID_NULL else key_id, Cred (cr_fs c) p (cr_heap c) live).

(** A failure is only logged. *)
Definition ensure_credentials_dir : st cred unit :=
  r ← gets (λ c, fs_stat CERT_DIR (cr_fs c));
  match r with
  | inl ENOENT => fs_do (fs_mkdir CERT_DIR);; mret tt
  | _ => mret tt
  end.

Definition get_file_size (path : list byte) : st cred (errno + Z) :=
  gets (λ c,
    match fs_stat path (cr_fs c) with
    | inl e => inl e
    | inr dirent =>
      if decide (fs_type dirent ≠ FS_DIR_ENTRY_FILE) then inl EISDIR else inr (i32 (fs_size dirent))
    end).

(** The size or the error, and what [*out] is set to: [None] when it is left alone. *)
Definition read_file (path : list byte) : st cred ((errno + Z) * option (list byte)) :=
  ensure_credentials_dir;;
  size ← get_file_size path;
  match size with
  | inl e => mret (inl e, None)
  | inr size =>
    if size <=? 0 then mret (inr size, None) else
    buf ← buffer_malloc;
    if negb buf then mret (inl ENOMEM, None) else
    file ← fs_do (fs_open path);
    match file with
    | inl err => buffer_free;; mret (inl err, None)
    | inr file =>
      size ← fs_do (fs_read file size);
      '(size, out) ←
        (match size with
         | inl e => buffer_free;; mret (inl e, None)
         | inr d => mret (inr (len d), Some d)
         end);
      fs_do (λ s, (tt, fs_close file s));;
      mret (size, out)
    end
  end.

(** [buf] has no value before [read_file] gives it one. *)
Definition load_private_key : st cred psa_key_id_t :=
  '(size, buf) ← read_file KEY_FILE;
  match size with
  | inl _ => mret PSA_KEY_ID_NULL
  | inr size =>
    buf ← lift (of_ptr buf);
    key_id ← import_raw_pk buf size;
    buffer_free;;
    mret key_id
  end.

Definition load_certificate (cert : pouch_cert) : st cred (status * pouch_cert) :=
  '(size, buf) ← read_file CERT_FILE;
  match size with
  | inl e => mret (NEG e, cert)
  | inr size => buf ← lift (of_ptr buf); mret (SUCCESS, PouchCert (Some buf) size)
  end.

Definition free_certificate (cert : pouch_cert) : st cred unit :=
  match buffer cert with Some _ => buffer_free | None => mret tt end.

(** * What is read *)

Implicit Types (c : cred) (p d : list byte).

(** The directory is made if it is not there; nothing else changes. *)
Definition ensured c : cred :=
  match fs_stat CERT_DIR (cr_fs c) with
  | inl ENOENT => part_set (fs_mkdir CERT_DIR (cr_fs c)).2 c
  | _ => c
  end.

Lemma ensure_run c : ensure_credentials_dir c = OK (tt, ensured c).
Proof.
  unfold ensure_credentials_dir, ensured. run_st. destruct (fs_stat CERT_DIR (cr_fs c)) as [[]|]; try done.
  unfold fs_do, zoom. cbn. by destruct (fs_mkdir CERT_DIR (cr_fs c)).
Qed.

Lemma ensured_content c p d :
  fs_content (cr_fs c) p = Some d → fs_content (cr_fs (ensured c)) p = Some d.
Proof.
  unfold ensured. destruct (fs_stat CERT_DIR (cr_fs c)) as [[]|]; try done. apply mkdir_content.
Qed.

(** Nothing is open that was not before, [k] more allocations are live, and the files are as they
    were. *)
Record released (k : Z) c c' : Prop := {
  rl_opened : fs_opened (cr_fs c') = fs_opened (cr_fs c);
  rl_live : cr_live c' = cr_live c + k;
  rl_stat p : p ≠ CERT_DIR → fs_stat p (cr_fs c') = fs_stat p (cr_fs c);
  rl_content p d : fs_content (cr_fs c) p = Some d → fs_content (cr_fs c') p = Some d;
  rl_malloc : malloc_ok (cr_heap c') = malloc_ok (cr_heap c);
  rl_bufs : bufs (cr_heap c') = bufs (cr_heap c);
}.

Lemma released_trans i j k c1 c2 c3 : released i c1 c2 → released j c2 c3 → k = i + j → released k c1 c3.
Proof.
  intros [O1 L1 S1 C1 M1 B1] [O2 L2 S2 C2 M2 B2] ->.
  split; [congruence|lia| |auto|congruence..]. intros p N. by rewrite S2, S1.
Qed.

(** Only the heap and PSA changed. *)
Lemma released_same k c c' :
  cr_fs c' = cr_fs c → cr_live c' = cr_live c + k → malloc_ok (cr_heap c') = malloc_ok (cr_heap c) →
  bufs (cr_heap c') = bufs (cr_heap c) → released k c c'.
Proof. intros F L M B. split; try done; by rewrite F. Qed.

Lemma ensured_released c : released 0 c (ensured c).
Proof.
  unfold ensured. destruct (fs_stat CERT_DIR (cr_fs c)) as [[]|]; try (apply released_same; solve [done|simpl; lia]);
    split; simpl; [apply mkdir_opened|lia|intros; by apply mkdir_stat|intros; by apply mkdir_content|done..].
Qed.

Lemma fs_do_run {R} (f : fs_state → R * fs_state) c :
  fs_do f c = OK ((f (cr_fs c)).1, part_set (f (cr_fs c)).2 c).
Proof. unfold fs_do, zoom. cbn. by destruct (f (cr_fs c)). Qed.

Lemma buffer_malloc_run c : ∃ (b : bool) (h : heap),
  buffer_malloc c = OK (b, Cred (cr_fs c) (cr_psa c) h (if b then cr_live c + 1 else cr_live c))
  ∧ malloc_ok (cr_heap c) (malloc_n (cr_heap c)) = b
  ∧ malloc_ok h = malloc_ok (cr_heap c) ∧ bufs h = bufs (cr_heap c).
Proof. by do 2 eexists. Qed.

(** What holds of the files while some are open. *)
Definition files_same (s s' : fs_state) : Prop :=
  (∀ p, fs_stat p s' = fs_stat p s) ∧ ∀ p, fs_content s' p = fs_content s p.

Lemma files_same_trans s1 s2 s3 : files_same s1 s2 → files_same s2 s3 → files_same s1 s3.
Proof. intros [A B] [A' B']. split; intros; by rewrite ?A', ?B'. Qed.

Lemma open_same p s : files_same s (fs_open p s).2.
Proof. split; intros; [apply open_stat|apply open_content]. Qed.
Lemma read_same f n s : files_same s (fs_read f n s).2.
Proof. split; intros; [apply read_stat|apply read_content]. Qed.
Lemma close_same f s : files_same s (fs_close f s).
Proof. split; intros; [apply close_stat|apply close_content]. Qed.

Lemma released_files k c c' :
  files_same (cr_fs c) (cr_fs c') → fs_opened (cr_fs c') = fs_opened (cr_fs c) →
  cr_live c' = cr_live c + k → malloc_ok (cr_heap c') = malloc_ok (cr_heap c) →
  bufs (cr_heap c') = bufs (cr_heap c) → released k c c'.
Proof. intros [S C]. split; try done; intros; by rewrite ?S, ?C. Qed.

(** The path names an empty file. *)
Definition empty_file p c : Prop :=
  fs_stat p (cr_fs (ensured c)) = inr (FsDirent FS_DIR_ENTRY_FILE 0).

(** The file system's calls succeed where they can. *)
Record healthy : Prop := {
  hl_open p s d : fs_content s p = Some d → ∃ f, (fs_open p s).1 = inr f;
  hl_read f n s : ∃ d, (fs_read f n s).1 = inr d;
}.

(** What a read that is not of an empty file gives. *)
Definition read_result p c (r : errno + Z) (out : option (list byte)) : Prop :=
  match r, out with
  | inl _, None => True
  | inr n, Some d => n = len d ∧ ∀ d', fs_content (cr_fs c) p = Some d' → d = d'
  | _, _ => False
  end.

(** The directory's check leaves the keys and the memory alone. *)
Lemma ensured_keeps c : cr_psa (ensured c) = cr_psa c ∧ malloc_ok (cr_heap (ensured c)) = malloc_ok (cr_heap c).
Proof. unfold ensured. by destruct (fs_stat CERT_DIR (cr_fs c)) as [[]|]. Qed.

(** An error, with everything released. *)
Lemma read_gave_up p c c' err :
  let e := ensured c in
  cr_psa c' = cr_psa e → released 0 e c' →
  (healthy → malloc_never_fails (cr_heap e) → ¬ is_Some (fs_content (cr_fs e) p)) →
  ∃ r out c2, OK ((inl err, None), c') = OK ((r, out), c2) ∧ read_result p c r out
    ∧ released (occ out) c c2 ∧ cr_psa c2 = cr_psa c
    ∧ (healthy → malloc_never_fails (cr_heap c) → is_Some (fs_content (cr_fs c) p) → is_Some out).
Proof.
  intros e P R N. destruct (ensured_keeps c) as [Hp Hm]. pose proof (ensured_content c p) as Hc.
  do 3 eexists. split; [reflexivity|]. split_and!; [done| |unfold e in *; congruence|].
  - eapply released_trans; [apply ensured_released|exact R|done].
  - intros H M [d C]. exfalso. apply N; [done| |eauto]. unfold malloc_never_fails, e. by rewrite Hm.
Qed.

Lemma read_file_run p c :
  (empty_file p c ∧ read_file p c = OK ((inr 0, None), ensured c))
  ∨ ¬ empty_file p c ∧
    ∃ r out c', read_file p c = OK ((r, out), c') ∧ read_result p c r out
      ∧ released (occ out) c c' ∧ cr_psa c' = cr_psa c
      ∧ (healthy → malloc_never_fails (cr_heap c) → is_Some (fs_content (cr_fs c) p) → is_Some out).
Proof.
  pose proof (ensured_released c) as Re. unfold empty_file.
  destruct (ensured_keeps c) as [Hp Hm].
  pose proof (ensured_content c p) as Hc.
  unfold read_file. rewrite (st_bind_OK _ _ _ _ _ (ensure_run c)). set (e := ensured c) in *.
  pose proof (read_gave_up p c) as Fail. fold e in Fail. cbv zeta in Fail.
  destruct (fs_stat p (cr_fs e)) as [err|[ty n]] eqn:St.
  { right. split; [done|]. erewrite st_bind_OK by (unfold get_file_size, gets; by rewrite St).
    apply Fail; [done|apply released_same; simpl; by rewrite ?Z.add_0_r|]. intros _ _ [d C%stat_content]. congruence. }
  pose proof (stat_size _ _ _ St) as Sz. cbn [fs_size] in Sz.
  destruct (decide (ty = FS_DIR_ENTRY_FILE)) as [->|T].
  2:{ right. split; [congruence|].
      erewrite st_bind_OK by (unfold get_file_size, gets; rewrite St; by rewrite decide_True by done).
      apply Fail; [done|apply released_same; simpl; by rewrite ?Z.add_0_r|]. intros _ _ [d C%stat_content]. congruence. }
  erewrite st_bind_OK by (unfold get_file_size, gets; rewrite St; by rewrite decide_False by auto).
  cbn [fs_size]. rewrite i32_small by lia. destruct (Z.leb_spec n 0) as [N|N].
  { left. by replace n with 0 by lia. }
  right. split; [intros [= ->]; lia|].
  destruct (buffer_malloc_run e) as (b & h & Em & Eb & Ho1 & Ho2). rewrite (st_bind_OK _ _ _ _ _ Em).
  destruct b; cbn [negb].
  2:{ apply Fail; [done|apply released_same; simpl; done || lia|]. intros _ M _. rewrite M in Eb. done. }
  pose proof (open_failed p (cr_fs e)) as Of. pose proof (open_opened p (cr_fs e)) as Oo.
  pose proof (open_left p (cr_fs e)) as Ol. rewrite (st_bind_OK _ _ _ _ _ (fs_do_run _ _)).
  pose proof (λ H, hl_open H p (cr_fs e)) as Ho. pose proof (open_same p (cr_fs e)) as Os.
  cbn [cr_fs]. destruct (fs_open p (cr_fs e)) as [[err|f] s1]; cbn [fst snd] in *.
  { apply Fail; [done| |].
    - apply released_files; simpl; [done|by eapply Of|lia|done..].
    - intros H _ [d C]. by destruct (Ho H d C). }
  specialize (Oo f eq_refl). rewrite (st_bind_OK _ _ _ _ _ (fs_do_run _ _)). cbn [cr_fs].
  pose proof (read_left f n s1) as Rd. pose proof (read_opened f n s1) as Rp.
  pose proof (λ H, hl_read H f n s1) as Hr. pose proof (files_same_trans _ _ _ Os (read_same f n s1)) as Rs.
  cbn [part_set cred_fs cr_fs]. destruct (fs_read f n s1) as [[err|d] s2]; cbn [fst snd] in *.
  - apply Fail; [done| |].
    + apply released_files; simpl; [|rewrite close_opened; lia|lia|done..].
      by eapply files_same_trans, close_same.
    + intros H _ _. by destruct (Hr H).
  - do 3 eexists. split; [reflexivity|]. split_and!; [| |done|eauto].
    + split; [done|]. intros d' C. apply Hc in C. rewrite (Rd d eq_refl), (Ol f d' eq_refl C).
      rewrite (stat_content _ _ _ C) in St. injection St as <-. by apply ztake_all.
    + apply (released_trans 0 1 _ c e); [done| |done].
      apply released_files; simpl; [|rewrite close_opened; lia|lia|done..].
      by eapply files_same_trans, close_same.
Qed.

(** The key that parsing and importing [d] gives, PSA in state [p]. *)
Definition imported d (p : psa_state) : psa_key_id_t :=
  let '(err, pk, p) := mbedtls_pk_parse_key mbedtls_pk_init d psa_rng_for_mbedtls p in
  if negb (err =? 0) then PSA_KEY_ID_NULL else
  let attrs := PsaKeyAttributes PSA_KEY_TYPE_ECC_KEY_PAIR_SECP_R1 0 PSA_ALG_ECDH PSA_KEY_USAGE_DERIVE in
  let '(err, key_id, p) := mbedtls_pk_import_into_psa pk attrs p in
  if negb (err =? 0) then PSA_KEY_ID_NULL else key_id.

(** What parsing [d] leaves allocated. *)
Definition leaked d (p : psa_state) : Z :=
  pk_owned (mbedtls_pk_parse_key mbedtls_pk_init d psa_rng_for_mbedtls p).1.2.

Lemma leaked_spec d (p : psa_state) : 0 ≤ leaked d p ∧ (imported d p ≠ PSA_KEY_ID_NULL → 0 < leaked d p).
Proof.
  unfold leaked, imported. pose proof (parse_owned d psa_rng_for_mbedtls p) as L.
  destruct (mbedtls_pk_parse_key _ d _ p) as [[err pk] p']. destruct L as [L1 L2]. split; [done|].
  destruct (Z.eqb_spec err 0) as [->|]; [intros _; by apply L2|done].
Qed.

Lemma import_run d c :
  ∃ c', import_raw_pk d (len d) c = OK (imported d (cr_psa c), c')
    ∧ released (leaked d (cr_psa c)) c c'.
Proof.
  unfold import_raw_pk, imported, leaked. rewrite load_all, bind_OK, init_owned by done.
  destruct (mbedtls_pk_parse_key _ d _ (cr_psa c)) as [[err pk] p']. destruct (negb (err =? 0)).
  { eexists. split; [reflexivity|]. apply released_same; simpl; done || lia. }
  destruct (mbedtls_pk_import_into_psa pk _ p') as [[err2 k] p2]. simpl.
  eexists. split; [reflexivity|]. apply released_same; simpl; done || lia.
Qed.

(** What loading the private key gives: the null key with everything released when the file could not be
    read, and otherwise what its contents [d] give, with the parser's context left allocated. *)
Definition key_loaded c (k : psa_key_id_t) c' : Prop :=
  (k = PSA_KEY_ID_NULL ∧ released 0 c c')
  ∨ ∃ d, k = imported d (cr_psa c) ∧ released (leaked d (cr_psa c)) c c'
      ∧ ∀ d', fs_content (cr_fs c) KEY_FILE = Some d' → d = d'.

Lemma key_released c k c' : key_loaded c k c' → ∃ z, released z c c'.
Proof. intros [[_ R]|(d & _ & R & _)]; eauto. Qed.

Lemma load_private_key_run c :
  (empty_file KEY_FILE c ∧ load_private_key c = Fault)
  ∨ ¬ empty_file KEY_FILE c ∧
    ∃ k c', load_private_key c = OK (k, c') ∧ key_loaded c k c'
      ∧ ∀ d, healthy → malloc_never_fails (cr_heap c) → fs_content (cr_fs c) KEY_FILE = Some d →
          k = imported d (cr_psa c).
Proof.
  unfold load_private_key.
  destruct (read_file_run KEY_FILE c) as [[Em E]|[Ne (r & out & c1 & E & R & Re & P & H)]].
  { left. split; [done|]. by rewrite (st_bind_OK _ _ _ _ _ E). }
  right. split; [done|]. rewrite (st_bind_OK _ _ _ _ _ E). destruct r as [e|n], out as [d|]; try done.
  { do 2 eexists. split; [reflexivity|]. split; [by left|].
    intros d Hh M C. by destruct (H Hh M (mk_is_Some _ _ C)). }
  destruct R as [-> W]. destruct (import_run d c1) as (c2 & E2 & R2).
  rewrite (lift_bind_OK _ _ d) by done. rewrite (st_bind_OK _ _ _ _ _ E2). rewrite P in R2 |- *.
  assert (released (leaked d (cr_psa c)) c (Cred (cr_fs c2) (cr_psa c2) (cr_heap c2) (cr_live c2 - 1))) as R3.
  { apply (released_trans 1 (leaked d (cr_psa c) - 1) _ c c1); [done| |lia].
    apply (released_trans (leaked d (cr_psa c)) (-1) _ _ c2); [done| |lia].
    apply released_same; simpl; done || lia. }
  do 2 eexists. split; [reflexivity|]. split; [right; by exists d|]. intros d' _ _ C. by rewrite (W d' C).
Qed.

(** C37: the private key: an empty key file makes the code free and parse a buffer that it never
    allocated; every other file, and every failure of the file system, of the memory, of the parser and
    of PSA, is survived: no file stays open, and the result is the null key or what parsing and importing
    the whole file gives; the latter when nothing fails. The buffer of the file is always freed, the
    parser's context never: what parsing left in it stays allocated, and every key that is loaded leaves
    something. *)
Theorem load_private_key_spec c :
  (empty_file KEY_FILE c → load_private_key c = Fault) ∧
  (¬ empty_file KEY_FILE c →
   ∃ k c', load_private_key c = OK (k, c')
     ∧ ((k = PSA_KEY_ID_NULL ∧ released 0 c c')
        ∨ ∃ d, k = imported d (cr_psa c) ∧ released (leaked d (cr_psa c)) c c'
            ∧ ∀ d', fs_content (cr_fs c) KEY_FILE = Some d' → d = d')
     ∧ (k ≠ PSA_KEY_ID_NULL → cr_live c < cr_live c')
     ∧ ∀ d, healthy → malloc_never_fails (cr_heap c) → fs_content (cr_fs c) KEY_FILE = Some d →
         k = imported d (cr_psa c)).
Proof.
  destruct (load_private_key_run c) as [[]|[? (k & c' & E & L & H)]]; split; try done.
  intros _. exists k, c'. split_and!; [done|done| |done]. intros N.
  destruct L as [[]|(d & -> & R & _)]; [done|]. rewrite (rl_live _ _ _ R).
  pose proof (proj2 (leaked_spec d (cr_psa c)) N). lia.
Qed.

(** The certificate that is loaded: the file, in a buffer of its own. *)
Definition loaded_certificate c (cert : pouch_cert) c' : Prop :=
  ∃ d, cert = PouchCert (Some d) (len d) ∧ (∀ d', fs_content (cr_fs c) CERT_FILE = Some d' → d = d')
    ∧ released 1 c c'.

Lemma load_certificate_run cert c :
  (empty_file CERT_FILE c ∧ load_certificate cert c = Fault)
  ∨ ¬ empty_file CERT_FILE c ∧
    ∃ r cert' c', load_certificate cert c = OK ((r, cert'), c') ∧ cr_psa c' = cr_psa c
      ∧ match r with Some _ => cert' = cert ∧ released 0 c c' | None => loaded_certificate c cert' c' end
      ∧ (healthy → malloc_never_fails (cr_heap c) → is_Some (fs_content (cr_fs c) CERT_FILE) → r = SUCCESS).
Proof.
  unfold load_certificate.
  destruct (read_file_run CERT_FILE c) as [[Em E]|[Ne (r & out & c1 & E & R & Re & P & H)]].
  { left. split; [done|]. by rewrite (st_bind_OK _ _ _ _ _ E). }
  right. split; [done|]. rewrite (st_bind_OK _ _ _ _ _ E). destruct r as [e|n], out as [d|]; try done.
  { do 3 eexists. split; [reflexivity|]. split_and!; [done..|]. intros Hh M C. by destruct (H Hh M C). }
  destruct R as [-> W]. rewrite (lift_bind_OK _ _ d) by done.
  do 3 eexists. split; [reflexivity|]. split_and!; [done|by exists d|done].
Qed.

(** C38: the certificate: an empty file leaves the certificate with a pointer that was never set;
    otherwise the certificate is the contents of the file, in a buffer of its own that
    [free_certificate] frees, or, after an error, what it was, and nothing stays open or allocated. *)
Theorem load_certificate_spec cert c :
  (empty_file CERT_FILE c → load_certificate cert c = Fault) ∧
  (¬ empty_file CERT_FILE c →
   ∃ r cert' c', load_certificate cert c = OK ((r, cert'), c') ∧
     match r with
     | Some _ => cert' = cert ∧ released 0 c c'
     | None => (∃ d, cert' = PouchCert (Some d) (len d)
                 ∧ ∀ d', fs_content (cr_fs c) CERT_FILE = Some d' → d = d')
               ∧ ∃ c2, free_certificate cert' c' = OK (tt, c2) ∧ released 0 c c2
     end ∧
     ∀ d, healthy → malloc_never_fails (cr_heap c) → fs_content (cr_fs c) CERT_FILE = Some d →
       r = SUCCESS).
Proof.
  destruct (load_certificate_run cert c) as [[]|[? (r & cert' & c' & E & _ & R & H)]]; split; try done.
  intros _. do 3 eexists. split; [exact E|]. split; [|intros d Hh M C; by apply H].
  destruct r; [done|]. destruct R as (d & -> & W & Re). split; [by exists d|].
  eexists. split; [reflexivity|]. apply (released_trans 1 (-1) _ c c'); [done| |done].
  apply released_same; simpl; done || lia.
Qed.

End Credentials.

(** * A concrete file system and key parser *)

Module NativeFs.

(** The files, and what is left to read of the open ones. *)
Record state := State {
  files : list (list byte * list byte);
  handles : list (list byte);
  opened : Z;
}.

Definition find (s : state) (p : list byte) : option (list byte) :=
  snd <$> (snd <$> list_find (λ f, f.1 = p) (files s)).

(** A name that is not a file's is a directory's. *)
#[export, refine] Instance fs : FileSystem := {|
  fs_state := state; fs_file_t := nat;
  fs_content s p := match find s p with
                    | Some d => if decide (len d < 2147483648) then Some d else None
                    | None => None end;
  fs_left s f := default [] (handles s !! f); fs_opened := opened;
  fs_stat p s := match find s p with
                 | Some d => if decide (len d < 2147483648) then inr (FsDirent FS_DIR_ENTRY_FILE (len d))
                             else inl EIO
                 | None => inr (FsDirent FS_DIR_ENTRY_DIR 0) end;
  fs_mkdir _ s := (SUCCESS, s);
  fs_open p s := match find s p with
                 | Some d => (inr (length (handles s)), State (files s) (handles s ++ [d]) (opened s + 1))
                 | None => (inl ENOENT, s) end;
  fs_read f n s := (inr (ztake n (default [] (handles s !! f))),
                    State (files s) (<[f := zdrop n (default [] (handles s !! f))]> (handles s)) (opened s));
  fs_close f s := State (files s) (handles s) (opened s - 1);
|}.
Proof.
  - intros p s d. destruct (find s p); [|intros [= <-]; simpl; lia]. case_decide; [|done].
    intros [= <-]. simpl. lia.
  - intros p s d. destruct (find s p); [|done]. case_decide; [|done]. by intros [= <-].
  - done.
  - done.
  - intros p s e. by destruct (find s p).
  - intros p s f. by destruct (find s p).
  - intros p s f d. destruct (find s p) as [d'|]; [|done]. intros [= <-]. case_decide; [|done].
    intros [= <-]. simpl. by rewrite lookup_app_r, Nat.sub_diag by lia.
  - by intros f n s d [= <-].
  - done.
  - done.
  - done.
  - intros q p s. by destruct (find s q).
  - done.
  - done.
  - intros q p s. by destruct (find s q).
  - done.
  - done.
Defined.

Lemma fs_healthy : healthy.
Proof.
  split; simpl; [|by eauto]. intros p s d. destruct (find s p); [|done]. by eauto.
Qed.

Definition import (d : list byte) (_ : psa_key_attributes_t) (p : list (list byte)) :
    psa_status_t * psa_key_id_t * list (list byte) := (0, len p + 1, d :: p).

(** A key is its bytes, and not empty. *)
#[export, refine] Instance pk : Pk NativePsa.psa :=
  @Build_Pk NativePsa.psa (list byte) [] (λ _ d _ p, (if decide (d = []) then -15616 else 0, d, p)) import
    (λ d, len d) eq_refl _ _.
Proof.
  - intros d rng p. split; [lia|]. case_decide; [done|]. intros _. destruct d; [done|simpl; lia].
  - intros d attrs p k [= <-]. unfold PSA_KEY_ID_NULL. lia.
Defined.
End NativeFs.

Module CredentialsWitness.

#[local] Existing Instances NativePsa.psa NativeFs.fs NativeFs.pk.
#[local] Instance config : CredentialsConfig := {| CERT_DIR := ["/"; "c"]%byte |}.

(** A certificate and a key; and the same with an empty key file. *)
Definition ex_cred : cred :=
  Cred (NativeFs.State [(CERT_FILE, [x30; x31]); (KEY_FILE, [x6b])] [] 0) [] Native.heap0 0.
Definition ex_empty : cred :=
  Cred (NativeFs.State [(CERT_FILE, [x30; x31]); (KEY_FILE, [])] [] 0) [] Native.heap0 0.

Lemma ex_key_not_empty : ¬ empty_file KEY_FILE ex_cred.
Proof. by vm_compute. Qed.
Lemma ex_cert_not_empty : ¬ empty_file CERT_FILE ex_cred.
Proof. by vm_compute. Qed.

(** The key of one byte, which stays allocated in the parser's context. *)
Lemma load_private_key_spec_witness :
  load_private_key ex_empty = Fault
  ∧ ∃ c', load_private_key ex_cred = OK (1, c') ∧ released 1 ex_cred c' ∧ cr_live ex_cred < cr_live c'.
Proof.
  split; [exact (proj1 (load_private_key_spec ex_empty) eq_refl)|].
  destruct (proj2 (load_private_key_spec ex_cred) ex_key_not_empty) as (k & c' & E & R & L & K).
  specialize (K [x6b] NativeFs.fs_healthy (λ _, eq_refl) eq_refl).
  change (imported [x6b] (cr_psa ex_cred)) with 1 in K. subst k. exists c'. split; [exact E|].
  split; [|by apply L]. destruct R as [[]|(d & _ & R & W)]; [done|]. by rewrite (W [x6b] eq_refl) in R.
Defined.

Lemma load_certificate_spec_witness :
  ∃ cert' c', load_certificate (PouchCert None 0) ex_cred = OK ((SUCCESS, cert'), c').
Proof.
  destruct (proj2 (load_certificate_spec (PouchCert None 0) ex_cred) ex_cert_not_empty)
    as (r & cert' & c' & E & _ & K).
  exists cert', c'. by rewrite E, (K [x30; x31] NativeFs.fs_healthy (λ _, eq_refl) eq_refl).
Defined.

End CredentialsWitness.
