(* ===== verification/Session.v ===== *)
(** Encrypted sessions: src/src/saead/session.c and session.h.

    A session is a key and the position in the current pouch: the pouch's id, the index of the next
    block and the tag of the last one, which the next block authenticates. *)
From S2P Require Import Prelude Platform Buf Block Crypto State Psa Cert.

(** pouch.h *)
Inductive pouch_role := POUCH_ROLE_DEVICE | POUCH_ROLE_SERVER.
#[export] Instance pouch_role_eq_dec : EqDecision pouch_role.
Proof. solve_decision. Defined.

Inductive session_id_type := SESSION_ID_TYPE_SEQUENTIAL | SESSION_ID_TYPE_RANDOM.
#[export] Instance session_id_type_eq_dec : EqDecision session_id_type.
Proof. solve_decision. Defined.

Definition SESSION_ID_TAG_LEN : Z := SESSION_ID_LEN - 8.
Definition AUTH_TAG_LEN : Z := 16.
Definition AD_LEN : Z := AUTH_TAG_LEN.
Definition NONCE_LEN : Z := 12.
Definition BASE64_STRLEN (buflen : Z) : Z := 4 * ((buflen + 2) / 3).
Definition INFO_MAX_LEN : Z := 12 + BASE64_STRLEN SESSION_ID_LEN + 1.
Definition SAEAD_KEY_SIZE (alg : psa_algorithm_t) : Z :=
  if decide (alg = PSA_ALG_CHACHA20_POLY1305) then 32 else 16.
Definition SESSION_KEY_TYPE (alg : psa_algorithm_t) : psa_key_type_t :=
  if decide (alg = PSA_ALG_CHACHA20_POLY1305) then PSA_KEY_TYPE_CHACHA20 else PSA_KEY_TYPE_AES.

(** [value] is the union: the random id, or the tag and the sequence number (a little-endian 64-bit
    integer on the target). *)
Record session_id := SessionId {
  id_type : session_id_type;
  id_initiator : pouch_role;
  id_value : list byte;
}.
#[export] Instance session_id_eq_dec : EqDecision session_id.
Proof. solve_decision. Defined.

(** Bits of [ss_flags]. *)
Definition SESSION_VALID : Z := 0.
Definition SESSION_ACTIVE : Z := 1.
Definition SESSION_HAS_POUCH : Z := 2.

Record session_pouch := SessionPouch { sp_id : Z; sp_block_index : Z; sp_ad : list byte }.

Record session := Session {
  ss_id : session_id;
  ss_flags : Z;
  ss_algorithm : psa_algorithm_t;
  ss_key : psa_key_id_t;
  ss_pouch : session_pouch;
}.

Definition ss_set_id x (s : session) : session := Session x (ss_flags s) (ss_algorithm s) (ss_key s) (ss_pouch s).
Definition ss_set_flags x (s : session) : session := Session (ss_id s) x (ss_algorithm s) (ss_key s) (ss_pouch s).
Definition ss_set_algorithm x (s : session) : session := Session (ss_id s) (ss_flags s) x (ss_key s) (ss_pouch s).
Definition ss_set_key x (s : session) : session := Session (ss_id s) (ss_flags s) (ss_algorithm s) x (ss_pouch s).
Definition ss_set_pouch x (s : session) : session := Session (ss_id s) (ss_flags s) (ss_algorithm s) (ss_key s) x.
Definition ss_set_pouch_id x (s : session) : session :=
  ss_set_pouch (SessionPouch x (sp_block_index (ss_pouch s)) (sp_ad (ss_pouch s))) s.

(** ** The union's sequence number *)

Fixpoint le_bytes (n : nat) (v : Z) : list byte :=
  match n with O => [] | S n => byte_of_Z v :: le_bytes n (v / 256) end.
Fixpoint le_value (l : list byte) : Z :=
  match l with [] => 0 | b :: l => Z_of_byte b + 256 * le_value l end.

Definition sequential_tag (v : list byte) : list byte := ztake SESSION_ID_TAG_LEN v.
Definition seqnum (v : list byte) : Z := le_value (ztake 8 (zdrop SESSION_ID_TAG_LEN v)).
Definition set_tag (t v : list byte) : list byte := t ++ zdrop SESSION_ID_TAG_LEN v.
Definition set_seqnum (n : Z) (v : list byte) : list byte := sequential_tag v ++ le_bytes 8 (u64 n).

Definition session_id_is_equal (a b : session_id) : bool :=
  bool_decide (id_type a = id_type b) && bool_decide (id_initiator a = id_initiator b)
  && bool_decide (id_value a = id_value b).

(** ** printf *)

(** Lower-case hexadecimal digits. *)
Definition hex_digit (n : Z) : byte := byte_of_Z (if n <? 10 then 48 + n else 87 + n).
(** "%02x" of a [uint8_t]. *)
Definition fmt_02x (n : Z) : list byte := [hex_digit (n / 16); hex_digit (n mod 16)].

Section Session.
Context {BO : ByteOrder} {CF : Config} {PS : Psa} {B6 : Base64}.

Definition session_end (sess : session) (p : psa_state) : session * psa_state :=
  let '(was, f) := atomic_test_and_clear_bit (ss_flags sess) SESSION_ACTIVE in
  let sess := ss_set_flags f sess in
  if negb was then (sess, p) else
  let p := psa_destroy_key (ss_key sess) p in
  (ss_set_key PSA_KEY_ID_NULL sess, p).

Definition session_id_generate (i : session_id) (p : psa_state) : status * session_id * psa_state :=
  let i := SessionId (id_type i) POUCH_ROLE_DEVICE (id_value i) in
  match id_type i with
  | SESSION_ID_TYPE_RANDOM =>
    let '(status, r, p) := psa_generate_random SESSION_ID_LEN p in
    let i := SessionId (id_type i) (id_initiator i) r in
    if negb (status =? PSA_SUCCESS) then (NEG EIO, i, p) else (SUCCESS, i, p)
  | SESSION_ID_TYPE_SEQUENTIAL =>
    let '(status, t, p) := psa_generate_random SESSION_ID_TAG_LEN p in
    let i := SessionId (id_type i) (id_initiator i) (set_tag t (id_value i)) in
    if negb (status =? PSA_SUCCESS) then (NEG EIO, i, p)
    else (SUCCESS, SessionId (id_type i) (id_initiator i) (set_seqnum (seqnum (id_value i) + 1) (id_value i)), p)
  end.

(** The characters [sprintf] writes to [buf], without the NUL, or an error. *)
Definition session_key_info_build (i : session_id) (algorithm : psa_algorithm_t) (max_block_size_log : Z)
    : errno + list byte :=
  let '(err, session_id) := base64_encode (BASE64_STRLEN SESSION_ID_LEN + 1) (id_value i) in
  match err with
  | Some _ => inl EIO
  | None =>
    inr (["E"; "0"; ":"]%byte
      ++ [match id_initiator i with POUCH_ROLE_DEVICE => "D" | POUCH_ROLE_SERVER => "S" end; ":"]%byte
      ++ session_id ++ [":"; "C"]%byte
      ++ [if decide (algorithm = PSA_ALG_CHACHA20_POLY1305) then "C" else "A";
          match id_type i with SESSION_ID_TYPE_SEQUENTIAL => "S" | SESSION_ID_TYPE_RANDOM => "R" end;
          ":"]%byte
      ++ fmt_02x max_block_size_log)
  end.

(** The key, or the null key. Every path releases the derivation operation. *)
Definition session_key_generate (i : session_id) (algorithm : psa_algorithm_t) (max_block_size_log : Z)
    (private_key : psa_key_id_t) (pubkey : pubkey) (usage : psa_key_usage_t) (p : psa_state)
    : psa_key_id_t * psa_state :=
  let operation := PSA_KEY_DERIVATION_OPERATION_INIT in
  let key := PSA_KEY_ID_NULL in
  if pk_len pubkey =? 0 then (PSA_KEY_ID_NULL, p) else
  let exit key operation p := (key, psa_key_derivation_abort operation p) in
  let '(status, operation, p) := psa_key_derivation_setup operation p in
  if negb (status =? PSA_SUCCESS) then exit key operation p else
  let '(status, operation, p) :=
    psa_key_derivation_key_agreement private_key (ztake (pk_len pubkey) (pk_data pubkey)) operation p in
  if negb (status =? PSA_SUCCESS) then exit key operation p else
  match session_key_info_build i algorithm max_block_size_log with
  | inl _ => exit key operation p
  | inr info =>
    let '(status, operation, p) := psa_key_derivation_input_info info operation p in
    if negb (status =? PSA_SUCCESS) then exit key operation p else
    let key_attributes := PsaKeyAttributes (SESSION_KEY_TYPE algorithm) (SAEAD_KEY_SIZE algorithm * 8)
                            algorithm usage in
    let '(status, key, operation, p) := psa_key_derivation_output_key key_attributes operation p in
    exit key operation p
  end.

Definition session_pouch_start (sess : session) (pouch_id : Z) : status * session :=
  if negb (atomic_test_bit (ss_flags sess) SESSION_ACTIVE) then (NEG EBUSY, sess)
  else (SUCCESS, ss_set_pouch (SessionPouch (u16 pouch_id) 0 (sp_ad (ss_pouch sess))) sess).

Definition role_byte (r : pouch_role) : byte :=
  match r with POUCH_ROLE_DEVICE => x00 | POUCH_ROLE_SERVER => x01 end.

Definition nonce_generate (sess : session) (sender : pouch_role) : list byte :=
  sys_put_be16 (sp_id (ss_pouch sess)) ++ sys_put_be16 (u16 (sp_block_index (ss_pouch sess)))
  ++ role_byte sender :: replicate (Z.to_nat (NONCE_LEN - 5)) x00.

(** The additional data of the next block. *)
Definition next_ad (sess : session) : list byte :=
  if 0 <? sp_block_index (ss_pouch sess) then sp_ad (ss_pouch sess) else [].

(** Preparing for the block after one with the tag [t]. *)
Definition advance (t : list byte) (sess : session) : session :=
  ss_set_pouch (SessionPouch (sp_id (ss_pouch sess)) (u32 (sp_block_index (ss_pouch sess) + 1)) t) sess.

(** A view of the block; nothing happens to a NULL until it is read. *)
Definition view_of (block : option pouch_buf) : pouch_bufview :=
  match block with Some b => pouch_bufview_init b | None => BufView None 0 end.

(** The block's own buffer stays the caller's. *)
Definition session_encrypt_block (sess : session) (p : psa_state) (block : option pouch_buf)
    : st heap (option pouch_buf * session) :=
  encrypted ← buf_alloc MAX_CIPHERTEXT_BLOCK_SIZE;
  match encrypted with
  | None => mret (None, sess)
  | Some encrypted =>
    let nonce := nonce_generate sess POUCH_ROLE_DEVICE in
    let plaintext := view_of block in
    '(plaintext_len, plaintext) ← lift (pouch_bufview_read_be16 plaintext);
    if negb (plaintext_len =? pouch_bufview_available plaintext) then
      buf_free (Some encrypted);; mret (None, sess)
    else
      let encrypted_len := plaintext_len + AUTH_TAG_LEN in
      encrypted ← lift (block_size_write encrypted encrypted_len);
      let '(ciphertext, encrypted) := buf_claim encrypted encrypted_len in
      '(ptr, plaintext) ← lift (pouch_bufview_read plaintext plaintext_len);
      d ← lift (ptr ← of_ptr ptr; view_load plaintext ptr plaintext_len);
      let '(status, w, ciphertext_len) :=
        psa_aead_encrypt p (ss_key sess) (ss_algorithm sess) nonce (next_ad sess) d encrypted_len in
      encrypted ← lift (mem_write ciphertext w encrypted);
      if negb (status =? PSA_SUCCESS) then
        buf_free (Some encrypted);; mret (None, sess)
      else if negb (ciphertext_len =? encrypted_len) then
        buf_free (Some encrypted);; mret (None, sess)
      else
        t ← lift (mem_read (ciphertext + plaintext_len) AUTH_TAG_LEN encrypted);
        mret (Some encrypted, advance t sess)
  end.

Definition session_decrypt_block (sess : session) (p : psa_state) (block : option pouch_buf)
    : st heap (option pouch_buf * session) :=
  decrypted ← buf_alloc MAX_PLAINTEXT_BLOCK_SIZE;
  match decrypted with
  | None => mret (None, sess)
  | Some decrypted =>
    let nonce := nonce_generate sess POUCH_ROLE_SERVER in
    let ciphertext := view_of block in
    '(ciphertext_len, ciphertext) ← lift (pouch_bufview_read_be16 ciphertext);
    if (ciphertext_len <=? AUTH_TAG_LEN)
       || negb (ciphertext_len =? pouch_bufview_available ciphertext) then
      buf_free (Some decrypted);; mret (None, sess)
    else
      let payload_len := ciphertext_len - AUTH_TAG_LEN in
      decrypted ← lift (block_size_write decrypted payload_len);
      '(ptr, ciphertext) ← lift (pouch_bufview_read ciphertext payload_len);
      d ← lift (ptr ← of_ptr ptr; view_load ciphertext ptr ciphertext_len);
      let '(out, decrypted) := buf_claim decrypted payload_len in
      let '(status, w, plaintext_len) :=
        psa_aead_decrypt p (ss_key sess) (ss_algorithm sess) nonce (next_ad sess) d payload_len in
      decrypted ← lift (mem_write out w decrypted);
      if negb (status =? PSA_SUCCESS) then
        buf_free (Some decrypted);; mret (None, sess)
      else if negb (plaintext_len =? payload_len) then
        buf_free (Some decrypted);; mret (None, sess)
      else
        '(t, _) ← lift (pouch_bufview_memcpy ciphertext AUTH_TAG_LEN);
        let sess := advance t sess in
        mret (Some decrypted, ss_set_flags (atomic_set_bit (ss_flags sess) SESSION_VALID) sess)
  end.

End Session.

(** * What a block is sealed and opened to *)

Section Sealing.
Context {BO : ByteOrder} {CF : Config} {PS : Psa} {PL : PsaLaws PS} {B6 : Base64}.
Implicit Types (sess peer : session) (p : psa_state) (d ct : list byte) (b : pouch_buf).

(** The ciphertext of the next block of [role], tag included. *)
Definition seal role sess p d : option (list byte) :=
  let '(status, w, n) := psa_aead_encrypt p (ss_key sess) (ss_algorithm sess)
                           (nonce_generate sess role) (next_ad sess) d (len d + AUTH_TAG_LEN) in
  if (status =? PSA_SUCCESS) && (n =? len d + AUTH_TAG_LEN) then Some w else None.

(** The payload of a ciphertext with its tag. *)
Definition unseal role sess p ct : option (list byte) :=
  let '(status, w, n) := psa_aead_decrypt p (ss_key sess) (ss_algorithm sess)
                           (nonce_generate sess role) (next_ad sess) ct (len ct - AUTH_TAG_LEN) in
  if (status =? PSA_SUCCESS) && (n =? len ct - AUTH_TAG_LEN) then Some w else None.

(** The session after a ciphertext: its last sixteen bytes are authenticated with the next one. *)
Definition after ct sess : session := advance (zdrop (len ct - AUTH_TAG_LEN) ct) sess.

(** Bytes with their length in front. *)
Definition sized16 d : list byte := sys_put_be16 (len d) ++ d.

Lemma seal_len role sess p d ct : seal role sess p d = Some ct → len ct = len d + AUTH_TAG_LEN.
Proof.
  unfold seal, AUTH_TAG_LEN.
  pose proof (aead_encrypt_fits p (ss_key sess) (ss_algorithm sess) (nonce_generate sess role)
    (next_ad sess) d (len d + 16) ltac:(lia)) as [_ F].
  destruct (psa_aead_encrypt _ _ _ _ _ _ _) as [[status w] n]. simpl in F.
  destruct (Z.eqb_spec status PSA_SUCCESS) as [->|]; [|done]. destruct (Z.eqb_spec n (len d + 16)); [|done].
  intros [= <-]. rewrite F by done. lia.
Qed.

Lemma unseal_len role sess p ct d :
  AUTH_TAG_LEN ≤ len ct → unseal role sess p ct = Some d → len d = len ct - AUTH_TAG_LEN.
Proof.
  unfold unseal, AUTH_TAG_LEN. intros L.
  pose proof (aead_decrypt_fits p (ss_key sess) (ss_algorithm sess) (nonce_generate sess role)
    (next_ad sess) ct (len ct - 16) ltac:(lia)) as [_ F].
  destruct (psa_aead_decrypt _ _ _ _ _ _ _) as [[status w] n]. simpl in F.
  destruct (Z.eqb_spec status PSA_SUCCESS) as [->|]; [|done]. destruct (Z.eqb_spec n (len ct - 16)); [|done].
  intros [= <-]. rewrite F by done. lia.
Qed.

(** The two ends of a session: the same key, algorithm and position, and the same data to authenticate
    with the next block. *)
Record in_step sess p peer p' : Prop := {
  is_key : psa_key_data p (ss_key sess) = psa_key_data p' (ss_key peer);
  is_algorithm : ss_algorithm sess = ss_algorithm peer;
  is_pouch : sp_id (ss_pouch sess) = sp_id (ss_pouch peer);
  is_index : sp_block_index (ss_pouch sess) = sp_block_index (ss_pouch peer);
  is_ad : next_ad sess = next_ad peer;
}.

Lemma unseal_seal role sess p peer p' d ct :
  in_step sess p peer p' → seal role sess p d = Some ct → unseal role peer p' ct = Some d.
Proof.
  intros [K A P N Ad] S. pose proof (seal_len _ _ _ _ _ S) as L. revert S.
  unfold seal, unseal. rewrite L. replace (len d + AUTH_TAG_LEN - AUTH_TAG_LEN) with (len d) by lia.
  destruct (psa_aead_encrypt _ _ _ _ _ _ _) as [[status w] n] eqn:E.
  destruct (Z.eqb_spec status PSA_SUCCESS) as [->|]; [|done]. destruct (n =? _); cbn [andb]; [|done].
  intros [= ->].
  assert (nonce_generate peer role = nonce_generate sess role) as -> by
    (unfold nonce_generate; by rewrite P, N).
  rewrite <- Ad, <- A. rewrite (aead_decrypt_encrypt _ _ _ _ _ _ _ _ _ (len d) _ _ E K) by lia.
  by rewrite !Z.eqb_refl.
Qed.

Lemma in_step_after ct sess p peer p' :
  in_step sess p peer p' → in_step (after ct sess) p (after ct peer) p'.
Proof. intros [K A P N Ad]. split; [done..| |]; unfold after, next_ad, advance; simpl; by rewrite N. Qed.

(** A sequence of blocks. *)
Fixpoint seal_all role sess p (ds : list (list byte)) : option (list (list byte) * session) :=
  match ds with
  | [] => Some ([], sess)
  | d :: ds =>
    ct ← seal role sess p d;
    '(cts, sess') ← seal_all role (after ct sess) p ds;
    Some (ct :: cts, sess')
  end.

Fixpoint unseal_all role sess p (cts : list (list byte)) : option (list (list byte) * session) :=
  match cts with
  | [] => Some ([], sess)
  | ct :: cts =>
    d ← unseal role sess p ct;
    '(ds, sess') ← unseal_all role (after ct sess) p cts;
    Some (d :: ds, sess')
  end.

Lemma unseal_seal_all role p p' ds : ∀ sess peer cts sess',
  in_step sess p peer p' → seal_all role sess p ds = Some (cts, sess') →
  ∃ peer', unseal_all role peer p' cts = Some (ds, peer') ∧ in_step sess' p peer' p'.
Proof.
  induction ds as [|d ds IH]; intros sess peer cts sess' I; cbn [seal_all].
  { intros [= <- <-]. by exists peer. }
  destruct (seal role sess p d) as [ct|] eqn:S; [|done]. cbn [mbind option_bind].
  destruct (seal_all role (after ct sess) p ds) as [[cts' s']|] eqn:E; [|done].
  intros [= <- <-]. cbn [unseal_all]. rewrite (unseal_seal _ _ _ _ _ _ _ I S). cbn [mbind option_bind].
  destruct (IH _ _ _ _ (in_step_after ct _ _ _ _ I) E) as (peer' & -> & I'). by exists peer'.
Qed.

End Sealing.

(** * The operations on blocks *)

Section Blocks.
Context {BO : ByteOrder} {CF : Config} {PS : Psa} {PL : PsaLaws PS} {B6 : Base64}.
Implicit Types (sess : session) (p : psa_state) (d ct : list byte) (b : pouch_buf) (h : heap).

(** The heap after a call that allocates a buffer and keeps it or frees it again. *)
Definition tried (kept : bool) h : heap :=
  if malloc_ok h (malloc_n h)
  then Heap (malloc_ok h) (S (malloc_n h)) (if kept then i32 (bufs h + 1) else i32 (i32 (bufs h + 1) - 1))
  else Heap (malloc_ok h) (S (malloc_n h)) (bufs h).

Lemma tried_malloc h (kept : bool) : malloc_ok (tried kept h) = malloc_ok h.
Proof. unfold tried. by destruct (malloc_ok h (malloc_n h)). Qed.

Lemma tried_live (kept : bool) h n :
  live h n → live (tried kept h) (n + if kept && malloc_ok h (malloc_n h) then 1 else 0).
Proof.
  intros L. unfold tried. destruct (malloc_ok h (malloc_n h)).
  - pose proof (live_alloc h (malloc_ok h) (S (malloc_n h)) n L) as A.
    destruct kept; [done|]. pose proof (live_free _ _ A) as Fr.
    apply (live_eq _ (n + 1 - 1)); [exact Fr|simpl; lia].
  - rewrite andb_false_r. apply (live_eq _ n); [by apply live_keep|lia].
Qed.

(** A sized buffer, read from the start. *)
Lemma sized16_split d b :
  buf_wf b → contents b = sized16 d → len d < 65534 →
  bytes b = 2 + len d ∧ rest b 0 = sys_put_be16 (len d) ++ d ∧ rest b 2 = d.
Proof.
  intros W E L. pose proof (len_put_be16 (len d) ltac:(lia)) as L2.
  pose proof (len_contents b W) as Lb. rewrite E in Lb. unfold sized16 in Lb.
  split_and!; [solve_len|done|]. unfold rest. rewrite E. apply drop_app_exact. lia.
Qed.

(** A fresh buffer filled by writing the size and then [w] where the rest was claimed. *)
Lemma fill_sized c n w :
  0 ≤ n < 65534 → 2 + n ≤ c < 65536 → len w ≤ n →
  ∃ b1 b2, block_size_write (PBuf c 0 []) n = OK b1
    ∧ bytes b1 = 2
    ∧ mem_write 2 w (buf_claim b1 n).2 = OK b2
    ∧ cap b2 = c ∧ (len w = n → buf_wf b2 ∧ contents b2 = sys_put_be16 n ++ w)
    ∧ bytes b2 = 2 + n ∧ mem b2 = sys_put_be16 n ++ w.
Proof.
  intros N C L. pose proof (len_put_be16 n ltac:(lia)) as L2.
  assert (buf_wf (PBuf c 0 [])) as W0 by (apply fresh_wf; lia).
  exists (PBuf c 2 (sys_put_be16 n)).
  exists (PBuf c (2 + n) (sys_put_be16 n ++ w)). split_and!; try done.
  - unfold block_size_write, buf_claim. rewrite (u16_small n) by lia. simpl bytes.
    unfold mem_write. cbn [cap bytes mem set_bytes].
    rewrite guard_true by (rewrite !andb_true_iff, !Z.leb_le; simpl; lia).
    rewrite bind_OK, drop_nil, app_nil_r. done.
  - unfold mem_write. cbn [buf_claim snd cap bytes mem set_bytes].
    rewrite guard_true by (rewrite !andb_true_iff, !Z.leb_le; simpl; lia).
    rewrite bind_OK, u32_small by lia. rewrite take_ge by lia.
    rewrite (zdrop_all (sys_put_be16 n)) by lia. by rewrite app_nil_r.
  - intros E. assert (len (sys_put_be16 n ++ w) = 2 + n) as La by solve_len. split.
    + split; cbn [bytes mem cap]; lia.
    + unfold contents; cbn [bytes mem]. apply ztake_all. lia.
Qed.

Context (TAG : CONFIG_AUTH_TAG_LEN = AUTH_TAG_LEN).

Lemma ciphertext_size : MAX_CIPHERTEXT_BLOCK_SIZE = MAX_PLAINTEXT_BLOCK_SIZE + AUTH_TAG_LEN.
Proof. unfold MAX_CIPHERTEXT_BLOCK_SIZE. by rewrite TAG. Qed.

(** Encrypting, on every path. *)
Lemma session_encrypt_run sess p b d h :
  buf_wf b → contents b = sized16 d → len d ≤ MAX_PLAINTEXT_BLOCK_SIZE - 2 →
  match (if malloc_ok h (malloc_n h) then seal POUCH_ROLE_DEVICE sess p d else None) with
  | Some ct => ∃ e, session_encrypt_block sess p (Some b) h = OK ((Some e, after ct sess), tried true h)
      ∧ buf_wf e ∧ contents e = sized16 ct
  | None => session_encrypt_block sess p (Some b) h = OK ((None, sess), tried false h)
  end.
Proof.
  intros W E L. pose proof MAX_PLAINTEXT_range as R. pose proof ciphertext_size as Cs.
  unfold AUTH_TAG_LEN in *. destruct (sized16_split d b W E ltac:(lia)) as (Eb & R0 & R2).
  pose proof (buf_alloc_spec MAX_CIPHERTEXT_BLOCK_SIZE h) as Ea. unfold session_encrypt_block, tried.
  destruct (malloc_ok h (malloc_n h)); cbn [andb]; rewrite (st_bind_OK _ _ _ _ _ Ea); [|done].
  change (view_of (Some b)) with (view_at b 0).
  rewrite (lift_bind_OK _ _ (len d, view_at b 2)) by
    (by rewrite (read_be16_put b 0 (len d) d) by (done || lia)).
  rewrite (available_at b 2) by (done || lia). rewrite R2, Z.eqb_refl. cbn [negb].
  unfold seal, AUTH_TAG_LEN in *.
  pose proof (aead_encrypt_fits p (ss_key sess) (ss_algorithm sess)
    (nonce_generate sess POUCH_ROLE_DEVICE) (next_ad sess) d (len d + 16) ltac:(lia)) as [F1 F2].
  destruct (psa_aead_encrypt _ _ _ _ _ _ _) as [[status w] n] eqn:A. simpl in F1, F2.
  assert (0 ≤ len d + 16 < 65534 ∧ 2 + (len d + 16) ≤ MAX_CIPHERTEXT_BLOCK_SIZE < 65536) as [B1 B2] by lia.
  destruct (fill_sized _ _ w B1 B2 F1)
    as (b1 & b2 & Ew & E2 & Em & Ec & Ewf & By & Me).
  rewrite (lift_bind_OK _ _ b1) by (by rewrite Ew).
  unfold buf_claim in Em |- *. rewrite E2 in *. cbn [snd] in Em.
  assert (rest b 2 = d ++ []) as R2' by (by rewrite R2, app_nil_r).
  rewrite (lift_bind_OK _ _ (Some 2, view_at b (2 + len d))) by
    (by rewrite (pouch_bufview_read_next b 2 d [] W ltac:(lia) R2' (len d) eq_refl)).
  rewrite (lift_bind_OK _ _ d).
  2:{ cbn [of_ptr]. rewrite bind_OK. rewrite (view_load_at b 2) by (done || lia).
      by rewrite R2, ztake_all by lia. }
  rewrite A.
  rewrite (lift_bind_OK _ _ b2) by (by rewrite Em).
  destruct (Z.eqb_spec status PSA_SUCCESS) as [->|]; cbn [negb andb]; [|done].
  destruct (Z.eqb_spec n (len d + 16)) as [->|]; cbn [negb]; [|done].
  specialize (F2 eq_refl). destruct (Ewf F2) as [W2 C2].
  exists b2. rewrite (lift_bind_OK _ _ (zdrop (len d) w)).
  2:{ rewrite mem_read_contents by (done || lia). rewrite C2.
      pose proof (len_put_be16 (len d + 16) ltac:(lia)) as Lp. rewrite <- zdrop_zdrop by lia.
      rewrite drop_app_exact by lia. by rewrite ztake_all by solve_len. }
  split_and!; [|done|].
  - unfold mret, st_ret, after, AUTH_TAG_LEN. rewrite F2. by replace (len d + 16 - 16) with (len d) by lia.
  - unfold sized16. by rewrite C2, F2.
Qed.

(** Decrypting a block of any content, on every path. *)
Lemma session_decrypt_run sess p b x0 x1 ct h :
  buf_wf b → contents b = x0 :: x1 :: ct → bytes b ≤ MAX_CIPHERTEXT_BLOCK_SIZE →
  let n := Z_of_byte x0 * 256 + Z_of_byte x1 in
  match (if malloc_ok h (malloc_n h) && (AUTH_TAG_LEN <? n) && (n =? len ct)
         then unseal POUCH_ROLE_SERVER sess p ct else None) with
  | Some d => ∃ e, session_decrypt_block sess p (Some b) h =
        OK ((Some e, ss_set_flags (atomic_set_bit (ss_flags sess) SESSION_VALID) (after ct sess)), tried true h)
      ∧ buf_wf e ∧ contents e = sized16 d ∧ len d = len ct - AUTH_TAG_LEN
  | None => session_decrypt_block sess p (Some b) h = OK ((None, sess), tried false h)
  end.
Proof.
  intros W E L n. pose proof MAX_PLAINTEXT_range as R. pose proof ciphertext_size as Cs.
  unfold AUTH_TAG_LEN in *. pose proof (len_contents b W) as Lb. rewrite E in Lb.
  rewrite !length_cons in Lb.
  assert (rest b 2 = ct) as R2 by (unfold rest; by rewrite E).
  pose proof (buf_alloc_spec MAX_PLAINTEXT_BLOCK_SIZE h) as Ea. unfold session_decrypt_block, tried.
  destruct (malloc_ok h (malloc_n h)); cbn [andb]; rewrite (st_bind_OK _ _ _ _ _ Ea); [|done].
  change (view_of (Some b)) with (view_at b 0).
  rewrite (lift_bind_OK _ _ (n, view_at b 2)) by
    (by rewrite (read_be16_next b 0 x0 x1 ct) by (done || lia)).
  rewrite (available_at b 2) by (done || lia). rewrite R2. unfold AUTH_TAG_LEN.
  destruct (Z.leb_spec n 16) as [Ln|Ln]; cbn [orb].
  { rewrite (proj2 (Z.ltb_ge 16 n)) by lia. done. }
  rewrite (proj2 (Z.ltb_lt 16 n)) by lia. cbn [andb].
  destruct (Z.eqb_spec n (len ct)) as [En|En]; cbn [negb]; [|done]. rewrite En in *. clear n En.
  unfold unseal, AUTH_TAG_LEN in *.
  pose proof (aead_decrypt_fits p (ss_key sess) (ss_algorithm sess)
    (nonce_generate sess POUCH_ROLE_SERVER) (next_ad sess) ct (len ct - 16) ltac:(lia)) as [F1 F2].
  destruct (psa_aead_decrypt _ _ _ _ _ _ _) as [[status w] n] eqn:A. simpl in F1, F2.
  assert (0 ≤ len ct - 16 < 65534 ∧ 2 + (len ct - 16) ≤ MAX_PLAINTEXT_BLOCK_SIZE < 65536) as [B1 B2] by lia.
  destruct (fill_sized _ _ w B1 B2 F1)
    as (b1 & b2 & Ew & E2 & Em & Ec & Ewf & By & Me).
  rewrite (lift_bind_OK _ _ b1) by (by rewrite Ew).
  assert (ztake (len ct - 16) ct ++ zdrop (len ct - 16) ct = ct) as Sp by apply take_drop.
  assert (len (ztake (len ct - 16) ct) = len ct - 16) as Lt by solve_len.
  rewrite (lift_bind_OK _ _ (Some 2, view_at b (2 + (len ct - 16)))).
  2:{ rewrite (pouch_bufview_read_next b 2 (ztake (len ct - 16) ct) (zdrop (len ct - 16) ct) W)
        by (lia || by rewrite Sp). by rewrite Lt. }
  rewrite (lift_bind_OK _ _ ct).
  2:{ cbn [of_ptr]. rewrite bind_OK. rewrite (view_load_at b 2) by (done || lia).
      by rewrite R2, ztake_all by lia. }
  unfold buf_claim in Em |- *. rewrite E2 in *. cbn [snd] in Em.
  rewrite A. rewrite (lift_bind_OK _ _ b2) by (by rewrite Em).
  destruct (Z.eqb_spec status PSA_SUCCESS) as [->|]; cbn [negb andb]; [|done].
  destruct (Z.eqb_spec n (len ct - 16)) as [->|]; cbn [negb]; [|done].
  specialize (F2 eq_refl). destruct (Ewf F2) as [W2 C2]. exists b2.
  assert (rest b (2 + (len ct - 16)) = zdrop (len ct - 16) ct ++ []) as Rt.
  { rewrite app_nil_r. unfold rest in *. rewrite <- zdrop_zdrop, R2 by lia. done. }
  rewrite (lift_bind_OK _ _ (zdrop (len ct - 16) ct, view_at b (2 + (len ct - 16) + 16))).
  2:{ assert (len (zdrop (len ct - 16) ct) = 16) as Lz by solve_len.
      rewrite (memcpy_next b (2 + (len ct - 16)) _ [] W ltac:(lia) Rt) by (by rewrite Lz). by rewrite Lz. }
  split_and!; [done|done| |lia]. unfold sized16. by rewrite C2, F2.
Qed.

(** ** Sequences of blocks *)

(** Blocks encrypted, and decrypted, one after the other. *)
Fixpoint encrypt_seq sess p (bs : list pouch_buf) : st heap (list (option pouch_buf) * session) :=
  match bs with
  | [] => mret ([], sess)
  | b :: bs =>
    '(e, sess) ← session_encrypt_block sess p (Some b);
    '(es, sess) ← encrypt_seq sess p bs;
    mret (e :: es, sess)
  end.

Fixpoint decrypt_seq sess p (bs : list pouch_buf) : st heap (list (option pouch_buf) * session) :=
  match bs with
  | [] => mret ([], sess)
  | b :: bs =>
    '(e, sess) ← session_decrypt_block sess p (Some b);
    '(es, sess) ← decrypt_seq sess p bs;
    mret (e :: es, sess)
  end.

(** A buffer that holds [d] with its length. *)
Definition carries d b : Prop := buf_wf b ∧ contents b = sized16 d.

Lemma encrypt_seq_run p bs : ∀ sess ds cts sess' h,
  Forall2 carries ds bs → Forall (λ d, len d ≤ MAX_PLAINTEXT_BLOCK_SIZE - 2) ds →
  malloc_never_fails h → seal_all POUCH_ROLE_DEVICE sess p ds = Some (cts, sess') →
  ∃ es h', encrypt_seq sess p bs h = OK ((map Some es, sess'), h') ∧ Forall2 carries cts es.
Proof.
  induction bs as [|b bs IH]; intros sess ds cts sess' h F L M S.
  { apply Forall2_nil_inv_r in F as ->. injection S as <- <-. by exists [], h. }
  apply Forall2_cons_inv_r in F as (d & ds' & [W E] & F & ->). cbn [seal_all] in S.
  apply Forall_cons in L as [Ld L].
  pose proof (session_encrypt_run sess p b d h W E Ld) as R. rewrite M in R.
  destruct (seal POUCH_ROLE_DEVICE sess p d) as [ct|]; [|done]. cbn [mbind option_bind] in S.
  destruct (seal_all _ _ _ ds') as [[cts' s']|] eqn:Sa; [|done]. injection S as <- <-.
  destruct R as (e & R & We & Ce).
  destruct (IH _ _ _ _ (tried true h) F L ltac:(unfold tried; rewrite M; exact M) Sa) as (es & h' & Es & Fs).
  exists (e :: es), h'. split; [|by constructor].
  cbn [encrypt_seq]. rewrite (st_bind_OK _ _ _ _ _ R), (st_bind_OK _ _ _ _ _ Es). done.
Qed.

Lemma decrypt_seq_run p bs : ∀ sess cts ds sess' h,
  Forall2 carries cts bs → Forall (λ b, bytes b ≤ MAX_CIPHERTEXT_BLOCK_SIZE) bs →
  Forall (λ ct, AUTH_TAG_LEN < len ct) cts →
  malloc_never_fails h → unseal_all POUCH_ROLE_SERVER sess p cts = Some (ds, sess') →
  ∃ es sess2 h', decrypt_seq sess p bs h = OK ((map Some es, sess2), h') ∧ Forall2 carries ds es
    ∧ (∃ f, sess2 = ss_set_flags f sess') ∧ (cts ≠ [] → atomic_test_bit (ss_flags sess2) SESSION_VALID = true).
Proof.
  assert (∀ ct f s, after ct (ss_set_flags f s) = ss_set_flags f (after ct s)) as Af by done.
  assert (∀ f s cts ds s', unseal_all POUCH_ROLE_SERVER s p cts = Some (ds, s') →
    unseal_all POUCH_ROLE_SERVER (ss_set_flags f s) p cts = Some (ds, ss_set_flags f s')) as Uf.
  { intros f s cts. revert s. induction cts as [|ct cts IHc]; intros s ds s'; cbn [unseal_all].
    { by intros [= <- <-]. }
    change (unseal _ (ss_set_flags f s) p ct) with (unseal POUCH_ROLE_SERVER s p ct).
    destruct (unseal _ s p ct); [|done]. cbn [mbind option_bind]. rewrite Af.
    destruct (unseal_all _ (after ct s) p cts) as [[ds' s2]|] eqn:U; [|done]. intros [= <- <-].
    by rewrite (IHc _ _ _ U). }
  induction bs as [|b bs IH]; intros sess cts ds sess' h F B T M S.
  { apply Forall2_nil_inv_r in F as ->. injection S as <- <-. exists [], sess, h.
    split_and!; try done. exists (ss_flags sess). by destruct sess. }
  apply Forall2_cons_inv_r in F as (ct & cts' & [W E] & F & ->). cbn [unseal_all] in S.
  apply Forall_cons in T as [Tc T]. apply Forall_cons in B as [Bb B].
  pose proof (len_contents b W) as Lb. pose proof MAX_CIPHERTEXT_range.
  destruct (unseal POUCH_ROLE_SERVER sess p ct) as [d|] eqn:U; [|done]. cbn [mbind option_bind] in S.
  destruct (unseal_all _ _ _ cts') as [[ds' s']|] eqn:Sa; [|done]. injection S as <- <-.
  rewrite E in Lb. unfold sized16 in Lb, E.
  assert (2 + len ct = bytes b) as Eb.
  { pose proof (len_put_be16 (len ct) ltac:(solve_len)). solve_len. }
  rewrite sys_put_be16_spec in E by lia.
  pose proof (session_decrypt_run sess p b _ _ ct h W E Bb) as R. cbv zeta in R.
  rewrite be16_value in R by lia. rewrite M, (proj2 (Z.ltb_lt _ _) Tc), Z.eqb_refl, U in R.
  destruct R as (e & R & We & Ce & _).
  destruct (IH _ _ _ _ (tried true h) F B T ltac:(unfold tried; rewrite M; exact M)
    (Uf (atomic_set_bit (ss_flags sess) SESSION_VALID) _ _ _ _ Sa)) as (es & s2 & h' & Es & Fs & [f Ps] & V).
  exists (e :: es), s2, h'. split_and!; [|by constructor|by exists f|].
  - cbn [decrypt_seq]. rewrite (st_bind_OK _ _ _ _ _ R), (st_bind_OK _ _ _ _ _ Es). done.
  - intros _. destruct cts'; [|by apply V]. apply Forall2_nil_inv_l in F as ->.
    injection Es as _ <- _. by apply setbit_same.
Qed.

End Blocks.

(** * Properties *)

Section Properties.
Context {BO : ByteOrder} {CF : Config} {PS : Psa} {PL : PsaLaws PS} {B6 : Base64}.
Implicit Types (sess : session) (p : psa_state) (d ct : list byte) (b : pouch_buf) (h : heap).

(** The server reads what the device encrypts: the blocks of a pouch, encrypted one after the other,
    are well-formed ciphertext blocks whose payloads a peer with the same key that starts at the same
    position decrypts, in order, to exactly the payloads of the blocks; and both ends stay in step. *)
Theorem session_uplink_roundtrip p bs ds cts sess sess' peer p' h :
  CONFIG_AUTH_TAG_LEN = AUTH_TAG_LEN →
  Forall2 carries ds bs → Forall (λ d, len d ≤ MAX_PLAINTEXT_BLOCK_SIZE - 2) ds →
  malloc_never_fails h → in_step sess p peer p' →
  seal_all POUCH_ROLE_DEVICE sess p ds = Some (cts, sess') →
  ∃ es h' peer', encrypt_seq sess p bs h = OK ((map Some es, sess'), h') ∧ Forall2 carries cts es
    ∧ unseal_all POUCH_ROLE_DEVICE peer p' cts = Some (ds, peer') ∧ in_step sess' p peer' p'.
Proof.
  intros T F L M I S. destruct (encrypt_seq_run T p bs sess ds cts sess' h F L M S) as (es & h' & E & Fe).
  destruct (unseal_seal_all _ _ _ _ _ _ _ _ I S) as (peer' & U & I').
  by exists es, h', peer'.
Qed.

(** The device reads what the server encrypts: ciphertext blocks that a peer with the same key
    sealed as the server, from the same position, are decrypted one after the other to blocks that
    carry the peer's payloads in order; and then the session counts as valid. *)
Theorem session_downlink_roundtrip p bs ds cts sess peer peer' p' h :
  CONFIG_AUTH_TAG_LEN = AUTH_TAG_LEN →
  in_step peer p' sess p → seal_all POUCH_ROLE_SERVER peer p' ds = Some (cts, peer') →
  Forall (λ ct, AUTH_TAG_LEN < len ct) cts →
  Forall2 carries cts bs → Forall (λ b, bytes b ≤ MAX_CIPHERTEXT_BLOCK_SIZE) bs →
  malloc_never_fails h →
  ∃ es sess' h', decrypt_seq sess p bs h = OK ((map Some es, sess'), h') ∧ Forall2 carries ds es
    ∧ in_step peer' p' sess' p
    ∧ (ds ≠ [] → atomic_test_bit (ss_flags sess') SESSION_VALID = true).
Proof.
  intros T I S Tl F B M. destruct (unseal_seal_all _ _ _ _ _ _ _ _ I S) as (s2 & U & I2).
  destruct (decrypt_seq_run T p bs sess cts ds s2 h F B Tl M U) as (es & s3 & h' & E & Fe & [f ->] & V).
  exists es, (ss_set_flags f s2), h'. split_and!; [done|done|by destruct I2|].
  intros N. apply V. intros ->. simpl in U. by injection U as <- _.
Qed.

(** C19: decrypting a block of any content never faults and either yields the payload the key
    authenticates, or returns NULL: then the session is exactly as before, so that a forged,
    truncated or reordered block does not put it out of step, and no buffer is leaked. A block is
    refused unless its size field is the length of what follows and exceeds the tag's. *)
Theorem session_decrypt_block_spec sess p b x0 x1 ct h k :
  CONFIG_AUTH_TAG_LEN = AUTH_TAG_LEN →
  buf_wf b → contents b = x0 :: x1 :: ct → bytes b ≤ MAX_CIPHERTEXT_BLOCK_SIZE → live h k →
  ∃ r sess' h', session_decrypt_block sess p (Some b) h = OK ((r, sess'), h')
    ∧ live h' (k + occ r) ∧ (r = None → sess' = sess)
    ∧ (∀ e, r = Some e → ∃ d, carries d e
         ∧ unseal POUCH_ROLE_SERVER sess p ct = Some d ∧ len d = len ct - AUTH_TAG_LEN
         ∧ sys_get_be16 [x0; x1] = len ct ∧ AUTH_TAG_LEN < len ct
         ∧ ss_pouch sess' = SessionPouch (sp_id (ss_pouch sess))
             (u32 (sp_block_index (ss_pouch sess) + 1)) (zdrop (len ct - AUTH_TAG_LEN) ct)).
Proof.
  intros T W E B L. pose proof (session_decrypt_run T sess p b x0 x1 ct h W E B) as R. cbv zeta in R.
  rewrite <- sys_get_be16_spec in R.
  assert (live (tried false h) k) as Lf.
  { apply (live_eq _ _ k (tried_live false h k L)). simpl. lia. }
  destruct (malloc_ok h (malloc_n h)) eqn:M; cbn [andb] in R;
    [|exists None, sess, (tried false h); split_and!; try done; simpl; by rewrite Z.add_0_r].
  destruct (Z.ltb_spec AUTH_TAG_LEN (sys_get_be16 [x0; x1])) as [A|A]; cbn [andb] in R;
    [|exists None, sess, (tried false h); split_and!; try done; simpl; by rewrite Z.add_0_r].
  destruct (Z.eqb_spec (sys_get_be16 [x0; x1]) (len ct)) as [En|En];
    [|exists None, sess, (tried false h); split_and!; try done; simpl; by rewrite Z.add_0_r].
  destruct (unseal POUCH_ROLE_SERVER sess p ct) as [d|] eqn:U;
    [|exists None, sess, (tried false h); split_and!; try done; simpl; by rewrite Z.add_0_r].
  destruct R as (e & R & We & Ce & Ld).
  eexists (Some e), _, (tried true h). split_and!; [exact R| |done|].
  - pose proof (tried_live true h k L) as Lt. by rewrite M in Lt.
  - intros ? [= <-]. exists d. split_and!; try done. lia.
Qed.

(** ** Nonces *)

Lemma be16_inj v w k l :
  0 ≤ v < 65536 → 0 ≤ w < 65536 → sys_put_be16 v ++ k = sys_put_be16 w ++ l → v = w ∧ k = l.
Proof.
  intros V W. rewrite !sys_put_be16_spec by done. intros [= H0 H1 ->]. split; [|done].
  rewrite <- (be16_value v V), <- (be16_value w W). by rewrite H0, H1.
Qed.

(** C20: nonces: under one key, two blocks have the same nonce exactly when they have the same pouch id,
    the same sender and block indices that agree modulo 65536. So no nonce is used twice in a pouch
    of at most 65536 blocks, nor in two pouches of a session of at most 65535 pouches; and the
    65537th block of a pouch has the nonce of the first, for only 16 bits of the index are used. *)
Theorem nonce_unique s1 s2 r1 r2 :
  0 ≤ sp_id (ss_pouch s1) < 65536 → 0 ≤ sp_id (ss_pouch s2) < 65536 →
  len (nonce_generate s1 r1) = NONCE_LEN ∧
  (nonce_generate s1 r1 = nonce_generate s2 r2 ↔
   sp_id (ss_pouch s1) = sp_id (ss_pouch s2) ∧ r1 = r2
   ∧ sp_block_index (ss_pouch s1) mod 65536 = sp_block_index (ss_pouch s2) mod 65536).
Proof.
  intros I1 I2. unfold nonce_generate. split.
  - rewrite !length_app, !len_put_be16 by (done || apply u16_range). done.
  - split.
    + intros [E1 [E2 E3]%be16_inj]%be16_inj; try (done || apply u16_range).
      split_and!; [done| |done]. by destruct r1, r2.
    + intros (-> & -> & E). unfold u16. by rewrite E.
Qed.

(** ** The key's context *)

Lemma info_shape i alg log info :
  session_key_info_build i alg log = inr info →
  ∃ s, (base64_encode (BASE64_STRLEN SESSION_ID_LEN + 1) (id_value i)) = (SUCCESS, s)
    ∧ info = ["E"; "0"; ":"]%byte
        ++ [match id_initiator i with POUCH_ROLE_DEVICE => "D" | POUCH_ROLE_SERVER => "S" end; ":"]%byte
        ++ s ++ [":"; "C"]%byte
        ++ [if decide (alg = PSA_ALG_CHACHA20_POLY1305) then "C" else "A";
            match id_type i with SESSION_ID_TYPE_SEQUENTIAL => "S" | SESSION_ID_TYPE_RANDOM => "R" end;
            ":"]%byte
        ++ fmt_02x log.
Proof.
  unfold session_key_info_build. destruct (base64_encode _ _) as [[e|] s]; [done|].
  intros [= <-]. by exists s.
Qed.

Lemma fmt_02x_inj n m : 0 ≤ n < 256 → 0 ≤ m < 256 → fmt_02x n = fmt_02x m → n = m.
Proof.
  assert (∀ a, 0 ≤ a < 16 → Z_of_byte (hex_digit a) = if a <? 10 then 48 + a else 87 + a) as D.
  { intros a A. unfold hex_digit. rewrite Z_of_byte_of_Z. apply u8_small.
    destruct (Z.ltb_spec a 10); lia. }
  intros N M. unfold fmt_02x. intros [= H L].
  apply (f_equal Z_of_byte) in H, L. rewrite !D in H, L by dlia. revert H L.
  destruct (Z.ltb_spec (n / 16) 10), (Z.ltb_spec (m / 16) 10), (Z.ltb_spec (n mod 16) 10),
    (Z.ltb_spec (m mod 16) 10); dlia.
Qed.

(** The context a session key is derived in: for a session id of 16 bytes it is always built, and
    with its terminating NUL it fills the buffer for it exactly, never more; and two sessions with
    the same context have the same initiator, kind of id, algorithm, block size and encoded id. *)
Theorem session_key_info_spec i alg log :
  len (id_value i) = SESSION_ID_LEN →
  ∃ info, session_key_info_build i alg log = inr info ∧ len info + 1 = INFO_MAX_LEN
    ∧ ∀ i' alg' log', len (id_value i') = SESSION_ID_LEN → 0 ≤ log < 256 → 0 ≤ log' < 256 →
        session_key_info_build i' alg' log' = inr info →
        id_initiator i = id_initiator i' ∧ id_type i = id_type i' ∧ log = log'
        ∧ (alg = PSA_ALG_CHACHA20_POLY1305 ↔ alg' = PSA_ALG_CHACHA20_POLY1305)
        ∧ base64_encode 25 (id_value i) = base64_encode 25 (id_value i').
Proof.
  intros L. assert (∀ j, len (id_value j) = SESSION_ID_LEN →
    ∃ s, base64_encode (BASE64_STRLEN SESSION_ID_LEN + 1) (id_value j) = (SUCCESS, s) ∧ len s = 24) as B.
  { intros j Lj. destruct (base64_encode_spec (BASE64_STRLEN SESSION_ID_LEN + 1) (id_value j)) as [E Es];
      [rewrite Lj; by compute|]. rewrite Lj in Es.
    destruct (base64_encode _ (id_value j)) as [e s]. simpl in E, Es. subst e. by exists s. }
  destruct (B i L) as (s & E & Ls).
  destruct (session_key_info_build i alg log) as [e|info] eqn:I.
  { unfold session_key_info_build in I. by rewrite E in I. }
  exists info. destruct (info_shape _ _ _ _ I) as (s1 & E1 & Ei). rewrite E in E1. injection E1 as <-.
  split_and!; [done|rewrite Ei; unfold fmt_02x; rewrite !length_app; simpl; change INFO_MAX_LEN with 37; lia|].
  intros i' alg' log' L' G G' I'. destruct (B i' L') as (s' & E' & Ls').
  destruct (info_shape _ _ _ _ I') as (s1 & E1 & Ei'). rewrite E' in E1. injection E1 as <-.
  change 25 with (BASE64_STRLEN SESSION_ID_LEN + 1). rewrite E, E'.
  rewrite Ei in Ei'. simpl in Ei'. injection Ei' as Hi Er.
  apply app_inj_1 in Er as [-> Er]; [|lia]. injection Er as Ha Ht H1 H2.
  split_and!; [by destruct (id_initiator i), (id_initiator i')|by destruct (id_type i), (id_type i')
    |apply fmt_02x_inj; [done|done|]; unfold fmt_02x; congruence| |done].
  by destruct (decide (alg = _)), (decide (alg' = _)).
Qed.

End Properties.

Module SessionWitness.
#[local] Existing Instances Native.byte_order Native.config_saead NativePsa.psa NativePsa.psa_laws
  NativePsa.base64.

(** Both ends at the third block of pouch 5. *)
Definition ex_id : session_id := SessionId SESSION_ID_TYPE_RANDOM POUCH_ROLE_DEVICE (replicate 16 x41).
Definition ex_session : session :=
  Session ex_id 3 PSA_ALG_GCM 1 (SessionPouch 5 2 (replicate 16 x11)).
Definition ex_psa : psa_state := [[x61; x62]].
Definition ex_payloads : list (list byte) := [[x40; x07]; [x80; x09; x0a]].
Definition ex_block (d : list byte) : pouch_buf := PBuf 515 (2 + len d) (sized16 d).

Lemma ex_carries : Forall2 carries ex_payloads (map ex_block ex_payloads).
Proof. repeat constructor; vm_compute; done. Qed.

Definition ex_cts (r : pouch_role) : list (list byte) :=
  match seal_all r ex_session ex_psa ex_payloads with Some (cts, _) => cts | None => [] end.
Definition ex_end (r : pouch_role) : session :=
  match seal_all r ex_session ex_psa ex_payloads with Some (_, s) => s | None => ex_session end.

Lemma session_uplink_roundtrip_witness :
  ∃ es h' peer',
    encrypt_seq ex_session ex_psa (map ex_block ex_payloads) Native.heap0
      = OK ((map Some es, ex_end POUCH_ROLE_DEVICE), h')
    ∧ Forall2 carries (ex_cts POUCH_ROLE_DEVICE) es
    ∧ unseal_all POUCH_ROLE_DEVICE ex_session ex_psa (ex_cts POUCH_ROLE_DEVICE) = Some (ex_payloads, peer')
    ∧ in_step (ex_end POUCH_ROLE_DEVICE) ex_psa peer' ex_psa.
Proof.
  apply (session_uplink_roundtrip ex_psa (map ex_block ex_payloads) ex_payloads (ex_cts POUCH_ROLE_DEVICE)
    ex_session (ex_end POUCH_ROLE_DEVICE) ex_session ex_psa Native.heap0).
  - reflexivity.
  - exact ex_carries.
  - repeat constructor; by vm_compute.
  - intros n. reflexivity.
  - by split.
  - vm_compute. reflexivity.
Defined.

Definition ex_ct_block (ct : list byte) : pouch_buf := PBuf 531 (2 + len ct) (sized16 ct).

Lemma session_downlink_roundtrip_witness :
  ∃ es sess' h',
    decrypt_seq ex_session ex_psa (map ex_ct_block (ex_cts POUCH_ROLE_SERVER)) Native.heap0
      = OK ((map Some es, sess'), h')
    ∧ Forall2 carries ex_payloads es ∧ in_step (ex_end POUCH_ROLE_SERVER) ex_psa sess' ex_psa
    ∧ (ex_payloads ≠ [] → atomic_test_bit (ss_flags sess') SESSION_VALID = true).
Proof.
  apply (session_downlink_roundtrip ex_psa (map ex_ct_block (ex_cts POUCH_ROLE_SERVER)) ex_payloads
    (ex_cts POUCH_ROLE_SERVER) ex_session ex_session (ex_end POUCH_ROLE_SERVER) ex_psa Native.heap0).
  - reflexivity.
  - by split.
  - vm_compute. reflexivity.
  - vm_compute. repeat constructor.
  - vm_compute. repeat constructor; done.
  - vm_compute. repeat constructor; done.
  - intros n. reflexivity.
Defined.

(** A block of three bytes is too short to carry a tag. *)
Definition ex_short : pouch_buf := PBuf 531 3 [x00; x01; x07].

Lemma session_decrypt_block_spec_witness :
  ∃ (r : option pouch_buf) sess' h',
    session_decrypt_block ex_session ex_psa (Some ex_short) Native.heap0 = OK ((r, sess'), h')
    ∧ live h' (0 + occ r) ∧ (r = None → sess' = ex_session).
Proof.
  destruct (session_decrypt_block_spec (CF := Native.config_saead) (PS := NativePsa.psa) ex_session ex_psa ex_short x00 x01 [x07] Native.heap0 0
    eq_refl ltac:(split; vm_compute; done) eq_refl ltac:(by vm_compute) eq_refl)
    as (r & s' & h' & E & L & N & _).
  by exists r, s', h'.
Defined.

(** The first block of a pouch and the one 65536 blocks later. *)
Lemma nonce_unique_witness :
  nonce_generate (ss_set_pouch (SessionPouch 5 0 []) ex_session) POUCH_ROLE_DEVICE
  = nonce_generate (ss_set_pouch (SessionPouch 5 65536 []) ex_session) POUCH_ROLE_DEVICE.
Proof.
  apply (proj2 (nonce_unique (ss_set_pouch (SessionPouch 5 0 []) ex_session)
    (ss_set_pouch (SessionPouch 5 65536 []) ex_session) POUCH_ROLE_DEVICE POUCH_ROLE_DEVICE
    ltac:(simpl; lia) ltac:(simpl; lia))).
  by split_and!.
Defined.

Lemma session_key_info_spec_witness :
  ∃ info, session_key_info_build ex_id PSA_ALG_GCM 9 = inr info ∧ len info + 1 = 37.
Proof.
  destruct (session_key_info_spec ex_id PSA_ALG_GCM 9 eq_refl) as (info & E & L & _).
  exists info. split; [exact E|exact L].
Defined.
End SessionWitness.
