(* ===== verification/Saead.v ===== *)
(** Streaming AEAD encryption: src/src/saead/uplink.c, src/src/saead/downlink.c and
    src/src/crypto_saead.c.

    The second implementation of the encryption layer's interface: the device's session for the
    uplink, the server's for the downlink, and the checks against replayed downlinks. *)
From S2P Require Import Prelude Platform Buf Block Crypto State Psa Cert Session.

Class SaeadConfig := { CONFIG_POUCH_ENCRYPTION_CHACHA20_POLY1305 : bool }.

(** downlink.c: what was seen of the server. *)
Record server_statics := ServerStatics { sv_seqnum : Z; sv_pouch_id : Z }.

Section Saead.
Context {BO : ByteOrder} {CF : Config} {SC : SaeadConfig} {CC : CertConfig}.
Context {PS : Psa} {B6 : Base64} {X : X509}.

(** The static variables of the three files and of cert.c, and the state of the PSA library. *)
Record saead := Saead {
  sa_psa : psa_state;
  sa_cert : cert_statics;
  sa_uplink : session;
  sa_downlink : session;
  sa_server : server_statics;
  sa_pkey : psa_key_id_t;
}.

Definition set_psa x (c : saead) : saead :=
  Saead x (sa_cert c) (sa_uplink c) (sa_downlink c) (sa_server c) (sa_pkey c).
Definition set_cert x (c : saead) : saead :=
  Saead (sa_psa c) x (sa_uplink c) (sa_downlink c) (sa_server c) (sa_pkey c).
Definition set_uplink_session x (c : saead) : saead :=
  Saead (sa_psa c) (sa_cert c) x (sa_downlink c) (sa_server c) (sa_pkey c).
Definition set_downlink_session x (c : saead) : saead :=
  Saead (sa_psa c) (sa_cert c) (sa_uplink c) x (sa_server c) (sa_pkey c).
Definition set_server x (c : saead) : saead :=
  Saead (sa_psa c) (sa_cert c) (sa_uplink c) (sa_downlink c) x (sa_pkey c).
Definition set_pkey x (c : saead) : saead :=
  Saead (sa_psa c) (sa_cert c) (sa_uplink c) (sa_downlink c) (sa_server c) x.

(** * saead/uplink.c *)

(** The result of the key generation is not looked at. *)
Definition saead_uplink_session_start (algorithm : psa_algorithm_t) (private_key : psa_key_id_t)
    (c : saead) : status * saead :=
  let uplink := ss_set_flags 0 (sa_uplink c) in
  let i := SessionId SESSION_ID_TYPE_RANDOM (id_initiator (ss_id uplink)) (id_value (ss_id uplink)) in
  let '(err, i, p) := session_id_generate i (sa_psa c) in
  let uplink := ss_set_id i uplink in
  match err with
  | Some e => (NEG e, set_psa p (set_uplink_session uplink c))
  | None =>
    let pubkey := cert_server_key_get (sa_cert c) in
    let '(k, p) := session_key_generate i algorithm MAX_BLOCK_PAYLOAD_SIZE_LOG private_key pubkey
                     PSA_KEY_USAGE_ENCRYPT p in
    let uplink := ss_set_pouch_id 0 (ss_set_algorithm algorithm (ss_set_key k uplink)) in
    let uplink := ss_set_flags (atomic_set_bit (ss_flags uplink) SESSION_VALID) uplink in
    let uplink := ss_set_flags (atomic_set_bit (ss_flags uplink) SESSION_ACTIVE) uplink in
    (SUCCESS, set_psa p (set_uplink_session uplink c))
  end.

Definition saead_uplink_pouch_start (c : saead) : status * saead :=
  let '(err, s) := session_pouch_start (sa_uplink c) (sp_id (ss_pouch (sa_uplink c)) + 1) in
  (err, set_uplink_session s c).

(** What the caller gets with an error; it does not look at it. *)
Definition no_info : encryption_info :=
  saead_info (SessionInfo (session_id_random []) initiator_device aes_gcm 0 []) 0.

Definition saead_uplink_header_get (c : saead) : status * encryption_info :=
  let uplink := sa_uplink c in
  if negb (atomic_test_bit (ss_flags uplink) SESSION_ACTIVE) then (NEG ENOTCONN, no_info) else
  let i := match id_type (ss_id uplink) with
           | SESSION_ID_TYPE_SEQUENTIAL =>
             session_id_sequential (sequential_tag (id_value (ss_id uplink)))
               (seqnum (id_value (ss_id uplink)))
           | SESSION_ID_TYPE_RANDOM => session_id_random (ztake SESSION_ID_LEN (id_value (ss_id uplink)))
           end in
  let alg := if decide (ss_algorithm uplink = PSA_ALG_CHACHA20_POLY1305)
             then chacha20_poly1305 else aes_gcm in
  match cert_ref_get (sa_cert c) with
  | None => (NEG EBUSY, no_info)
  | Some cert_ref =>
    (SUCCESS, saead_info (SessionInfo i initiator_device alg MAX_BLOCK_PAYLOAD_SIZE_LOG
                            (ztake CERT_REF_SHORT_LEN cert_ref)) (sp_id (ss_pouch uplink)))
  end.

Definition saead_uplink_encrypt_block (block : option pouch_buf) : st (heap * saead) (option pouch_buf) :=
  λ '(h, c),
    if negb (atomic_test_bit (ss_flags (sa_uplink c)) SESSION_ACTIVE) then
      '(_, h) ← buf_free block h;
      OK (None, (h, c))
    else
      '((encrypted, uplink), h) ← session_encrypt_block (sa_uplink c) (sa_psa c) block h;
      '(_, h) ← buf_free block h;
      OK (encrypted, (h, set_uplink_session uplink c)).

Definition saead_uplink_session_end (c : saead) : saead :=
  let '(s, p) := session_end (sa_uplink c) (sa_psa c) in set_psa p (set_uplink_session s c).

Definition saead_uplink_session_matches (i : session_id) (max_block_size_log : Z)
    (algorithm : psa_algorithm_t) (c : saead) : bool :=
  atomic_test_bit (ss_flags (sa_uplink c)) SESSION_VALID
  && session_id_is_equal i (ss_id (sa_uplink c))
  && (max_block_size_log =? MAX_BLOCK_PAYLOAD_SIZE_LOG)
  && bool_decide (ss_algorithm (sa_uplink c) = algorithm).

Definition saead_uplink_session_key_copy (usage : psa_key_usage_t) (c : saead) : psa_key_id_t * saead :=
  if negb (atomic_test_bit (ss_flags (sa_uplink c)) SESSION_VALID) then (PSA_KEY_ID_NULL, c) else
  let attrs := PsaKeyAttributes (psa_key_type PSA_KEY_ATTRIBUTES_INIT) (psa_key_bits PSA_KEY_ATTRIBUTES_INIT)
                 (psa_key_algorithm PSA_KEY_ATTRIBUTES_INIT) usage in
  let '(status, copy, p) := psa_copy_key (ss_key (sa_uplink c)) attrs (sa_psa c) in
  (if negb (status =? PSA_SUCCESS) then PSA_KEY_ID_NULL else copy, set_psa p c).

(** * saead/downlink.c *)

Definition DOWNLINK_KEY_USAGE : psa_key_usage_t :=
  Z.lor PSA_KEY_USAGE_DECRYPT PSA_KEY_USAGE_VERIFY_MESSAGE.

Definition is_valid_downlink (i : session_id) (algorithm : psa_algorithm_t) (c : saead) : bool :=
  let downlink := sa_downlink c in
  if negb (atomic_test_bit (ss_flags downlink) SESSION_VALID) then true else
  if session_id_is_equal (ss_id downlink) i && negb (bool_decide (ss_algorithm downlink = algorithm))
  then false else
  match id_initiator i with
  | POUCH_ROLE_SERVER =>
    negb (bool_decide (id_type i = SESSION_ID_TYPE_SEQUENTIAL)
          && (seqnum (id_value i) <=? sv_seqnum (sa_server c)))
  | POUCH_ROLE_DEVICE => true
  end.

Definition saead_downlink_session_start (i : session_id) (algorithm : psa_algorithm_t)
    (max_block_size_log : Z) (private_key : psa_key_id_t) (c : saead) : status * saead :=
  if negb (is_valid_downlink i algorithm c) then (NEG EBADMSG, c) else
  let start session_key c :=
    if session_key =? PSA_KEY_ID_NULL then (NEG EIO, c) else
    let downlink := ss_set_pouch_id 0 (ss_set_flags 0 (sa_downlink c)) in
    let downlink := ss_set_id i (ss_set_key session_key (ss_set_algorithm algorithm downlink)) in
    let downlink := ss_set_flags (atomic_set_bit (ss_flags downlink) SESSION_ACTIVE) downlink in
    (SUCCESS, set_downlink_session downlink c) in
  match id_initiator i with
  | POUCH_ROLE_DEVICE =>
    if negb (bool_decide (id_type i = SESSION_ID_TYPE_SEQUENTIAL)) then (NEG EBADMSG, c) else
    if negb (saead_uplink_session_matches i max_block_size_log algorithm c) then (NEG EBADMSG, c) else
    let '(k, c) := saead_uplink_session_key_copy DOWNLINK_KEY_USAGE c in
    start k c
  | POUCH_ROLE_SERVER =>
    let pubkey := cert_server_key_get (sa_cert c) in
    let '(k, p) := session_key_generate i algorithm max_block_size_log private_key pubkey
                     DOWNLINK_KEY_USAGE (sa_psa c) in
    start k (set_psa p c)
  end.

Definition saead_downlink_session_end (c : saead) : saead :=
  let '(s, p) := session_end (sa_downlink c) (sa_psa c) in set_psa p (set_downlink_session s c).

Definition saead_downlink_pouch_start (i : Z) (c : saead) : status * saead :=
  if atomic_test_bit (ss_flags (sa_downlink c)) SESSION_HAS_POUCH && (i <=? sv_pouch_id (sa_server c))
  then (NEG EBADMSG, c) else
  let '(err, s) := session_pouch_start (sa_downlink c) i in (err, set_downlink_session s c).

Definition saead_downlink_block_decrypt (block : option pouch_buf)
    : st (heap * saead) (option pouch_buf) :=
  λ '(h, c),
    '((decrypted, downlink), h) ← session_decrypt_block (sa_downlink c) (sa_psa c) block h;
    '(_, h) ← buf_free block h;
    match decrypted with
    | None => OK (None, (h, set_downlink_session downlink c))
    | Some decrypted =>
      let downlink := ss_set_flags (atomic_set_bit (ss_flags downlink) SESSION_VALID) downlink in
      let downlink := ss_set_flags (atomic_set_bit (ss_flags downlink) SESSION_HAS_POUCH) downlink in
      let n := if bool_decide (id_initiator (ss_id downlink) = POUCH_ROLE_SERVER)
                  && bool_decide (id_type (ss_id downlink) = SESSION_ID_TYPE_SEQUENTIAL)
               then seqnum (id_value (ss_id downlink)) else sv_seqnum (sa_server c) in
      OK (Some decrypted,
          (h, set_server (ServerStatics n (sp_id (ss_pouch downlink))) (set_downlink_session downlink c)))
    end.

(** * crypto_saead.c *)

Definition ENCRYPTION_ALGORITHM : psa_algorithm_t :=
  if CONFIG_POUCH_ENCRYPTION_CHACHA20_POLY1305 then PSA_ALG_CHACHA20_POLY1305 else PSA_ALG_GCM.

(** [struct pouch_config]: the certificate and the private key. *)
Definition crypto_init (cert : pouch_cert) (private_key : psa_key_id_t) (c : saead)
    : outcome (status * saead) :=
  if private_key =? PSA_KEY_ID_NULL then OK (NEG EINVAL, c) else
  '(err, cs) ← cert_device_set (Some cert) (sa_cert c);
  let c := set_cert cs c in
  match err with
  | Some e => OK (NEG e, c)
  | None => OK (SUCCESS, set_pkey private_key c)
  end.

(** The session id of a header, or [None] when a part has not the length it should. *)
Definition header_session_id (s : session_info) : option session_id :=
  let initiator := match si_initiator s with
                   | initiator_device => POUCH_ROLE_DEVICE | initiator_server => POUCH_ROLE_SERVER end in
  match si_id s with
  | session_id_random r =>
    if negb (len r =? SESSION_ID_LEN) then None
    else Some (SessionId SESSION_ID_TYPE_RANDOM initiator r)
  | session_id_sequential tag seq =>
    if negb (len tag =? SESSION_ID_TAG_LEN) then None
    else Some (SessionId SESSION_ID_TYPE_SEQUENTIAL initiator (tag ++ le_bytes 8 (u64 seq)))
  end.

Definition crypto_downlink_start (info : encryption_info) (c : saead) : status * saead :=
  match info with
  | plaintext_info _ => (NEG ENOTSUP, c)
  | saead_info s pouch_id =>
    match header_session_id s with
    | None => (NEG EINVAL, c)
    | Some i =>
      let '(err, c) := saead_downlink_session_start i
                         (match si_algorithm s with
                          | aes_gcm => PSA_ALG_GCM | chacha20_poly1305 => PSA_ALG_CHACHA20_POLY1305 end)
                         (u8 (si_max_block_size_log s)) (sa_pkey c) c in
      match err with
      | Some e => (NEG e, c)
      | None => saead_downlink_pouch_start (u16 pouch_id) c
      end
    end
  end.

Definition crypto_session_start (c : saead) : status * saead :=
  saead_uplink_session_start ENCRYPTION_ALGORITHM (sa_pkey c) c.

Definition crypto_session_end (c : saead) : saead :=
  saead_downlink_session_end (saead_uplink_session_end c).

Definition crypto_pouch_start (c : saead) : status * saead := saead_uplink_pouch_start c.

Definition crypto_header_get (c : saead) : outcome (status * encryption_info) :=
  OK (saead_uplink_header_get c).

Definition crypto_decrypt_block (block : option pouch_buf) : st (heap * saead) (option pouch_buf) :=
  saead_downlink_block_decrypt block.

Definition crypto_encrypt_block (block : option pouch_buf) : st (heap * saead) (option pouch_buf) :=
  saead_uplink_encrypt_block block.

#[export] Instance crypto_saead : Crypto saead := {|
  Crypto.crypto_session_start := crypto_session_start;
  Crypto.crypto_session_end := crypto_session_end;
  Crypto.crypto_downlink_start := crypto_downlink_start;
  Crypto.crypto_pouch_start := crypto_pouch_start;
  Crypto.crypto_header_get := crypto_header_get;
  Crypto.crypto_decrypt_block := crypto_decrypt_block;
  Crypto.crypto_encrypt_block := crypto_encrypt_block;
|}.

(** cert.c's statics, as the files of the transport see them. *)
#[export, refine] Instance saead_certs : Part saead cert_statics :=
  {| part_get := sa_cert; part_set := set_cert |}.
Proof. done. Defined.

(** The statics as the program starts, with the PSA library in the state [p]. *)
Definition session_boot : session :=
  Session (SessionId SESSION_ID_TYPE_SEQUENTIAL POUCH_ROLE_DEVICE (replicate 16 x00)) 0 PSA_ALG_NONE
    PSA_KEY_ID_NULL (SessionPouch 0 0 (replicate 16 x00)).
Definition saead_boot (p : psa_state) (ca0 : mbedtls_x509_crt) : saead :=
  Saead p (cert_boot ca0) session_boot session_boot (ServerStatics 0 0) PSA_KEY_ID_NULL.

End Saead.

(** * The interface's laws *)

Section Laws.
Context {BO : ByteOrder} {CF : Config} {SC : SaeadConfig} {CC : CertConfig}.
Context {PS : Psa} {PL : PsaLaws PS} {B6 : Base64} {X : X509}.
Implicit Types (c : saead) (b : pouch_buf) (h : heap) (i : session_id).

Definition uplink_active c : bool := atomic_test_bit (ss_flags (sa_uplink c)) SESSION_ACTIVE.

(** The certificates are as cert.c keeps them, and the device's own session is a random one. *)
Record saead_inv c : Prop := {
  si_cert : cert_inv (sa_cert c);
  si_random : atomic_test_bit (ss_flags (sa_uplink c)) SESSION_VALID = true →
    id_type (ss_id (sa_uplink c)) = SESSION_ID_TYPE_RANDOM;
}.

Lemma saead_boot_inv p ca0 : saead_inv (saead_boot p ca0).
Proof. split; [apply cert_boot_inv|done]. Qed.

Lemma saead_inv_same c c' :
  saead_inv c → sa_cert c' = sa_cert c → sa_uplink c' = sa_uplink c → saead_inv c'.
Proof. intros [] E1 E2. split; by rewrite ?E1, ?E2. Qed.

Lemma session_start_run alg k c :
  ∃ err p' s, saead_uplink_session_start alg k c = (err, set_psa p' (set_uplink_session s c))
    ∧ id_type (ss_id s) = SESSION_ID_TYPE_RANDOM
    ∧ id_initiator (ss_id s) = POUCH_ROLE_DEVICE ∧ len (id_value (ss_id s)) = SESSION_ID_LEN
    ∧ (err = NEG EIO ∨ err = SUCCESS ∧ sp_id (ss_pouch s) = 0 ∧ ss_algorithm s = alg
       ∧ atomic_test_bit (ss_flags s) SESSION_ACTIVE = true
       ∧ (pk_len (cert_server_key_get (sa_cert c)) = 0 → ss_key s = PSA_KEY_ID_NULL)).
Proof.
  unfold saead_uplink_session_start, session_id_generate. cbn [id_type].
  pose proof (generate_random_len SESSION_ID_LEN (sa_psa c) ltac:(done)) as L.
  destruct (psa_generate_random SESSION_ID_LEN (sa_psa c)) as [[status r] p]. simpl in L.
  destruct (status =? PSA_SUCCESS); cbn [negb]; cbv iota beta zeta.
  - destruct (session_key_generate _ _ _ _ _ _ _) as [key p2] eqn:K.
    eexists SUCCESS, p2, _. split; [reflexivity|]. split_and!; [done|done|done|]. right.
    split_and!; [done..|]. intros Z0. unfold session_key_generate in K. rewrite Z0 in K.
    by injection K as <- _.
  - eexists (NEG EIO), p, _. split; [reflexivity|]. split_and!; try done. by left.
Qed.

Lemma pouch_start_run c :
  saead_uplink_pouch_start c =
    (if uplink_active c
     then (SUCCESS, set_uplink_session
             (ss_set_pouch (SessionPouch (u16 (sp_id (ss_pouch (sa_uplink c)) + 1)) 0
                (sp_ad (ss_pouch (sa_uplink c)))) (sa_uplink c)) c)
     else (NEG EBUSY, c)).
Proof.
  unfold saead_uplink_pouch_start, session_pouch_start, uplink_active.
  destruct (atomic_test_bit _ _); [done|]. by destruct c.
Qed.

Lemma session_end_run (s : session) (p : psa_state) :
  ∃ s' p', session_end s p = (s', p') ∧ ss_id s' = ss_id s
    ∧ atomic_test_bit (ss_flags s') SESSION_ACTIVE = false
    ∧ atomic_test_bit (ss_flags s') SESSION_VALID = atomic_test_bit (ss_flags s) SESSION_VALID.
Proof.
  unfold session_end, atomic_test_and_clear_bit, atomic_test_bit.
  destruct (Z.testbit (ss_flags s) SESSION_ACTIVE); cbn [negb]; eexists _, _; (split; [reflexivity|]);
    cbn [ss_set_key ss_set_flags ss_id ss_flags]; split_and!; try done;
    first [apply clearbit_same|by apply clearbit_other].
Qed.

(** The downlink's checks and key generation leave the certificates and the device's session alone. *)
Lemma downlink_session_start_frame i alg log k c :
  sa_cert (saead_downlink_session_start i alg log k c).2 = sa_cert c
  ∧ sa_uplink (saead_downlink_session_start i alg log k c).2 = sa_uplink c.
Proof.
  unfold saead_downlink_session_start, saead_uplink_session_key_copy.
  repeat case_match; simplify_eq; try done; by case_match.
Qed.

Lemma crypto_downlink_start_frame info c :
  sa_cert (crypto_downlink_start info c).2 = sa_cert c
  ∧ sa_uplink (crypto_downlink_start info c).2 = sa_uplink c.
Proof.
  destruct info as [id|s pid]; [done|]. unfold crypto_downlink_start.
  destruct (header_session_id s) as [i|]; [|done].
  set (alg := match si_algorithm s with aes_gcm => _ | _ => _ end).
  pose proof (downlink_session_start_frame i alg (u8 (si_max_block_size_log s)) (sa_pkey c) c) as [E1 E2].
  destruct (saead_downlink_session_start _ _ _ _ _) as [[e|] c']; simpl in E1, E2; [done|].
  unfold saead_downlink_pouch_start. destruct (_ && _); [done|].
  by destruct (session_pouch_start _ _) as [e s'].
Qed.

Context (TAG : CONFIG_AUTH_TAG_LEN = AUTH_TAG_LEN).

Lemma finished_carries b j p : finished_block b j p →
  carries (j :: p) b ∧ len (j :: p) ≤ MAX_PLAINTEXT_BLOCK_SIZE - 2.
Proof.
  intros [B E]. pose proof (is_block_len _ _ _ B). split.
  - split; [apply B|]. rewrite E. unfold frame, sized16. by replace (len (j :: p)) with (len p + 1) by solve_len.
  - unfold MAX_PLAINTEXT_BLOCK_SIZE, BLOCK_HEADER_SIZE. solve_len.
Qed.

Lemma carries_bytes d b : carries d b → len d < 65534 → bytes b = 2 + len d.
Proof. intros [W E] L. by apply (sized16_split d b W E L). Qed.

(** Encrypting a finished block in a session. *)
Lemma saead_encrypt_run b j p h c n :
  uplink_active c = true → finished_block b j p → live h n →
  ∃ r h' c', saead_uplink_encrypt_block (Some b) (h, c) = OK (r, (h', c'))
    ∧ malloc_ok h' = malloc_ok h ∧ live h' (n - 1 + occ r)
    ∧ match r with
      | Some e => ∃ ct, seal POUCH_ROLE_DEVICE (sa_uplink c) (sa_psa c) (j :: p) = Some ct
          ∧ carries ct e ∧ sendable e ∧ c' = set_uplink_session (after ct (sa_uplink c)) c
      | None => c' = c ∧ (malloc_ok h (malloc_n h) = true →
          seal POUCH_ROLE_DEVICE (sa_uplink c) (sa_psa c) (j :: p) = None)
      end.
Proof.
  intros A F L. destruct (finished_carries _ _ _ F) as [[W E] Ld].
  pose proof MAX_PLAINTEXT_range. pose proof (ciphertext_size TAG).
  pose proof (session_encrypt_run TAG (sa_uplink c) (sa_psa c) b (j :: p) h W E Ld) as R.
  unfold saead_uplink_encrypt_block. unfold uplink_active in A. rewrite A. cbn [negb].
  pose proof (tried_malloc h) as Mt.
  pose proof (tried_live true h n L) as Lt. pose proof (tried_live false h n L) as Lf.
  destruct (malloc_ok h (malloc_n h)) eqn:M.
  - destruct (seal POUCH_ROLE_DEVICE (sa_uplink c) (sa_psa c) (j :: p)) as [ct|] eqn:S.
    + destruct R as (e & -> & We & Ce). eexists (Some e), _, _. split; [reflexivity|].
      split_and!; [simpl; by rewrite Mt| |].
      * eapply live_eq; [apply (live_free _ _ Lt)|]. simpl. lia.
      * exists ct. split_and!; [done|by split| |done]. split; [done|].
        pose proof (seal_len _ _ _ _ _ S). unfold AUTH_TAG_LEN in *.
        rewrite (carries_bytes ct e) by (by split || lia). lia.
    + rewrite R. eexists None, _, _. split; [reflexivity|].
      split_and!; [simpl; by rewrite Mt| | |done].
      * eapply live_eq; [apply (live_free _ _ Lf)|]. simpl. lia.
      * by destruct c.
  - rewrite R. eexists None, _, _. split; [reflexivity|].
    split_and!; [simpl; by rewrite Mt| | |done].
    + eapply live_eq; [apply (live_free _ _ Lf)|]. simpl. lia.
    + by destruct c.
Qed.

Lemma two_bytes b : buf_wf b → 2 ≤ bytes b → ∃ x0 x1 ct, contents b = x0 :: x1 :: ct.
Proof.
  intros W B. pose proof (len_contents b W) as L.
  destruct (contents b) as [|x0 [|x1 ct]]; simpl in L; [lia|lia|]. by exists x0, x1, ct.
Qed.

(** Decrypting a block of any content. *)
Lemma saead_decrypt_run b h c n :
  buf_wf b → 2 ≤ bytes b ≤ MAX_CIPHERTEXT_BLOCK_SIZE → live h n →
  ∃ r h' c', saead_downlink_block_decrypt (Some b) (h, c) = OK (r, (h', c'))
    ∧ malloc_ok h' = malloc_ok h ∧ live h' (n - 1 + occ r)
    ∧ sa_cert c' = sa_cert c ∧ sa_uplink c' = sa_uplink c ∧ sa_psa c' = sa_psa c
    ∧ (r = None → c' = c)
    ∧ (∀ e, r = Some e → buf_wf e ∧ 2 ≤ bytes e ≤ MAX_CIPHERTEXT_BLOCK_SIZE).
Proof.
  intros W B L. destruct (two_bytes b W ltac:(lia)) as (x0 & x1 & ct & E).
  pose proof (len_contents b W) as Lb. rewrite E in Lb. rewrite !length_cons in Lb.
  pose proof MAX_PLAINTEXT_range. pose proof (ciphertext_size TAG).
  pose proof (session_decrypt_run TAG (sa_downlink c) (sa_psa c) b x0 x1 ct h W E ltac:(lia)) as R.
  cbv zeta in R. pose proof (tried_malloc h) as Mt.
  pose proof (tried_live true h n L) as Lt. pose proof (tried_live false h n L) as Lf.
  unfold saead_downlink_block_decrypt.
  destruct (if _ : bool then _ else None) as [d|] eqn:U.
  - destruct R as (e & -> & We & Ce & Ld).
    assert (malloc_ok h (malloc_n h) = true) as M by (by destruct (malloc_ok h (malloc_n h))).
    rewrite M in Lt. eexists (Some e), _, _. split; [reflexivity|].
    split_and!; [simpl; by rewrite Mt| |done|done|done|done|].
    + eapply live_eq; [apply (live_free _ _ Lt)|]. simpl. lia.
    + intros ? [= <-]. split; [done|]. unfold AUTH_TAG_LEN in *.
      rewrite (carries_bytes d e) by (by split || lia). lia.
  - rewrite R. eexists None, _, _. split; [reflexivity|].
    split_and!; [simpl; by rewrite Mt| |done|done|done| |done].
    + eapply live_eq; [apply (live_free _ _ Lf)|]. simpl. lia.
    + intros _. by destruct c.
Qed.

(** The implementation meets the contract the uplink and the downlink are proved against. *)
#[refine] Definition saead_laws : CryptoLaws saead := {| crypto_inv := saead_inv |}.
Proof.
  - intros c [I1 I2]. simpl. unfold crypto_session_start.
    destruct (session_start_run ENCRYPTION_ALGORITHM (sa_pkey c) c) as (err & p & s & -> & T & _).
    by split.
  - intros c [I1 I2]. simpl.
    unfold crypto_session_end, saead_downlink_session_end, saead_uplink_session_end.
    destruct (session_end_run (sa_uplink c) (sa_psa c)) as (s & p & -> & Ei & _ & Ev).
    cbn [set_psa set_uplink_session sa_downlink sa_psa].
    destruct (session_end (sa_downlink c) p) as [s2 p2]. split; [done|]. intros V. rewrite <- Ev in I2.
    rewrite <- Ei in I2. exact (I2 V).
  - intros info c I. simpl. destruct (crypto_downlink_start_frame info c) as [E1 E2].
    by apply (saead_inv_same c).
  - intros c [I1 I2]. simpl. unfold crypto_pouch_start. rewrite pouch_start_run.
    by destruct (uplink_active c).
  - intros c I. by eexists.
  - intros b j p h c n I F L. cbn [Crypto.crypto_encrypt_block crypto_saead].
    unfold crypto_encrypt_block.
    destruct (uplink_active c) eqn:A.
    + destruct (saead_encrypt_run b j p h c n A F L) as (r & h' & c' & E & M & L' & R).
      exists r, h', c'. split_and!; [done| |done|done|].
      * destruct r as [e|]; [|by destruct R as [-> _]]. destruct R as (ct & _ & _ & _ & ->).
        destruct I. by split.
      * intros e ->. by destruct R as (ct & _ & _ & S & _).
    + unfold saead_uplink_encrypt_block. unfold uplink_active in A. rewrite A. cbn [negb].
      eexists None, _, _. split; [reflexivity|]. split_and!; [done|done| |done].
      eapply live_eq; [apply (live_free _ _ L)|]. simpl. lia.
  - intros b h c n I W B L. cbn [Crypto.crypto_decrypt_block crypto_saead].
    unfold crypto_decrypt_block.
    destruct (saead_decrypt_run b h c n W B L) as (r & h' & c' & E & M & L' & E1 & E2 & _ & _ & R).
    exists r, h', c'. split_and!; [done|by apply (saead_inv_same c)|done..].
Defined.

End Laws.

(** * Properties *)

Section Properties.
Context {BO : ByteOrder} {CF : Config} {SC : SaeadConfig} {CC : CertConfig}.
Context {PS : Psa} {PL : PsaLaws PS} {B6 : Base64} {X : X509}.
Implicit Types (c : saead) (b : pouch_buf) (h : heap) (i : session_id).

(** Encrypting a finished block: outside a session it is freed and nothing is returned; in a session
    it is freed too, and what is returned, if memory and the library do not fail, is a ciphertext
    block the transport can send that carries exactly what the session seals the block's id and
    payload to, and the session moves to the next block; on a failure it stays where it is. *)
Theorem saead_encrypt_spec b j p h c n :
  CONFIG_AUTH_TAG_LEN = AUTH_TAG_LEN → finished_block b j p → live h n →
  (uplink_active c = false →
   ∃ h', crypto_encrypt_block (Some b) (h, c) = OK (None, (h', c)) ∧ live h' (n - 1)) ∧
  (uplink_active c = true →
   ∃ r h' c', crypto_encrypt_block (Some b) (h, c) = OK (r, (h', c')) ∧ live h' (n - 1 + occ r)
     ∧ match r with
       | Some e => ∃ ct, seal POUCH_ROLE_DEVICE (sa_uplink c) (sa_psa c) (j :: p) = Some ct
           ∧ carries ct e ∧ sendable e ∧ c' = set_uplink_session (after ct (sa_uplink c)) c
       | None => c' = c ∧ (malloc_ok h (malloc_n h) = true →
           seal POUCH_ROLE_DEVICE (sa_uplink c) (sa_psa c) (j :: p) = None)
       end).
Proof.
  intros T F L. split; intros A.
  - unfold crypto_encrypt_block, saead_uplink_encrypt_block. unfold uplink_active in A. rewrite A.
    eexists. split; [reflexivity|]. by apply live_free.
  - destruct (saead_encrypt_run T b j p h c n A F L) as (r & h' & c' & E & _ & L' & R).
    by exists r, h', c'.
Qed.

(** C23: starting a session and its pouch: unless the random generator fails, the device has a new
    session of its own with a random 16-byte id; its first pouch has id 1 and starts at block 0 with
    nothing to authenticate; and the header says so, with the first six bytes of the certificate's
    reference, if the device has a certificate. The session starts even when there is no server
    certificate to derive a key from: its key is then the null key. *)
Theorem saead_start_spec c :
  let '(err, c1) := crypto_session_start c in
  let '(err2, c2) := crypto_pouch_start c1 in
  (err = NEG EIO ∨ err = SUCCESS) ∧
  (err = SUCCESS →
   err2 = SUCCESS ∧ uplink_active c2 = true ∧ next_ad (sa_uplink c2) = []
   ∧ sp_block_index (ss_pouch (sa_uplink c2)) = 0
   ∧ (cert_has_server_info (sa_cert c) = false → ss_key (sa_uplink c2) = PSA_KEY_ID_NULL)
   ∧ (cert_ref_get (sa_cert c) = None → ∃ info, crypto_header_get c2 = OK (NEG EBUSY, info))
   ∧ (∀ r, cert_ref_get (sa_cert c) = Some r →
      ∃ rnd, len rnd = SESSION_ID_LEN ∧ crypto_header_get c2 =
        OK (SUCCESS, saead_info
          (SessionInfo (session_id_random rnd) initiator_device
             (if decide (ENCRYPTION_ALGORITHM = PSA_ALG_CHACHA20_POLY1305) then chacha20_poly1305 else aes_gcm)
             MAX_BLOCK_PAYLOAD_SIZE_LOG (ztake CERT_REF_SHORT_LEN r)) 1))).
Proof.
  unfold crypto_session_start, crypto_pouch_start.
  destruct (session_start_run ENCRYPTION_ALGORITHM (sa_pkey c) c)
    as (err & p & s & -> & T & I & L & R).
  rewrite pouch_start_run. set (c1 := set_psa p (set_uplink_session s c)).
  destruct R as [->|(-> & P & A & F & K)].
  { destruct (uplink_active c1); split; [by left|done|by left|done]. }
  assert (uplink_active c1 = true) as -> by exact F.
  split; [by right|]. intros _.
  assert (∀ x, uplink_active (set_uplink_session (ss_set_pouch x (sa_uplink c1)) c1) = true) as F2
    by (intros x; exact F).
  split_and!; [done|apply F2|done|done| | |].
  - unfold cert_has_server_info. intros H. apply negb_false_iff, Z.eqb_eq in H. by apply K.
  - intros N. unfold crypto_header_get, saead_uplink_header_get.
    cbn [sa_uplink set_uplink_session ss_set_pouch ss_flags ss_id sa_cert c1 set_psa].
    rewrite F, T, N. by eexists.
  - intros r N. exists (ztake SESSION_ID_LEN (id_value (ss_id s))). split; [solve_len|].
    unfold crypto_header_get, saead_uplink_header_get.
    cbn [sa_uplink set_uplink_session ss_set_pouch ss_flags ss_id sa_cert c1 set_psa ss_pouch sp_id
      ss_algorithm]. rewrite F, T, N, P, A. done.
Qed.

(** C22: a downlink in a session of the device's is always refused: the device's sessions are random,
    and a device session can be used by the server only if it is sequential. *)
Theorem device_session_refused s pid c :
  saead_inv c → si_initiator s = initiator_device →
  ∃ e, crypto_downlink_start (saead_info s pid) c = (NEG e, c) ∧ (e = EINVAL ∨ e = EBADMSG).
Proof.
  intros [_ Rn] D. unfold crypto_downlink_start.
  destruct (header_session_id s) as [i|] eqn:Hi; [|exists EINVAL; split; [done|by left]].
  assert (id_initiator i = POUCH_ROLE_DEVICE) as Ii.
  { unfold header_session_id in Hi. rewrite D in Hi. repeat case_match; simplify_eq; done. }
  exists EBADMSG. split; [|by right]. unfold saead_downlink_session_start.
  destruct (is_valid_downlink _ _ _); [|done]. cbn [negb]. rewrite Ii.
  destruct (bool_decide (id_type i = SESSION_ID_TYPE_SEQUENTIAL)) eqn:Ti; [|done]. cbn [negb].
  apply bool_decide_eq_true in Ti.
  assert (∀ l a, saead_uplink_session_matches i l a c = false) as M; [|by rewrite M].
  intros l a. unfold saead_uplink_session_matches.
  destruct (atomic_test_bit _ _) eqn:V; [|done]. specialize (Rn eq_refl).
  unfold session_id_is_equal. rewrite Rn, Ti. done.
Qed.

Lemma downlink_session_start_run i alg log k c :
  let '(err, c') := saead_downlink_session_start i alg log k c in
  err = SUCCESS →
  ss_flags (sa_downlink c') = atomic_set_bit 0 SESSION_ACTIVE ∧ ss_id (sa_downlink c') = i
  ∧ ss_algorithm (sa_downlink c') = alg ∧ ss_key (sa_downlink c') ≠ PSA_KEY_ID_NULL
  ∧ sa_server c' = sa_server c.
Proof.
  unfold saead_downlink_session_start, saead_uplink_session_key_copy.
  repeat case_match; intros ?; simplify_eq; try done;
    rewrite Z.eqb_neq in *; done.
Qed.

Lemma crypto_downlink_start_run s pid c i :
  header_session_id s = Some i →
  crypto_downlink_start (saead_info s pid) c =
    (let '(err, c') := saead_downlink_session_start i
       (match si_algorithm s with aes_gcm => PSA_ALG_GCM | chacha20_poly1305 => PSA_ALG_CHACHA20_POLY1305 end)
       (u8 (si_max_block_size_log s)) (sa_pkey c) c in
     match err with
     | Some e => (NEG e, c')
     | None => (SUCCESS, set_downlink_session
         (ss_set_pouch (SessionPouch (u16 pid) 0 (sp_ad (ss_pouch (sa_downlink c')))) (sa_downlink c')) c')
     end).
Proof.
  intros Hi. unfold crypto_downlink_start. rewrite Hi.
  pose proof (downlink_session_start_run i
    (match si_algorithm s with aes_gcm => PSA_ALG_GCM | chacha20_poly1305 => PSA_ALG_CHACHA20_POLY1305 end)
    (u8 (si_max_block_size_log s)) (sa_pkey c) c) as R.
  destruct (saead_downlink_session_start _ _ _ _ _) as [[e|] c']; [done|].
  destruct (R eq_refl) as (F & _). unfold saead_downlink_pouch_start, session_pouch_start.
  rewrite F. cbn [atomic_test_bit atomic_set_bit]. change (u16 (u16 pid)) with (u16 (u16 pid)).
  simpl. unfold u16. rewrite Z.mod_mod by done. done.
Qed.

(** While the last session is known to be genuine, old numbers are refused. *)
Lemma header_refused s pid i c :
  header_session_id s = Some i → id_initiator i = POUCH_ROLE_SERVER →
  id_type i = SESSION_ID_TYPE_SEQUENTIAL → seqnum (id_value i) ≤ sv_seqnum (sa_server c) →
  atomic_test_bit (ss_flags (sa_downlink c)) SESSION_VALID = true →
  crypto_downlink_start (saead_info s pid) c = (NEG EBADMSG, c).
Proof.
  intros Hi Ii Ti Sq V. rewrite (crypto_downlink_start_run s pid c i Hi).
  unfold saead_downlink_session_start.
  assert (∀ alg, is_valid_downlink i alg c = false) as N; [|by rewrite N].
  intros alg. unfold is_valid_downlink. rewrite V. cbn [negb].
  destruct (_ && _); [done|]. by rewrite Ii, Ti, (proj2 (Z.leb_le _ _)) by done.
Qed.

(** C21: replayed downlinks: while the last session is known to be genuine, a header of the server's whose
    sequence number is not above the last one is refused. But an accepted header starts the session
    and the pouch it names, whatever the pouch's id was before, and forgets that any session was
    genuine: until a block decrypts, every header passes the check. *)
Theorem downlink_replay_spec s pid c :
  (∀ i, header_session_id s = Some i → id_initiator i = POUCH_ROLE_SERVER →
    id_type i = SESSION_ID_TYPE_SEQUENTIAL → seqnum (id_value i) ≤ sv_seqnum (sa_server c) →
    atomic_test_bit (ss_flags (sa_downlink c)) SESSION_VALID = true →
    crypto_downlink_start (saead_info s pid) c = (NEG EBADMSG, c)) ∧
  (∀ c', crypto_downlink_start (saead_info s pid) c = (SUCCESS, c') →
    sp_id (ss_pouch (sa_downlink c')) = u16 pid ∧ sp_block_index (ss_pouch (sa_downlink c')) = 0
    ∧ ss_key (sa_downlink c') ≠ PSA_KEY_ID_NULL
    ∧ (∀ pid', (crypto_downlink_start (saead_info s pid') c).1 = SUCCESS)
    ∧ ∀ i alg, is_valid_downlink i alg c' = true).
Proof.
  split.
  - intros i. apply header_refused.
  - intros c' E. destruct (header_session_id s) as [i|] eqn:Hi.
    2:{ unfold crypto_downlink_start in E. by rewrite Hi in E. }
    assert (∀ pid', (crypto_downlink_start (saead_info s pid') c).1 = SUCCESS) as A.
    { intros pid'. rewrite (crypto_downlink_start_run s pid c i Hi) in E.
      rewrite (crypto_downlink_start_run s pid' c i Hi).
      by destruct (saead_downlink_session_start _ _ _ _ _) as [[e|] c2]. }
    rewrite (crypto_downlink_start_run s pid c i Hi) in E.
    pose proof (downlink_session_start_run i
      (match si_algorithm s with aes_gcm => PSA_ALG_GCM | chacha20_poly1305 => PSA_ALG_CHACHA20_POLY1305 end)
      (u8 (si_max_block_size_log s)) (sa_pkey c) c) as R.
    destruct (saead_downlink_session_start _ _ _ _ _) as [[e|] c2]; [done|]. injection E as <-.
    destruct (R eq_refl) as (F & _ & _ & K & _). split_and!; [done|done|exact K|exact A|].
    intros j alg. unfold is_valid_downlink. simpl sa_downlink. cbn [ss_flags ss_set_pouch].
    by rewrite F.
Qed.

(** Ending the session: the keys of both directions are destroyed and no block can be encrypted, no
    pouch started and no header made until a new session is started. *)
Theorem saead_end_spec c b h n :
  live h n →
  let c' := crypto_session_end c in
  crypto_pouch_start c' = (NEG EBUSY, c') ∧ (∃ info, crypto_header_get c' = OK (NEG ENOTCONN, info))
  ∧ (∃ h', crypto_encrypt_block (Some b) (h, c') = OK (None, (h', c')) ∧ live h' (n - 1))
  ∧ atomic_test_bit (ss_flags (sa_downlink c')) SESSION_ACTIVE = false
  ∧ (uplink_active c = true → ss_key (sa_uplink c') = PSA_KEY_ID_NULL)
  ∧ (∀ pid, saead_downlink_pouch_start pid c' = (NEG EBUSY, c')
            ∨ saead_downlink_pouch_start pid c' = (NEG EBADMSG, c')).
Proof.
  intros L. cbv zeta. set (c' := crypto_session_end c).
  assert (uplink_active c' = false ∧ atomic_test_bit (ss_flags (sa_downlink c')) SESSION_ACTIVE = false
    ∧ (uplink_active c = true → ss_key (sa_uplink c') = PSA_KEY_ID_NULL)) as (A & D & K).
  { unfold c', crypto_session_end, saead_downlink_session_end, saead_uplink_session_end, uplink_active.
    destruct (session_end_run (sa_uplink c) (sa_psa c)) as (s & p & E & _ & A & _). rewrite E.
    cbn [set_psa set_uplink_session sa_downlink sa_psa].
    destruct (session_end_run (sa_downlink c) p) as (s2 & p2 & -> & _ & D & _).
    split_and!; [exact A|exact D|]. cbn [set_psa set_downlink_session sa_uplink].
    unfold session_end, atomic_test_and_clear_bit, atomic_test_bit in *. intros V. rewrite V in E.
    by injection E as <- _. }
  split_and!; [| | |exact D|exact K|].
  - unfold crypto_pouch_start. by rewrite pouch_start_run, A.
  - unfold crypto_header_get, saead_uplink_header_get. unfold uplink_active in A. rewrite A. by eexists.
  - unfold crypto_encrypt_block, saead_uplink_encrypt_block. unfold uplink_active in A. rewrite A.
    eexists. split; [reflexivity|]. by apply live_free.
  - intros pid. unfold saead_downlink_pouch_start, session_pouch_start. rewrite D. cbn [negb].
    destruct (_ && _); [by right|left]. by destruct c'.
Qed.

End Properties.

Module SaeadWitness.
#[local] Existing Instances Native.byte_order Native.config_saead NativePsa.psa NativePsa.psa_laws
  NativePsa.base64 NativeX509.x509 CertWitness.cc.

#[local] Instance sc : SaeadConfig := {| CONFIG_POUCH_ENCRYPTION_CHACHA20_POLY1305 := false |}.

(** A device with its own certificate and the server's, and a session with its first pouch. *)
Definition ex_boot : saead := saead_boot [[x6b]] [].
Definition ex_ready : saead :=
  match crypto_init CertWitness.ex_cert 1 ex_boot with
  | OK (_, c) =>
    match cert_server_set (Some CertWitness.ex_cert) (sa_cert c) with
    | OK (_, cs) => set_cert cs c
    | Fault => c
    end
  | Fault => ex_boot
  end.
Definition ex_active : saead := (crypto_pouch_start (crypto_session_start ex_ready).2).2.

Definition ex_block : pouch_buf := PBuf 515 4 [x00; x02; xc0; x07].

Lemma ex_block_finished : finished_block ex_block xc0 [x07].
Proof. split; [split; [split; vm_compute; done|done|]|done]. by exists x00, x02. Qed.

Definition ex_heap : heap := set_bufs 1 Native.heap0.

Lemma saead_encrypt_spec_witness :
  ∃ r h' c', crypto_encrypt_block (Some ex_block) (ex_heap, ex_active) = OK (r, (h', c'))
    ∧ live h' (1 - 1 + occ r).
Proof.
  destruct (proj2 (saead_encrypt_spec (CF := Native.config_saead) ex_block xc0 [x07] ex_heap ex_active 1
    eq_refl ex_block_finished eq_refl) eq_refl) as (r & h' & c' & E & L & _).
  exists r, h', c'. split; [exact E|exact L].
Defined.

Lemma saead_start_spec_witness :
  ∃ rnd, len rnd = 16 ∧ crypto_header_get ex_active =
    OK (SUCCESS, saead_info (SessionInfo (session_id_random rnd) initiator_device aes_gcm 9
                               [x05; x05; x05; x05; x05; x05]) 1).
Proof.
  pose proof (saead_start_spec ex_ready) as S. unfold ex_active.
  assert ((crypto_session_start ex_ready).1 = SUCCESS) as E by (vm_compute; reflexivity).
  destruct (crypto_session_start ex_ready) as [err c1]. cbn [fst] in E. cbn [snd].
  destruct (crypto_pouch_start c1) as [err2 c2]. cbn [snd].
  destruct (proj2 S E) as (_ & _ & _ & _ & _ & _ & H).
  exact (H (replicate 32 x05) eq_refl).
Defined.

(** A header in which the server claims a sequential session of the device's. *)
Definition ex_reuse : session_info :=
  SessionInfo (session_id_sequential (replicate 8 x05) 3) initiator_device aes_gcm 9 [].

Lemma ex_session_inv : saead_inv ex_active.
Proof.
  split; [|done]. split; vm_compute; try done.
Qed.

Lemma device_session_refused_witness :
  ∃ e, crypto_downlink_start (saead_info ex_reuse 7) ex_active = (NEG e, ex_active)
    ∧ (e = EINVAL ∨ e = EBADMSG).
Proof. exact (device_session_refused ex_reuse 7 ex_active ex_session_inv eq_refl). Defined.

(** The server's session number 4, twice: it is accepted again as long as no block of it was decrypted. *)
Definition ex_server : session_info :=
  SessionInfo (session_id_sequential (replicate 8 x05) 4) initiator_server aes_gcm 9 [].

Example ex_replay :
  (crypto_downlink_start (saead_info ex_server 7) ex_active).1 = SUCCESS
  ∧ (crypto_downlink_start (saead_info ex_server 7)
       (crypto_downlink_start (saead_info ex_server 7) ex_active).2).1 = SUCCESS.
Proof. by vm_compute. Qed.

Definition ex_accepted : saead := (crypto_downlink_start (saead_info ex_server 7) ex_active).2.

Lemma ex_accepts : crypto_downlink_start (saead_info ex_server 7) ex_active = (SUCCESS, ex_accepted).
Proof.
  rewrite (surjective_pairing (crypto_downlink_start _ _)). by rewrite (proj1 ex_replay).
Qed.

Lemma downlink_replay_spec_witness : is_valid_downlink SessionWitness.ex_id PSA_ALG_GCM ex_accepted = true.
Proof.
  destruct (proj2 (downlink_replay_spec ex_server 7 ex_active) ex_accepted ex_accepts)
    as (_ & _ & _ & _ & V).
  exact (V SessionWitness.ex_id PSA_ALG_GCM).
Defined.

Lemma saead_end_spec_witness :
  crypto_pouch_start (crypto_session_end ex_active) = (NEG EBUSY, crypto_session_end ex_active)
  ∧ ss_key (sa_uplink (crypto_session_end ex_active)) = PSA_KEY_ID_NULL.
Proof.
  destruct (saead_end_spec ex_active ex_block ex_heap 1 eq_refl) as (E & _ & _ & _ & K & _).
  split; [exact E|exact (K eq_refl)].
Defined.
End SaeadWitness.
