(* ===== verification/Gatt.v ===== *)
(** The BLE GATT characteristics: the characteristics of src/src/transport/ble_gatt.

    Each characteristic is its read or write handler and its context. The server certificate, device
    certificate and info characteristics belong to cert.c's state, the uplink and downlink ones to
    the system's. *)
From S2P Require Import Prelude Platform Buf Block Crypto State Entry Stream Header Uplink Downlink.
From S2P Require Import Packetizer Psa Cert.

(** What a handler returns: an ATT error, an error number of its own, or a length. *)
Inductive att_error :=
| BT_ATT_ERR_UNLIKELY
| BT_ATT_ERR_NOT_SUPPORTED
| BT_ATT_ERR_INSUFFICIENT_RESOURCES
| RAW_ERROR (e : errno).

#[export] Instance att_error_eq_dec : EqDecision att_error.
Proof. solve_decision. Defined.

Definition att_result : Type := att_error + Z.

(** The two halves of a handler's state. *)
Definition on_fst {S T A} (m : st S A) : st (S * T) A := λ '(s, t),
  match m s with OK (a, s) => OK (a, (s, t)) | Fault => Fault end.
Definition on_snd {S T A} (m : st T A) : st (S * T) A := λ '(s, t),
  match m t with OK (a, t) => OK (a, (s, t)) | Fault => Fault end.
Definition set_fst {S T} (s : S) : st (S * T) unit := λ '(_, t), OK (tt, (s, t)).

(** * The uplink characteristic *)

Section UplinkCharacteristic.
Context {BO : ByteOrder} {SL : SList} {KW : KWork} {MQ : MsgQ} {CF : Config} {HC : HeaderCodec}.
Context {C : Type} {CR : Crypto C}.

(** [uplink_chrc_ctx] is the packetizer, or NULL. *)
Definition uplink_ctx : Type := option (packetizer (sys C)).

(** [pouch] says whether the session's pointer is not NULL. Outside a session [pouch_uplink_fill] does
    not look at it. *)
Definition uplink_fill_cb (pouch : bool) : fill_cb (sys C) := λ dst_len,
  active ← gets session_is_active;
  '(pouch_ret, _, d) ←
    (if pouch then pouch_uplink_fill dst_len
     else if (active : bool) then fault else mret (POUCH_ERROR, dst_len, []));
  match pouch_ret with
  | POUCH_ERROR => (if pouch then pouch_uplink_finish else fault);; mret (ERROR, d)
  | POUCH_NO_MORE_DATA => (if pouch then pouch_uplink_finish else fault);; mret (NO_MORE_DATA, d)
  | POUCH_MORE_DATA => mret (MORE_DATA, d)
  end.

(** The result and the packet written to [buf]. *)
Definition uplink_read (n offset : Z) : st (uplink_ctx * sys C) (att_result * list byte) :=
  if negb (offset =? 0) then mret (inr 0, []) else
  ctx ← gets fst;
  (match ctx with
   | None =>
     pouch ← on_snd pouch_uplink_start;
     p ← on_snd (zoom (golioth_ble_gatt_packetizer_start_callback (uplink_fill_cb pouch)));
     set_fst p
   | Some _ => mret tt
   end);;
  ctx ← gets fst;
  p ← lift (of_ptr ctx);
  '(ret, buf_len, pkt, p) ← on_snd (golioth_ble_gatt_packetizer_get p n);
  match ret with
  | ERROR => set_fst None;; mret (inl BT_ATT_ERR_UNLIKELY, pkt)
  | NO_MORE_DATA => set_fst None;; mret (inr buf_len, pkt)
  | _ => set_fst (Some p);; mret (inr buf_len, pkt)
  end.

(** * The downlink characteristic *)

Definition downlink_write (buf : list byte) : st (sys C) att_result :=
  match golioth_ble_gatt_packetizer_decode (Some buf) true with
  | inl _ => mret (inl BT_ATT_ERR_UNLIKELY)
  | inr (payload, is_first, is_last) =>
    (if (is_first : bool) then pouch_downlink_start else mret tt);;
    pouch_downlink_push payload;;
    (if (is_last : bool) then pouch_downlink_finish else mret tt);;
    mret (inr (len buf))
  end.

End UplinkCharacteristic.

(** * The server certificate characteristic *)

(** CONFIG_POUCH_SERVER_CERT_MAX_LEN *)
Class GattConfig := {
  CONFIG_POUCH_SERVER_CERT_MAX_LEN : Z;
  SERVER_CERT_MAX_LEN_range : 0 ≤ CONFIG_POUCH_SERVER_CERT_MAX_LEN < 65536;
}.

Section ServerCertCharacteristic.
Context {CC : CertConfig} {GC : GattConfig} {PS : Psa} {X : X509}.

(** The serial number being read, in the characteristic's context. *)
Record serial_ctx := SerialCtx { serial : list byte; serial_ctx_len : Z; serial_offset : Z }.

(** [scc_cert] is the certificate being written: what was stored in its buffer, or NULL. *)
Record server_cert_ctx := ServerCertCtx {
  scc_packetizer : option (packetizer serial_ctx);
  scc_cert : option (list byte);
  scc_size : Z;
  scc_serial : serial_ctx;
}.

Definition set_scc_packetizer p (x : server_cert_ctx) : server_cert_ctx :=
  ServerCertCtx p (scc_cert x) (scc_size x) (scc_serial x).
Definition set_scc_cert b n (x : server_cert_ctx) : server_cert_ctx :=
  ServerCertCtx (scc_packetizer x) b n (scc_serial x).
Definition set_scc_serial v (x : server_cert_ctx) : server_cert_ctx :=
  ServerCertCtx (scc_packetizer x) (scc_cert x) (scc_size x) v.

Definition server_cert_serial_fill_cb : fill_cb serial_ctx := λ maxlen ctx,
  let n := Z.min maxlen (serial_ctx_len ctx - serial_offset ctx) in
  d ← load_at (serial ctx) (serial_offset ctx) n;
  let ctx := SerialCtx (serial ctx) (serial_ctx_len ctx) (u8 (serial_offset ctx + n)) in
  OK ((if serial_ctx_len ctx <=? serial_offset ctx then NO_MORE_DATA else MORE_DATA, d), ctx).

(** The state of the characteristic, of cert.c and of the heap. *)
Definition cert_sys : Type := server_cert_ctx * (cert_statics * heap).

Definition server_cert_serial_read (n offset : Z) : st cert_sys (att_result * list byte) :=
  if negb (offset =? 0) then mret (inr 0, []) else
  ctx ← gets fst;
  ready ←
    (match scc_packetizer ctx with
     | None =>
       certs ← gets (λ s, fst (snd s));
       r ← lift (pouch_server_certificate_serial_get CERT_SERIAL_MAXLEN certs);
       match r with
       | inl _ => mret false
       | inr d =>
         let v := SerialCtx (overwritten d (serial (scc_serial ctx))) (u8 (len d)) 0 in
         p ← on_snd (on_snd (golioth_ble_gatt_packetizer_start_callback server_cert_serial_fill_cb));
         set_fst (set_scc_packetizer p (set_scc_serial v ctx));;
         mret true
       end
     | Some _ => mret true
     end);
  if negb ready then mret (inl BT_ATT_ERR_NOT_SUPPORTED, []) else
  ctx ← gets fst;
  p ← lift (of_ptr (scc_packetizer ctx));
  '(ret, buf_len, pkt, p, v) ← lift (
    '((ret, buf_len, pkt, p), v) ← golioth_ble_gatt_packetizer_get p n (scc_serial ctx);
    OK (ret, buf_len, pkt, p, v));
  match ret with
  | ERROR =>
    set_fst (set_scc_packetizer None (set_scc_serial v ctx));; mret (inl BT_ATT_ERR_UNLIKELY, pkt)
  | NO_MORE_DATA =>
    set_fst (set_scc_packetizer None (set_scc_serial v ctx));; mret (inr buf_len, pkt)
  | _ => set_fst (set_scc_packetizer (Some p) (set_scc_serial v ctx));; mret (inr buf_len, pkt)
  end.

(** Storing [d] at offset [n] of the buffer of CONFIG_POUCH_SERVER_CERT_MAX_LEN bytes. *)
Definition cert_store (b : list byte) (n : Z) (d : list byte) : outcome (list byte) :=
  guard ((n <=? len b) && (n + len d <=? CONFIG_POUCH_SERVER_CERT_MAX_LEN));;
  OK (ztake n b ++ d ++ zdrop (n + len d) b).

(** The result, and whether the peer is disconnected. *)
Definition server_cert_write (buf : list byte) : st cert_sys (att_result * bool) :=
  match golioth_ble_gatt_packetizer_decode (Some buf) true with
  | inl _ => mret (inl BT_ATT_ERR_UNLIKELY, false)
  | inr (payload, is_first, is_last) =>
    if len payload <=? 0 then mret (inl BT_ATT_ERR_UNLIKELY, false) else
    (if (is_first : bool) then
       ok ← on_snd (on_snd malloc);
       ctx ← gets fst;
       set_fst (set_scc_cert (if (ok : bool) then Some [] else None) 0 ctx)
     else mret tt);;
    ctx ← gets fst;
    match scc_cert ctx with
    | None => mret (inl BT_ATT_ERR_INSUFFICIENT_RESOURCES, false)
    | Some b =>
      b ← lift (cert_store b (scc_size ctx) payload);
      let n := scc_size ctx + len payload in
      set_fst (set_scc_cert (Some b) n ctx);;
      if (is_last : bool) then
        err ← on_snd (on_fst (pouch_server_certificate_set (Some (PouchCert (Some b) n))));
        set_fst (set_scc_cert None n ctx);;
        mret (inr (len buf), bool_decide (err ≠ SUCCESS))
      else mret (inr (len buf), false)
    end
  end.

(** * The device certificate characteristic *)

Record device_cert_ctx := DeviceCertCtx {
  dcc_packetizer : option (packetizer pouch_cert);
  dcc_cert : pouch_cert;
}.

Definition device_cert_fill_cb : fill_cb pouch_cert := λ maxlen cert,
  let n := Z.min maxlen (size cert) in
  b ← of_ptr (buffer cert);
  d ← load b n;
  let cert := PouchCert (Some (zdrop n b)) (size cert - n) in
  OK ((if size cert =? 0 then NO_MORE_DATA else MORE_DATA, d), cert).

Definition device_cert_read (n offset : Z) :
    st (device_cert_ctx * (cert_statics * heap)) (att_result * list byte) :=
  if negb (offset =? 0) then mret (inr 0, []) else
  ctx ← gets fst;
  ready ←
    (match dcc_packetizer ctx with
     | None =>
       certs ← gets (λ s, fst (snd s));
       match pouch_device_certificate_get certs with
       | inl _ => mret false
       | inr cert =>
         p ← on_snd (on_snd (golioth_ble_gatt_packetizer_start_callback device_cert_fill_cb));
         set_fst (DeviceCertCtx p cert);;
         mret true
       end
     | Some _ => mret true
     end);
  if negb ready then mret (inl BT_ATT_ERR_NOT_SUPPORTED, []) else
  ctx ← gets fst;
  p ← lift (of_ptr (dcc_packetizer ctx));
  '(ret, buf_len, pkt, p, v) ← lift (
    '((ret, buf_len, pkt, p), v) ← golioth_ble_gatt_packetizer_get p n (dcc_cert ctx);
    OK (ret, buf_len, pkt, p, v));
  match ret with
  | ERROR => set_fst (DeviceCertCtx None v);; mret (inl BT_ATT_ERR_UNLIKELY, pkt)
  | NO_MORE_DATA => set_fst (DeviceCertCtx None v);; mret (inr buf_len, pkt)
  | _ => set_fst (DeviceCertCtx (Some p) v);; mret (inr buf_len, pkt)
  end.

(** * The info characteristic *)

(** The encoder generated from info.cddl: the room, the flags and the serial number. *)
Class InfoCodec := {
  cbor_encode_golioth_ble_gatt_info : Z → Z → list byte → option (list byte);
}.

Context {CF : Config} {IC : InfoCodec}.

Definition INFO_CHRC_MAX_SIZE : Z := 64.

Record info_ctx := InfoCtx {
  ic_buf : list byte;
  ic_packetizer : option (packetizer unit);
}.

(** The error or the bytes encoded. *)
Definition build_info_data (certs : cert_statics) : outcome (errno + list byte) :=
  snr ← (match CONFIG_POUCH_ENCRYPTION with
         | ENCRYPTION_SAEAD => pouch_server_certificate_serial_get CERT_SERIAL_MAXLEN certs
         | ENCRYPTION_NONE => OK (inr [])
         end);
  match snr with
  | inl e => OK (inl e)
  | inr snr =>
    let flags := 0 in
    OK (match cbor_encode_golioth_ble_gatt_info INFO_CHRC_MAX_SIZE flags snr with
        | Some d => inr d
        | None => inl ECBOR
        end)
  end.

(** The errors of [build_info_data] are returned as they are. *)
Definition info_read (n offset : Z) : st (info_ctx * (cert_statics * heap)) (att_result * list byte) :=
  if 0 <? offset then mret (inr 0, []) else
  ctx ← gets fst;
  err ←
    (match ic_packetizer ctx with
     | None =>
       certs ← gets (λ s, fst (snd s));
       r ← lift (build_info_data certs);
       match r with
       | inl e => mret (NEG e)
       | inr d =>
         p ← on_snd (on_snd (golioth_ble_gatt_packetizer_start_buffer d (len d)));
         set_fst (InfoCtx d p);;
         mret SUCCESS
       end
     | Some _ => mret SUCCESS
     end);
  match err with
  | Some e => mret (inl (RAW_ERROR e), [])
  | None =>
    ctx ← gets fst;
    p ← lift (of_ptr (ic_packetizer ctx));
    '(res, buf_len, pkt, p) ← lift (
      '((res, buf_len, pkt, p), _) ← golioth_ble_gatt_packetizer_get p n tt;
      OK (res, buf_len, pkt, p));
    match res with
    | ERROR => set_fst (InfoCtx (ic_buf ctx) None);; mret (inr 0, pkt)
    | NO_MORE_DATA => set_fst (InfoCtx (ic_buf ctx) None);; mret (inr buf_len, pkt)
    | _ => set_fst (InfoCtx (ic_buf ctx) (Some p));; mret (inr buf_len, pkt)
    end
  end.

End ServerCertCharacteristic.

(** * Reading an uplink *)

Section UplinkReads.
Context {BO : ByteOrder} {SL : SList} {KW : KWork} {MQ : MsgQ} {CF : Config} {HC : HeaderCodec}.
Context {C : Type} {CR : Crypto C} {HL : HeaderCodecLaws HC} {CL : CryptoLaws C}.
Implicit Types (s m : sys C).

Definition uplink_packetizer (first : bool) (e : option errno) : packetizer (sys C) :=
  Packetizer (FILL_CALLBACK (uplink_fill_cb true)) first e.

(** A pouch all of whose blocks are processed: what is left is for the transport to send. *)
Record sending s : Prop := {
  sg_inv : transport_inv s;
  sg_active : session_is_active s = true;
  sg_closed : pouch_is_open s = false;
}.

(** The state after the transport finished the pouch. *)
Record sent s s' : Prop := {
  se_idle : session_is_active s' = false;
  se_outgoing : outgoing s' = [];
  se_events : s_events s' = s_events (emitted POUCH_EVENT_SESSION_END s);
  se_balanced k : balanced s k → balanced s' k;
}.

Lemma fill_cb_run s n :
  sending s → 0 ≤ n →
  ∃ m, sending m ∧ outgoing m = zdrop n (outgoing s) ∧ s_events m = s_events s
    ∧ (∀ k, balanced s k → balanced m k)
    ∧ if decide (outgoing m = [])
      then ∃ s', uplink_fill_cb true n s = OK ((NO_MORE_DATA, ztake n (outgoing s)), s') ∧ sent s s'
      else uplink_fill_cb true n s = OK ((MORE_DATA, ztake n (outgoing s)), m).
Proof.
  intros [I A P] N. destruct (fill_run s n I A N) as (m & (h & q & r & Em & M) & I' & O & B & E).
  exists m. assert (sending m) as S by (split; [done|by rewrite Em|by rewrite Em]).
  split_and!; [done|done|by rewrite Em|done|].
  unfold uplink_fill_cb. rewrite (st_bind_OK _ _ s true s) by (unfold gets; by rewrite A).
  rewrite P in E. cbv zeta in E. cbn [orb] in E.
  destruct (decide (outgoing m = [])) as [D|D].
  - rewrite bool_decide_eq_false_2 in E by naive_solver. rewrite (st_bind_OK _ _ _ _ _ E).
    destruct (uplink_finish_run (ended m)) as (s' & Ef & Fr). rewrite (st_bind_OK _ _ _ _ _ Ef).
    exists s'. split; [done|].
    assert (session_is_active (ended m) = false) as Na.
    { rewrite session_is_active_bit. apply clearbit_same. }
    split.
    + rewrite session_is_active_bit, (fr_flags _ _ Fr). by rewrite Z.bits_0.
    + unfold outgoing, stream_of. by rewrite (fr_transport _ _ Fr), (fr_reader _ _ Fr).
    + rewrite (fr_events _ _ Fr), Na. by rewrite Em.
    + intros k K. apply (fr_balanced _ _ Fr). exact (B k K).
  - rewrite bool_decide_eq_true_2 in E by done. by rewrite (st_bind_OK _ _ _ _ _ E).
Qed.

(** A read is a call of the callback. *)
Lemma read_of_cb s n first e d s' (last : bool) :
  2 ≤ n → uplink_fill_cb true (n - 1) s = OK ((if last then NO_MORE_DATA else MORE_DATA, d), s') →
  uplink_read n 0 (Some (uplink_packetizer first e), s) =
    OK ((inr (1 + len d), flags_byte first last :: d),
        (if last then None else Some (uplink_packetizer false e), s')).
Proof.
  intros N E. unfold uplink_read. cbn [Z.eqb negb].
  rewrite (st_bind_OK _ _ _ (Some (uplink_packetizer first e)) (Some (uplink_packetizer first e), s)) by done.
  rewrite (st_bind_OK _ _ _ tt (Some (uplink_packetizer first e), s)) by done.
  rewrite (st_bind_OK _ _ _ (Some (uplink_packetizer first e)) (Some (uplink_packetizer first e), s)) by done.
  rewrite (lift_bind_OK _ _ (uplink_packetizer first e)) by done.
  unfold mbind, st_bind, on_snd, golioth_ble_gatt_packetizer_get, uplink_packetizer.
  cbn [source is_first error].
  rewrite (lift_bind_OK _ _ tt) by (apply guard_true, Z.leb_le; lia).
  unfold PACKET_HEADER_SIZE. rewrite (proj2 (Z.leb_gt n 1)) by lia.
  unfold mbind, st_bind. rewrite E.
  destruct last; [by destruct first|]. destruct first; cbn; by destruct (len d =? 0).
Qed.

Lemma uplink_read_run s n first e :
  sending s → 2 ≤ n →
  ∃ m, sending m ∧ outgoing m = zdrop (n - 1) (outgoing s) ∧ s_events m = s_events s
    ∧ (∀ k, balanced s k → balanced m k)
    ∧ let d := ztake (n - 1) (outgoing s) in
      if decide (outgoing m = [])
      then ∃ s', uplink_read n 0 (Some (uplink_packetizer first e), s)
                 = OK ((inr (1 + len d), flags_byte first true :: d), (None, s')) ∧ sent s s'
      else uplink_read n 0 (Some (uplink_packetizer first e), s)
           = OK ((inr (1 + len d), flags_byte first false :: d), (Some (uplink_packetizer false e), m)).
Proof.
  intros Sg N. destruct (fill_cb_run s (n - 1) Sg ltac:(lia)) as (m & S & O & Ev & B & E).
  exists m. split_and!; [done..|]. cbv zeta. destruct (decide (outgoing m = [])).
  - destruct E as (s' & E & Fn). exists s'. split; [exact (read_of_cb s n first e _ _ true N E)|exact Fn].
  - exact (read_of_cb s n first e _ _ false N E).
Qed.

(** A central that reads until the packetizer is released, with the room of each read. *)
Fixpoint uplink_reads (fuel : nat) (room : nat → Z) : st (uplink_ctx * sys C) (list (list byte)) :=
  match fuel with
  | O => fault
  | S fuel =>
    '(_, pkt) ← uplink_read (room O) 0;
    ctx ← gets fst;
    match ctx with
    | None => mret [pkt]
    | Some _ => pkts ← uplink_reads fuel (λ i, room (S i)); mret (pkt :: pkts)
    end
  end.

Lemma uplink_reads_run fuel : ∀ room s (first : bool) e,
  sending s → (∀ i, 2 ≤ room i) → (length (outgoing s) < fuel)%nat →
  ∃ ps s', uplink_reads fuel room (Some (uplink_packetizer first e), s)
      = OK (packets first ps, (None, s'))
    ∧ ps ≠ [] ∧ concat ps = outgoing s ∧ sent s s'.
Proof.
  induction fuel as [|fuel IH]; intros room s first e Sg R Hf; [lia|]. cbn [uplink_reads].
  pose proof (R O) as R0.
  destruct (uplink_read_run s (room O) first e Sg R0) as (m & Sm & O & Ev & B & E). cbv zeta in E.
  destruct (decide (outgoing m = [])) as [D|D].
  - destruct E as (s' & E & Fn). exists [ztake (room 0%nat - 1) (outgoing s)], s'.
    rewrite (st_bind_OK _ _ _ _ _ E). cbv beta iota.
    split_and!; try done.
    simpl. rewrite app_nil_r. rewrite O in D.
    by rewrite <- (take_drop (Z.to_nat (room 0%nat - 1)) (outgoing s)) at 2; rewrite D, app_nil_r.
  - rewrite (st_bind_OK _ _ _ _ _ E). cbv beta iota.
    unfold gets, mbind at 1, st_bind at 1. cbv beta iota. cbn [fst].
    assert (length (outgoing m) < fuel)%nat as Lm.
    { rewrite O, length_drop. assert (outgoing s ≠ []) as Ns.
      { intros Z0. rewrite O, Z0, drop_nil in D. done. }
      destruct (outgoing s); [done|simpl in *; lia]. }
    destruct (IH (λ i, room (S i)) m false e Sm (λ i, R (S i)) Lm) as (ps & s' & Er & Np & Ec & Fn).
    rewrite (st_bind_OK _ _ _ _ _ Er).
    exists (ztake (room 0%nat - 1) (outgoing s) :: ps), s'. split_and!; [|done| |].
    + destruct ps; [done|]. done.
    + simpl. rewrite Ec, O. apply take_drop.
    + destruct Fn as [F1 F2 F3 F4]. split; [done|done| |].
      * rewrite F3. unfold emitted; simpl. by rewrite Ev.
      * intros k K. by apply F4, B.
Qed.

(** C26: reading a closed pouch over GATT: whatever room each read has, at least two bytes, the central
    gets packets that decode to the rest of the pouch in order, the first and only the first marked
    as first, the last and only the last as last, after at most one read per byte; then the
    packetizer is released, the session is finished, nothing is left to send or leaked and
    SESSION_END was emitted once. *)
Theorem uplink_reads_deliver room s (first : bool) e :
  sending s → (∀ i, 2 ≤ room i) →
  ∃ pkts ps s',
    uplink_reads (S (length (outgoing s))) room (Some (uplink_packetizer first e), s)
      = OK (pkts, (None, s'))
    ∧ map (λ pkt, golioth_ble_gatt_packetizer_decode (Some pkt) true) pkts = decoded first ps
    ∧ concat ps = outgoing s ∧ sent s s'.
Proof.
  intros Sg R.
  destruct (uplink_reads_run (S (length (outgoing s))) room s first e Sg R ltac:(lia))
    as (ps & s' & E & _ & Ec & Fn).
  exists (packets first ps), ps, s'. split_and!; [done|apply decode_packets|done|done].
Qed.

End UplinkReads.

(** * Writing a downlink *)

Section DownlinkWrites.
Context {BO : ByteOrder} {SL : SList} {KW : KWork} {MQ : MsgQ} {CF : Config} {HC : HeaderCodec}.
Context {C : Type} {CR : Crypto C}.
Implicit Types (s : sys C).

Fixpoint downlink_writes (pkts : list (list byte)) : st (sys C) (list att_result) :=
  match pkts with
  | [] => mret []
  | pkt :: pkts => r ← downlink_write pkt; rs ← downlink_writes pkts; mret (r :: rs)
  end.

Lemma downlink_write_run (first last : bool) d s :
  downlink_write (flags_byte first last :: d) s =
    ((if first then pouch_downlink_start else mret tt);; pouch_downlink_push d;; mret (inr (1 + len d))) s.
Proof.
  unfold downlink_write. rewrite decode_packet.
  replace (len (flags_byte first last :: d)) with (1 + len d) by (simpl; lia).
  unfold mbind, st_bind. destruct ((if first then pouch_downlink_start else mret tt) s) as [[[] s1]|]; [|done].
  destruct (pouch_downlink_push d s1) as [[[] s2]|]; [|done]. by destruct last.
Qed.

Lemma downlink_writes_run ds : ∀ (first : bool) s,
  ds ≠ [] →
  downlink_writes (packets first ds) s =
    ((if first then pouch_downlink_start else mret tt);; push_chunks ds;;
     mret (map (λ d, inr (1 + len d)) ds)) s.
Proof.
  induction ds as [|d ds IH]; intros first s N; [done|]. destruct ds as [|d' ds].
  - change (packets first [d]) with [flags_byte first true :: d]. cbn [downlink_writes push_chunks].
    unfold mbind, st_bind. rewrite downlink_write_run. unfold mbind, st_bind.
    destruct ((if first then pouch_downlink_start else mret tt) s) as [[[] s1]|]; [|done].
    by destruct (pouch_downlink_push d s1) as [[[] s2]|].
  - change (packets first (d :: d' :: ds)) with ((flags_byte first false :: d) :: packets false (d' :: ds)).
    cbn [downlink_writes]. unfold mbind at 1, st_bind at 1. rewrite downlink_write_run.
    change (push_chunks (d :: d' :: ds)) with (pouch_downlink_push d;; push_chunks (d' :: ds)).
    unfold mbind, st_bind.
    destruct ((if first then pouch_downlink_start else mret tt) s) as [[[] s1]|]; [|done].
    destruct (pouch_downlink_push d s1) as [[[] s2]|]; [|done].
    cbn [mret st_ret]. rewrite (IH false s2) by done. unfold mbind, st_bind.
    cbn [mret st_ret]. by destruct (push_chunks (d' :: ds) s2) as [[[] s3]|].
Qed.

(** Writing a pouch over GATT in the packets of its parts is starting the downlink and pushing the
    parts in order: framing adds nothing, loses nothing and starts the downlink once. *)
Theorem downlink_writes_push ds s :
  ds ≠ [] →
  downlink_writes (packets true ds) s =
    (pouch_downlink_start;; push_chunks ds;; mret (map (λ d, inr (1 + len d)) ds)) s.
Proof. apply (downlink_writes_run ds true s). Qed.

End DownlinkWrites.

(** * Writing the server certificate *)

Section CertWrites.
Context {CC : CertConfig} {GC : GattConfig} {PS : Psa} {PL : PsaLaws PS} {X : X509}.
Implicit Types (x : server_cert_ctx) (certs : cert_statics) (h : heap) (b d : list byte).

Lemma cert_store_spec b d :
  cert_store b (len b) d =
    if len b + len d <=? CONFIG_POUCH_SERVER_CERT_MAX_LEN then OK (b ++ d) else Fault.
Proof.
  unfold cert_store. rewrite Z.leb_refl. cbn [andb].
  destruct (_ <=? CONFIG_POUCH_SERVER_CERT_MAX_LEN); [|done].
  rewrite guard_true, bind_OK by done. rewrite ztake_all, zdrop_all by lia. by rewrite app_nil_r.
Qed.

Definition malloced h : heap := Heap (malloc_ok h) (S (malloc_n h)) (bufs h).

(** One packet, when the bytes before it are [b]. *)
Lemma server_cert_write_run (first last : bool) x certs h b d :
  d ≠ [] →
  (if first then malloc_ok h (malloc_n h) = true ∧ b = []
   else scc_cert x = Some b ∧ scc_size x = len b) →
  server_cert_write (flags_byte first last :: d) (x, (certs, h)) =
    let h' := if first then malloced h else h in
    if len b + len d <=? CONFIG_POUCH_SERVER_CERT_MAX_LEN then
      if last then
        match pouch_server_certificate_set (Some (PouchCert (Some (b ++ d)) (len (b ++ d)))) certs with
        | OK (err, certs') => OK ((inr (1 + len d), bool_decide (err ≠ SUCCESS)),
            (set_scc_cert None (len (b ++ d)) x, (certs', h')))
        | Fault => Fault
        end
      else OK ((inr (1 + len d), false), (set_scc_cert (Some (b ++ d)) (len (b ++ d)) x, (certs, h')))
    else Fault.
Proof.
  intros N P. unfold server_cert_write. rewrite decode_packet.
  replace (len (flags_byte first last :: d)) with (1 + len d) by (simpl; lia).
  rewrite (proj2 (Z.leb_gt (len d) 0)) by (destruct d; [done|simpl; lia]).
  cbv zeta. set (h' := if first then malloced h else h).
  set (x' := if first then set_scc_cert (Some []) 0 x else x).
  assert (scc_cert x' = Some b ∧ scc_size x' = len b) as [Eb En].
  { unfold x'. destruct first; [by destruct P as [_ ->]|exact P]. }
  assert (∀ v n, set_scc_cert v n x' = set_scc_cert v n x) as Es by (intros; unfold x'; by destruct first).
  match goal with |- (mbind _ ?m0) _ = _ => assert (m0 (x, (certs, h)) = OK (tt, (x', (certs, h')))) as E0 end.
  { unfold x', h'. destruct first; [|done]. destruct P as [M _].
    unfold mbind, st_bind, on_snd, malloc. rewrite M. done. }
  rewrite (st_bind_OK _ _ _ _ _ E0). clear E0. unfold mbind, st_bind, gets. cbv beta iota. cbn [fst].
  rewrite Eb. unfold lift. rewrite En, cert_store_spec.
  destruct (_ <=? CONFIG_POUCH_SERVER_CERT_MAX_LEN); [|done].
  cbv beta iota. unfold set_fst. rewrite !Es.
  replace (len b + len d) with (len (b ++ d)) by solve_len.
  destruct last; [|done]. unfold on_snd, on_fst.
  by destruct (pouch_server_certificate_set _ certs) as [[err certs']|].
Qed.

Fixpoint cert_writes (pkts : list (list byte)) : st cert_sys (list (att_result * bool)) :=
  match pkts with
  | [] => mret []
  | pkt :: pkts => r ← server_cert_write pkt; rs ← cert_writes pkts; mret (r :: rs)
  end.

Lemma cert_writes_run ps : ∀ (first : bool) x certs h b,
  ps ≠ [] → Forall (λ d, d ≠ []) ps →
  (if first then malloc_ok h (malloc_n h) = true ∧ b = []
   else scc_cert x = Some b ∧ scc_size x = len b) →
  ∃ rs, cert_writes (packets first ps) (x, (certs, h)) =
    let d := b ++ concat ps in
    if len d <=? CONFIG_POUCH_SERVER_CERT_MAX_LEN then
      match pouch_server_certificate_set (Some (PouchCert (Some d) (len d))) certs with
      | OK (err, certs') => OK (rs ++ [(inr (1 + len (default [] (list.last ps))), bool_decide (err ≠ SUCCESS))],
          (set_scc_cert None (len d) x, (certs', if first then malloced h else h)))
      | Fault => Fault
      end
    else Fault.
Proof.
  induction ps as [|d ps IH]; intros first x certs h b N F P; [done|].
  apply Forall_cons in F as [Nd F]. destruct ps as [|d' ps].
  - exists []. change (packets first [d]) with [flags_byte first true :: d]. cbn [cert_writes].
    unfold mbind at 1, st_bind at 1. rewrite (server_cert_write_run first true x certs h b d Nd P).
    cbv zeta. change (concat [d]) with (d ++ []). rewrite app_nil_r.
    replace (len (b ++ d)) with (len b + len d) by solve_len.
    destruct (_ <=? CONFIG_POUCH_SERVER_CERT_MAX_LEN); [|done].
    by destruct (pouch_server_certificate_set _ certs) as [[err certs']|].
  - change (packets first (d :: d' :: ps)) with ((flags_byte first false :: d) :: packets false (d' :: ps)).
    cbn [cert_writes]. unfold mbind at 1, st_bind at 1.
    rewrite (server_cert_write_run first false x certs h b d Nd P). cbv zeta.
    destruct (IH false (set_scc_cert (Some (b ++ d)) (len (b ++ d)) x) certs
      (if first then malloced h else h) (b ++ d) ltac:(done) F ltac:(done)) as (rs & E).
    exists ((inr (1 + len d), false) :: rs).
    change (concat (d :: d' :: ps)) with (d ++ concat (d' :: ps)). rewrite app_assoc.
    destruct (Z.leb_spec (len b + len d) CONFIG_POUCH_SERVER_CERT_MAX_LEN) as [L|L].
    + cbv beta iota. unfold mbind, st_bind in E |- *. rewrite E. cbv zeta.
      destruct (_ <=? CONFIG_POUCH_SERVER_CERT_MAX_LEN); [|done].
      by destruct (pouch_server_certificate_set _ certs) as [[err certs']|].
    + rewrite (proj2 (Z.leb_gt _ _)); [done|]. solve_len.
Qed.

(** C28: a certificate written over GATT in packets: the certificate that is set is exactly their
    concatenation, after the last packet; its buffer is released, and the peer is disconnected
    exactly when it is refused. That holds for certificates no longer than the buffer
    (CONFIG_POUCH_SERVER_CERT_MAX_LEN): the handler has no check of its own, and a longer one is
    stored beyond the buffer's end. *)
Theorem server_cert_writes_spec ps x certs h :
  cert_inv certs → ps ≠ [] → Forall (λ d, d ≠ []) ps → malloc_ok h (malloc_n h) = true →
  (len (concat ps) ≤ CONFIG_POUCH_SERVER_CERT_MAX_LEN →
   ∃ rs n err x' certs' h',
     cert_writes (packets true ps) (x, (certs, h))
       = OK (rs ++ [(inr n, bool_decide (err ≠ SUCCESS))], (x', (certs', h')))
     ∧ pouch_server_certificate_set (Some (PouchCert (Some (concat ps)) (len (concat ps)))) certs
       = OK (err, certs')
     ∧ scc_cert x' = None ∧ cert_inv certs') ∧
  (CONFIG_POUCH_SERVER_CERT_MAX_LEN < len (concat ps) →
   cert_writes (packets true ps) (x, (certs, h)) = Fault).
Proof.
  intros I N F M. destruct (cert_writes_run ps true x certs h [] N F (conj M eq_refl)) as (rs & E).
  cbv zeta in E. rewrite app_nil_l in E.
  assert (concat ps ≠ []) as Nc.
  { destruct ps as [|d ps]; [done|]. apply Forall_cons in F as [Nd _]. destruct d; done. }
  split; intros L.
  - rewrite (proj2 (Z.leb_le _ _) L) in E.
    destruct (server_set_run certs (Some (PouchCert (Some (concat ps)) (len (concat ps)))) (concat ps) I)
      as (err & certs' & Es & I' & _).
    { simpl. apply Z.ltb_lt. destruct (concat ps); [done|simpl; lia]. }
    { apply cert_load_all. }
    unfold pouch_server_certificate_set in E |- *. rewrite Es in E.
    eexists rs, _, err, _, certs', _. split_and!; [exact E|exact Es|done|done].
  - by rewrite (proj2 (Z.leb_gt _ _) L) in E.
Qed.

End CertWrites.

Module GattWitness.
#[local] Existing Instances Native.byte_order Native.config_none Native.list_slist Native.flag_work
  Native.list_msgq NativeCodec.codec NativeCodec.codec_laws CryptoNone.crypto_none
  CryptoNone.crypto_none_laws NativePsa.psa NativePsa.psa_laws NativeX509.x509 CertWitness.cc.

(** An active, closed session that has two buffers to send. *)
Definition ex_sending : sys CryptoNone.state :=
  let s := boot Native.heap0 4 (Some [x64]) in
  set_uplink (set_u_flags 5 (set_u_transport_queue
    [PBuf 37 3 [x01; x02; x03]; PBuf 515 2 [x04; x05]] (s_uplink s))) s.

Lemma ex_sending_ok : sending ex_sending.
Proof.
  split; [split|reflexivity|reflexivity]; [|exact I].
  repeat constructor; simpl; lia.
Qed.

Lemma uplink_reads_deliver_witness :
  ∃ pkts ps s',
    uplink_reads 6 (λ _, 3) (Some (uplink_packetizer true None), ex_sending) = OK (pkts, (None, s'))
    ∧ map (λ pkt, golioth_ble_gatt_packetizer_decode (Some pkt) true) pkts = decoded true ps
    ∧ concat ps = [x01; x02; x03; x04; x05] ∧ sent ex_sending s'.
Proof.
  exact (uplink_reads_deliver (λ _, 3) ex_sending true None ex_sending_ok (λ _, ltac:(lia))).
Defined.

Lemma downlink_writes_push_witness :
  let s : sys CryptoNone.state := boot Native.heap0 4 (Some [x64]) in
  downlink_writes [[x01; x82]; [x02; x01; x82]] s =
    (pouch_downlink_start;; push_chunks [[x82]; [x01; x82]];; mret [inr 2; inr 3]) s.
Proof. exact (downlink_writes_push [[x82]; [x01; x82]] (boot Native.heap0 4 (Some [x64])) ltac:(done)). Defined.

#[refine, local] Instance gc : GattConfig := {| CONFIG_POUCH_SERVER_CERT_MAX_LEN := 5 |}.
Proof. lia. Defined.

Definition ex_parts : list (list byte) := [[x02; x01; x02]; [x07; x08]].
Definition ex_certs : cert_statics := cert_boot (X := NativeX509.x509) ([] : list byte).
Definition ex_ctx : server_cert_ctx := ServerCertCtx None None 0 (SerialCtx [] 0 0).

Lemma server_cert_writes_spec_witness :
  ∃ rs n err x' certs' h',
    cert_writes (packets true ex_parts) (ex_ctx, (ex_certs, Native.heap0))
      = OK (rs ++ [(inr n, bool_decide (err ≠ SUCCESS))], (x', (certs', h')))
    ∧ pouch_server_certificate_set (Some (PouchCert (Some [x02; x01; x02; x07; x08]) 5)) ex_certs
      = OK (err, certs').
Proof.
  destruct (proj1 (server_cert_writes_spec ex_parts ex_ctx ex_certs Native.heap0
    (cert_boot_inv (X := NativeX509.x509) ([] : list byte)) ltac:(done) ltac:(repeat constructor; done) eq_refl) ltac:(simpl; lia))
    as (rs & n & err & x' & certs' & h' & E & S & _).
  exists rs, n, err, x', certs', h'. split; [exact E|exact S].
Defined.
End GattWitness.
