(* ===== verification/Peripheral.v ===== *)
(** The GATT service of the BLE transport: src/src/transport/ble_gatt/peripheral.c,
    golioth_ble_gatt_declarations.h and the declarations at the end of each characteristic's file.

    The attributes are declared one by one in six files, into a section that the linker sorts by name;
    the table that is registered is that section. The Bluetooth stack and the linker are classes. *)
From stdpp Require Import sorting strings.
From S2P Require Import Prelude Platform Buf Block Crypto State Entry Stream Header Uplink Downlink.
From S2P Require Import Packetizer Psa Cert Session Saead Gatt.

(** * Bluetooth and the linker *)

(** <zephyr/bluetooth/uuid.h>: the value of the bytes, which are in reverse order. *)
Definition BT_UUID_128_ENCODE (w32 w1 w2 w3 w48 : Z) : Z :=
  Z.shiftl w32 96 + Z.shiftl w1 80 + Z.shiftl w2 64 + Z.shiftl w3 48 + w48.
Definition BT_UUID_GATT_PRIMARY : Z := 0x2800.
Definition BT_UUID_GATT_CHRC : Z := 0x2803.

Definition BT_GATT_CHRC_READ : Z := 0x02.
Definition BT_GATT_CHRC_WRITE : Z := 0x08.
Definition BT_GATT_PERM_READ : Z := 0x01.
Definition BT_GATT_PERM_WRITE : Z := 0x02.

(** What an advertisement carries: flags, the name, or the data of a service. *)
Inductive bt_data :=
| BT_DATA_FLAGS (flags : Z)
| BT_DATA_NAME_COMPLETE (name : list byte)
| BT_DATA_SVC_DATA128 (uuid : Z) (d : list byte).

(** The advertising and scan response data. *)
Definition adv_payload : Type := list bt_data * list bt_data.

(** <zephyr/bluetooth/bluetooth.h>, gatt.h. [bt_services] are the registered tables, [bt_advertised]
    what is being advertised. *)
Class Bluetooth (At : Type) := {
  bt_state : Type;
  bt_services : bt_state → list (list At);
  bt_advertised : bt_state → option adv_payload;
  bt_gatt_service_register : list At → bt_state → status * bt_state;
  bt_enable : bt_state → status * bt_state;
  bt_le_adv_start : list bt_data → list bt_data → bt_state → status * bt_state;
  bt_le_adv_update_data : list bt_data → list bt_data → bt_state → status * bt_state;
  register_services t b : bt_services (bt_gatt_service_register t b).2 =
    match (bt_gatt_service_register t b).1 with None => bt_services b ++ [t] | Some _ => bt_services b end;
  enable_services b : bt_services (bt_enable b).2 = bt_services b;
  register_advertised t b : bt_advertised (bt_gatt_service_register t b).2 = bt_advertised b;
  enable_advertised b : bt_advertised (bt_enable b).2 = bt_advertised b;
  adv_start_services ad sd b : bt_services (bt_le_adv_start ad sd b).2 = bt_services b;
  adv_update_services ad sd b : bt_services (bt_le_adv_update_data ad sd b).2 = bt_services b;
  adv_start_advertised ad sd b : (bt_le_adv_start ad sd b).1 = SUCCESS →
    bt_advertised (bt_le_adv_start ad sd b).2 = Some (ad, sd);
  adv_start_failed ad sd b e : (bt_le_adv_start ad sd b).1 = NEG e →
    bt_advertised (bt_le_adv_start ad sd b).2 = bt_advertised b;
  adv_update_advertised ad sd b : (bt_le_adv_update_data ad sd b).1 = SUCCESS →
    bt_advertised (bt_le_adv_update_data ad sd b).2 = Some (ad, sd);
  adv_update_failed ad sd b e : (bt_le_adv_update_data ad sd b).1 = NEG e →
    bt_advertised (bt_le_adv_update_data ad sd b).2 = bt_advertised b;
}.

(** ITERABLE_SECTION: the objects of a section are in the order of their names. *)
Class Linker := {
  section_sort {T} : list (string * T) → list (string * T);
  section_sort_perm T (l : list (string * T)) : section_sort l ≡ₚ l;
  section_sort_sorted T (l : list (string * T)) :
    StronglySorted (λ a b, String.le a.1 b.1) (section_sort l);
}.

Lemma section_sort_unique `{Linker} {T} (l k : list (string * T)) :
  NoDup (map fst l) → StronglySorted (λ a b, String.le a.1 b.1) k → k ≡ₚ l → section_sort l = k.
Proof.
  intros N S P. apply (StronglySorted_unique_strong (λ a b, String.le a.1 b.1)).
  - intros [n a] [m b] Ha Hb L1 L2. simpl in *. assert (n = m) as <- by by apply (anti_symm String.le).
    rewrite section_sort_perm in Ha. rewrite P in Hb.
    apply list_elem_of_lookup in Ha as [i Ha], Hb as [j Hb].
    assert (i = j) as <-.
    { eapply NoDup_lookup; [exact N|..]; rewrite list_lookup_fmap; [by rewrite Ha|by rewrite Hb]. }
    congruence.
  - apply section_sort_sorted.
  - done.
  - by rewrite section_sort_perm, P.
Qed.

(** * UUIDs: pouch_ble_gatt_common/.../uuids.h *)

Definition GOLIOTH_BLE_GATT_UUID_SVC_VAL : Z :=
  BT_UUID_128_ENCODE 0x89a316ae 0x89b7 0x4ef6 0xb1d3 0x5c9a6e27d272.
Definition GOLIOTH_BLE_GATT_UUID_UPLINK_CHRC_VAL : Z :=
  BT_UUID_128_ENCODE 0x89a316ae 0x89b7 0x4ef6 0xb1d3 0x5c9a6e27d273.
Definition GOLIOTH_BLE_GATT_UUID_DOWNLINK_CHRC_VAL : Z :=
  BT_UUID_128_ENCODE 0x89a316ae 0x89b7 0x4ef6 0xb1d3 0x5c9a6e27d274.
Definition GOLIOTH_BLE_GATT_UUID_INFO_CHRC_VAL : Z :=
  BT_UUID_128_ENCODE 0x89a316ae 0x89b7 0x4ef6 0xb1d3 0x5c9a6e27d275.
Definition GOLIOTH_BLE_GATT_UUID_SERVER_CERT_CHRC_VAL : Z :=
  BT_UUID_128_ENCODE 0x89a316ae 0x89b7 0x4ef6 0xb1d3 0x5c9a6e27d276.
Definition GOLIOTH_BLE_GATT_UUID_DEVICE_CERT_CHRC_VAL : Z :=
  BT_UUID_128_ENCODE 0x89a316ae 0x89b7 0x4ef6 0xb1d3 0x5c9a6e27d277.

(** * The attributes *)

Section Peripheral.
Context {BO : ByteOrder} {SL : SList} {KW : KWork} {MQ : MsgQ} {CF : Config} {HC : HeaderCodec}.
Context {CC : CertConfig} {GC : GattConfig} {PS : Psa} {X : X509} {IC : InfoCodec}.
Context {C : Type} {CR : Crypto C} `{!Part C cert_statics}.

(** The contexts of the characteristics and the library; cert.c's statics are part of [C]. *)
Record gatt_sys := GattSys {
  g_uplink : uplink_ctx (C := C);
  g_server : server_cert_ctx;
  g_device : device_cert_ctx;
  g_info : info_ctx;
  g_sys : sys C;
}.

(** cert.c's statics and the heap, as the characteristics' files see them. *)
Definition get_certs (s : sys C) : cert_statics * heap := (part_get (s_crypto s), s_heap s).
Definition set_certs (ch : cert_statics * heap) (s : sys C) : sys C :=
  set_crypto (part_set ch.1 (s_crypto s)) (set_heap ch.2 s).

Lemma get_set_certs ch s : get_certs (set_certs ch s) = ch.
Proof. destruct ch as [c h]. unfold get_certs, set_certs. simpl. by rewrite part_get_set. Qed.

#[export, refine] Instance gatt_uplink : Part gatt_sys (uplink_ctx (C := C) * sys C) := {|
  part_get g := (g_uplink g, g_sys g);
  part_set x g := GattSys x.1 (g_server g) (g_device g) (g_info g) x.2 |}.
Proof. by intros [? ?] ?. Defined.
#[export, refine] Instance gatt_library : Part gatt_sys (sys C) := {|
  part_get := g_sys; part_set x g := GattSys (g_uplink g) (g_server g) (g_device g) (g_info g) x |}.
Proof. done. Defined.
#[export, refine] Instance gatt_server : Part gatt_sys cert_sys := {|
  part_get g := (g_server g, get_certs (g_sys g));
  part_set x g := GattSys (g_uplink g) x.1 (g_device g) (g_info g) (set_certs x.2 (g_sys g)) |}.
Proof. intros [? ?] ?. simpl. by rewrite get_set_certs. Defined.
#[export, refine] Instance gatt_device : Part gatt_sys (device_cert_ctx * (cert_statics * heap)) := {|
  part_get g := (g_device g, get_certs (g_sys g));
  part_set x g := GattSys (g_uplink g) (g_server g) x.1 (g_info g) (set_certs x.2 (g_sys g)) |}.
Proof. intros [? ?] ?. simpl. by rewrite get_set_certs. Defined.
#[export, refine] Instance gatt_info : Part gatt_sys (info_ctx * (cert_statics * heap)) := {|
  part_get g := (g_info g, get_certs (g_sys g));
  part_set x g := GattSys (g_uplink g) (g_server g) (g_device g) x.1 (set_certs x.2 (g_sys g)) |}.
Proof. intros [? ?] ?. simpl. by rewrite get_set_certs. Defined.

(** The room and the offset; the result and the packet. *)
Definition attr_read : Type := Z → Z → st gatt_sys (att_result * list byte).
(** The packet; the result and whether the peer is disconnected. *)
Definition attr_write : Type := list byte → st gatt_sys (att_result * bool).

(** [at_chrc] is the user data of a declaration: the characteristic's UUID and properties. *)
Record bt_gatt_attr := Attr {
  at_uuid : Z;
  at_perm : Z;
  at_read : option attr_read;
  at_write : option attr_write;
  at_chrc : option (Z * Z);
}.

(** Zephyr's handlers of services and declarations. *)
Context (bt_gatt_attr_read_service bt_gatt_attr_read_chrc : attr_read).

Definition BT_GATT_PRIMARY_SERVICE (uuid : Z) : bt_gatt_attr :=
  Attr BT_UUID_GATT_PRIMARY BT_GATT_PERM_READ (Some bt_gatt_attr_read_service) None (Some (uuid, 0)).

(** The declaration of a characteristic and its value. *)
Definition chrc_declaration (uuid props : Z) : bt_gatt_attr :=
  Attr BT_UUID_GATT_CHRC BT_GATT_PERM_READ (Some bt_gatt_attr_read_chrc) None (Some (uuid, props)).
Definition chrc_value (uuid perm : Z) (read : option attr_read) (write : option attr_write) : bt_gatt_attr :=
  Attr uuid perm read write None.

(** The two objects a declaration puts into the section. *)
Definition GOLIOTH_BLE_GATT_CHARACTERISTIC (name : string) (uuid props perm : Z)
    (read : option attr_read) (write : option attr_write) : list (string * bt_gatt_attr) :=
  [((name +:+ "_chrc")%string, chrc_declaration uuid props);
   ((name +:+ "_val")%string, chrc_value uuid perm read write)].

Definition GOLIOTH_BLE_GATT_SERVICE (uuid : Z) : list (string * bt_gatt_attr) :=
  [("AAA_golioth_ble_gatt_svc"%string, BT_GATT_PRIMARY_SERVICE uuid)].

(** ** The declarations of the characteristics' files *)

Definition uplink_attrs : list (string * bt_gatt_attr) :=
  GOLIOTH_BLE_GATT_CHARACTERISTIC "uplink" GOLIOTH_BLE_GATT_UUID_UPLINK_CHRC_VAL
    BT_GATT_CHRC_READ BT_GATT_PERM_READ (Some (λ n off, zoom (uplink_read n off))) None.

Definition downlink_attrs : list (string * bt_gatt_attr) :=
  GOLIOTH_BLE_GATT_CHARACTERISTIC "downlink" GOLIOTH_BLE_GATT_UUID_DOWNLINK_CHRC_VAL
    BT_GATT_CHRC_WRITE BT_GATT_PERM_WRITE None
    (Some (λ buf, r ← zoom (downlink_write buf); mret (r, false))).

Definition info_attrs : list (string * bt_gatt_attr) :=
  GOLIOTH_BLE_GATT_CHARACTERISTIC "info" GOLIOTH_BLE_GATT_UUID_INFO_CHRC_VAL
    BT_GATT_CHRC_READ BT_GATT_PERM_READ (Some (λ n off, zoom (info_read n off))) None.

Definition server_cert_attrs : list (string * bt_gatt_attr) :=
  GOLIOTH_BLE_GATT_CHARACTERISTIC "server_cert" GOLIOTH_BLE_GATT_UUID_SERVER_CERT_CHRC_VAL
    (Z.lor BT_GATT_CHRC_READ BT_GATT_CHRC_WRITE) (Z.lor BT_GATT_PERM_READ BT_GATT_PERM_WRITE)
    (Some (λ n off, zoom (server_cert_serial_read n off))) (Some (λ buf, zoom (server_cert_write buf))).

Definition device_cert_attrs : list (string * bt_gatt_attr) :=
  GOLIOTH_BLE_GATT_CHARACTERISTIC "device_cert" GOLIOTH_BLE_GATT_UUID_DEVICE_CERT_CHRC_VAL
    BT_GATT_CHRC_READ BT_GATT_PERM_READ (Some (λ n off, zoom (device_cert_read n off))) None.

(** ** peripheral.c *)

Context {LK : Linker} {BT : Bluetooth bt_gatt_attr}.

(** The objects of the section, in the order the files are linked in, which does not matter. *)
Definition GOLIOTH_BLE_GATT_ATTR_ARRAY (objects : list (string * bt_gatt_attr)) : list bt_gatt_attr :=
  map snd (section_sort objects).

Definition golioth_ble_gatt_peripheral_init (objects : list (string * bt_gatt_attr)) (b : bt_state)
    : status * bt_state :=
  bt_gatt_service_register (GOLIOTH_BLE_GATT_ATTR_ARRAY objects) b.

Definition service_objects : list (string * bt_gatt_attr) :=
  GOLIOTH_BLE_GATT_SERVICE GOLIOTH_BLE_GATT_UUID_SVC_VAL ++ uplink_attrs ++ downlink_attrs ++ info_attrs
  ++ server_cert_attrs ++ device_cert_attrs.

(** * The table *)

(** A well-formed service: its declaration, and then for every characteristic a declaration followed by
    a value with the UUID declared, whose permissions and handlers are those the properties announce. *)
Definition value_for (uuid props : Z) (v : bt_gatt_attr) : Prop :=
  at_uuid v = uuid ∧ at_chrc v = None
  ∧ (negb (Z.land props BT_GATT_CHRC_READ =? 0) = negb (Z.land (at_perm v) BT_GATT_PERM_READ =? 0))
  ∧ (negb (Z.land props BT_GATT_CHRC_WRITE =? 0) = negb (Z.land (at_perm v) BT_GATT_PERM_WRITE =? 0))
  ∧ (Z.land props BT_GATT_CHRC_READ ≠ 0 ↔ is_Some (at_read v))
  ∧ (Z.land props BT_GATT_CHRC_WRITE ≠ 0 ↔ is_Some (at_write v)).

Inductive characteristics : list bt_gatt_attr → list Z → Prop :=
| characteristics_nil : characteristics [] []
| characteristics_cons uuid props v t us :
    value_for uuid props v → characteristics t us →
    characteristics (chrc_declaration uuid props :: v :: t) (uuid :: us).

Definition sorted_objects : list (string * bt_gatt_attr) :=
  GOLIOTH_BLE_GATT_SERVICE GOLIOTH_BLE_GATT_UUID_SVC_VAL ++ device_cert_attrs ++ downlink_attrs
  ++ info_attrs ++ server_cert_attrs ++ uplink_attrs.

Lemma sorted_objects_perm : sorted_objects ≡ₚ service_objects.
Proof.
  unfold sorted_objects, service_objects. f_equiv.
  generalize uplink_attrs downlink_attrs info_attrs server_cert_attrs device_cert_attrs.
  intros a b c d e. solve_Permutation.
Qed.

Lemma sorted_objects_sorted : StronglySorted (λ a b, String.le a.1 b.1) sorted_objects.
Proof.
  unfold sorted_objects, device_cert_attrs, downlink_attrs, info_attrs, server_cert_attrs, uplink_attrs,
    GOLIOTH_BLE_GATT_SERVICE, GOLIOTH_BLE_GATT_CHARACTERISTIC. cbn [app].
  repeat constructor.
Qed.

(** C40: whatever order the files are linked in, the service that is registered is the declaration of the
    service followed by the five characteristics, each a declaration and its value, readable and
    writable as declared and with a handler exactly for that. *)
Theorem service_table objects b :
  objects ≡ₚ service_objects →
  let t := map snd sorted_objects in
  golioth_ble_gatt_peripheral_init objects b = bt_gatt_service_register t b ∧
  ∃ t', t = BT_GATT_PRIMARY_SERVICE GOLIOTH_BLE_GATT_UUID_SVC_VAL :: t' ∧
    characteristics t' [GOLIOTH_BLE_GATT_UUID_DEVICE_CERT_CHRC_VAL; GOLIOTH_BLE_GATT_UUID_DOWNLINK_CHRC_VAL;
      GOLIOTH_BLE_GATT_UUID_INFO_CHRC_VAL; GOLIOTH_BLE_GATT_UUID_SERVER_CERT_CHRC_VAL;
      GOLIOTH_BLE_GATT_UUID_UPLINK_CHRC_VAL].
Proof.
  intros P t. split.
  - unfold golioth_ble_gatt_peripheral_init, GOLIOTH_BLE_GATT_ATTR_ARRAY.
    rewrite (section_sort_unique objects sorted_objects); [done| |apply sorted_objects_sorted|].
    + rewrite P. unfold service_objects, uplink_attrs, downlink_attrs, info_attrs, server_cert_attrs,
        device_cert_attrs, GOLIOTH_BLE_GATT_SERVICE, GOLIOTH_BLE_GATT_CHARACTERISTIC. cbn [app map fst].
      apply (bool_decide_unpack _). by vm_compute.
    + by rewrite sorted_objects_perm, P.
  - eexists. split; [reflexivity|]. repeat constructor; try done; intros E; by destruct E.
Qed.

End Peripheral.

(** * A concrete stack and linker *)

Module NativeBluetooth.

#[refine] Definition linker : Linker :=
  {| section_sort T l := merge_sort (λ a b, String.le a.1 b.1) l |}.
Proof.
  - intros T l. apply merge_sort_Permutation.
  - intros T l. apply StronglySorted_merge_sort; [|intros a b; apply (total String.le)].
    intros a b c. apply (transitivity (R := String.le)).
Defined.

(** The registered tables and what is advertised. *)
#[refine] Definition bluetooth (At : Type) : Bluetooth At := {|
  bt_state := list (list At) * option adv_payload;
  bt_services := fst; bt_advertised := snd;
  bt_gatt_service_register t b := (SUCCESS, (b.1 ++ [t], b.2));
  bt_enable b := (SUCCESS, b);
  bt_le_adv_start ad sd b := (SUCCESS, (b.1, Some (ad, sd)));
  bt_le_adv_update_data ad sd b := (SUCCESS, (b.1, Some (ad, sd)));
|}.
Proof. all: done. Defined.
End NativeBluetooth.

Module PeripheralWitness.
#[local] Existing Instances Native.byte_order Native.config_saead Native.list_slist Native.flag_work
  Native.list_msgq NativeCodec.codec NativePsa.psa NativePsa.base64 NativeX509.x509 CertWitness.cc
  SaeadWitness.sc GattWitness.gc NativeBluetooth.linker.

#[local] Instance info_codec : InfoCodec := {| cbor_encode_golioth_ble_gatt_info _ _ s := Some s |}.

(** Zephyr's own handlers play no part here. *)
Definition ex_zephyr : attr_read (C := saead) := λ _ _, mret (inr 0, []).
#[local] Instance ex_bluetooth : Bluetooth (bt_gatt_attr (C := saead)) := NativeBluetooth.bluetooth _.

Definition ex_bt (ts : list (list (bt_gatt_attr (C := saead)))) : bt_state (Bluetooth := ex_bluetooth) :=
  (ts, None).

(** Linked in the reverse order, the table is the same. *)
Lemma service_table_witness :
  golioth_ble_gatt_peripheral_init (rev (service_objects ex_zephyr ex_zephyr)) (ex_bt [])
    = (SUCCESS, ex_bt [map snd (sorted_objects ex_zephyr ex_zephyr)]).
Proof.
  rewrite (proj1 (service_table ex_zephyr ex_zephyr (rev (service_objects ex_zephyr ex_zephyr)) (ex_bt [])
    (symmetry (Permutation_rev _)))).
  reflexivity.
Defined.
End PeripheralWitness.
