(* ===== verification/Dispatch.v ===== *)
(** Dispatching downlinks to services: src/golioth_sdk/dispatch.c and dispatch.h.

    A service is registered for a path, or for the paths that start with what precedes a final '*'. It
    is a handler of Entry.v's kind for whatever it matches first. *)
From S2P Require Import Prelude Platform Buf Block Crypto State Entry Header Uplink.

Definition DOWNLINK_ID_INVALID : Z := -1.

(** <pouch/types.h> *)
Definition POUCH_CONTENT_TYPE_CBOR : Z := 60.

(** The callbacks act on the application's state [A], and may fault. *)
Record golioth_downlink_service (A : Type) := Service {
  svc_path : list byte;
  svc_start_cb : option (Z → option (list byte) → A → outcome A);
  svc_data_cb : Z → option (list byte) → Z → bool → A → outcome A;
}.
Arguments Service {A}.
Arguments svc_path {A}.
Arguments svc_start_cb {A}.
Arguments svc_data_cb {A}.

(** The services' [downlink_id]s, [last_seen] as an index, and the application's state. *)
Record dispatch_state (A : Type) := Dispatch {
  dp_ids : list Z;
  dp_last_seen : option nat;
  dp_app : A;
}.
Arguments Dispatch {A}.
Arguments dp_ids {A}.
Arguments dp_last_seen {A}.
Arguments dp_app {A}.

Section Dispatch.
Context {A : Type} (services : list (golioth_downlink_service A)).
Implicit Types (d : dispatch_state A).

(** The pattern of a service: how many characters are compared, and whether a remainder may follow. The
    last character of an empty path would be the byte before it. *)
Definition service_pattern (s : golioth_downlink_service A) : outcome (Z * bool) :=
  let path_len := strlen (svc_path s) in
  guard (1 <=? path_len);;
  let partial := bool_decide (nth (Z.to_nat (path_len - 1)) (svc_path s) x00 = "*"%byte) in
  OK (if partial then path_len - 1 else path_len, partial).

(** The loop over the services, from index [i]: the first that matches. *)
Fixpoint find_service (path : list byte) (ss : list (golioth_downlink_service A)) (i : nat)
    : outcome (option (nat * golioth_downlink_service A * Z * bool)) :=
  match ss with
  | [] => OK None
  | s :: ss =>
    '(path_len, partial) ← service_pattern s;
    if strncmp_eq (svc_path s) path path_len then OK (Some (i, s, path_len, partial))
    else find_service path ss (S i)
  end.

Definition pouch_downlink_start (stream_id : Z) (path : list byte) (content_type : Z) d
    : outcome (dispatch_state A) :=
  found ← find_service path services 0;
  match found with
  | None => OK d
  | Some (i, s, path_len, partial) =>
    let d := Dispatch (<[i := i32 stream_id]> (dp_ids d)) (Some i) (dp_app d) in
    match svc_start_cb s with
    | None => OK d
    | Some cb =>
      let path_remainder :=
        if partial && (0 <? strlen (zdrop path_len path)) then Some (zdrop path_len path) else None in
      a ← cb (i32 stream_id) path_remainder (dp_app d);
      OK (Dispatch (dp_ids d) (dp_last_seen d) a)
    end
  end.

(** The ids are [int]s, compared with an [unsigned int]. *)
Definition find_by_id (stream_id : Z) (ids : list Z) : option nat :=
  fst <$> list_find (λ x, u32 x = stream_id) ids.

Definition pouch_downlink_data (stream_id : Z) (data : option (list byte)) (n : Z) (is_last : bool) d
    : outcome (dispatch_state A) :=
  let last_seen_id := i ← dp_last_seen d; dp_ids d !! i in
  let active_service :=
    if decide (u32 <$> last_seen_id = Some stream_id) then dp_last_seen d
    else find_by_id stream_id (dp_ids d) in
  match active_service with
  | None => OK d
  | Some i =>
    s ← of_ptr (services !! i);
    a ← svc_data_cb s (i32 stream_id) data n is_last (dp_app d);
    OK (if is_last
        then Dispatch (<[i := DOWNLINK_ID_INVALID]> (dp_ids d)) None a
        else Dispatch (dp_ids d) (dp_last_seen d) a)
  end.

(** The handler dispatch.c registers. *)
Definition dispatch_handler : pouch_downlink_handler (outcome (dispatch_state A)) :=
  Handler (λ stream_id path ct m, m ≫= pouch_downlink_start stream_id path ct)
          (λ stream_id data n last m, m ≫= pouch_downlink_data stream_id data n last).

(** The services' ids as the program starts. *)
Definition dispatch_boot (a : A) : dispatch_state A :=
  Dispatch (replicate (length services) DOWNLINK_ID_INVALID) None a.

(** * Routing *)

(** Service [s] is for [path]. *)
Definition serves (path : list byte) (s : golioth_downlink_service A) : Prop :=
  match service_pattern s with OK (n, _) => strncmp_eq (svc_path s) path n = true | Fault => False end.

#[export] Instance serves_dec path s : Decision (serves path s).
Proof. unfold serves. destruct (service_pattern s) as [[n b]|]; apply _. Defined.

(** The service a path is routed to: the first registered one. *)
Definition route (path : list byte) : option (nat * golioth_downlink_service A) :=
  list_find (serves path) services.

(** What is left of the path for the service. *)
Definition remainder (path : list byte) (s : golioth_downlink_service A) : option (list byte) :=
  match service_pattern s with
  | OK (n, partial) => if partial && (0 <? strlen (zdrop n path)) then Some (zdrop n path) else None
  | Fault => None
  end.

(** The service is told of the start and then given the pieces. *)
Definition serve (stream_id : Z) (path : list byte) (pieces : list (option (list byte) * Z))
    (last : option (list byte) * Z) (s : golioth_downlink_service A) (a : A) : outcome A :=
  a ← match svc_start_cb s with Some cb => cb stream_id (remainder path s) a | None => OK a end;
  a ← foldl (λ m p, m ≫= svc_data_cb s stream_id p.1 p.2 false) (OK a) pieces;
  svc_data_cb s stream_id last.1 last.2 true a.

Definition paths_ok : Prop := Forall (λ s, 1 ≤ strlen (svc_path s)) services.

Lemma service_pattern_ok s : 1 ≤ strlen (svc_path s) → ∃ n p, service_pattern s = OK (n, p).
Proof.
  intros L. unfold service_pattern. rewrite guard_true by (apply Z.leb_le; lia). by eexists _, _.
Qed.

Lemma find_service_spec path ss : ∀ i,
  Forall (λ s, 1 ≤ strlen (svc_path s)) ss →
  match list_find (serves path) ss with
  | None => find_service path ss i = OK None
  | Some (j, s) => ∃ n p, service_pattern s = OK (n, p)
      ∧ find_service path ss i = OK (Some ((i + j)%nat, s, n, p))
  end.
Proof.
  induction ss as [|s ss IH]; intros i F; [done|]. apply Forall_cons in F as [L F].
  destruct (service_pattern_ok s L) as (n & p & E). simpl list_find. cbn [find_service].
  rewrite E, bind_OK. destruct (decide (serves path s)) as [Sv|N]; unfold serves in *; rewrite E in *.
  - exists n, p. rewrite Sv. by rewrite Nat.add_0_r.
  - apply not_true_is_false in N. rewrite N. specialize (IH (S i) F).
    destruct (list_find _ ss) as [[j s']|]; simpl; [|done].
    destruct IH as (n' & p' & E' & ->). exists n', p'. split; [done|].
    by replace (S i + j)%nat with (i + S j)%nat by lia.
Qed.

(** * Delivering a stream *)

(** No service is waiting for data of [sid]. *)
Definition no_waiting (sid : Z) (ids : list Z) : Prop := Forall (λ x, u32 x ≠ sid) ids.

Lemma no_waiting_lookup sid ids i x : no_waiting sid ids → ids !! i = Some x → u32 x ≠ sid.
Proof. unfold no_waiting. rewrite Forall_lookup. intros F. apply F. Qed.

Lemma find_by_id_none sid ids : no_waiting sid ids → find_by_id sid ids = None.
Proof.
  intros F. unfold find_by_id. destruct (list_find _ ids) as [[i x]|] eqn:E; [|done].
  apply list_find_Some in E as (L & X & _). by destruct (no_waiting_lookup _ _ _ _ F L).
Qed.

Lemma find_by_id_insert sid ids i :
  no_waiting sid ids → 0 ≤ sid < 2147483648 → (i < length ids)%nat →
  find_by_id sid (<[i := sid]> ids) = Some i.
Proof.
  intros F R L. unfold find_by_id.
  assert (list_find (λ x, u32 x = sid) (<[i := sid]> ids) = Some (i, sid)) as ->; [|done].
  apply list_find_Some. split_and!.
  - by apply list_lookup_insert_eq.
  - apply u32_small. lia.
  - intros j y Lj Hj. rewrite list_lookup_insert_ne in Lj by lia. by apply (no_waiting_lookup _ _ _ _ F Lj).
Qed.

Lemma data_idle sid data n last d :
  no_waiting sid (dp_ids d) → pouch_downlink_data sid data n last d = OK d.
Proof.
  intros F. unfold pouch_downlink_data. rewrite find_by_id_none by done.
  destruct (decide _) as [E|]; [|done]. exfalso.
  destruct (dp_last_seen d) as [i|]; [|done]. simpl in E.
  destruct (dp_ids d !! i) as [x|] eqn:X; [|done]. apply (no_waiting_lookup _ _ _ _ F X). by injection E.
Qed.

Lemma data_active sid data n last ids ls a i s :
  no_waiting sid ids → 0 ≤ sid < 2147483648 → (i < length ids)%nat → services !! i = Some s →
  pouch_downlink_data sid data n last (Dispatch (<[i := sid]> ids) (Some ls) a) =
    (a ← svc_data_cb s sid data n last a;
     OK (if last then Dispatch (<[i := DOWNLINK_ID_INVALID]> ids) None a
         else Dispatch (<[i := sid]> ids) (Some ls) a)).
Proof.
  intros F R L S. unfold pouch_downlink_data. cbn [dp_ids dp_last_seen dp_app].
  rewrite find_by_id_insert by done. rewrite (i32_small sid) by lia.
  assert ((if decide (u32 <$> (i0 ← Some ls; <[i := sid]> ids !! i0) = Some sid) then Some ls else Some i)
    = Some i) as ->.
  { case_decide as E; [|done]. simpl in E. destruct (decide (ls = i)) as [->|N]; [done|].
    rewrite list_lookup_insert_ne in E by done. exfalso.
    destruct (ids !! ls) as [x|] eqn:X; [|done]. apply (no_waiting_lookup _ _ _ _ F X). by injection E. }
  rewrite S. cbn [of_ptr]. rewrite bind_OK. destruct (svc_data_cb s sid data n last a); [|done].
  simpl. destruct last; [|done]. by rewrite list_insert_insert_eq.
Qed.

Lemma pieces_active sid ids ls i s pieces : ∀ a,
  no_waiting sid ids → 0 ≤ sid < 2147483648 → (i < length ids)%nat → services !! i = Some s →
  foldl (λ m p, m ≫= pouch_downlink_data sid p.1 p.2 false)
      (OK (Dispatch (<[i := sid]> ids) (Some ls) a)) pieces =
    (a ← foldl (λ m p, m ≫= svc_data_cb s sid p.1 p.2 false) (OK a) pieces;
     OK (Dispatch (<[i := sid]> ids) (Some ls) a)).
Proof.
  assert (∀ (f : option (list byte) * Z → A → outcome A) ps,
    foldl (λ m p, m ≫= f p) Fault ps = Fault) as F1 by (intros f ps; by induction ps).
  assert (∀ (f : option (list byte) * Z → dispatch_state A → outcome (dispatch_state A)) ps,
    foldl (λ m p, m ≫= f p) Fault ps = Fault) as F2 by (intros f ps; by induction ps).
  induction pieces as [|p ps IH]; intros a F R L S; [done|]. cbn [foldl].
  rewrite !bind_OK. rewrite (data_active sid p.1 p.2 false ids ls a i s) by done.
  destruct (svc_data_cb s sid p.1 p.2 false a) as [a'|]; cbn [mbind outcome_bind].
  - by apply IH.
  - rewrite (F1 (λ p, svc_data_cb s sid p.1 p.2 false)).
    by rewrite (F2 (λ p, pouch_downlink_data sid p.1 p.2 false)).
Qed.

(** One stream or entry of the downlink. *)
Definition receive (sid : Z) (path : list byte) (ct : Z) (pieces : list (option (list byte) * Z))
    (last : option (list byte) * Z) d : outcome (dispatch_state A) :=
  d ← pouch_downlink_start sid path ct d;
  d ← foldl (λ m p, m ≫= pouch_downlink_data sid p.1 p.2 false) (OK d) pieces;
  pouch_downlink_data sid last.1 last.2 true d.

Lemma dispatch_run sid path ct pieces last d :
  paths_ok → length (dp_ids d) = length services → 0 ≤ sid < 2147483648 →
  no_waiting sid (dp_ids d) →
  receive sid path ct pieces last d =
    match route path with
    | None => OK d
    | Some (i, s) =>
      a ← serve sid path pieces last s (dp_app d);
      OK (Dispatch (<[i := DOWNLINK_ID_INVALID]> (dp_ids d)) None a)
    end.
Proof.
  intros P Le R F. unfold receive, route. pose proof (find_service_spec path services 0 P) as Fs.
  unfold pouch_downlink_start. destruct (list_find (serves path) services) as [[i s]|] eqn:Rt.
  - destruct Fs as (n & p & E & ->). rewrite bind_OK. simpl Nat.add. rewrite (i32_small sid) by lia.
    apply list_find_Some in Rt as (S & _ & _). pose proof (lookup_lt_Some _ _ _ S) as Li.
    assert (∀ a, (d ← OK (Dispatch (<[i := sid]> (dp_ids d)) (Some i) a);
       d ← foldl (λ m p, m ≫= pouch_downlink_data sid p.1 p.2 false) (OK d) pieces;
       pouch_downlink_data sid last.1 last.2 true d)
      = (a ← foldl (λ m p, m ≫= svc_data_cb s sid p.1 p.2 false) (OK a) pieces;
         a ← svc_data_cb s sid last.1 last.2 true a;
         OK (Dispatch (<[i := DOWNLINK_ID_INVALID]> (dp_ids d)) None a))) as G.
    { intros a. rewrite bind_OK, (pieces_active sid (dp_ids d) i i s) by (done || lia).
      destruct (foldl _ (OK a) pieces) as [a'|]; [|done]. cbn [mbind outcome_bind].
      rewrite (data_active sid _ _ true (dp_ids d) i a' i s) by (done || lia). done. }
    unfold serve, remainder. rewrite E. cbn [dp_ids dp_last_seen dp_app].
    destruct (svc_start_cb s) as [cb|].
    + destruct (cb sid _ (dp_app d)) as [a|]; [|done]. cbn [mbind outcome_bind] in G |- *. rewrite G.
      destruct (foldl _ (OK a) pieces) as [a'|]; [|done]. cbn [mbind outcome_bind].
      by destruct (svc_data_cb s sid last.1 last.2 true a').
    + rewrite bind_OK. specialize (G (dp_app d)). cbn [mbind outcome_bind] in G |- *. rewrite G.
      destruct (foldl _ (OK (dp_app d)) pieces) as [a'|]; [|done]. cbn [mbind outcome_bind].
      by destruct (svc_data_cb s sid last.1 last.2 true a').
  - rewrite Fs, bind_OK. cbn [mbind outcome_bind].
    assert (foldl (λ m p, m ≫= pouch_downlink_data sid p.1 p.2 false) (OK d) pieces = OK d) as ->.
    { induction pieces as [|p ps IH]; [done|]. cbn [foldl]. by rewrite bind_OK, data_idle. }
    by apply data_idle.
Qed.

(** A stream whose id no service is waiting for is delivered to the first service registered for its
    path, and to no other: the service is told of the start, with what follows the wildcard, and given
    exactly the pieces in order; afterwards it is free again. A path no service is registered for is
    dropped without effect. *)
Theorem dispatch_delivers sid path ct pieces last d :
  paths_ok → length (dp_ids d) = length services → 0 ≤ sid < 2147483648 →
  no_waiting sid (dp_ids d) →
  receive sid path ct pieces last d =
    match route path with
    | None => OK d
    | Some (i, s) =>
      a ← serve sid path pieces last s (dp_app d);
      OK (Dispatch (<[i := DOWNLINK_ID_INVALID]> (dp_ids d)) None a)
    end.
Proof. apply dispatch_run. Qed.

(** ** Entries *)

(** What the services make of an entry: the first one registered for its path is told of it and given
    its data. *)
Definition serve_entry (e : pouch_entry) (a : A) : outcome A :=
  match route (path e) with
  | None => OK a
  | Some (_, s) => serve 0 (path e) [] (Some (data e), data_len e) s a
  end.

Definition serve_entries (es : list pouch_entry) (m : outcome A) : outcome A :=
  foldl (λ m e, m ≫= serve_entry e) m es.

Definition app_of (m : outcome (dispatch_state A)) : outcome A := d ← m; OK (dp_app d).

(** No entry is being received. *)
Definition free d : Prop := length (dp_ids d) = length services ∧ no_waiting 0 (dp_ids d).

Definition all_free (m : outcome (dispatch_state A)) : Prop := ∀ d, m = OK d → free d.

Lemma boot_free a : free (dispatch_boot a).
Proof. split; [apply length_replicate|]. apply Forall_replicate. by compute. Qed.

Lemma entry_served e m :
  paths_ok → all_free m →
  app_of (deliver [dispatch_handler] m e) = (a ← app_of m; serve_entry e a)
  ∧ all_free (deliver [dispatch_handler] m e).
Proof.
  intros P F. destruct m as [d|]; [|done]. destruct (F d eq_refl) as [L W].
  assert (deliver [dispatch_handler] (OK d) e
    = receive 0 (path e) (content_type e) [] (Some (data e), data_len e) d) as ->.
  { unfold deliver, receive; cbn. by destruct (pouch_downlink_start 0 (path e) (content_type e) d). }
  rewrite dispatch_run by (done || lia). unfold app_of, serve_entry. rewrite bind_OK.
  destruct (route (path e)) as [[i s]|] eqn:R.
  2:{ split; [done|]. by intros ? [= <-]. }
  rewrite (bind_OK _ (dp_app d)).
  destruct (serve 0 (path e) [] _ s (dp_app d)) as [a|].
  2:{ split; [done|]. by intros ? [=]. }
  rewrite !bind_OK. split; [done|].
  intros d' [= <-]. split; [cbn; by rewrite length_insert|].
  apply Forall_insert; [done|by compute].
Qed.

(** Entries handed to the dispatcher go to the services one after the other, each to the first service
    for its path. *)
Lemma entries_served es : ∀ m,
  paths_ok → all_free m →
  app_of (foldl (deliver [dispatch_handler]) m es) = serve_entries es (app_of m).
Proof.
  induction es as [|e es IH]; intros m P F; [done|]. destruct (entry_served e m P F) as [E F'].
  simpl. rewrite IH by done. by rewrite E.
Qed.

End Dispatch.

(** * Uplinks *)

Section Sync.
Context {BO : ByteOrder} {SL : SList} {KW : KWork} {MQ : MsgQ} {CF : Config} {C : Type}.

(** The uplink services are callbacks on the system's state, or NULL; the entry mutex is waited for. *)
Fixpoint run_uplink_services (services : list (option (st (sys C) unit))) : st (sys C) unit :=
  match services with
  | [] => mret tt
  | s :: services =>
    (match s with Some uplink_cb => uplink_cb | None => mret tt end);; run_uplink_services services
  end.

Definition golioth_sync_to_cloud (services : list (option (st (sys C) unit))) : st (sys C) status :=
  run_uplink_services services;;
  pouch_uplink_close None;;
  mret SUCCESS.

(** What the services' callbacks write, one after the other. *)
Lemma services_write services ess :
  Forall2 (λ (s : option (st (sys C) unit)) es,
    match s with Some uplink_cb => writes uplink_cb es | None => es = [] end) services ess →
  writes (run_uplink_services services) (concat ess).
Proof.
  induction 1 as [|[m|] es services ess H F IH]; cbn [run_uplink_services concat].
  - apply writes_nil.
  - by apply writes_app.
  - subst es. apply (writes_app _ _ [] _ writes_nil IH).
Qed.

End Sync.

(** * A concrete dispatch *)

Module DispatchWitness.

(** What a service is told: the id and the rest of the path, or a piece. *)
Definition told : Type := nat * Z * option (option (list byte)) * option (list byte) * bool.

Definition service (i : nat) (path : list byte) : golioth_downlink_service (list told) :=
  Service path
    (Some (λ sid rest a, OK (a ++ [(i, sid, Some rest, None, false)])))
    (λ sid data n last a, OK (a ++ [(i, sid, None, data, last)])).

(** "/.c" and "/.u/c/*". *)
Definition services : list (golioth_downlink_service (list told)) :=
  [service 0 ["/"; "."; "c"]%byte; service 1 ["/"; "."; "u"; "/"; "c"; "/"; "*"]%byte].

Definition path : list byte := ["/"; "."; "u"; "/"; "c"; "/"; "a"; "@"; "1"]%byte.

Lemma dispatch_delivers_witness :
  receive services 7 path 0 [(Some ["x"%byte], 1)] (Some ["y"%byte], 1) (dispatch_boot services []) =
    OK (Dispatch [-1; -1] None
      [(1%nat, 7, Some (Some ["a"; "@"; "1"]%byte), None, false);
       (1%nat, 7, None, Some ["x"%byte], false);
       (1%nat, 7, None, Some ["y"%byte], true)]).
Proof.
  rewrite (dispatch_delivers services 7 path 0 [(Some ["x"%byte], 1)] (Some ["y"%byte], 1)
             (dispatch_boot services [])).
  - vm_compute. reflexivity.
  - unfold paths_ok. repeat constructor; vm_compute; discriminate.
  - reflexivity.
  - lia.
  - repeat constructor; vm_compute; discriminate.
Defined.

End DispatchWitness.
