(* ===== verification/Routing.v ===== *)
(** Which service gets what: the dispatcher over a whole downlink, streams and entries interleaved.

    The ids in the services' data and the cached service of dispatch.c implement a finite map from the
    streams that are open to services. The map depends on what arrives only, not on what the services
    do with it; so the calls they get can be told in advance. *)
From stdpp Require Import gmap.
From S2P Require Import Prelude Platform Buf Block Crypto State Entry Dispatch Sender.

(** * Specification *)

(** What the parser hands to the dispatcher: the start of a stream or entry, or a piece of one. *)
Inductive down :=
| DStart (id : Z) (path : list byte) (ct : Z)
| DData (id : Z) (data : option (list byte)) (n : Z) (last : bool).

(** What a service is called with: the start, with the rest of the path, or a piece. *)
Inductive call :=
| CStart (id : Z) (rest : option (list byte))
| CData (id : Z) (data : option (list byte)) (n : Z) (last : bool).

(** What is handed over for a piece of a pouch. *)
Definition entry_downs (e : pouch_entry) : list down :=
  [DStart 0 (path e) (content_type e); DData 0 (Some (data e)) (data_len e) true].
Definition downs_of (p : piece) : list down :=
  match p with
  | PieceEntries es => concat (map entry_downs es)
  | PieceStream _ id opening c last =>
    match opening with Some (ct, path) => [DStart id path ct] | None => [] end ++ [DData id (Some c) (len c) last]
  end.
Definition downs (ps : list piece) : list down := concat (map downs_of ps).

(** Stream ids are those of an [int]. *)
Definition id_ok (id : Z) : Prop := 0 ≤ id < 2147483648.
Definition down_id (x : down) : Z := match x with DStart id _ _ => id | DData id _ _ _ => id end.

Section Routing.
Context {A : Type} (services : list (golioth_downlink_service A)).
Implicit Types (R : gmap Z nat) (d : dispatch_state A).

(** The open streams and the services they go to. A service is in one stream at a time: a second one for
    it displaces the first, whose remaining pieces nobody gets. *)
Definition displace (i : nat) R : gmap Z nat := filter (λ p, p.2 ≠ i) R.

Definition route_down R (x : down) : gmap Z nat * list (nat * call) :=
  match x with
  | DStart id path _ =>
    match route services path with
    | None => (R, [])
    | Some (i, s) => (<[id := i]> (displace i R), [(i, CStart id (remainder path s))])
    end
  | DData id data n last =>
    match R !! id with
    | None => (R, [])
    | Some i => (if last then delete id R else R, [(i, CData id data n last)])
    end
  end.

(** The calls for the whole downlink, and the streams still open after it. *)
Fixpoint routes R (xs : list down) : gmap Z nat * list (nat * call) :=
  match xs with
  | [] => (R, [])
  | x :: xs => let '(R1, cs) := route_down R x in
               let '(R2, cs') := routes R1 xs in (R2, cs ++ cs')
  end.

(** No stream starts with the id of one that is open. *)
Definition startable R (x : down) : Prop :=
  id_ok (down_id x) ∧ match x with DStart id _ _ => R !! id = None | DData _ _ _ _ => True end.
Fixpoint in_turn R (xs : list down) : Prop :=
  match xs with
  | [] => True
  | x :: xs => startable R x ∧ in_turn (route_down R x).1 xs
  end.

(** Calling service number [c.1]. *)
Definition run_call (c : nat * call) (a : A) : outcome A :=
  s ← of_ptr (services !! c.1);
  match c.2 with
  | CStart id rest => match svc_start_cb s with Some cb => cb id rest a | None => OK a end
  | CData id data n last => svc_data_cb s id data n last a
  end.
Definition run_calls (cs : list (nat * call)) (m : outcome A) : outcome A :=
  foldl (λ m c, m ≫= run_call c) m cs.

Lemma run_calls_app cs cs' m : run_calls (cs ++ cs') m = run_calls cs' (run_calls cs m).
Proof. apply foldl_app. Qed.
Lemma run_calls_fault cs : run_calls cs Fault = Fault.
Proof. induction cs as [|c cs IH]; [done|]. exact IH. Qed.

(** * The dispatcher implements it *)

Definition dispatch (x : down) d : outcome (dispatch_state A) :=
  match x with
  | DStart id path ct => pouch_downlink_start services id path ct d
  | DData id data n last => pouch_downlink_data services id data n last d
  end.
Definition dispatch_all (xs : list down) (m : outcome (dispatch_state A)) : outcome (dispatch_state A) :=
  foldl (λ m x, m ≫= dispatch x) m xs.

Lemma dispatch_all_fault xs : dispatch_all xs Fault = Fault.
Proof. induction xs as [|x xs IH]; [done|]. exact IH. Qed.

(** The services' ids are the map, the other way round. *)
Record serving d R : Prop := {
  sv_length : length (dp_ids d) = length services;
  sv_ids i (x : Z) : dp_ids d !! i = Some x → x = DOWNLINK_ID_INVALID ∨ (id_ok x ∧ R !! x = Some i);
  sv_routes (x : Z) i : R !! x = Some i → id_ok x ∧ dp_ids d !! i = Some x;
}.

Lemma boot_serving a : serving (dispatch_boot services a) ∅.
Proof.
  split; [apply length_replicate| |by intros x i ?%lookup_empty_Some].
  intros i x [-> _]%lookup_replicate. by left.
Qed.

(** An id that matches is that of the stream. *)
Lemma serving_id d R i (x id : Z) :
  serving d R → id_ok id → dp_ids d !! i = Some x → u32 x = id → x = id ∧ R !! id = Some i.
Proof.
  intros S I L U. unfold id_ok in *. destruct (sv_ids d R S i x L) as [-> |[Ix Rx]].
  - exfalso. assert (u32 DOWNLINK_ID_INVALID = 4294967295) as E by done. lia.
  - rewrite u32_small in U by (unfold id_ok in Ix; lia). by subst.
Qed.

Lemma find_serving d R id : serving d R → id_ok id → find_by_id id (dp_ids d) = R !! id.
Proof.
  intros S I. unfold find_by_id. destruct (list_find _ (dp_ids d)) as [[i x]|] eqn:E.
  - apply list_find_Some in E as (L & U & _). by destruct (serving_id d R i x id S I L U) as [_ ->].
  - destruct (R !! id) as [i|] eqn:Ri; [|done]. destruct (sv_routes d R S id i Ri) as [_ L].
    pose proof (proj1 (list_find_None _ _) E) as F. rewrite Forall_lookup in F. exfalso.
    apply (F i id L), u32_small. unfold id_ok in I. lia.
Qed.

(** The cached service is only a shortcut. *)
Lemma active_serving d R id :
  serving d R → id_ok id →
  (if decide (u32 <$> (i ← dp_last_seen d; dp_ids d !! i) = Some id) then dp_last_seen d
   else find_by_id id (dp_ids d)) = R !! id.
Proof.
  intros S I. case_decide as E; [|by apply find_serving]. destruct (dp_last_seen d) as [i|]; [|done].
  simpl in E. destruct (dp_ids d !! i) as [x|] eqn:L; [|done]. injection E as U.
  by destruct (serving_id d R i x id S I L U) as [_ ->].
Qed.

Lemma serving_lt d R id i : serving d R → R !! id = Some i → (i < length services)%nat.
Proof. intros S Ri. rewrite <- (sv_length d R S). by eapply lookup_lt_Some, (sv_routes d R S). Qed.

(** The map after a start and after the end of a stream. *)
Lemma serving_start d R id i l a :
  serving d R → id_ok id → R !! id = None → (i < length services)%nat →
  serving (Dispatch (<[i := id]> (dp_ids d)) l a) (<[id := i]> (displace i R)).
Proof.
  intros [Le Ids Rts] I F Li. split; cbn [dp_ids]; [by rewrite length_insert| |].
  - intros j x L. destruct (decide (j = i)) as [->|N].
    + rewrite list_lookup_insert_eq in L by lia. injection L as <-. right. by rewrite lookup_insert_eq.
    + rewrite list_lookup_insert_ne in L by done. destruct (Ids j x L) as [?|[Ix Rx]]; [by left|right].
      split; [done|]. rewrite lookup_insert_ne by congruence. unfold displace. by apply map_lookup_filter_Some.
  - intros x j L. destruct (decide (x = id)) as [->|N].
    + rewrite lookup_insert_eq in L. injection L as <-. split; [done|]. apply list_lookup_insert_eq. lia.
    + rewrite lookup_insert_ne in L by done. apply map_lookup_filter_Some in L as [Rx N2]. simpl in N2.
      destruct (Rts x j Rx). by rewrite list_lookup_insert_ne.
Qed.

Lemma serving_end d R id i l a :
  serving d R → R !! id = Some i →
  serving (Dispatch (<[i := DOWNLINK_ID_INVALID]> (dp_ids d)) l a) (delete id R).
Proof.
  intros [Le Ids Rts] Ri. destruct (Rts id i Ri) as [I Li]. pose proof (lookup_lt_Some _ _ _ Li).
  split; cbn [dp_ids]; [by rewrite length_insert| |].
  - intros j x L. destruct (decide (j = i)) as [->|N].
    + rewrite list_lookup_insert_eq in L by lia. injection L as <-. by left.
    + rewrite list_lookup_insert_ne in L by done. destruct (Ids j x L) as [?|[Ix Rx]]; [by left|right].
      split; [done|]. rewrite lookup_delete_ne by congruence. done.
  - intros x j [N Rx]%lookup_delete_Some. destruct (Rts x j Rx) as [Ix Lx]. split; [done|].
    rewrite list_lookup_insert_ne; [done|]. intros ->. congruence.
Qed.

Lemma serving_app d R l a : serving d R → serving (Dispatch (dp_ids d) l a) R.
Proof. by intros [? ? ?]. Qed.

(** The dispatcher [m] has made the calls with the result [r]. *)
Definition dispatched (m : outcome (dispatch_state A)) (r : outcome A) R : Prop :=
  match m, r with
  | OK d, OK a => dp_app d = a ∧ serving d R
  | Fault, Fault => True
  | _, _ => False
  end.

Lemma dispatch_step d R x : paths_ok services → serving d R → startable R x →
  dispatched (dispatch x d) (run_calls (route_down R x).2 (OK (dp_app d))) (route_down R x).1.
Proof.
  intros P S [I F]. destruct x as [id path ct|id data n last]; cbn [dispatch route_down down_id] in *.
  - pose proof (find_service_spec path services 0 P) as Fs. unfold pouch_downlink_start, route.
    destruct (list_find (serves path) services) as [[i s]|] eqn:Rt; [|by rewrite Fs].
    destruct Fs as (n & p & E & ->). rewrite bind_OK. simpl Nat.add.
    rewrite (i32_small id) by (unfold id_ok in I; lia).
    apply list_find_Some in Rt as (Ls & _ & _). pose proof (lookup_lt_Some _ _ _ Ls) as Li.
    unfold run_calls; cbn [foldl fst snd]. rewrite bind_OK. unfold run_call, remainder; cbn [fst snd].
    rewrite Ls, E. cbn [of_ptr dp_app]. rewrite bind_OK. destruct (svc_start_cb s) as [cb|].
    + destruct (cb id _ (dp_app d)) as [a|]; [|done]. split; [done|]. by apply serving_start.
    + split; [done|]. by apply serving_start.
  - unfold pouch_downlink_data. rewrite (active_serving d R id S I).
    destruct (R !! id) as [i|] eqn:Ri; [|done].
    destruct (lookup_lt_is_Some_2 services i (serving_lt d R id i S Ri)) as [s Ls].
    rewrite (i32_small id) by (unfold id_ok in I; lia).
    unfold run_calls; cbn [foldl fst snd]. rewrite bind_OK. unfold run_call; cbn [fst snd].
    rewrite Ls. cbn [of_ptr]. rewrite !bind_OK.
    destruct (svc_data_cb s id data n last (dp_app d)) as [a|]; [|done]. destruct last; (split; [done|]).
    + by apply (serving_end d R id i).
    + by apply serving_app.
Qed.

Lemma routes_cons R x xs : routes R (x :: xs) =
  ((routes (route_down R x).1 xs).1, (route_down R x).2 ++ (routes (route_down R x).1 xs).2).
Proof. cbn [routes]. destruct (route_down R x) as [R1 cs]. cbn [fst snd]. by destruct (routes R1 xs). Qed.

Lemma dispatch_run_all xs : ∀ d R, paths_ok services → serving d R → in_turn R xs →
  dispatched (dispatch_all xs (OK d)) (run_calls (routes R xs).2 (OK (dp_app d))) (routes R xs).1.
Proof.
  induction xs as [|x xs IH]; intros d R P S T; [done|]. destruct T as [St T].
  pose proof (dispatch_step d R x P S St) as D. rewrite routes_cons. cbn [fst snd]. rewrite run_calls_app.
  unfold dispatch_all; cbn [foldl]. rewrite bind_OK. fold (dispatch_all xs (dispatch x d)).
  unfold dispatched in D. destruct (dispatch x d) as [d'|], (run_calls _ (OK _)) as [a|]; try done.
  - destruct D as [<- S']. by apply IH.
  - by rewrite dispatch_all_fault, run_calls_fault.
Qed.

(** C29: the dispatcher over a downlink in which streams and entries interleave: whatever the services
    do, they get exactly the calls of the specification, in order: a stream's pieces go to the first
    service registered for its path until it ends or another stream is started for that service; the
    pieces of other streams are dropped. Afterwards the dispatcher knows exactly the streams still
    open. (No stream starts with the id of an open one.) *)
Theorem dispatch_routes xs d R :
  paths_ok services → serving d R → in_turn R xs →
  dispatched (dispatch_all xs (OK d)) (run_calls (routes R xs).2 (OK (dp_app d))) (routes R xs).1.
Proof. apply dispatch_run_all. Qed.

(** ** Pieces of a pouch *)

Lemma deliver_downs p m :
  deliver_piece [dispatch_handler services] m p = dispatch_all (downs_of p) m.
Proof.
  destruct p as [es|k id [[ct path]|] c last]; [|done..]. revert m.
  induction es as [|e es IH]; intros m; [done|]. exact (IH _).
Qed.

Lemma deliver_all_downs ps : ∀ m,
  foldl (deliver_piece [dispatch_handler services]) m ps = dispatch_all (downs ps) m.
Proof.
  induction ps as [|p ps IH]; intros m; [done|]. unfold downs. cbn [foldl map concat].
  rewrite IH, deliver_downs. unfold dispatch_all. by rewrite foldl_app.
Qed.

(** ** A pouch with entries and one stream *)

(** The calls for an entry, and for a stream of service [i]. *)
Definition entry_calls (e : pouch_entry) : list (nat * call) :=
  match route services (path e) with
  | None => []
  | Some (i, s) => [(i, CStart 0 (remainder (path e) s)); (i, CData 0 (Some (data e)) (data_len e) true)]
  end.
Fixpoint data_calls (i : nat) (id : Z) (cs : list (list byte)) : list (nat * call) :=
  match cs with
  | [] => []
  | c :: cs => (i, CData id (Some c) (len c) (bool_decide (cs = []))) :: data_calls i id cs
  end.

Lemma routes_app R xs ys : routes R (xs ++ ys) =
  ((routes (routes R xs).1 ys).1, (routes R xs).2 ++ (routes (routes R xs).1 ys).2).
Proof.
  revert R. induction xs as [|x xs IH]; intros R; [apply surjective_pairing|].
  cbn [app]. rewrite !routes_cons, IH. cbn [fst snd]. by rewrite app_assoc.
Qed.

Lemma in_turn_app R xs ys : in_turn R (xs ++ ys) ↔ in_turn R xs ∧ in_turn (routes R xs).1 ys.
Proof.
  revert R. induction xs as [|x xs IH]; intros R; [by split; [|intros [_ ?]]|].
  cbn [app in_turn]. rewrite IH, routes_cons. cbn [fst]. tauto.
Qed.

(** An entry for a service that is in no stream leaves the streams alone. *)
Lemma route_entry R e :
  R !! 0 = None → (∀ i s (x : Z), route services (path e) = Some (i, s) → R !! x ≠ Some i) →
  in_turn R (entry_downs e) ∧ routes R (entry_downs e) = (R, entry_calls e).
Proof.
  intros Z0 N. unfold entry_downs, entry_calls. cbn [in_turn routes route_down startable down_id].
  destruct (route services (path e)) as [[i s]|] eqn:Rt; cbn [fst].
  2:{ rewrite Z0. by split. }
  rewrite lookup_insert_eq. assert (displace i R = R) as ->.
  { apply map_filter_id. intros x j Rx. simpl. intros ->. by apply (N i s x). }
  cbn. rewrite delete_insert_id by done. by split.
Qed.

Lemma route_entries R es :
  R !! 0 = None → Forall (λ e, ∀ i s (x : Z), route services (path e) = Some (i, s) → R !! x ≠ Some i) es →
  in_turn R (concat (map entry_downs es)) ∧
  routes R (concat (map entry_downs es)) = (R, concat (map entry_calls es)).
Proof.
  intros Z0. induction es as [|e es IH]; intros F; [done|]. apply Forall_cons in F as [Fe F].
  destruct (IH F) as [T E]. destruct (route_entry R e Z0 Fe) as [Te Ee]. cbn [map concat].
  rewrite in_turn_app, routes_app, Ee. cbn [fst snd]. by rewrite E.
Qed.

Lemma chunks_cons k id opening (c : list byte) cs :
  chunks k id opening true (c :: cs) = PieceStream k id opening c (bool_decide (cs = [])) :: chunks k id None true cs.
Proof. by destruct cs. Qed.

Section OneStream.
Context (k : nat) (id : Z) (ct : Z) (spath : list byte) (i : nat) (s : golioth_downlink_service A).
Context (Hid : 0 < id < 2147483648) (Hroute : route services spath = Some (i, s)).

(** The open streams before the parts [cs], and the calls for these. *)
Definition before_parts (opening : option (Z * list byte)) (cs : list (list byte)) : gmap Z nat :=
  match opening, cs with None, _ :: _ => {[id := i]} | _, _ => ∅ end.
Definition stream_calls (opening : option (Z * list byte)) (cs : list (list byte)) : list (nat * call) :=
  match opening, cs with Some _, _ :: _ => [(i, CStart id (remainder spath s))] | _, _ => [] end
  ++ data_calls i id cs.

Lemma part_routed opening (c : list byte) cs : opening = None ∨ opening = Some (ct, spath) →
  let xs := downs_of (PieceStream k id opening c (bool_decide (cs = []))) in
  ∃ now, in_turn (before_parts opening (c :: cs)) xs
    ∧ routes (before_parts opening (c :: cs)) xs = (before_parts None cs, now)
    ∧ Forall (λ x, x.1 = i) now ∧ stream_calls opening (c :: cs) = now ++ stream_calls None cs.
Proof.
  intros O xs. exists (match opening with Some _ => [(i, CStart id (remainder spath s))] | None => [] end
    ++ [(i, CData id (Some c) (len c) (bool_decide (cs = [])))]).
  assert (delete id ({[id := i]} : gmap Z nat) = ∅) as Dl by apply delete_singleton_eq.
  assert (id_ok id) as I by (unfold id_ok; lia).
  destruct O as [-> | ->]; unfold xs; cbn [downs_of app in_turn routes route_down startable down_id before_parts].
  - rewrite lookup_singleton_eq. split_and!; [done|done| |by repeat constructor|done].
    destruct cs; [by rewrite bool_decide_eq_true_2, Dl|by rewrite bool_decide_eq_false_2].
  - rewrite Hroute. cbn [fst]. assert (displace i ∅ = ∅) as -> by apply map_filter_empty.
    rewrite lookup_insert_eq. split_and!; [done|done|done| |by repeat constructor|done].
    destruct cs; [|by rewrite bool_decide_eq_false_2].
    rewrite bool_decide_eq_true_2 by done. f_equal. exact Dl.
Qed.

Lemma pieces_of_cons j p ps : pieces_of j (p :: ps) = (if of_stream j p then [p] else []) ++ pieces_of j ps.
Proof.
  unfold pieces_of. destruct (of_stream j p) eqn:E; [by rewrite filter_cons_True|].
  rewrite filter_cons_False; [done|by rewrite E].
Qed.

Lemma before_other opening cs (x : Z) j : j ≠ i → before_parts opening cs !! x ≠ Some j.
Proof.
  intros N. unfold before_parts. destruct opening, cs; try by rewrite lookup_empty.
  intros [_ ?]%lookup_singleton_Some. by subst.
Qed.

Lemma before_zero opening cs : before_parts opening cs !! 0 = None.
Proof. unfold before_parts. destruct opening, cs; try done. rewrite lookup_singleton_ne by lia. done. Qed.

Lemma filter_own (P : nat * call → Prop) `{∀ c, Decision (P c)} l : Forall P l → filter P l = l.
Proof. induction 1; [done|]. rewrite filter_cons_True by done. by f_equal. Qed.
Lemma filter_none (P : nat * call → Prop) `{∀ c, Decision (P c)} l : Forall (λ c, ¬ P c) l → filter P l = [].
Proof. induction 1; [done|]. by rewrite filter_cons_False. Qed.

(** No entry is for the stream's service. *)
Definition apart (es : list pouch_entry) : Prop :=
  Forall (λ e, ∀ j s', route services (path e) = Some (j, s') → j ≠ i) es.

Lemma apart_calls es : apart es → Forall (λ c, c.1 ≠ i) (concat (map entry_calls es)).
Proof.
  induction 1 as [|e es N F IH]; [constructor|]. cbn [map concat]. apply Forall_app. split; [|done].
  unfold entry_calls. destruct (route services (path e)) as [[j s']|]; [|constructor].
  specialize (N j s' eq_refl). by repeat constructor.
Qed.

(** The service of the stream gets the stream; the others get the entries. *)
Lemma one_stream ps : ∀ opening cs,
  opening = None ∨ opening = Some (ct, spath) →
  pieces_of k ps = chunks k id opening true cs → (∀ j, j ≠ k → pieces_of j ps = []) →
  apart (entries_of ps) →
  let R := before_parts opening cs in
  in_turn R (downs ps) ∧ (routes R (downs ps)).1 = ∅
  ∧ filter (λ c, c.1 = i) (routes R (downs ps)).2 = stream_calls opening cs
  ∧ filter (λ c, c.1 ≠ i) (routes R (downs ps)).2 = concat (map entry_calls (entries_of ps)).
Proof.
  induction ps as [|p ps IH]; intros opening cs O E N F R.
  { destruct cs as [|c cs]; [|by destruct cs]. unfold R. by destruct O as [-> | ->]. }
  change (downs (p :: ps)) with (downs_of p ++ downs ps). rewrite in_turn_app, routes_app. cbn [fst snd].
  unfold entries_of in F |- *. cbn [map concat] in F |- *. apply Forall_app in F as [Fp F].
  rewrite !filter_app. rewrite pieces_of_cons in E.
  assert (∀ j, j ≠ k → pieces_of j ps = []) as N'.
  { intros j Nj. specialize (N j Nj). rewrite pieces_of_cons in N. by apply app_eq_nil in N as [_ N]. }
  destruct p as [es|j jd op c last]; cbn [piece_entries app of_stream downs_of] in *.
  - destruct (route_entries R es) as [T Er].
    { apply before_zero. }
    { eapply Forall_impl; [exact Fp|]. intros e Ne j s' x Rt. by apply before_other, (Ne j s'). }
    rewrite Er. cbn [fst snd]. destruct (IH opening cs O E N' F) as (T2 & E2 & Fi & Fo).
    pose proof (apart_calls es Fp) as Ap. rewrite map_app, concat_app, (filter_none (λ c, c.1 = i)) by done.
    rewrite (filter_own (λ c, c.1 ≠ i) (concat _)) by done. split_and!; [done..|]. by f_equal.
  - destruct (decide (j = k)) as [->|Nj].
    2:{ specialize (N j Nj). rewrite pieces_of_cons in N. simpl in N. by rewrite bool_decide_eq_true_2 in N. }
    rewrite bool_decide_eq_true_2 in E by done. destruct cs as [|c' cs]; [done|]. rewrite chunks_cons in E.
    injection E as -> -> -> -> E. destruct (part_routed opening c' cs O) as (now & T & Er & Fn & Es).
    cbn [downs_of] in T, Er. fold R in T, Er. rewrite Er. cbn [fst snd].
    destruct (IH None cs (or_introl eq_refl) E N' F) as (T2 & E2 & Fi & Fo).
    rewrite Es, (filter_own (λ c, c.1 = i)), (filter_none (λ c, c.1 ≠ i) now).
    + split_and!; [done..|by f_equal|done].
    + eapply Forall_impl; [exact Fn|]. intros x Ex Nx. by apply Nx.
    + done.
Qed.
End OneStream.

End Routing.

(** * Services with variables of their own

    The services of two modules, each of which works on its own variables. *)
Section Sides.
Context {P Q : Type} (services : list (golioth_downlink_service P + golioth_downlink_service Q)).
Implicit Types (p : P) (q : Q) (cs : list (nat * call)).

(** A service on the variables of both. *)
Definition on_left (s : golioth_downlink_service P) : golioth_downlink_service (P * Q) :=
  Service (svc_path s) ((λ f id rest a, p ← f id rest a.1; OK (p, a.2)) <$> svc_start_cb s)
    (λ id d n last a, p ← svc_data_cb s id d n last a.1; OK (p, a.2)).
Definition on_right (s : golioth_downlink_service Q) : golioth_downlink_service (P * Q) :=
  Service (svc_path s) ((λ f id rest a, q ← f id rest a.2; OK (a.1, q)) <$> svc_start_cb s)
    (λ id d n last a, q ← svc_data_cb s id d n last a.2; OK (a.1, q)).
Definition both (s : golioth_downlink_service P + golioth_downlink_service Q) : golioth_downlink_service (P * Q) :=
  match s with inl s => on_left s | inr s => on_right s end.

(** A service that does nothing. *)
Definition inert {A} (path : list byte) : golioth_downlink_service A := Service path None (λ _ _ _ _ a, OK a).

(** What one module sees of the services. *)
Definition lefts : list (golioth_downlink_service P) :=
  map (λ s, match s with inl s => s | inr s => inert (svc_path s) end) services.
Definition rights : list (golioth_downlink_service Q) :=
  map (λ s, match s with inl s => inert (svc_path s) | inr s => s end) services.

Lemma run_call_sides (c : nat * call) p q :
  run_call (map both services) c (p, q) = (p ← run_call lefts c p; q ← run_call rights c q; OK (p, q)).
Proof.
  unfold run_call, lefts, rights. rewrite !list_lookup_fmap.
  destruct (services !! c.1) as [[s|s]|]; [| |done]; cbn [fmap option_fmap option_map of_ptr both];
    rewrite !bind_OK; destruct (c.2) as [id rest|id d n last]; cbn [svc_start_cb svc_data_cb on_left on_right inert fst snd];
    rewrite ?bind_OK; try done.
  - by destruct (svc_start_cb s).
  - by destruct (svc_start_cb s).
Qed.

Lemma run_sides cs : ∀ p q,
  run_calls (map both services) cs (OK (p, q)) =
    (p ← run_calls lefts cs (OK p); q ← run_calls rights cs (OK q); OK (p, q)).
Proof.
  induction cs as [|c cs IH]; intros p q; [done|]. unfold run_calls; cbn [foldl].
  rewrite !bind_OK, run_call_sides. fold (run_calls lefts cs (run_call lefts c p)).
  fold (run_calls rights cs (run_call rights c q)).
  destruct (run_call lefts c p) as [p'|], (run_call rights c q) as [q'|].
  - exact (IH p' q').
  - rewrite (run_calls_fault rights). destruct (run_calls lefts cs (OK p')); exact (run_calls_fault _ cs).
  - rewrite (run_calls_fault lefts). exact (run_calls_fault _ cs).
  - rewrite (run_calls_fault lefts). exact (run_calls_fault _ cs).
Qed.

End Sides.

(** Calls that do nothing can be left out. *)
Lemma run_calls_filter {A} (services : list (golioth_downlink_service A)) (f : nat * call → Prop)
    `{∀ c, Decision (f c)} cs m :
  (∀ c a, c ∈ cs → ¬ f c → run_call services c a = OK a) →
  run_calls services cs m = run_calls services (filter f cs) m.
Proof.
  revert m. induction cs as [|c cs IH]; intros m N; [done|].
  assert (∀ c a, c ∈ cs → ¬ f c → run_call services c a = OK a) as N' by (intros; apply N; [by right|done]).
  destruct (decide (f c)) as [F|F].
  - rewrite filter_cons_True by done. unfold run_calls; cbn [foldl]. by apply IH.
  - rewrite filter_cons_False by done. rewrite <- IH by done. unfold run_calls; cbn [foldl]. f_equal.
    destruct m as [a|]; [|done]. rewrite bind_OK. apply N; [by left|done].
Qed.

(** * Two streams for one service *)

Module RoutingWitness.
Import DispatchWitness.

(** A stream and an entry that interleave, each for a service of its own. *)
Definition ex_downs : list down :=
  [DStart 7 path 0; DData 7 (Some ["x"%byte]) 1 false;
   DStart 0 ["/"; "."; "c"]%byte 60; DData 0 (Some ["y"%byte]) 1 true; DData 7 (Some ["z"%byte]) 1 true].

Lemma dispatch_routes_witness :
  dispatched services (dispatch_all services ex_downs (OK (dispatch_boot services [])))
    (OK [(1%nat, 7, Some (Some ["a"; "@"; "1"]%byte), None, false);
         (1%nat, 7, None, Some ["x"%byte], false);
         (0%nat, 0, Some None, None, false);
         (0%nat, 0, None, Some ["y"%byte], true);
         (1%nat, 7, None, Some ["z"%byte], true)]) ∅.
Proof.
  refine (dispatch_routes services ex_downs (dispatch_boot services []) ∅ _ _ _).
  - unfold paths_ok. repeat constructor; vm_compute; discriminate.
  - apply boot_serving.
  - repeat split; vm_compute; done.
Defined.

(** Streams of two components at once: the pieces of the first one after the start of the second are
    dropped, and its end is never told. *)
Example stream_displaced :
  app_of (dispatch_all services [DStart 7 path 0; DStart 8 path 0; DData 7 (Some ["x"%byte]) 1 true;
                                 DData 8 (Some ["y"%byte]) 1 true] (OK (dispatch_boot services [])))
  = OK [(1%nat, 7, Some (Some ["a"; "@"; "1"]%byte), None, false);
        (1%nat, 8, Some (Some ["a"; "@"; "1"]%byte), None, false);
        (1%nat, 8, None, Some ["y"%byte], true)].
Proof. by vm_compute. Qed.

End RoutingWitness.
