(* ===== verification/Zcbor.v ===== *)
(** Decoding CBOR maps: src/lib/zcbor_utils/zcbor_utils.c and zcbor_utils.h.

    The zcbor library is not part of the repository. [Zcbor] has the functions and members the program
    uses, [ZcborReads] what they do on a well-formed item, [ZcborProgress] that they only move forward.
    [NativeZcbor] is a small decoder that has both. *)
From S2P Require Import Prelude Platform.

(** * CBOR data items *)

Inductive cbor (F : Type) : Type :=
| CInt (n : Z)
| CTstr (s : list byte)
| CList (l : list (cbor F))
| CMap (kvs : list (cbor F * cbor F))
| CNil
| CBool (b : bool)
| CFloat (f : F).
Arguments CInt {F}.
Arguments CTstr {F}.
Arguments CList {F}.
Arguments CMap {F}.
Arguments CNil {F}.
Arguments CBool {F}.
Arguments CFloat {F}.

(** A map is read as its keys and values in turn. *)
Definition flat {F} (kvs : list (cbor F * cbor F)) : list (cbor F) :=
  concat (map (λ kv, [kv.1; kv.2]) kvs).

Inductive zcbor_major_type :=
  ZCBOR_MAJOR_TYPE_PINT | ZCBOR_MAJOR_TYPE_NINT | ZCBOR_MAJOR_TYPE_BSTR | ZCBOR_MAJOR_TYPE_TSTR
| ZCBOR_MAJOR_TYPE_LIST | ZCBOR_MAJOR_TYPE_MAP | ZCBOR_MAJOR_TYPE_TAG | ZCBOR_MAJOR_TYPE_SIMPLE.

#[export] Instance zcbor_major_type_eq_dec : EqDecision zcbor_major_type.
Proof. solve_decision. Defined.

(** The upper three bits of an item's first byte. *)
Definition ZCBOR_MAJOR_TYPE (b : byte) : zcbor_major_type :=
  match Z.shiftr (Z_of_byte b) 5 with
  | 0 => ZCBOR_MAJOR_TYPE_PINT
  | 1 => ZCBOR_MAJOR_TYPE_NINT
  | 2 => ZCBOR_MAJOR_TYPE_BSTR
  | 3 => ZCBOR_MAJOR_TYPE_TSTR
  | 4 => ZCBOR_MAJOR_TYPE_LIST
  | 5 => ZCBOR_MAJOR_TYPE_MAP
  | 6 => ZCBOR_MAJOR_TYPE_TAG
  | _ => ZCBOR_MAJOR_TYPE_SIMPLE
  end.

Definition major {F} (x : cbor F) : zcbor_major_type :=
  match x with
  | CInt n => if 0 <=? n then ZCBOR_MAJOR_TYPE_PINT else ZCBOR_MAJOR_TYPE_NINT
  | CTstr _ => ZCBOR_MAJOR_TYPE_TSTR
  | CList _ => ZCBOR_MAJOR_TYPE_LIST
  | CMap _ => ZCBOR_MAJOR_TYPE_MAP
  | CNil | CBool _ | CFloat _ => ZCBOR_MAJOR_TYPE_SIMPLE
  end.

(** * The decoder *)

(** A struct zcbor_string: the pointer [value], and the [len] bytes it reaches. *)
Record zcbor_string := ZStr { str_value : Z; str_bytes : list byte }.

(** A decoder that fails leaves its destination alone. [zcbor_payload] is the byte [*state->payload], if
    it lies inside the data; [zcbor_left] is [payload_end - payload]. *)
Class Zcbor := {
  zcbor_state : Type;
  double : Type;
  zcbor_new_decode_state : nat → list byte → zcbor_state;
  zcbor_payload : zcbor_state → option byte;
  zcbor_indefinite_length_array : zcbor_state → bool;
  zcbor_elem_count : zcbor_state → Z;
  zcbor_left : zcbor_state → nat;
  zcbor_map_start_decode : zcbor_state → bool * zcbor_state;
  zcbor_map_end_decode : zcbor_state → bool * zcbor_state;
  zcbor_list_start_decode : zcbor_state → bool * zcbor_state;
  zcbor_list_map_end_force_decode : zcbor_state → bool * zcbor_state;
  zcbor_any_skip : zcbor_state → bool * zcbor_state;
  zcbor_nil_expect : zcbor_state → bool * zcbor_state;
  zcbor_uint32_decode : zcbor_state → option Z * zcbor_state;
  zcbor_int32_decode : zcbor_state → option Z * zcbor_state;
  zcbor_int64_decode : zcbor_state → option Z * zcbor_state;
  zcbor_tstr_decode : zcbor_state → option zcbor_string * zcbor_state;
  zcbor_bool_decode : zcbor_state → option bool * zcbor_state;
  zcbor_float_decode : zcbor_state → option double * zcbor_state;
}.

Abbreviation item := (cbor double).

(** [reads n s l up]: the decoder [s], with room for [n] open containers, stands before the items [l] of
    the innermost one; [up] are the items that follow in the enclosing ones. *)
Class ZcborReads (ZC : Zcbor) := {
  encodes : list byte → item → Prop;
  reads : nat → zcbor_state → list item → list (list item) → Prop;
  new_reads n d x : encodes d x → reads n (zcbor_new_decode_state n d) [x] [];
  payload_reads n s x l up : reads n s (x :: l) up →
    ∃ b, zcbor_payload s = Some b ∧ ZCBOR_MAJOR_TYPE b = major x ∧ b ≠ xff;
  definite_end n s l up : reads n s l up → zcbor_indefinite_length_array s = false →
    (zcbor_elem_count s = 0 ↔ l = []);
  indefinite_end n s up : reads n s [] up → zcbor_indefinite_length_array s = true →
    zcbor_payload s = Some xff;
  map_start_reads n s kvs l up : reads n s (CMap kvs :: l) up → (length up < n)%nat →
    ∃ s', zcbor_map_start_decode s = (true, s') ∧ reads n s' (flat kvs) (l :: up);
  list_start_reads n s xs l up : reads n s (CList xs :: l) up → (length up < n)%nat →
    ∃ s', zcbor_list_start_decode s = (true, s') ∧ reads n s' xs (l :: up);
  map_end_reads n s l up : reads n s [] (l :: up) →
    ∃ s', zcbor_map_end_decode s = (true, s') ∧ reads n s' l up;
  force_end_reads n s l up : reads n s [] (l :: up) →
    ∃ s', zcbor_list_map_end_force_decode s = (true, s') ∧ reads n s' l up;
  any_skip_reads n s x l up : reads n s (x :: l) up →
    ∃ s', zcbor_any_skip s = (true, s') ∧ reads n s' l up;
  nil_reads n s x l up : reads n s (x :: l) up →
    match x with
    | CNil => ∃ s', zcbor_nil_expect s = (true, s') ∧ reads n s' l up
    | _ => ∃ s', zcbor_nil_expect s = (false, s') ∧ reads n s' (x :: l) up
    end;
  uint32_reads n s v l up : reads n s (CInt v :: l) up → 0 ≤ v < 4294967296 →
    ∃ s', zcbor_uint32_decode s = (Some v, s') ∧ reads n s' l up;
  int32_reads n s v l up : reads n s (CInt v :: l) up →
    ∃ s', if decide (-2147483648 ≤ v < 2147483648)
          then zcbor_int32_decode s = (Some v, s') ∧ reads n s' l up
          else zcbor_int32_decode s = (None, s') ∧ reads n s' (CInt v :: l) up;
  int64_reads n s v l up : reads n s (CInt v :: l) up →
    -9223372036854775808 ≤ v < 9223372036854775808 →
    ∃ s', zcbor_int64_decode s = (Some v, s') ∧ reads n s' l up;
  tstr_reads n s b l up : reads n s (CTstr b :: l) up →
    ∃ a s', zcbor_tstr_decode s = (Some (ZStr a b), s') ∧ reads n s' l up;
  bool_reads n s x l up : reads n s (x :: l) up →
    match x with
    | CBool b => ∃ s', zcbor_bool_decode s = (Some b, s') ∧ reads n s' l up
    | _ => ∃ s', zcbor_bool_decode s = (None, s') ∧ reads n s' (x :: l) up
    end;
  float_reads n s x l up : reads n s (x :: l) up →
    match x with
    | CFloat f => ∃ s', zcbor_float_decode s = (Some f, s') ∧ reads n s' l up
    | _ => ∃ s', zcbor_float_decode s = (None, s') ∧ reads n s' (x :: l) up
    end;
}.

(** Whatever the data: decoding never goes back, and what is decoded takes at least a byte. *)
Class ZcborProgress (ZC : Zcbor) := {
  left_new n d : (zcbor_left (zcbor_new_decode_state n d) ≤ length d)%nat;
  left_map_start s : (zcbor_left (zcbor_map_start_decode s).2
    + (if (zcbor_map_start_decode s).1 then 1 else 0) ≤ zcbor_left s)%nat;
  left_list_start s : (zcbor_left (zcbor_list_start_decode s).2 ≤ zcbor_left s)%nat;
  left_map_end s : (zcbor_left (zcbor_map_end_decode s).2 ≤ zcbor_left s)%nat;
  left_force_end s : (zcbor_left (zcbor_list_map_end_force_decode s).2 ≤ zcbor_left s)%nat;
  left_any_skip s : (zcbor_left (zcbor_any_skip s).2 ≤ zcbor_left s)%nat;
  left_nil s : (zcbor_left (zcbor_nil_expect s).2 ≤ zcbor_left s)%nat;
  left_uint32 s : (zcbor_left (zcbor_uint32_decode s).2
    + (if (zcbor_uint32_decode s).1 is Some _ then 1 else 0) ≤ zcbor_left s)%nat;
  left_int32 s : (zcbor_left (zcbor_int32_decode s).2 ≤ zcbor_left s)%nat;
  left_int64 s : (zcbor_left (zcbor_int64_decode s).2 ≤ zcbor_left s)%nat;
  left_tstr s : (zcbor_left (zcbor_tstr_decode s).2
    + (if (zcbor_tstr_decode s).1 is Some _ then 1 else 0) ≤ zcbor_left s)%nat;
  left_bool s : (zcbor_left (zcbor_bool_decode s).2 ≤ zcbor_left s)%nat;
  left_float s : (zcbor_left (zcbor_float_decode s).2 ≤ zcbor_left s)%nat;
}.

(** * zcbor_utils *)

Inductive zcbor_map_key_type := ZCBOR_MAP_KEY_TYPE_U32 | ZCBOR_MAP_KEY_TYPE_TSTR.

(** The union of [u32] and [tstr] on the 32-bit target: [key_word] is [u32] and the pointer
    [tstr.value], [key_points] the bytes it reaches when it is a pointer; [key_len] is [tstr.len], once
    written. *)
Record zcbor_map_key := MapKey {
  key_type : zcbor_map_key_type;
  key_word : Z;
  key_points : option (list byte);
  key_len : option Z;
}.

Section Utils.
Context {ZC : Zcbor} {V : Type}.

(** [decode] with its [value]: the memory it stores to is in [V]. *)
Record zcbor_map_entry := MapEntry {
  entry_key : zcbor_map_key;
  decode : st (zcbor_state * V) status;
}.

(** A call of the library. *)
Definition zcbor {A} (f : zcbor_state → A * zcbor_state) : st (zcbor_state * V) A :=
  λ s, OK ((f s.1).1, ((f s.1).2, s.2)).

(** The byte at [*zsd->payload]. *)
Definition payload : st (zcbor_state * V) byte := λ s,
  match zcbor_payload s.1 with Some b => OK (b, s) | None => Fault end.

Definition zcbor_list_or_map_end : st (zcbor_state * V) bool :=
  indefinite ← gets (λ s, zcbor_indefinite_length_array s.1);
  if indefinite : bool then b ← payload; mret (bool_decide (b = xff))
  else gets (λ s, zcbor_elem_count s.1 =? 0).

Definition ZCBOR_U32_MAP_ENTRY (u32 : Z) (decode : st (zcbor_state * V) status) : zcbor_map_entry :=
  MapEntry (MapKey ZCBOR_MAP_KEY_TYPE_U32 u32 None None) decode.

(** The literal's address is not NULL. *)
Definition ZCBOR_TSTR_LIT_MAP_ENTRY (tstr_lit : list byte) (decode : st (zcbor_state * V) status)
    : zcbor_map_entry :=
  MapEntry (MapKey ZCBOR_MAP_KEY_TYPE_TSTR 1 (Some tstr_lit) (Some (len tstr_lit))) decode.

(** The comparison with one entry. [tstr] of a key that was decoded as an integer is read as it is. *)
Definition key_eq (e key : zcbor_map_key) : outcome bool :=
  match key_type e with
  | ZCBOR_MAP_KEY_TYPE_U32 => OK (key_word e =? key_word key)
  | ZCBOR_MAP_KEY_TYPE_TSTR =>
    klen ← of_ptr (key_len key);
    elen ← of_ptr (key_len e);
    if klen =? elen then
      kvalue ← of_ptr (key_points key);
      evalue ← of_ptr (key_points e);
      OK (bool_decide (ztake elen evalue = ztake elen kvalue))
    else OK false
  end.

Fixpoint map_entry_get (entries : list zcbor_map_entry) (key : zcbor_map_key)
    : outcome (option zcbor_map_entry) :=
  match entries with
  | [] => OK None
  | entry :: entries =>
    eq ← key_eq (entry_key entry) key;
    if eq : bool then OK (Some entry) else map_entry_get entries key
  end.

Definition zcbor_map_int64_decode (value : Z → V → V) : st (zcbor_state * V) status :=
  ok ← zcbor zcbor_int64_decode;
  match ok with
  | None => mret (NEG EBADMSG)
  | Some v => modify (λ s, (s.1, value v s.2));; mret SUCCESS
  end.

Definition zcbor_map_int32_decode (value : Z → V → V) : st (zcbor_state * V) status :=
  ok ← zcbor zcbor_int32_decode;
  match ok with
  | None => mret (NEG EBADMSG)
  | Some v => modify (λ s, (s.1, value v s.2));; mret SUCCESS
  end.

Definition zcbor_map_tstr_decode (value : zcbor_string → V → V) : st (zcbor_state * V) status :=
  ok ← zcbor zcbor_tstr_decode;
  match ok with
  | None => mret (NEG EBADMSG)
  | Some v => modify (λ s, (s.1, value v s.2));; mret SUCCESS
  end.

Definition zcbor_map_key_decode (key : zcbor_map_key) : st (zcbor_state * V) (status * zcbor_map_key) :=
  b ← payload;
  match ZCBOR_MAJOR_TYPE b with
  | ZCBOR_MAJOR_TYPE_TSTR =>
    ok ← zcbor zcbor_tstr_decode;
    mret match ok with
    | None => (NEG EBADMSG, key)
    | Some str => (SUCCESS, MapKey ZCBOR_MAP_KEY_TYPE_TSTR (str_value str) (Some (str_bytes str))
                              (Some (len (str_bytes str))))
    end
  | ZCBOR_MAJOR_TYPE_PINT =>
    ok ← zcbor zcbor_uint32_decode;
    mret match ok with
    | None => (NEG EBADMSG, key)
    | Some u32 => (SUCCESS, MapKey ZCBOR_MAP_KEY_TYPE_U32 u32 None (key_len key))
    end
  | _ => mret (NEG EBADMSG, key)
  end.

(** A pass of the loop of [zcbor_map_decode]. The loop ends with an error to return, or with the number
    of entries decoded. *)
Definition map_decode_pass (entries : list zcbor_map_entry) (l : zcbor_map_key * nat)
    : st (zcbor_state * V) (zcbor_map_key * nat + (errno + nat)) :=
  let '(key, num_decoded) := l in
  if negb (num_decoded <? length entries)%nat then mret (inr (inr num_decoded)) else
  done ← zcbor_list_or_map_end;
  if done : bool then mret (inr (inr num_decoded)) else
  '(err, key) ← zcbor_map_key_decode key;
  match err with
  | Some e => mret (inr (inl e))
  | None =>
    entry ← lift (map_entry_get entries key);
    match entry with
    | Some entry =>
      err ← decode entry;
      mret match err with Some e => inr (inl e) | None => inl (key, S num_decoded) end
    | None =>
      ok ← zcbor zcbor_any_skip;
      mret (if ok : bool then inl (key, num_decoded) else inr (inl EBADMSG))
    end
  end.

(** [key] before it is first decoded. *)
Definition key_uninit : zcbor_map_key := MapKey ZCBOR_MAP_KEY_TYPE_U32 0 None None.

(** Every pass decodes at least a byte. *)
Definition zcbor_map_decode (entries : list zcbor_map_entry) : st (zcbor_state * V) status :=
  ok ← zcbor zcbor_map_start_decode;
  if negb (ok : bool) then mret (NEG EBADMSG) else
  left ← gets (λ s, zcbor_left s.1);
  r ← loop (S left) (map_decode_pass entries) (key_uninit, 0%nat);
  match r with
  | inl e => mret (NEG e)
  | inr num_decoded =>
    if (0 <? num_decoded)%nat && (num_decoded <? length entries)%nat then mret (NEG EBADMSG) else
    let err := if (num_decoded =? 0)%nat then NEG ENOENT else SUCCESS in
    ok ← zcbor zcbor_list_map_end_force_decode;
    mret (if ok : bool then err else NEG EBADMSG)
  end.

End Utils.
Arguments zcbor_map_entry {ZC} V.

(** * Moving forward *)

Section Progress.
Context {ZC : Zcbor} {ZP : ZcborProgress ZC} {V : Type}.
Implicit Types (s : zcbor_state * V).

(** [m] never goes back; and takes a byte when its result is one of [P]. *)
Definition moves {A} (m : st (zcbor_state * V) A) : Prop :=
  ∀ s a s', m s = OK (a, s') → (zcbor_left s'.1 ≤ zcbor_left s.1)%nat.

Definition takes {A} (P : A → Prop) (m : st (zcbor_state * V) A) : Prop :=
  ∀ s a s', m s = OK (a, s') → P a → (zcbor_left s'.1 < zcbor_left s.1)%nat.

Lemma moves_ret {A} (a : A) : moves (mret a).
Proof. intros s a' s' H. unfold mret, st_ret in H. by simplify_eq. Qed.

Lemma moves_lift {A} (m : outcome A) : moves (lift m).
Proof. intros s a' s' H. unfold lift in H. destruct m; by simplify_eq. Qed.

Lemma moves_gets {A} (f : zcbor_state * V → A) : moves (gets f).
Proof. intros s a' s' H. unfold gets in H. by simplify_eq. Qed.

Lemma moves_memory (f : zcbor_state * V → V) : moves (modify (λ s, (s.1, f s))).
Proof. intros s a' s' H. unfold modify in H. by simplify_eq. Qed.

Lemma moves_payload : moves payload.
Proof. intros s a' s' H. unfold payload in H. destruct (zcbor_payload s.1); by simplify_eq. Qed.

Lemma moves_zcbor {A} (f : zcbor_state → A * zcbor_state) :
  (∀ z, (zcbor_left (f z).2 ≤ zcbor_left z)%nat) → moves (zcbor f).
Proof. intros L s a' s' H. unfold zcbor in H. simplify_eq. apply L. Qed.

Lemma takes_zcbor {A} (P : A → Prop) (f : zcbor_state → A * zcbor_state) :
  (∀ z, P (f z).1 → (zcbor_left (f z).2 < zcbor_left z)%nat) → takes P (zcbor f).
Proof. intros L s a s' H HP. unfold zcbor in H. simplify_eq. by apply L. Qed.

Lemma moves_bind {A B} (m : st (zcbor_state * V) A) (f : A → st (zcbor_state * V) B) :
  moves m → (∀ a, moves (f a)) → moves (m ≫= f).
Proof.
  intros M F s b s' (a & s1 & E1 & E2)%st_bind_OK_inv. apply M in E1. apply F in E2. lia.
Qed.

Lemma takes_bind {A B} P Q (m : st (zcbor_state * V) A) (f : A → st (zcbor_state * V) B) :
  takes P m → moves m → (∀ a, moves (f a)) → (∀ a, ¬ P a → takes Q (f a)) → takes Q (m ≫= f).
Proof.
  intros T M F N s b s' (a & s1 & E1 & E2)%st_bind_OK_inv HQ. apply M in E1 as L1. apply F in E2 as L2.
  destruct (decide (zcbor_left s1.1 < zcbor_left s.1)%nat); [lia|].
  enough (zcbor_left s'.1 < zcbor_left s1.1)%nat by lia.
  apply (N a) with (2 := E2); [|done]. intros HP. by apply (T _ _ _ E1) in HP.
Qed.

Lemma takes_after {A B} Q (m : st (zcbor_state * V) A) (f : A → st (zcbor_state * V) B) :
  moves m → (∀ a, takes Q (f a)) → takes Q (m ≫= f).
Proof.
  intros M N s b s' (a & s1 & E1 & E2)%st_bind_OK_inv HQ. apply M in E1. pose proof (N a _ _ _ E2 HQ). lia.
Qed.

Lemma takes_never {A} P (m : st (zcbor_state * V) A) : (∀ s a s', m s = OK (a, s') → ¬ P a) → takes P m.
Proof. intros N s a s' E HP. by destruct (N _ _ _ E). Qed.

Lemma takes_ret {A} (P : A → Prop) a : ¬ P a → takes P (mret a).
Proof. intros N s a' s' H. unfold mret, st_ret in H. by simplify_eq. Qed.

Lemma moves_loop {L R} fuel (body : L → st (zcbor_state * V) (L + R)) :
  (∀ l, moves (body l)) → ∀ l, moves (loop fuel body l).
Proof.
  intros B. induction fuel as [|fuel IH]; intros l; [by intros s a s'|]. simpl loop.
  apply moves_bind; [apply B|]. intros [l'|r]; [apply IH|apply moves_ret].
Qed.

Lemma moves_list_or_map_end : moves zcbor_list_or_map_end.
Proof.
  unfold zcbor_list_or_map_end. apply moves_bind; [apply moves_gets|]. intros [].
  - apply moves_bind; [apply moves_payload|]. intros b. apply moves_ret.
  - apply moves_gets.
Qed.

End Progress.

Create HintDb moves.
#[export] Hint Resolve moves_ret moves_lift moves_gets moves_memory moves_payload moves_zcbor
  moves_list_or_map_end left_list_start left_map_end left_force_end left_any_skip left_nil left_int32
  left_int64 left_bool left_float : moves.
#[export] Hint Extern 5 (_ ≤ _)%nat =>
  match goal with
  | |- context [zcbor_map_start_decode ?z] => pose proof (left_map_start z); lia
  | |- context [zcbor_uint32_decode ?z] => pose proof (left_uint32 z); lia
  | |- context [zcbor_tstr_decode ?z] => pose proof (left_tstr z); lia
  end : moves.

(** Follows the code: every call, whatever its result. *)
Ltac moves :=
  repeat first
    [ progress (intros; cbv zeta)
    | solve [eauto 3 with moves]
    | apply moves_bind
    | match goal with |- moves (match ?x with _ => _ end) => destruct x end ];
  eauto with moves.

Section Termination.
Context {ZC : Zcbor} {ZP : ZcborProgress ZC} {V : Type}.
Implicit Types (s : zcbor_state * V).

Lemma moves_int64_decode value : moves (zcbor_map_int64_decode (V := V) value).
Proof. unfold zcbor_map_int64_decode. moves. Qed.
Lemma moves_int32_decode value : moves (zcbor_map_int32_decode (V := V) value).
Proof. unfold zcbor_map_int32_decode. moves. Qed.
Lemma moves_tstr_decode value : moves (zcbor_map_tstr_decode (V := V) value).
Proof. unfold zcbor_map_tstr_decode. moves. Qed.

Lemma moves_key_decode key : moves (zcbor_map_key_decode (V := V) key).
Proof. unfold zcbor_map_key_decode. moves. Qed.

Lemma takes_key_decode key : takes (λ r, r.1 = SUCCESS) (zcbor_map_key_decode (V := V) key).
Proof.
  unfold zcbor_map_key_decode. apply takes_after; [moves|]. intros b.
  destruct (ZCBOR_MAJOR_TYPE b); try (by apply takes_ret).
  - apply takes_bind with (λ r, is_Some r); [|moves..|].
    + apply takes_zcbor. intros z [v H]. pose proof (left_uint32 z) as L. rewrite H in L. lia.
    + intros [v|] N; [by destruct N|]. by apply takes_ret.
  - apply takes_bind with (λ r, is_Some r); [|moves..|].
    + apply takes_zcbor. intros z [v H]. pose proof (left_tstr z) as L. rewrite H in L. lia.
    + intros [v|] N; [by destruct N|]. by apply takes_ret.
Qed.

Context (entries : list (zcbor_map_entry V)) (E : Forall (λ e, moves (decode e)) entries).

Lemma map_entry_get_in key e : map_entry_get entries key = OK (Some e) → moves (decode e).
Proof.
  clear - E. induction entries as [|x es IH]; [done|]. apply Forall_cons in E as [X F]. simpl.
  destruct (key_eq _ _) as [[]|]; [|by apply IH|done]. cbn [mbind outcome_bind]. intros H. by simplify_eq.
Qed.

Lemma moves_pass l : moves (map_decode_pass entries l).
Proof.
  destruct l as [key n]. unfold map_decode_pass. destruct (negb _); [moves|].
  apply moves_bind; [moves|]. intros []; [moves|].
  apply moves_bind; [apply moves_key_decode|]. intros [[e|] key']; [moves|].
  intros s a s' (x & s1 & E1 & E2)%st_bind_OK_inv. unfold lift in E1.
  destruct (map_entry_get entries key') as [x'|] eqn:G; [|done]. simplify_eq. destruct x as [entry|].
  - revert E2. apply (moves_bind (decode entry)); [by eapply map_entry_get_in|]. moves.
  - revert E2. apply moves_bind; moves.
Qed.

Lemma takes_pass l : takes (λ r, ∃ l', r = inl l') (map_decode_pass entries l).
Proof.
  destruct l as [key n]. unfold map_decode_pass. destruct (negb _); [by apply takes_ret; intros []|].
  apply takes_after; [moves|]. intros []; [by apply takes_ret; intros []|].
  apply takes_bind with (λ r, r.1 = SUCCESS); [apply takes_key_decode|apply moves_key_decode|..].
  - intros [[e|] key']; [moves|].
    intros s a s' (x & s1 & E1 & E2)%st_bind_OK_inv. unfold lift in E1.
    destruct (map_entry_get entries key') as [x'|] eqn:G; [|done]. simplify_eq. destruct x as [entry|].
    + revert E2. apply (moves_bind (decode entry)); [by eapply map_entry_get_in|]. moves.
    + revert E2. apply moves_bind; moves.
  - intros [[e|] key'] N; [|by destruct N]. by apply takes_ret; intros [].
Qed.

Lemma pass_decreases l s l' s' :
  map_decode_pass entries l s = OK (inl l', s') → (zcbor_left s'.1 < zcbor_left s.1)%nat.
Proof. intros H. apply (takes_pass l _ _ _ H). by exists l'. Qed.

Lemma moves_map_decode : moves (zcbor_map_decode entries).
Proof.
  unfold zcbor_map_decode. apply moves_bind; [moves|]. intros []; cbn [negb]; [|moves].
  apply moves_bind; [moves|]. intros left.
  apply moves_bind; [apply moves_loop, moves_pass|]. moves.
Qed.

Lemma takes_map_decode : takes (λ r, r ≠ NEG EBADMSG) (zcbor_map_decode entries).
Proof.
  unfold zcbor_map_decode. apply takes_bind with (λ r, r = true); [|moves| |].
  - apply takes_zcbor. intros z H. pose proof (left_map_start z) as L. rewrite H in L. lia.
  - intros []; cbn [negb]; [|moves]. apply moves_bind; [moves|]. intros left.
    apply moves_bind; [apply moves_loop, moves_pass|]. moves.
  - intros [] N; [done|]. apply takes_ret. by intros [].
Qed.

(** C36: decoding a map ends whatever bytes the decoder is given: each pass of the loop decodes a key or is
    the last, so that the loop ends, by reaching its result or by a pass that faults, and
    [zcbor_map_decode] goes on with that outcome. *)
Theorem map_decode_terminates s :
  match zcbor_map_start_decode s.1 with
  | (false, z) => zcbor_map_decode entries s = OK (NEG EBADMSG, (z, s.2))
  | (true, z) =>
    ∃ r, loops (st_body (map_decode_pass entries)) ((key_uninit, 0%nat), (z, s.2)) r
      ∧ (r = Fault → zcbor_map_decode entries s = Fault)
      ∧ (∀ e s', r = OK (inl e, s') → zcbor_map_decode entries s = OK (NEG e, s'))
      ∧ (∀ n s', r = OK (inr n, s') → is_OK (zcbor_map_decode entries s))
  end.
Proof.
  unfold zcbor_map_decode. destruct (zcbor_map_start_decode s.1) as [[] z] eqn:St.
  2: { unfold zcbor. run_st. by rewrite St. }
  rewrite (st_bind_OK _ (zcbor _) s true (z, s.2)) by (unfold zcbor; by rewrite St). cbn [negb].
  rewrite (st_bind_OK _ (gets _) _ (zcbor_left z) (z, s.2)) by done.
  exists (loop (S (zcbor_left z)) (map_decode_pass entries) (key_uninit, 0%nat) (z, s.2)). split.
  - apply (loop_loops _ (λ _ s, zcbor_left s.1)); [|simpl; lia]. apply pass_decreases.
  - set (m := loop _ _ _). split_and!.
    + intros Em. unfold mbind, st_bind. by rewrite Em.
    + intros e s' Em. by rewrite (st_bind_OK _ m _ _ _ Em).
    + intros n s' Em. rewrite (st_bind_OK _ m _ _ _ Em). destruct (_ && _); [by eexists|].
      unfold zcbor. run_st. by eexists.
Qed.

End Termination.

(** * Reading a map *)

Section Reading.
Context {ZC : Zcbor} {ZR : ZcborReads ZC} {ZP : ZcborProgress ZC} {V : Type}.
Implicit Types (z : zcbor_state) (v : V).

Lemma zcbor_run {A} (f : zcbor_state → A * zcbor_state) z v a z' :
  f z = (a, z') → zcbor f (z, v) = OK (a, (z', v)).
Proof. intros E. unfold zcbor; simpl. by rewrite E. Qed.

Lemma payload_run n z x l up v : reads n z (x :: l) up →
  ∃ b, payload (z, v) = OK (b, (z, v)) ∧ ZCBOR_MAJOR_TYPE b = major x ∧ b ≠ xff.
Proof.
  intros (b & E & M & N)%payload_reads. exists b. split_and!; [|done..]. unfold payload; simpl. by rewrite E.
Qed.

(** The end of a container is told, definite or not. *)
Lemma list_or_map_end_reads n z l up v :
  reads n z l up → zcbor_list_or_map_end (z, v) = OK (bool_decide (l = []), (z, v)).
Proof.
  intros R. unfold zcbor_list_or_map_end.
  rewrite (st_bind_OK _ _ (z, v) (zcbor_indefinite_length_array z) (z, v)) by done.
  destruct (zcbor_indefinite_length_array z) eqn:I.
  - destruct l as [|x l].
    + rewrite (st_bind_OK _ payload _ xff (z, v)); [done|]. unfold payload; simpl.
      by rewrite (indefinite_end _ _ _ R I).
    + destruct (payload_run _ _ _ _ _ v R) as (b & E & _ & N). rewrite (st_bind_OK _ _ _ _ _ E).
      unfold mret, st_ret. by rewrite !bool_decide_eq_false_2.
  - unfold gets; simpl. do 2 f_equal. pose proof (definite_end _ _ _ _ R I) as D.
    case_bool_decide as L; [by apply Z.eqb_eq, D|]. apply Z.eqb_neq. by rewrite D.
Qed.

(** [k] is the key [e]; and can be compared with it. *)
Definition key_is (k : item) (e : zcbor_map_key) : bool :=
  match k, key_type e with
  | CInt n, ZCBOR_MAP_KEY_TYPE_U32 => key_word e =? n
  | CTstr b, ZCBOR_MAP_KEY_TYPE_TSTR => bool_decide (key_points e = Some b)
  | _, _ => false
  end.

Definition comparable (k : item) (e : zcbor_map_key) : Prop :=
  match k, key_type e with
  | CInt n, ZCBOR_MAP_KEY_TYPE_U32 => 0 ≤ n < 4294967296
  | CTstr _, ZCBOR_MAP_KEY_TYPE_TSTR => ∃ p, key_points e = Some p ∧ key_len e = Some (len p)
  | _, _ => False
  end.

Lemma comparable_tstr b e key a :
  comparable (CTstr b) e →
  key_eq e (MapKey key a (Some b) (Some (len b))) = OK (key_is (CTstr b) e).
Proof.
  unfold comparable, key_is, key_eq. destruct (key_type e); [done|]. intros (p & P & L).
  rewrite P, L. cbn [of_ptr key_len key_points]. rewrite !bind_OK.
  destruct (Z.eqb_spec (len b) (len p)) as [E|E].
  - rewrite (ztake_all b), (ztake_all p) by lia. f_equal. apply bool_decide_ext. naive_solver.
  - f_equal. symmetry. apply bool_decide_eq_false. naive_solver.
Qed.

Lemma key_decode_reads n z k l up v key e0 :
  reads n z (k :: l) up → comparable k e0 →
  ∃ key' z', zcbor_map_key_decode key (z, v) = OK ((SUCCESS, key'), (z', v)) ∧ reads n z' l up
    ∧ ∀ e, comparable k e → key_eq e key' = OK (key_is k e).
Proof.
  intros R C. destruct (payload_run _ _ _ _ _ v R) as (b & E & M & _). unfold zcbor_map_key_decode.
  rewrite (st_bind_OK _ _ _ _ _ E). destruct k as [i|t| | | | |]; try done.
  - assert (0 ≤ i < 4294967296) as I by (unfold comparable in C; by destruct (key_type e0)).
    simpl in M. rewrite (Zle_imp_le_bool 0 i) in M by lia. rewrite M.
    destruct (uint32_reads _ _ _ _ _ R I) as (z' & D & R').
    rewrite (st_bind_OK _ _ _ _ _ (zcbor_run _ _ v _ _ D)). eexists _, z'. split; [done|]. split; [done|].
    intros e Ce. unfold comparable, key_is, key_eq in *. by destruct (key_type e).
  - simpl in M. rewrite M. destruct (tstr_reads _ _ _ _ _ R) as (a & z' & D & R').
    rewrite (st_bind_OK _ _ _ _ _ (zcbor_run _ _ v _ _ D)). eexists _, z'. split; [done|]. split; [done|].
    intros e Ce. by apply comparable_tstr.
Qed.

Context (entries : list (zcbor_map_entry V)) (M : Forall (λ e, moves (decode e)) entries).
(** What the memory satisfies throughout. *)
Context (inv : V → Prop).

(** The entry a key is for: the first with it. *)
Definition requested (k : item) : option (nat * zcbor_map_entry V) :=
  list_find (λ e, key_is k (entry_key e) = true) entries.

Lemma map_entry_get_reads k key :
  (∀ e, e ∈ entries → comparable k (entry_key e)) →
  (∀ e, comparable k e → key_eq e key = OK (key_is k e)) →
  map_entry_get entries key = OK (snd <$> requested k).
Proof.
  clear M. intros C Q. unfold requested. induction entries as [|e es IH]; [done|]. simpl.
  rewrite Q by (apply C; left). rewrite bind_OK. destruct (key_is k (entry_key e)) eqn:B.
  - by rewrite decide_True.
  - rewrite decide_False by done. rewrite IH by (intros; apply C; by right).
    by destruct (list_find _ es) as [[]|].
Qed.

(** Decoding the value [x], at depth [d], has the effect [f] on the memory. *)
Definition decodes (n d : nat) (m : st (zcbor_state * V) status) (x : item) (f : V → V) : Prop :=
  ∀ z l up v, inv v → length up = d → reads n z (x :: l) up →
  ∃ z', m (z, v) = OK (SUCCESS, (z', f v)) ∧ reads n z' l up ∧ inv (f v).

Lemma decodes_int64 n d i value : -9223372036854775808 ≤ i < 9223372036854775808 →
  (∀ v, inv v → inv (value i v)) →
  decodes n d (zcbor_map_int64_decode value) (CInt i) (value i).
Proof.
  intros B K z l up v Iv _ R. destruct (int64_reads _ _ _ _ _ R B) as (z' & E & R'). exists z'. split; [|by split; [|apply K]].
  unfold zcbor_map_int64_decode. by rewrite (st_bind_OK _ _ _ _ _ (zcbor_run _ _ v _ _ E)).
Qed.

Lemma decodes_int32 n d i value : -2147483648 ≤ i < 2147483648 →
  (∀ v, inv v → inv (value i v)) →
  decodes n d (zcbor_map_int32_decode value) (CInt i) (value i).
Proof.
  intros B K z l up v Iv _ R. destruct (int32_reads _ _ _ _ _ R) as (z' & H). rewrite decide_True in H by done.
  destruct H as [E R']. exists z'. split; [|by split; [|apply K]].
  unfold zcbor_map_int32_decode. by rewrite (st_bind_OK _ _ _ _ _ (zcbor_run _ _ v _ _ E)).
Qed.

(** What a map is expected to do to the memory, and how many of its pairs are asked for. *)
Definition effects (eff : nat → item → V → V) (kvs : list (item * item)) v : V :=
  foldl (λ v kv, match requested kv.1 with Some (i, _) => eff i kv.2 v | None => v end) v kvs.

Definition count (kvs : list (item * item)) : nat :=
  length (filter (λ kv, is_Some (requested kv.1)) kvs).

(** The map [kvs] is readable: its keys are of the entries' kind and the values asked for are decoded. *)
Record readable (n d : nat) (eff : nat → item → V → V) (kvs : list (item * item)) : Prop := {
  rd_keys : ∀ kv e, kv ∈ kvs → e ∈ entries → comparable kv.1 (entry_key e);
  rd_values : ∀ kv i e, kv ∈ kvs → requested kv.1 = Some (i, e) → decodes n d (decode e) kv.2 (eff i kv.2);
}.

Lemma readable_cons n d eff kv kvs : readable n d eff (kv :: kvs) → readable n d eff kvs.
Proof. intros [K X]. split; intros; [eapply K|eapply X]; eauto; by right. Qed.

Lemma pass_end n key num z l up v : reads n z l up → l = [] →
  map_decode_pass entries (key, num) (z, v) = OK (inr (inr num), (z, v)).
Proof.
  intros R ->. unfold map_decode_pass. destruct (_ <? _)%nat; [|done]. cbn [negb].
  by rewrite (st_bind_OK _ _ _ _ _ (list_or_map_end_reads n z [] up v R)).
Qed.

Lemma pass_next n eff k x kvs l up key num z v :
  reads n z (k :: x :: l) up → inv v → readable n (length up) eff ((k, x) :: kvs) →
  (num < length entries)%nat →
  ∃ key' z',
    map_decode_pass entries (key, num) (z, v)
      = OK (inl (key', (num + (if requested k is Some _ then 1 else 0))%nat), (z', effects eff [(k, x)] v))
    ∧ reads n z' l up ∧ inv (effects eff [(k, x)] v).
Proof.
  intros R Iv [K X] Lt. unfold map_decode_pass. rewrite (proj2 (Nat.ltb_lt num _)) by lia. cbn [negb].
  rewrite (st_bind_OK _ _ _ _ _ (list_or_map_end_reads _ _ _ _ v R)).
  rewrite bool_decide_eq_false_2 by done.
  assert (∃ e0, e0 ∈ entries) as [e0 In0].
  { destruct entries as [|e0 es]; [simpl in Lt; lia|]. exists e0. left. }
  destruct (key_decode_reads n z k (x :: l) up v key (entry_key e0)) as (key' & z1 & D & R1 & Q);
    [exact R|apply (K (k, x)); [left|done]|].
  rewrite (st_bind_OK _ _ _ _ _ D). cbn [fst snd].
  assert (map_entry_get entries key' = OK (snd <$> requested k)) as G.
  { apply map_entry_get_reads; [|done]. intros e He. apply (K (k, x)); [left|done]. }
  rewrite (lift_bind_OK _ _ _ _ G). unfold effects. cbn [foldl fst snd].
  destruct (requested k) as [[i e]|] eqn:Rq; cbn [fmap option_fmap option_map snd].
  - destruct (X (k, x) i e ltac:(left) Rq z1 l up v Iv eq_refl R1) as (z2 & E2 & R2 & I2).
    rewrite (st_bind_OK _ _ _ _ _ E2). exists key', z2. by rewrite Nat.add_1_r.
  - destruct (any_skip_reads _ _ _ _ _ R1) as (z2 & E2 & R2).
    rewrite (st_bind_OK _ _ _ _ _ (zcbor_run _ _ v _ _ E2)). exists key', z2. by rewrite Nat.add_0_r.
Qed.

Lemma count_cons k x kvs : count ((k, x) :: kvs) = ((if requested k is Some _ then 1 else 0) + count kvs)%nat.
Proof.
  unfold count. rewrite filter_cons. simpl.
  destruct (requested k); [by rewrite decide_True|by rewrite decide_False by (by intros [])].
Qed.

Lemma loop_reads n eff l up : ∀ kvs fuel key num z v,
  reads n z (flat kvs) (l :: up) → inv v → readable n (S (length up)) eff kvs →
  (∀ j, (j < length kvs)%nat → (num + count (take j kvs) < length entries)%nat) →
  (length kvs < fuel)%nat →
  ∃ z', loop fuel (map_decode_pass entries) (key, num) (z, v)
      = OK (inr (num + count kvs)%nat, (z', effects eff kvs v)) ∧ reads n z' [] (l :: up)
      ∧ inv (effects eff kvs v).
Proof.
  induction kvs as [|[k x] kvs IH]; intros [|fuel] key num z v R Iv Rd J Lf; try (simpl in Lf; lia); cbn [loop].
  - exists z. split; [|done]. rewrite (st_bind_OK _ _ _ _ _ (pass_end n key num z _ _ v R eq_refl)).
    by rewrite Nat.add_0_r.
  - destruct (pass_next n eff k x kvs (flat kvs) (l :: up) key num z v R Iv Rd) as (key' & z1 & E1 & R1 & I1).
    { specialize (J 0%nat ltac:(simpl; lia)). simpl in J. lia. }
    rewrite (st_bind_OK _ _ _ _ _ E1).
    destruct (IH fuel key' (num + (if requested k is Some _ then 1 else 0))%nat z1 (effects eff [(k, x)] v) R1 I1)
      as (z' & E' & R' & I'); [by eapply readable_cons| |simpl in Lf; lia|].
    + intros j Hj. specialize (J (S j) ltac:(simpl; lia)). cbn [take] in J. rewrite count_cons in J. lia.
    + exists z'. split; [|done]. rewrite E', count_cons. by rewrite Nat.add_assoc.
Qed.

Definition map_verdict (c : nat) : status :=
  if decide (c = 0%nat) then NEG ENOENT else if decide (c < length entries)%nat then NEG EBADMSG else SUCCESS.

Lemma map_decode_run n eff kvs l up z v :
  reads n z (CMap kvs :: l) up → (length up < n)%nat → inv v → readable n (S (length up)) eff kvs →
  (∀ j, (j < length kvs)%nat → (count (take j kvs) < length entries)%nat) →
  ∃ z', zcbor_map_decode entries (z, v) = OK (map_verdict (count kvs), (z', effects eff kvs v))
    ∧ (map_verdict (count kvs) ≠ NEG EBADMSG → reads n z' l up) ∧ inv (effects eff kvs v).
Proof.
  intros R D Iv Rd J. unfold zcbor_map_decode. destruct (map_start_reads _ _ _ _ _ R D) as (z1 & E1 & R1).
  rewrite (st_bind_OK _ _ _ _ _ (zcbor_run _ _ v _ _ E1)). cbn [negb].
  rewrite (st_bind_OK _ (gets _) _ (zcbor_left z1) (z1, v)) by done.
  destruct (loop_reads n eff l up kvs (S (zcbor_left z1) + length kvs) key_uninit 0 z1 v R1 Iv Rd J)
    as (z2 & E2 & R2 & I2); [lia|].
  rewrite (loop_fuel _ (λ _ s, zcbor_left s.1) (pass_decreases entries M) _ (S (zcbor_left z1))) in E2
    by (simpl; lia).
  rewrite Nat.add_0_l in E2. rewrite (st_bind_OK _ _ _ _ _ E2). unfold map_verdict.
  destruct (count kvs) as [|c] eqn:Ec.
  - destruct (force_end_reads _ _ _ _ R2) as (z3 & E3 & R3). exists z3. simpl. split; [|done].
    by rewrite (st_bind_OK _ _ _ _ _ (zcbor_run _ _ _ _ _ E3)).
  - rewrite (decide_False (P := S c = 0%nat)) by done. change (0 <? S c)%nat with true. cbn [andb]. case_decide as L.
    + rewrite (proj2 (Nat.ltb_lt (S c) _) L). by exists z2.
    + rewrite (proj2 (Nat.ltb_ge (S c) _)) by lia.
      destruct (force_end_reads _ _ _ _ R2) as (z3 & E3 & R3). exists z3. simpl. split; [|done].
      by rewrite (st_bind_OK _ _ _ _ _ (zcbor_run _ _ _ _ _ E3)).
Qed.

(** C35: a map whose keys are of the kind of the entries' keys is decoded: the values of the keys asked for
    are decoded in the map's order, each with its effect, and the others are skipped. When none is asked
    for it is [-ENOENT], when fewer are than there are entries [-EBADMSG], and otherwise the map is
    accepted: a key that is repeated counts each time and stands in for one that is missing, see
    [duplicate_key_accepted]. (The last pair that completes the number is the last of the map.) *)
Theorem map_decode_spec n eff kvs l up z v :
  reads n z (CMap kvs :: l) up → (length up < n)%nat → inv v → readable n (S (length up)) eff kvs →
  (∀ j, (j < length kvs)%nat → (count (take j kvs) < length entries)%nat) →
  ∃ z', zcbor_map_decode entries (z, v) = OK (map_verdict (count kvs), (z', effects eff kvs v))
    ∧ (map_verdict (count kvs) ≠ NEG EBADMSG → reads n z' l up) ∧ inv (effects eff kvs v).
Proof. apply map_decode_run. Qed.

End Reading.

Lemma requested_cons {ZC : Zcbor} {V} (e : zcbor_map_entry V) es k :
  requested (e :: es) k =
    if key_is k (entry_key e) then Some (0%nat, e) else prod_map S id <$> requested es k.
Proof. unfold requested. simpl. by destruct (key_is k (entry_key e)). Qed.

Lemma key_is_u32 {ZC : Zcbor} {V} n k (m : st (zcbor_state * V) status) :
  key_is (CInt n) (entry_key (ZCBOR_U32_MAP_ENTRY k m)) = (n =? k).
Proof. apply Z.eqb_sym. Qed.

(** * A concrete decoder *)

Module NativeZcbor.

(** Parses the initial byte and argument, up to 255, of definite-length items. *)
Fixpoint parse (fuel : nat) (d : list byte) : option (cbor Z * list byte) :=
  match fuel, d with
  | S fuel, b :: d =>
    '(arg, d) ← (let a := Z.land (Z_of_byte b) 31 in
                 if a <? 24 then Some (a, d) else
                 if a =? 24 then match d with c :: d => Some (Z_of_byte c, d) | [] => None end else None);
    let parse_list := fix parse_list (n : nat) d := match n with
      | O => Some ([], d)
      | S n => '(x, d) ← parse fuel d; '(l, d) ← parse_list n d; Some (x :: l, d)
      end in
    let pairs := fix pairs (l : list (cbor Z)) := match l with
      | k :: v :: l => (k, v) :: pairs l
      | _ => []
      end in
    match Z.shiftr (Z_of_byte b) 5 with
    | 0 => Some (CInt arg, d)
    | 1 => Some (CInt (-1 - arg), d)
    | 3 => if arg <=? len d then Some (CTstr (ztake arg d), zdrop arg d) else None
    | 4 => '(l, d) ← parse_list (Z.to_nat arg) d; Some (CList l, d)
    | 5 => '(l, d) ← parse_list (Z.to_nat (2 * arg)) d; Some (CMap (pairs l), d)
    | 7 => match arg with
           | 20 => Some (CBool false, d) | 21 => Some (CBool true, d) | 22 => Some (CNil, d)
           | _ => None
           end
    | _ => None
    end
  | _, _ => None
  end.

Fixpoint size (x : cbor Z) : nat :=
  match x with
  | CList l => S (foldr (λ x n, size x + n) 0 l)
  | CMap kvs => S (foldr (λ kv n, size kv.1 + size kv.2 + n) 0 kvs)
  | _ => 1
  end%nat.

Definition sizes (l : list (cbor Z)) : nat := foldr (λ x n, size x + n)%nat 0%nat l.

Lemma size_pos x : (1 ≤ size x)%nat.
Proof. destruct x; simpl; lia. Qed.

Lemma sizes_flat kvs : sizes (flat kvs) = foldr (λ kv n, size kv.1 + size kv.2 + n)%nat 0%nat kvs.
Proof.
  unfold flat, sizes. induction kvs as [|[k v] kvs IH]; [done|]. simpl. rewrite <- IH. simpl. lia.
Qed.

(** An item of the data that takes no more room than it. *)
Definition parsed (d : list byte) : option (cbor Z) :=
  match parse (S (length d)) d with
  | Some (x, []) => if decide (size x ≤ length d)%nat then Some x else None
  | _ => None
  end.

Record zstate := Zst { room : nat; items : list (cbor Z); up : list (list (cbor Z)) }.

Definition first_byte (x : cbor Z) : byte :=
  match x with
  | CInt n => if 0 <=? n then x00 else x20
  | CTstr _ => x60
  | CList _ => x80
  | CMap _ => xa0
  | CNil | CBool _ | CFloat _ => xf6
  end.

(** Decodes the first item when [f] accepts it. *)
Definition take_item {A} (f : cbor Z → option A) (s : zstate) : option A * zstate :=
  match items s with
  | x :: l => match f x with Some a => (Some a, Zst (room s) l (up s)) | None => (None, s) end
  | [] => (None, s)
  end.

Definition as_bool (r : option unit * zstate) : bool * zstate := (bool_decide (is_Some r.1), r.2).

Definition int_in (lo hi : Z) (x : cbor Z) : option Z :=
  match x with CInt n => if decide (lo ≤ n < hi) then Some n else None | _ => None end.

(** Opens the first item when [f] accepts it. *)
Definition open (f : cbor Z → option (list (cbor Z))) (s : zstate) : bool * zstate :=
  match items s with
  | x :: l =>
    match f x with
    | Some xs => if decide (length (up s) < room s)%nat then (true, Zst (room s) xs (l :: up s)) else (false, s)
    | None => (false, s)
    end
  | [] => (false, s)
  end.

#[export, refine] Instance zcbor : Zcbor := {|
  zcbor_state := zstate; double := Z;
  zcbor_new_decode_state n d := Zst n (option_list (parsed d)) [];
  zcbor_payload s := first_byte <$> head (items s);
  zcbor_indefinite_length_array _ := false;
  zcbor_elem_count s := len (items s);
  zcbor_left s := (sizes (items s) + foldr (λ l n, sizes l + n) 0 (up s))%nat;
  zcbor_map_start_decode := open (λ x, match x with CMap kvs => Some (flat kvs) | _ => None end);
  zcbor_list_start_decode := open (λ x, match x with CList l => Some l | _ => None end);
  zcbor_map_end_decode s := match items s, up s with
    | [], l :: u => (true, Zst (room s) l u) | _, _ => (false, s) end;
  zcbor_list_map_end_force_decode s := match up s with
    | l :: u => (true, Zst (room s) l u) | _ => (false, s) end;
  zcbor_any_skip s := as_bool (take_item (λ _, Some tt) s);
  zcbor_nil_expect s := as_bool (take_item (λ x, match x with CNil => Some tt | _ => None end) s);
  zcbor_uint32_decode := take_item (int_in 0 4294967296);
  zcbor_int32_decode := take_item (int_in (-2147483648) 2147483648);
  zcbor_int64_decode := take_item (int_in (-9223372036854775808) 9223372036854775808);
  zcbor_tstr_decode := take_item (λ x, match x with CTstr b => Some (ZStr 1024 b) | _ => None end);
  zcbor_bool_decode := take_item (λ x, match x with CBool b => Some b | _ => None end);
  zcbor_float_decode := take_item (λ x, match x with CFloat f => Some f | _ => None end);
|}.
Proof. Defined.

#[export, refine] Instance zcbor_reads : ZcborReads zcbor := {|
  encodes d x := parsed d = Some x;
  reads n s l u := s = Zst n l u;
|}.
Proof.
  all: simpl; unfold open, as_bool, take_item, int_in.
  - intros n d x ->. done.
  - intros n s x l u ->. eexists. split; [done|]. destruct x; try done; simpl; by destruct (0 <=? n0).
  - intros n s l u -> _. simpl. destruct l; [done|]. split; [simpl; lia|done].
  - done.
  - intros n s kvs l u -> L. simpl. rewrite decide_True by done. by eexists.
  - intros n s xs l u -> L. simpl. rewrite decide_True by done. by eexists.
  - intros n s l u ->. by eexists.
  - intros n s l u ->. by eexists.
  - intros n s x l u ->. simpl. by eexists.
  - intros n s x l u ->. destruct x; simpl; by eexists.
  - intros n s v l u -> R. simpl. rewrite decide_True by done. by eexists.
  - intros n s v l u ->. simpl. case_decide; by eexists.
  - intros n s v l u -> R. simpl. rewrite decide_True by done. by eexists.
  - intros n s b l u ->. simpl. by eexists _, _.
  - intros n s x l u ->. destruct x; simpl; by eexists.
  - intros n s x l u ->. destruct x; simpl; by eexists.
Defined.

Lemma left_take {A} (f : cbor Z → option A) s :
  (zcbor_left (take_item f s).2 + (if (take_item f s).1 is Some _ then 1 else 0) ≤ zcbor_left s)%nat.
Proof.
  unfold take_item. destruct s as [n [|x l] u]; simpl; [lia|]. pose proof (size_pos x).
  destruct (f x); simpl; lia.
Qed.

Lemma left_open f s :
  (∀ x l, f x = Some l → size x = S (sizes l)) →
  (zcbor_left (open f s).2 + (if (open f s).1 then 1 else 0) ≤ zcbor_left s)%nat.
Proof.
  intros H. unfold open. destruct s as [n [|x l] u]; simpl; [lia|].
  destruct (f x) as [xs|] eqn:E; simpl; [|lia]. apply H in E. case_decide; simpl; lia.
Qed.

#[export] Instance zcbor_progress : ZcborProgress zcbor.
Proof.
  assert (∀ {A} (f : cbor Z → option A) s, zcbor_left (take_item f s).2 ≤ zcbor_left s)%nat as T.
  { intros A f s. pose proof (left_take f s). lia. }
  split; intros.
  - simpl. unfold parsed. destruct (parse _ d) as [[x []]|]; simpl; [|lia..].
    case_decide; simpl; lia.
  - apply left_open. intros [] ? ?; simplify_eq. simpl. by rewrite sizes_flat.
  - assert (zcbor_left (zcbor_list_start_decode s).2 + (if (zcbor_list_start_decode s).1 then 1 else 0)
      ≤ zcbor_left s)%nat as L by (apply left_open; intros [] ? ?; by simplify_eq).
    lia.
  - simpl. destruct s as [n [|x l] [|l' u]]; simpl; lia.
  - simpl. destruct s as [n l [|l' u]]; simpl; lia.
  - apply T.
  - apply T.
  - apply left_take.
  - apply T.
  - apply T.
  - apply left_take.
  - apply T.
  - apply T.
Qed.

End NativeZcbor.

Module ZcborWitness.
Import NativeZcbor.

Abbreviation NZ := NativeZcbor.zcbor.

(** Keys 1 and 2, decoded into a pair. *)
Definition ex_entries : list (zcbor_map_entry (ZC := NZ) (Z * Z)) :=
  [ZCBOR_U32_MAP_ENTRY 1 (zcbor_map_int32_decode (λ n v, (n, v.2)));
   ZCBOR_U32_MAP_ENTRY 2 (zcbor_map_int64_decode (λ n v, (v.1, n)))].

Lemma ex_moves : Forall (λ e, moves (decode e)) ex_entries.
Proof.
  apply Forall_cons; split; [apply moves_int32_decode|].
  apply Forall_cons; split; [apply moves_int64_decode|done].
Qed.

(** {2: 6, 7: "x", 1: 5} *)
Definition ex_map : list (cbor Z * cbor Z) :=
  [(CInt 2, CInt 6); (CInt 7, CTstr ["x"%byte]); (CInt 1, CInt 5)].
Definition ex_data : list byte := [xa3; x02; x06; x07; x61; "x"; x01; x05]%byte.

Definition ex_start : zstate := Zst 1 [CMap ex_map] [].

Example ex_parsed : zcbor_new_decode_state (Zcbor := NZ) 1 ex_data = ex_start.
Proof. vm_compute. reflexivity. Qed.

(** {1: 5, 1: 6}: a key given twice stands in for the one that is missing. *)
Example duplicate_key_accepted :
  match zcbor_map_decode ex_entries (Zst 1 [CMap [(CInt 1, CInt 5); (CInt 1, CInt 6)]] [], (0, 0)) with
  | OK (r, _) => r = SUCCESS
  | Fault => False
  end.
Proof. vm_compute. reflexivity. Qed.

Lemma map_decode_terminates_witness :
  ∃ r, loops (st_body (map_decode_pass ex_entries))
      ((key_uninit, 0%nat), (Zst 1 (flat ex_map) [[]], (0, 0))) r
    ∧ (r = Fault → zcbor_map_decode ex_entries (ex_start, (0, 0)) = Fault)
    ∧ (∀ e s', r = OK (inl e, s') → zcbor_map_decode ex_entries (ex_start, (0, 0)) = OK (NEG e, s'))
    ∧ (∀ n s', r = OK (inr n, s') → is_OK (zcbor_map_decode ex_entries (ex_start, (0, 0)))).
Proof.
  exact (map_decode_terminates (ZP := NativeZcbor.zcbor_progress) ex_entries ex_moves (ex_start, (0, 0))).
Defined.

Definition ex_eff (i : nat) (x : cbor Z) (v : Z * Z) : Z * Z :=
  match x, i with CInt n, O => (n, v.2) | CInt n, _ => (v.1, n) | _, _ => v end.

Lemma ex_map_readable : readable (ZR := NativeZcbor.zcbor_reads) ex_entries (λ _, True) 1 1 ex_eff ex_map.
Proof.
  split.
  - intros [k x] e Hk He. unfold ex_map, ex_entries in *.
    repeat (apply elem_of_cons in Hk as [[= -> ->]|Hk]); try (by apply elem_of_nil in Hk);
      repeat (apply elem_of_cons in He as [->|He]); try (by apply elem_of_nil in He);
      unfold comparable; simpl; lia.
  - intros [k x] i e Hk Rq.
    repeat (apply elem_of_cons in Hk as [[= -> ->]|Hk]); try (by apply elem_of_nil in Hk);
      [change (Some (1%nat, ZCBOR_U32_MAP_ENTRY (ZC := NZ) 2 (zcbor_map_int64_decode (λ n (v : Z * Z), (v.1, n))))
         = Some (i, e)) in Rq
      |change (@None (nat * zcbor_map_entry (ZC := NZ) (Z * Z)) = Some (i, e)) in Rq
      |change (Some (0%nat, ZCBOR_U32_MAP_ENTRY (ZC := NZ) 1 (zcbor_map_int32_decode (λ n (v : Z * Z), (n, v.2))))
         = Some (i, e)) in Rq]; try discriminate; injection Rq as <- <-.
    + by apply (decodes_int64 (ZR := NativeZcbor.zcbor_reads) (λ _, True) 1 1 6 (λ n (v : Z * Z), (v.1, n))).
    + by apply (decodes_int32 (ZR := NativeZcbor.zcbor_reads) (λ _, True) 1 1 5 (λ n (v : Z * Z), (n, v.2))).
Qed.

Lemma map_decode_spec_witness :
  ∃ z', zcbor_map_decode ex_entries (ex_start, (0, 0)) = OK (SUCCESS, (z', (5, 6)))
    ∧ (SUCCESS ≠ NEG EBADMSG → z' = Zst 1 [] []) ∧ True.
Proof.
  apply (map_decode_spec (ZR := NativeZcbor.zcbor_reads) (ZP := NativeZcbor.zcbor_progress)
           ex_entries ex_moves (λ _, True) 1 ex_eff ex_map [] [] ex_start (0, 0)).
  - reflexivity.
  - simpl. lia.
  - done.
  - exact ex_map_readable.
  - intros [|[|[|j]]] H; [apply Nat.ltb_lt; vm_compute; reflexivity..|simpl in H; lia].
Defined.

End ZcborWitness.
