(* ===== verification/OtaUpper.v ===== *)
(** Registered OTA components: src/golioth_sdk/ota_upper.c, ota.h and include/golioth/ota.h.

    The table of the components the application registered, the version each one should get and its
    status; the service of Ota.v finds components in it by name. *)
From S2P Require Import Prelude Platform Buf.

(** Kconfig: the maximal lengths of a package's name and version. *)
Class OtaConfig := {
  CONFIG_GOLIOTH_OTA_MAX_PACKAGE_NAME_LEN : Z;
  CONFIG_GOLIOTH_OTA_MAX_VERSION_LEN : Z;
  MAX_PACKAGE_NAME_LEN_range : 0 ≤ CONFIG_GOLIOTH_OTA_MAX_PACKAGE_NAME_LEN < 65536;
  MAX_VERSION_LEN_range : 1 ≤ CONFIG_GOLIOTH_OTA_MAX_VERSION_LEN < 65536;
}.

Definition GOLIOTH_OTA_COMPONENT_HASH_BIN_LEN : Z := 32.

Inductive golioth_ota_state :=
  GOLIOTH_OTA_STATE_IDLE | GOLIOTH_OTA_STATE_DOWNLOADING | GOLIOTH_OTA_STATE_DOWNLOADED
| GOLIOTH_OTA_STATE_UPDATING.

#[export] Instance golioth_ota_state_eq_dec : EqDecision golioth_ota_state.
Proof. solve_decision. Defined.

(** A component of a manifest; [package] and [version] are arrays of one byte more than the maximum. *)
Record golioth_ota_component := Component {
  package : list byte;
  version : list byte;
  hash : list byte;
  comp_size : Z;
}.

(** [strncpy(dst, src, n)] writes [n] bytes: those of the string, then NULs. *)
Definition strncpy (src : list byte) (n : Z) : list byte :=
  ztake n (cstr src) ++ replicate (Z.to_nat (n - strlen src)) x00.

(** Storing [d] at offset [off] of an array. *)
Definition array_store (off : Z) (d : list byte) (a : list byte) : outcome (list byte) :=
  guard ((0 <=? off) && (off + len d <=? len a));;
  OK (ztake off a ++ d ++ zdrop (off + len d) a).

(** The data of a registered component. *)
Record component_data := ComponentData {
  target : list byte;
  target_hash : list byte;
  data_size : Z;
  data_state : golioth_ota_state;
}.

(** What the components' data and the application are; the application's callbacks act on both, since
    they call the functions below. *)
Record upper (A : Type) := Upper { u_data : list component_data; u_app : A }.
Arguments Upper {A}.
Arguments u_data {A}.
Arguments u_app {A}.

Record golioth_ota_registered_component (A : Type) := Registered {
  name : list byte;
  reg_version : list byte;
  receive : option (list byte) → Z → Z → bool → upper A → outcome (upper A);
}.
Arguments Registered {A}.
Arguments name {A}.
Arguments reg_version {A}.
Arguments receive {A}.

(** A row of the array given to the manifest handlers. *)
Record golioth_ota_manifest_component := ManifestComponent {
  mc_name : list byte;
  mc_current : list byte;
  mc_target : list byte;
  mc_target_hash : list byte;
  mc_size : Z;
}.

Section Upper.
Context {OC : OtaConfig} {A : Type}.
Context (registered : list (golioth_ota_registered_component A)).
Context (handlers : list (list golioth_ota_manifest_component → upper A → outcome (upper A))).
Implicit Types (u : upper A) (d : component_data).

(** The data of component [i]. *)
Definition data_of (i : nat) : st (upper A) component_data := λ u,
  match u_data u !! i with Some d => OK (d, u) | None => Fault end.

Definition data_put (i : nat) (d : component_data) : st (upper A) unit :=
  modify (λ u, Upper (<[i := d]> (u_data u)) (u_app u)).

(** The loop over the components, from [i]. *)
Fixpoint set_status (n : list byte) (state : golioth_ota_state) (i : nat)
    (cs : list (golioth_ota_registered_component A)) : st (upper A) status :=
  match cs with
  | [] => mret (NEG ENOENT)
  | c :: cs =>
    if strcmp_eq (name c) n then
      d ← data_of i;
      data_put i (ComponentData (target d) (target_hash d) (data_size d) state);;
      mret SUCCESS
    else set_status n state (S i) cs
  end.

Definition golioth_ota_set_status (n : list byte) (state : golioth_ota_state) : st (upper A) status :=
  set_status n state 0 registered.

Definition golioth_ota_mark_for_download (n : list byte) : st (upper A) status :=
  golioth_ota_set_status n GOLIOTH_OTA_STATE_DOWNLOADING.

Definition golioth_ota_mark_idle (n : list byte) : st (upper A) status :=
  golioth_ota_set_status n GOLIOTH_OTA_STATE_IDLE.

Definition golioth_ota_mark_updating (n : list byte) : st (upper A) status :=
  golioth_ota_set_status n GOLIOTH_OTA_STATE_UPDATING.

(** [size] is converted from int32_t to size_t. *)
Definition receive_into (c : golioth_ota_component) d : outcome component_data :=
  t ← array_store 0 (strncpy (version c) (len (target d))) (target d);
  t ← array_store (len (target d) - 1) [x00] t;
  h ← load (hash c) GOLIOTH_OTA_COMPONENT_HASH_BIN_LEN;
  h ← array_store 0 h (target_hash d);
  OK (ComponentData t h (u32 (comp_size c)) (data_state d)).

Fixpoint receive_one (c : golioth_ota_component) (i : nat)
    (cs : list (golioth_ota_registered_component A)) : st (upper A) unit :=
  match cs with
  | [] => mret tt
  | r :: cs =>
    (if strcmp_eq (package c) (name r) then
       d ← data_of i; d ← lift (receive_into c d); data_put i d
     else mret tt);;
    receive_one c (S i) cs
  end.

Definition golioth_ota_manifest_receive_one (c : golioth_ota_component) : st (upper A) status :=
  receive_one c 0 registered;; mret SUCCESS.

(** The array [components]: its length must not be 0. *)
Fixpoint manifest_rows (i : nat) (cs : list (golioth_ota_registered_component A))
    : st (upper A) (list golioth_ota_manifest_component) :=
  match cs with
  | [] => mret []
  | r :: cs =>
    d ← data_of i;
    rows ← manifest_rows (S i) cs;
    mret (ManifestComponent (name r) (reg_version r) (target d) (target_hash d) (data_size d) :: rows)
  end.

Fixpoint run_manifest_handlers (rows : list golioth_ota_manifest_component)
    (hs : list (list golioth_ota_manifest_component → upper A → outcome (upper A))) : st (upper A) unit :=
  match hs with
  | [] => mret tt
  | h :: hs =>
    (λ u, match h rows u with OK u => OK (tt, u) | Fault => Fault end);;
    run_manifest_handlers rows hs
  end.

Definition golioth_ota_manifest_complete : st (upper A) unit :=
  lift (guard (0 <? len registered));;
  rows ← manifest_rows 0 registered;
  run_manifest_handlers rows handlers.

(** Every component of that name receives; the loop ends at one that is not downloading. *)
Fixpoint receive_component (n : list byte) (offset : Z) (data : option (list byte)) (l : Z)
    (is_last : bool) (i : nat) (cs : list (golioth_ota_registered_component A)) : st (upper A) status :=
  match cs with
  | [] => mret SUCCESS
  | r :: cs =>
    if strcmp_eq (name r) n then
      d ← data_of i;
      if decide (data_state d = GOLIOTH_OTA_STATE_DOWNLOADING) then
        (λ u, match receive r data offset l is_last u with OK u => OK (tt, u) | Fault => Fault end);;
        receive_component n offset data l is_last (S i) cs
      else mret (NEG EINVAL)
    else receive_component n offset data l is_last (S i) cs
  end.

Definition golioth_ota_receive_component (n version : list byte) (offset : Z) (data : option (list byte))
    (l : Z) (is_last : bool) : st (upper A) status :=
  receive_component n offset data l is_last 0 registered.

(** The outputs, when there is such a component. *)
Definition golioth_ota_get_status (component_idx : nat) (ds : list component_data)
    : outcome (option (list byte * list byte * list byte * golioth_ota_state)) :=
  match registered !! component_idx with
  | None => OK None
  | Some r =>
    d ← of_ptr (ds !! component_idx);
    OK (Some (name r, reg_version r, target d, data_state d))
  end.

(** As GOLIOTH_OTA_COMPONENT initialises the data: the array is of the version's size. *)
Definition component_boot (r : golioth_ota_registered_component A) : component_data :=
  ComponentData (strncpy (reg_version r) CONFIG_GOLIOTH_OTA_MAX_VERSION_LEN)
    (replicate (Z.to_nat GOLIOTH_OTA_COMPONENT_HASH_BIN_LEN) x00) 0 GOLIOTH_OTA_STATE_IDLE.

End Upper.

(** * Strings in arrays *)

Lemma len_strncpy s n : 0 ≤ n → len (strncpy s n) = n.
Proof.
  intros. unfold strncpy. pose proof (len_cstr s). pose proof (strlen_bounds s). solve_len.
Qed.

Lemma strcmp_eq_sym a b : strcmp_eq a b = strcmp_eq b a.
Proof. unfold strcmp_eq. apply bool_decide_ext. split; congruence. Qed.

Lemma no_nul_ztake n s : no_nul s → no_nul (ztake n s).
Proof.
  unfold no_nul. intros N H. apply N. rewrite <- (take_drop (Z.to_nat n) s). apply elem_of_app. by left.
Qed.

Lemma array_store_all d a : len d ≤ len a → array_store 0 d a = OK (d ++ zdrop (len d) a).
Proof.
  intros L. unfold array_store. rewrite guard_true by (rewrite andb_true_iff, !Z.leb_le; lia).
  rewrite bind_OK. done.
Qed.

Lemma array_store_out off d a : len a < off + len d → array_store off d a = Fault.
Proof.
  intros L. unfold array_store. replace (_ && _) with false; [done|]. symmetry.
  apply andb_false_iff. right. apply Z.leb_gt. lia.
Qed.

Lemma array_store_last c a n : 1 ≤ len a → n = len a → array_store (n - 1) [c] a = OK (ztake (n - 1) a ++ [c]).
Proof.
  intros L ->. unfold array_store. rewrite guard_true by (rewrite andb_true_iff, !Z.leb_le; simpl; lia).
  rewrite bind_OK. by rewrite (zdrop_all a) by (simpl; lia).
Qed.

(** * The components' data *)

Section UpperLemmas.
Context {OC : OtaConfig} {A : Type} (registered : list (golioth_ota_registered_component A)).
Context (handlers : list (list golioth_ota_manifest_component → upper A → outcome (upper A))).
Implicit Types (u : upper A) (d : component_data) (ds : list component_data).

Record data_wf d : Prop := {
  wf_target : len (target d) = CONFIG_GOLIOTH_OTA_MAX_VERSION_LEN;
  wf_hash : len (target_hash d) = GOLIOTH_OTA_COMPONENT_HASH_BIN_LEN;
}.

(** There is data for every component. *)
Record all_wf ds : Prop := {
  wf_length : length ds = length registered;
  wf_data : Forall data_wf ds;
}.

Lemma boot_wf : all_wf (map component_boot registered).
Proof.
  split; [by rewrite length_map|]. apply Forall_map, Forall_true. intros r.
  pose proof MAX_VERSION_LEN_range. split; simpl; [apply len_strncpy; lia|done].
Qed.

(** What a component of the manifest does to the data of the component it names: the version is cut to
    what the array [target] holds with its NUL. *)
Definition announced (c : golioth_ota_component) d : component_data :=
  ComponentData (ztake (len (target d) - 1) (strncpy (version c) (len (target d))) ++ [x00])
    (hash c) (u32 (comp_size c)) (data_state d).

Lemma receive_into_spec c d :
  data_wf d → len (hash c) = GOLIOTH_OTA_COMPONENT_HASH_BIN_LEN → receive_into c d = OK (announced c d).
Proof.
  intros [T H] Hc. pose proof MAX_VERSION_LEN_range. unfold receive_into, announced.
  rewrite array_store_all by (rewrite len_strncpy; lia).
  rewrite bind_OK, len_strncpy, (zdrop_all (target d)) by lia. rewrite app_nil_r.
  assert (len (strncpy (version c) (len (target d))) = len (target d)) as L by (apply len_strncpy; lia).
  rewrite array_store_last by lia. rewrite bind_OK.
  rewrite <- Hc, load_all, bind_OK, array_store_all by lia. rewrite bind_OK.
  by rewrite (zdrop_all (target_hash d)), app_nil_r by lia.
Qed.

Lemma announced_wf c d :
  data_wf d → len (hash c) = GOLIOTH_OTA_COMPONENT_HASH_BIN_LEN → data_wf (announced c d).
Proof.
  intros [T H] Hc. pose proof MAX_VERSION_LEN_range. split; simpl; [|done].
  pose proof (len_strncpy (version c) (len (target d)) ltac:(lia)). solve_len.
Qed.

(** The string the target denotes afterwards. *)
Lemma announced_target c d : data_wf d →
  cstr (target (announced c d)) = ztake (CONFIG_GOLIOTH_OTA_MAX_VERSION_LEN - 1) (cstr (version c)).
Proof.
  intros [T _]. pose proof MAX_VERSION_LEN_range. simpl. rewrite T. unfold strncpy.
  set (n := CONFIG_GOLIOTH_OTA_MAX_VERSION_LEN) in *. pose proof (len_cstr (version c)) as L.
  pose proof (strlen_bounds (version c)). pose proof (cstr_no_nul (version c)) as N.
  destruct (decide (strlen (version c) < n)) as [S|S].
  - rewrite (ztake_all (cstr (version c)) n), (ztake_all (cstr (version c)) (n - 1)) by lia.
    rewrite take_app_ge by lia. rewrite take_replicate, <- app_assoc.
    rewrite <- (replicate_S_end _ x00). simpl replicate. by apply cstr_app_nul.
  - rewrite (take_app_le (ztake n _)) by solve_len. rewrite take_take.
    replace (_ `min` _)%nat with (Z.to_nat (n - 1)) by lia. by apply cstr_app_nul, no_nul_ztake.
Qed.

(** Every component the manifest's names is told. *)
Definition announce (c : golioth_ota_component) ds : list component_data :=
  zip_with (λ r d, if strcmp_eq (package c) (name r) then announced c d else d) registered ds.

Lemma data_of_run i d u : u_data u !! i = Some d → data_of i u = OK (d, u).
Proof. intros E. unfold data_of. by rewrite E. Qed.

Lemma data_of_app ds1 d ds (a : A) : data_of (length ds1) (Upper (ds1 ++ d :: ds) a) = OK (d, Upper (ds1 ++ d :: ds) a).
Proof. apply data_of_run. simpl. by apply list_lookup_middle. Qed.

Lemma receive_one_run c cs : ∀ i ds1 ds a,
  len (hash c) = GOLIOTH_OTA_COMPONENT_HASH_BIN_LEN → Forall data_wf ds →
  length ds = length cs → i = length ds1 →
  receive_one c i cs (Upper (ds1 ++ ds) a) =
    OK (tt, Upper (ds1 ++ zip_with (λ (r : golioth_ota_registered_component A) d,
                             if strcmp_eq (package c) (name r) then announced c d else d) cs ds) a).
Proof.
  induction cs as [|r cs IH]; intros i ds1 [|d ds] a Hc F L ->; try done. cbn [receive_one zip_with].
  apply Forall_cons in F as [W F]. injection L as L.
  set (d' := if strcmp_eq _ _ then _ else d).
  rewrite (st_bind_OK _ _ _ tt (Upper ((ds1 ++ [d']) ++ ds) a)).
  - rewrite (IH (S (length ds1)) (ds1 ++ [d'])) by (done || solve_len). by rewrite <- app_assoc.
  - unfold d'. destruct (strcmp_eq _ _); [|by rewrite <- app_assoc].
    rewrite (st_bind_OK _ _ _ _ _ (data_of_app ds1 d ds a)).
    rewrite (lift_bind_OK _ _ _ _ (receive_into_spec c d W Hc)). unfold data_put, modify; simpl.
    by rewrite insert_app_r_alt, Nat.sub_diag, <- app_assoc by lia.
Qed.

Lemma manifest_receive_one_run c u :
  all_wf (u_data u) → len (hash c) = GOLIOTH_OTA_COMPONENT_HASH_BIN_LEN →
  golioth_ota_manifest_receive_one registered c u
    = OK (SUCCESS, Upper (announce c (u_data u)) (u_app u)).
Proof.
  intros [L W] Hc. unfold golioth_ota_manifest_receive_one. destruct u as [ds a].
  by rewrite (st_bind_OK _ _ _ _ _ (receive_one_run c registered 0 [] ds a Hc W L eq_refl)).
Qed.

Lemma announce_wf c ds : all_wf ds → len (hash c) = GOLIOTH_OTA_COMPONENT_HASH_BIN_LEN →
  all_wf (announce c ds).
Proof.
  intros [L W] Hc. split; [unfold announce; rewrite length_zip_with; lia|].
  unfold announce. apply Forall_lookup. intros i d'.
  rewrite lookup_zip_with_Some. intros (r & d & -> & _ & D).
  pose proof (proj1 (Forall_lookup _ _) W i d D). destruct (strcmp_eq _ _); [by apply announced_wf|done].
Qed.

(** The rows given to the handlers. *)
Definition rows_of ds : list golioth_ota_manifest_component :=
  zip_with (λ r d, ManifestComponent (name r) (reg_version r) (target d) (target_hash d) (data_size d))
    registered ds.

Lemma manifest_rows_run cs : ∀ i ds1 ds a, length ds = length cs → i = length ds1 →
  manifest_rows i cs (Upper (ds1 ++ ds) a) =
    OK (zip_with (λ (r : golioth_ota_registered_component A) d,
          ManifestComponent (name r) (reg_version r) (target d) (target_hash d) (data_size d)) cs ds,
        Upper (ds1 ++ ds) a).
Proof.
  induction cs as [|r cs IH]; intros i ds1 [|d ds] a L ->; try done. cbn [manifest_rows zip_with].
  injection L as L.
  rewrite (st_bind_OK _ _ _ _ _ (data_of_app ds1 d ds a)).
  replace (ds1 ++ d :: ds) with ((ds1 ++ [d]) ++ ds) by (by rewrite <- app_assoc).
  by rewrite (st_bind_OK _ _ _ _ _ (IH (S (length ds1)) (ds1 ++ [d]) ds a L ltac:(solve_len))).
Qed.

Lemma run_handlers_foldl rows hs : ∀ u,
  run_manifest_handlers rows hs u =
    (u ← foldl (λ m h, m ≫= h rows) (OK u) hs; OK (tt, u)).
Proof.
  assert (∀ hs : list (list golioth_ota_manifest_component → upper A → outcome (upper A)),
    foldl (λ m h, m ≫= h rows) Fault hs = Fault) as F by (intros l; by induction l).
  induction hs as [|h hs IH]; intros u; [done|]. cbn [run_manifest_handlers foldl]. rewrite bind_OK.
  unfold mbind at 1, st_bind. destruct (h rows u) as [u'|]; [apply IH|by rewrite F].
Qed.

Lemma manifest_complete_run u :
  all_wf (u_data u) → registered ≠ [] →
  golioth_ota_manifest_complete registered handlers u =
    (u' ← foldl (λ m h, m ≫= h (rows_of (u_data u))) (OK u) handlers; OK (tt, u')).
Proof.
  intros [L _] N. unfold golioth_ota_manifest_complete.
  rewrite (lift_bind_OK _ _ tt) by (apply guard_true, Z.ltb_lt; destruct registered; [done|simpl; lia]).
  destruct u as [ds a]. rewrite (st_bind_OK _ _ _ _ _ (manifest_rows_run registered 0 [] ds a L eq_refl)).
  apply run_handlers_foldl.
Qed.

(** Component [i] is the only one of its name. *)
Record only (i : nat) (r : golioth_ota_registered_component A) (n : list byte) : Prop := {
  only_there : registered !! i = Some r;
  only_name : strcmp_eq (name r) n = true;
  only_one : ∀ j r', registered !! j = Some r' → j ≠ i → strcmp_eq (name r') n = false;
}.

Lemma receive_none n off data l last cs : ∀ k u,
  (∀ r, r ∈ cs → strcmp_eq (name r) n = false) →
  receive_component (A := A) n off data l last k cs u = OK (SUCCESS, u).
Proof.
  induction cs as [|r cs IH]; intros k u H; [done|]. cbn [receive_component].
  rewrite H by left. apply IH. intros r' Hr. apply H. by right.
Qed.

Lemma receive_first n off data l last r d cs2 : ∀ cs1 k u,
  (∀ r, r ∈ cs1 ++ cs2 → strcmp_eq (name r) n = false) → strcmp_eq (name r) n = true →
  u_data u !! (k + length cs1)%nat = Some d →
  receive_component (A := A) n off data l last k (cs1 ++ r :: cs2) u =
    if decide (data_state d = GOLIOTH_OTA_STATE_DOWNLOADING)
    then u' ← receive r data off l last u; OK (SUCCESS, u')
    else OK (NEG EINVAL, u).
Proof.
  induction cs1 as [|r1 cs1 IH]; intros k u H E D; cbn [app receive_component].
  - rewrite E. rewrite Nat.add_0_r in D. rewrite (st_bind_OK _ _ _ _ _ (data_of_run _ _ _ D)).
    case_decide; [|done]. unfold mbind, st_bind, outcome_bind. destruct (receive r data off l last u); [|done].
    by apply receive_none.
  - rewrite H by left. apply IH; [|done|].
    + intros r' Hr. apply H. by right.
    + simpl in D. by replace (S k + length cs1)%nat with (k + S (length cs1))%nat by lia.
Qed.

(** Data for a component reaches it when it is downloading, and is refused otherwise. *)
Lemma receive_component_run i r n v off data l last u d :
  only i r n → u_data u !! i = Some d →
  golioth_ota_receive_component registered n v off data l last u =
    if decide (data_state d = GOLIOTH_OTA_STATE_DOWNLOADING)
    then u' ← receive r data off l last u; OK (SUCCESS, u')
    else OK (NEG EINVAL, u).
Proof.
  intros [T E O] D. unfold golioth_ota_receive_component.
  destruct (list_elem_of_split_length registered i r T) as (cs1 & cs2 & Eq & Li).
  rewrite Eq. apply receive_first; [|done|by rewrite <- Li].
  intros r' Hr. apply elem_of_app in Hr as [Hr|Hr]; apply list_elem_of_lookup in Hr as (j & Hj).
  - apply (O j); [|apply lookup_lt_Some in Hj; lia]. rewrite Eq. by apply lookup_app_l_Some.
  - apply (O (length cs1 + S j)%nat); [|lia]. rewrite Eq, lookup_app_r by lia.
    by replace (length cs1 + S j - length cs1)%nat with (S j) by lia.
Qed.

Lemma set_status_run n state cs : ∀ k u, (∀ j, (j < length cs)%nat → is_Some (u_data u !! (k + j)%nat)) →
  set_status n state k cs u =
    match list_find (λ r : golioth_ota_registered_component A, strcmp_eq (name r) n = true) cs with
    | None => OK (NEG ENOENT, u)
    | Some (i, _) =>
      OK (SUCCESS, Upper (alter (λ d, ComponentData (target d) (target_hash d) (data_size d) state)
                            (k + i)%nat (u_data u)) (u_app u))
    end.
Proof.
  induction cs as [|r cs IH]; intros k u S; [done|]. cbn [set_status]. simpl list_find.
  destruct (strcmp_eq (name r) n) eqn:E.
  - rewrite decide_True by done. destruct (S 0%nat ltac:(simpl; lia)) as [d D].
    rewrite Nat.add_0_r in *. rewrite (st_bind_OK _ _ _ _ _ (data_of_run _ _ _ D)).
    unfold data_put, modify; run_st. do 3 f_equal. rewrite list_insert_alter.
    apply list_alter_ext; [|done]. intros d' D'. by simplify_eq.
  - rewrite decide_False by done. rewrite IH.
    + destruct (list_find _ cs) as [[i r']|]; [|done]. simpl. by rewrite Nat.add_succ_r.
    + intros j Hj. specialize (S (Datatypes.S j) ltac:(simpl; lia)). by rewrite Nat.add_succ_r in S.
Qed.

(** Marking a component for download, as idle or as updating changes the state of the first
    component of that name and nothing else; without one it is [-ENOENT] and changes nothing. *)
Theorem mark_status_spec n state u :
  all_wf (u_data u) →
  golioth_ota_set_status registered n state u =
    match list_find (λ r, strcmp_eq (name r) n = true) registered with
    | None => OK (NEG ENOENT, u)
    | Some (i, _) =>
      OK (SUCCESS, Upper (alter (λ d, ComponentData (target d) (target_hash d) (data_size d) state)
                            i (u_data u)) (u_app u))
    end.
Proof.
  intros [L _]. unfold golioth_ota_set_status. apply set_status_run. intros j Hj.
  apply lookup_lt_is_Some. simpl. lia.
Qed.

End UpperLemmas.

Module OtaUpperWitness.

#[export, refine] Instance ota_config : OtaConfig := {|
  CONFIG_GOLIOTH_OTA_MAX_PACKAGE_NAME_LEN := 32; CONFIG_GOLIOTH_OTA_MAX_VERSION_LEN := 32 |}.
Proof. all: lia. Defined.

(** "main" at version "1"; it receives into the application's state. *)
Definition main : golioth_ota_registered_component (list byte) :=
  Registered ["m"; "a"; "i"; "n"]%byte ["1"]%byte
    (λ data off l last u, OK (Upper (u_data u) (u_app u ++ default [] data))).

Definition ex_upper : upper (list byte) := Upper (map component_boot [main]) [].

Lemma mark_status_spec_witness :
  golioth_ota_set_status [main] ["m"; "a"; "i"; "n"]%byte GOLIOTH_OTA_STATE_DOWNLOADING ex_upper =
    OK (SUCCESS, Upper [ComponentData (target (component_boot main)) (target_hash (component_boot main)) 0
                          GOLIOTH_OTA_STATE_DOWNLOADING] []).
Proof.
  rewrite (mark_status_spec [main] ["m"; "a"; "i"; "n"]%byte GOLIOTH_OTA_STATE_DOWNLOADING ex_upper).
  - vm_compute. reflexivity.
  - apply (boot_wf [main]).
Defined.

End OtaUpperWitness.
