(* ===== verification/FwUpdate.v ===== *)
(** Firmware updates of the example application: src/examples/ble_gatt/src/fw_update.c.

    The component "main" is written to flash as it arrives and MCUboot is asked to install it; the
    manifest handler asks for the components whose version differs. Flash and MCUboot are a class. *)
From S2P Require Import Prelude Platform Buf OtaUpper.

(** <zephyr/dfu/flash_img.h>, <zephyr/dfu/mcuboot.h>: the static [flash_context], the flash and the
    boot record. [flash_image] is what was written since [flash_img_init], [flash_upgrade] whether an
    upgrade was requested. *)
Class Flash := {
  flash_state : Type;
  flash_image : flash_state → list byte;
  flash_upgrade : flash_state → bool;
  flash_img_init : flash_state → status * flash_state;
  flash_img_buffered_write : list byte → bool → flash_state → status * flash_state;
  boot_request_upgrade : flash_state → status * flash_state;
  init_image f : (flash_img_init f).1 = SUCCESS → flash_image (flash_img_init f).2 = [];
  init_upgrade f : flash_upgrade (flash_img_init f).2 = flash_upgrade f;
  write_image d l f : (flash_img_buffered_write d l f).1 = SUCCESS →
    flash_image (flash_img_buffered_write d l f).2 = flash_image f ++ d;
  write_upgrade d l f : flash_upgrade (flash_img_buffered_write d l f).2 = flash_upgrade f;
  request_image f : flash_image (boot_request_upgrade f).2 = flash_image f;
  request_upgrade f : (boot_request_upgrade f).1 = SUCCESS → flash_upgrade (boot_request_upgrade f).2 = true;
}.

Section FwUpdate.
Context {OC : OtaConfig} {FL : Flash}.

(** [fw_rebooting] says that [sys_reboot] was called, which does not return. *)
Record fw := Fw { fw_flash : flash_state; fw_rebooting : bool }.

Definition flash_do {R} (f : flash_state → R * flash_state) : st fw R := λ s,
  OK ((f (fw_flash s)).1, Fw (f (fw_flash s)).2 (fw_rebooting s)).

Definition sys_reboot : st fw unit := modify (λ s, Fw (fw_flash s) true).

(** [data] is [n] bytes, which the flash driver reads. *)
Definition main_receive (data : option (list byte)) (offset n : Z) (is_last : bool) : st fw unit :=
  err ← (if 0 =? offset then flash_do flash_img_init else mret SUCCESS);
  match err with
  | Some _ => mret tt
  | None =>
    d ← lift (if n =? 0 then OK [] else d ← of_ptr data; load d n);
    err ← flash_do (flash_img_buffered_write d is_last);
    match err with
    | Some _ => mret tt
    | None =>
      if is_last then
        err ← flash_do boot_request_upgrade;
        match err with Some _ => mret tt | None => sys_reboot end
      else mret tt
    end
  end.

Context {A : Type} `{!Part A fw}.
Context (registered : list (golioth_ota_registered_component A)).

(** The callback of the component, on the state it is called with. *)
Definition ota_main_receive (data : option (list byte)) (offset n : Z) (is_last : bool) (u : upper A)
    : outcome (upper A) :=
  '(_, a) ← zoom (main_receive data offset n is_last) (u_app u);
  OK (Upper (u_data u) a).

(** The result of [golioth_ota_mark_for_download] is not looked at. *)
Fixpoint ota_manifest_receive (components : list golioth_ota_manifest_component) (u : upper A)
    : outcome (upper A) :=
  match components with
  | [] => OK u
  | c :: components =>
    '(_, u) ← (if negb (strcmp_eq (mc_current c) (mc_target c))
               then golioth_ota_mark_for_download registered (mc_name c) u
               else OK (SUCCESS, u));
    ota_manifest_receive components u
  end.

(** * Which components are downloaded *)

Implicit Types (d : component_data) (r : golioth_ota_registered_component A).

(** A component whose version is not the target is marked for download. *)
Definition wanted r d : component_data :=
  if strcmp_eq (reg_version r) (target d) then d
  else ComponentData (target d) (target_hash d) (data_size d) GOLIOTH_OTA_STATE_DOWNLOADING.

Definition distinct_names : Prop :=
  ∀ i j r r', registered !! i = Some r → registered !! j = Some r' →
    strcmp_eq (name r) (name r') = true → i = j.

Lemma find_own_name i r : distinct_names → registered !! i = Some r →
  list_find (λ r', strcmp_eq (name r') (name r) = true) registered = Some (i, r).
Proof.
  intros D E. apply list_find_Some. split_and!; [done| |].
  - unfold strcmp_eq. by apply bool_decide_eq_true.
  - intros j r' E' L N. apply (D j i r' r E' E) in N. lia.
Qed.

Lemma manifest_marks_from cs : ∀ ds1 ds a rs1,
  distinct_names → registered = rs1 ++ cs → length ds1 = length rs1 → length ds = length cs →
  ota_manifest_receive
    (zip_with (λ r d, ManifestComponent (name r) (reg_version r) (target d) (target_hash d) (data_size d))
       cs ds) (Upper (ds1 ++ ds) a)
  = OK (Upper (ds1 ++ zip_with wanted cs ds) a).
Proof.
  induction cs as [|r cs IH]; intros ds1 [|d ds] a rs1 D E L1 L; try done.
  injection L as L. cbn [zip_with ota_manifest_receive mc_current mc_target mc_name].
  assert (registered !! length rs1 = Some r) as Er by (rewrite E; by apply list_lookup_middle).
  assert (∀ d', ota_manifest_receive (zip_with (λ r d, ManifestComponent (name r) (reg_version r)
      (target d) (target_hash d) (data_size d)) cs ds) (Upper (ds1 ++ d' :: ds) a)
    = OK (Upper (ds1 ++ d' :: zip_with wanted cs ds) a)) as Go.
  { intros d'. rewrite (cons_middle d' ds1 ds), (app_assoc ds1).
    rewrite (IH (ds1 ++ [d']) ds a (rs1 ++ [r])); [by rewrite <- app_assoc|done|..].
    - by rewrite <- app_assoc.
    - rewrite !length_app. simpl. lia.
    - done. }
  unfold wanted at 1. destruct (strcmp_eq (reg_version r) (target d)); cbn [negb]; [apply Go|].
  unfold golioth_ota_mark_for_download, golioth_ota_set_status.
  rewrite set_status_run.
  - rewrite (find_own_name _ _ D Er). rewrite bind_OK. cbn [u_data u_app].
    replace (0 + length rs1)%nat with (length ds1) by lia. rewrite alter_app_r_alt by lia.
    rewrite Nat.sub_diag. apply Go.
  - intros j Hj. apply lookup_lt_is_Some. simpl. rewrite E, length_app in Hj.
    rewrite length_app. simpl in *. lia.
Qed.

(** When a manifest is complete, the components whose registered version is not the version the
    manifest asks for are marked for download, and no others; nothing else changes. *)
Theorem manifest_marks u :
  all_wf registered (u_data u) → registered ≠ [] → distinct_names →
  golioth_ota_manifest_complete registered [ota_manifest_receive] u
    = OK (tt, Upper (zip_with wanted registered (u_data u)) (u_app u)).
Proof.
  intros W N D. rewrite (manifest_complete_run registered [ota_manifest_receive]) by done.
  cbn [foldl]. rewrite bind_OK. destruct u as [ds a]. cbn [u_data u_app].
  pose proof (manifest_marks_from registered [] ds a [] D eq_refl eq_refl (wf_length _ _ W)) as E.
  cbn [app] in E. unfold rows_of. by rewrite E, bind_OK.
Qed.

(** * Installing an image *)

(** Flash and MCUboot do what they are asked. *)
Record flash_works : Prop := {
  fl_init f : (flash_img_init f).1 = SUCCESS;
  fl_write p l f : (flash_img_buffered_write p l f).1 = SUCCESS;
  fl_request f : (boot_request_upgrade f).1 = SUCCESS;
}.

(** The component's data is given piece by piece to [golioth_ota_receive_component]. *)
Fixpoint receive_pieces (n v : list byte) (offset : Z) (ps : list (list byte)) : st (upper A) status :=
  match ps with
  | [] => mret SUCCESS
  | [p] => golioth_ota_receive_component registered n v offset (Some p) (len p) true
  | p :: ps =>
    golioth_ota_receive_component registered n v offset (Some p) (len p) false;;
    receive_pieces n v (offset + len p) ps
  end.

Abbreviation flash_of u := (fw_flash (part_get (u_app u))).

Lemma flash_do_run {R} (f : flash_state → R * flash_state) s :
  flash_do f s = OK ((f (fw_flash s)).1, Fw (f (fw_flash s)).2 (fw_rebooting s)).
Proof. done. Qed.

(** A piece: when flash works it is appended to the image, which the piece at offset 0 starts anew. *)
Lemma main_receive_run p offset last s :
  flash_works →
  ∃ s', main_receive (Some p) offset (len p) last s = OK (tt, s')
    ∧ flash_image (fw_flash s') = (if 0 =? offset then [] else flash_image (fw_flash s)) ++ p
    ∧ fw_rebooting s' = fw_rebooting s || last
    ∧ flash_upgrade (fw_flash s') = flash_upgrade (fw_flash s) || last.
Proof.
  intros [Fi Wr Fr]. unfold main_receive.
  set (f1 := if 0 =? offset then (flash_img_init (fw_flash s)).2 else fw_flash s).
  rewrite (st_bind_OK _ _ s SUCCESS (Fw f1 (fw_rebooting s))).
  2:{ unfold f1. destruct (0 =? offset); [unfold flash_do; by rewrite Fi|by destruct s]. }
  assert (flash_image f1 = if 0 =? offset then [] else flash_image (fw_flash s)) as <-.
  { unfold f1. destruct (0 =? offset); [by apply init_image|done]. }
  assert (flash_upgrade f1 = flash_upgrade (fw_flash s)) as <-.
  { unfold f1. destruct (0 =? offset); [by rewrite init_upgrade|done]. }
  rewrite (lift_bind_OK _ _ p).
  2:{ destruct (Z.eqb_spec (len p) 0); [by destruct p|]. cbn [of_ptr]. by rewrite bind_OK, load_all. }
  rewrite (st_bind_OK _ _ _ _ _ (flash_do_run _ _)). cbn [fw_flash fw_rebooting]. rewrite Wr.
  pose proof (write_image p last f1 (Wr p last f1)) as Wi. pose proof (write_upgrade p last f1) as Wu.
  set (f2 := (flash_img_buffered_write p last f1).2) in *. destruct last.
  - rewrite (st_bind_OK _ _ _ _ _ (flash_do_run _ _)). cbn [fw_flash fw_rebooting]. rewrite Fr.
    eexists. split; [reflexivity|]. cbn. rewrite request_image, orb_true_r, orb_true_r.
    split_and!; [done|done|by apply request_upgrade].
  - eexists. split; [reflexivity|]. cbn. by rewrite !orb_false_r.
Qed.

(** Whatever flash does: the piece is taken, and the device reboots only at the last piece and after the
    upgrade was requested. *)
Lemma main_receive_any p offset last s :
  ∃ s', main_receive (Some p) offset (len p) last s = OK (tt, s')
    ∧ (fw_rebooting s' = fw_rebooting s
       ∨ last = true ∧ fw_rebooting s' = true ∧ flash_upgrade (fw_flash s') = true).
Proof.
  unfold main_receive.
  assert (∃ err f1, (if 0 =? offset then flash_do flash_img_init else mret SUCCESS) s
    = OK (err, Fw f1 (fw_rebooting s))) as (err & f1 & E1).
  { destruct (0 =? offset); [by do 2 eexists|]. exists SUCCESS, (fw_flash s). by destruct s. }
  rewrite (st_bind_OK _ _ _ _ _ E1). destruct err as [e|]; [eexists; split; [reflexivity|by left]|].
  rewrite (lift_bind_OK _ _ p).
  2:{ destruct (Z.eqb_spec (len p) 0); [by destruct p|]. cbn [of_ptr]. by rewrite bind_OK, load_all. }
  rewrite (st_bind_OK _ _ _ _ _ (flash_do_run _ _)). cbn [fw_flash fw_rebooting].
  set (f2 := (flash_img_buffered_write p last f1).2).
  destruct (flash_img_buffered_write p last f1).1 as [e|]; [eexists; split; [reflexivity|by left]|].
  destruct last; [|eexists; split; [reflexivity|by left]].
  rewrite (st_bind_OK _ _ _ _ _ (flash_do_run _ _)). cbn [fw_flash fw_rebooting].
  pose proof (request_upgrade f2) as Up.
  destruct (boot_request_upgrade f2).1 as [e|]; [eexists; split; [reflexivity|by left]|].
  eexists. split; [reflexivity|]. right. by split_and!; [| |apply Up].
Qed.

Section Install.
Context (i : nat) (r : golioth_ota_registered_component A) (n v : list byte).
Context (Honly : only registered i r n) (Hcallback : receive r = ota_main_receive).

(** The callback on a piece. *)
Lemma callback_run u p offset last :
  flash_works →
  ∃ u', receive r (Some p) offset (len p) last u = OK u'
    ∧ u_data u' = u_data u
    ∧ flash_image (flash_of u') = (if 0 =? offset then [] else flash_image (flash_of u)) ++ p
    ∧ fw_rebooting (part_get (u_app u')) = fw_rebooting (part_get (u_app u)) || last
    ∧ flash_upgrade (flash_of u') = flash_upgrade (flash_of u) || last.
Proof.
  intros F. rewrite Hcallback. unfold ota_main_receive.
  destruct (main_receive_run p offset last (part_get (u_app u)) F) as (s' & E & Ei & Er & Eu).
  rewrite (zoom_OK _ _ _ _ E), !bind_OK. eexists. split; [reflexivity|]. cbn [u_data u_app].
  by rewrite part_get_set.
Qed.

Lemma callback_any u p offset last :
  ∃ u', receive r (Some p) offset (len p) last u = OK u' ∧ u_data u' = u_data u
    ∧ (fw_rebooting (part_get (u_app u')) = fw_rebooting (part_get (u_app u))
       ∨ last = true ∧ fw_rebooting (part_get (u_app u')) = true ∧ flash_upgrade (flash_of u') = true).
Proof.
  rewrite Hcallback. unfold ota_main_receive.
  destruct (main_receive_any p offset last (part_get (u_app u))) as (s' & E & H).
  rewrite (zoom_OK _ _ _ _ E), !bind_OK. eexists. split; [reflexivity|]. cbn [u_data u_app].
  by rewrite part_get_set.
Qed.

(** The first of several pieces. *)
Lemma receive_pieces_cons offset p p2 ps :
  receive_pieces n v offset (p :: p2 :: ps) =
    (golioth_ota_receive_component registered n v offset (Some p) (len p) false;;
     receive_pieces n v (offset + len p) (p2 :: ps)).
Proof. done. Qed.

Lemma ota_pieces_any d ps : ∀ u offset,
  ps ≠ [] → u_data u !! i = Some d → data_state d = GOLIOTH_OTA_STATE_DOWNLOADING →
  ∃ u', receive_pieces n v offset ps u = OK (SUCCESS, u') ∧ u_data u' = u_data u
    ∧ (fw_rebooting (part_get (u_app u')) = fw_rebooting (part_get (u_app u))
       ∨ fw_rebooting (part_get (u_app u')) = true ∧ flash_upgrade (flash_of u') = true).
Proof.
  induction ps as [|p ps IH]; intros u offset N D S; [done|].
  assert (∀ last, ∃ u', golioth_ota_receive_component registered n v offset (Some p) (len p) last u = OK (SUCCESS, u')
    ∧ u_data u' = u_data u
    ∧ (fw_rebooting (part_get (u_app u')) = fw_rebooting (part_get (u_app u))
       ∨ last = true ∧ fw_rebooting (part_get (u_app u')) = true ∧ flash_upgrade (flash_of u') = true)) as Piece.
  { intros last. rewrite (receive_component_run registered i r n v offset _ _ _ u d Honly D).
    rewrite decide_True by done. destruct (callback_any u p offset last) as (u' & E & H).
    exists u'. by rewrite E, bind_OK. }
  destruct ps as [|p2 ps].
  - destruct (Piece true) as (u' & E & Eu & H). exists u'. split_and!; [done..|]. destruct H as [H|(_ & H)]; [by left|by right].
  - destruct (Piece false) as (u' & E & Eu & [H|[? _]]); [|done].
    destruct (IH u' (offset + len p) ltac:(done) ltac:(by rewrite Eu) S) as (u2 & E2 & Eu2 & H2).
    exists u2. rewrite receive_pieces_cons, (st_bind_OK _ _ _ _ _ E).
    split_and!; [done|congruence|by rewrite <- H].
Qed.

Lemma receive_piece_run u d p offset last :
  flash_works → u_data u !! i = Some d → data_state d = GOLIOTH_OTA_STATE_DOWNLOADING →
  ∃ u', golioth_ota_receive_component registered n v offset (Some p) (len p) last u = OK (SUCCESS, u')
    ∧ u_data u' = u_data u
    ∧ flash_image (flash_of u') = (if 0 =? offset then [] else flash_image (flash_of u)) ++ p
    ∧ fw_rebooting (part_get (u_app u')) = fw_rebooting (part_get (u_app u)) || last
    ∧ flash_upgrade (flash_of u') = flash_upgrade (flash_of u) || last.
Proof.
  intros F D S. rewrite (receive_component_run registered i r n v offset _ _ _ u d Honly D).
  rewrite decide_True by done.
  destruct (callback_run u p offset last F) as (u' & E & H). exists u'. by rewrite E, bind_OK.
Qed.

Lemma ota_pieces_run d ps : ∀ u offset,
  flash_works → ps ≠ [] → 0 ≤ offset → u_data u !! i = Some d →
  data_state d = GOLIOTH_OTA_STATE_DOWNLOADING → (offset ≠ 0 → len (flash_image (flash_of u)) = offset) →
  ∃ u', receive_pieces n v offset ps u = OK (SUCCESS, u')
    ∧ u_data u' = u_data u
    ∧ flash_image (flash_of u') = (if 0 =? offset then [] else flash_image (flash_of u)) ++ concat ps
    ∧ fw_rebooting (part_get (u_app u')) = true ∧ flash_upgrade (flash_of u') = true.
Proof.
  induction ps as [|p ps IH]; intros u offset F N O D S L; [done|].
  destruct ps as [|p2 ps].
  - destruct (receive_piece_run u d p offset true F D S) as (u' & E & Eu & Ei & Er & Eg).
    exists u'. rewrite orb_true_r in Er, Eg. simpl. rewrite app_nil_r. by split_and!.
  - destruct (receive_piece_run u d p offset false F D S) as (u' & E & Eu & Ei & Er & Eg).
    destruct (IH u' (offset + len p) F ltac:(done) ltac:(lia) ltac:(by rewrite Eu) S)
      as (u2 & E2 & Eu2 & Ei2 & Er2 & Eg2).
    { intros _. rewrite Ei, length_app. destruct (Z.eqb_spec 0 offset); [simpl; lia|].
      rewrite Nat2Z.inj_add, L by done. lia. }
    exists u2. rewrite receive_pieces_cons, (st_bind_OK _ _ _ _ _ E). split_and!; [done|congruence| |done|done].
    rewrite Ei2, Ei. change (concat (p :: p2 :: ps)) with (p ++ concat (p2 :: ps)).
    destruct (Z.eqb_spec 0 (offset + len p)) as [Z0|Z0]; [|by rewrite <- app_assoc].
    assert (p = []) as -> by (destruct p; [done|simpl in Z0; lia]).
    destruct (Z.eqb_spec 0 offset) as [|No]; [done|simpl in Z0; lia].
Qed.

(** C39: when the component is marked for download, its data, in pieces of any sizes, is taken whatever
    flash does: nothing faults, and the device reboots only when the upgrade was requested; when flash
    and MCUboot do all they are asked, the data ends up in flash as a whole, the upgrade is requested and
    the device reboots (a write that fails leaves a gap, see [failed_write_upgrades]). While the component
    is not marked, its data is refused and nothing is written. *)
Theorem image_installed u d ps :
  u_data u !! i = Some d → ps ≠ [] →
  (data_state d = GOLIOTH_OTA_STATE_DOWNLOADING →
   ∃ u', receive_pieces n v 0 ps u = OK (SUCCESS, u') ∧ u_data u' = u_data u
     ∧ (fw_rebooting (part_get (u_app u')) = true →
        fw_rebooting (part_get (u_app u)) = true ∨ flash_upgrade (flash_of u') = true)
     ∧ (flash_works → flash_image (flash_of u') = concat ps
        ∧ fw_rebooting (part_get (u_app u')) = true ∧ flash_upgrade (flash_of u') = true)) ∧
  (data_state d ≠ GOLIOTH_OTA_STATE_DOWNLOADING → receive_pieces n v 0 ps u = OK (NEG EINVAL, u)).
Proof.
  intros D N. split.
  - intros S. destruct (ota_pieces_any d ps u 0 N D S) as (u' & E & Eu & H). exists u'. split_and!; [done..| |].
    + intros Rb. destruct H as [H|[_ H]]; [left; congruence|by right].
    + intros F. destruct (ota_pieces_run d ps u 0 F N) as (u2 & E2 & _ & H2); [lia|done..|].
      rewrite E in E2. by injection E2 as <-.
  - intros S. assert (∀ p off last,
      golioth_ota_receive_component registered n v off (Some p) (len p) last u = OK (NEG EINVAL, u)) as R.
    { intros p off last. rewrite (receive_component_run registered i r n v off _ _ _ u d Honly D).
      by rewrite decide_False. }
    revert N. generalize 0. induction ps as [|p [|p2 ps] IH]; intros off N; [done|apply R|].
    rewrite receive_pieces_cons, (st_bind_OK _ _ _ _ _ (R p off false)). by apply IH.
Qed.

End Install.

End FwUpdate.

(** * A concrete flash *)

Module NativeFlash.

(** The image, whether an upgrade was requested, and the results of the writes to come. *)
Record state := State { image : list byte; upgrade : bool; results : list bool }.

#[export, refine] Instance flash : Flash := {|
  flash_state := state; flash_image := image; flash_upgrade := upgrade;
  flash_img_init f := (SUCCESS, State [] (upgrade f) (results f));
  flash_img_buffered_write d _ f :=
    if hd true (results f) then (SUCCESS, State (image f ++ d) (upgrade f) (tl (results f)))
    else (NEG EIO, State (image f) (upgrade f) (tl (results f)));
  boot_request_upgrade f := (SUCCESS, State (image f) true (results f));
|}.
Proof.
  - done.
  - done.
  - intros d l f. by destruct (hd true (results f)).
  - intros d l f. by destruct (hd true (results f)).
  - done.
  - done.
Defined.
End NativeFlash.

Module FwUpdateWitness.
#[local] Existing Instances NativeFlash.flash OtaUpperWitness.ota_config.

#[local, refine] Instance fw_part : Part fw fw := {| part_get f := f; part_set f _ := f |}.
Proof. done. Defined.

(** The component "main" of version "1", and what its manifest asks for. *)
Definition main : golioth_ota_registered_component fw :=
  Registered ["m"; "a"; "i"; "n"]%byte ["1"]%byte ota_main_receive.
Definition ex_data (v : byte) (s : golioth_ota_state) : component_data :=
  ComponentData (strncpy [v] 32) (replicate 32 x00) 3 s.
Definition ex_fw (results : list bool) : fw := Fw (NativeFlash.State [x00] false results) false.
Definition ex_upper v s results : upper fw := Upper [ex_data v s] (ex_fw results).

Lemma ex_distinct : distinct_names [main].
Proof. intros [|i] [|j] r r' E E' _; try done; by destruct i || destruct j. Qed.

Lemma ex_wf v s : all_wf [main] [ex_data v s].
Proof. split; [done|]. constructor; [|constructor]. split; [|done].
  apply (len_strncpy [v] 32). lia. Qed.

Lemma manifest_marks_witness :
  golioth_ota_manifest_complete [main] [ota_manifest_receive [main]]
      (ex_upper "2"%byte GOLIOTH_OTA_STATE_IDLE [])
    = OK (tt, ex_upper "2"%byte GOLIOTH_OTA_STATE_DOWNLOADING []).
Proof.
  rewrite (manifest_marks [main] (ex_upper "2"%byte GOLIOTH_OTA_STATE_IDLE [])).
  - reflexivity.
  - apply ex_wf.
  - done.
  - apply ex_distinct.
Defined.

Lemma ex_main_only : only [main] 0 main ["m"; "a"; "i"; "n"]%byte.
Proof. split; [done|done|]. by intros [|[|j]] r' E N. Qed.

(** A flash whose writes never fail. *)
Module GoodFlash.
#[refine] Definition flash : Flash := {|
  flash_state := list byte * bool; flash_image := fst; flash_upgrade := snd;
  flash_img_init f := (SUCCESS, ([], f.2)); flash_img_buffered_write d _ f := (SUCCESS, (f.1 ++ d, f.2));
  boot_request_upgrade f := (SUCCESS, (f.1, true)) |}.
Proof. all: done. Defined.
End GoodFlash.

#[local, refine] Instance good_part : Part (fw (FL := GoodFlash.flash)) (fw (FL := GoodFlash.flash)) :=
  {| part_get f := f; part_set f _ := f |}.
Proof. done. Defined.

Definition good_main : golioth_ota_registered_component (fw (FL := GoodFlash.flash)) :=
  Registered ["m"; "a"; "i"; "n"]%byte ["1"]%byte (ota_main_receive (FL := GoodFlash.flash)).
Definition good_upper : upper (fw (FL := GoodFlash.flash)) :=
  Upper [ex_data "2"%byte GOLIOTH_OTA_STATE_DOWNLOADING] (Fw (FL := GoodFlash.flash) ([x00], false) false).

Lemma good_only : only [good_main] 0 good_main ["m"; "a"; "i"; "n"]%byte.
Proof. split; [done|done|]. by intros [|[|j]] r' E N. Qed.
Lemma good_works : flash_works (FL := GoodFlash.flash).
Proof. by split. Qed.

Lemma image_installed_witness :
  ∃ u', receive_pieces [good_main] ["m"; "a"; "i"; "n"]%byte ["2"]%byte 0 [[x01; x02]; [x03]] good_upper
      = OK (SUCCESS, u')
    ∧ (fw_flash (FL := GoodFlash.flash) (u_app u')).1 = [x01; x02; x03].
Proof.
  destruct (image_installed [good_main] 0 good_main ["m"; "a"; "i"; "n"]%byte ["2"]%byte good_only eq_refl
    good_upper (ex_data "2"%byte GOLIOTH_OTA_STATE_DOWNLOADING) [[x01; x02]; [x03]] eq_refl ltac:(done)) as [H _].
  destruct (H eq_refl) as (u' & E & _ & _ & I). exists u'. split; [exact E|]. by destruct (I good_works).
Defined.

(** A write that fails is only logged: the pieces after it are written behind the gap, and the upgrade
    is requested all the same. *)
Example failed_write_upgrades :
  receive_pieces [main] ["m"; "a"; "i"; "n"]%byte ["2"]%byte 0 [[x01]; [x02]; [x03]]
      (ex_upper "2"%byte GOLIOTH_OTA_STATE_DOWNLOADING [true; false])
    = OK (SUCCESS, Upper [ex_data "2"%byte GOLIOTH_OTA_STATE_DOWNLOADING]
            (Fw (NativeFlash.State [x01; x03] true []) true)).
Proof. reflexivity. Qed.

End FwUpdateWitness.
