(* ===== verification/ZcborEncode.v ===== *)
(** Encoding CBOR: the part of the zcbor library the program encodes its reports with.

    The library is not part of the repository: [ZcborEncode] has the functions, [ZcborBuilds] what they
    are documented to do: an encoder that has not failed holds the items put so far, and its bytes are
    the encoding of a complete item. *)
From S2P Require Import Prelude Platform Zcbor.

(** [zcbor_new_encode_state n] is for a buffer of [n] bytes; [enc_payload] are the bytes up to
    [zse->payload]. *)
Class ZcborEncode := {
  enc_state : Type;
  zcbor_new_encode_state : Z → enc_state;
  enc_payload : enc_state → list byte;
  zcbor_map_start_encode : Z → enc_state → bool * enc_state;
  zcbor_map_end_encode : Z → enc_state → bool * enc_state;
  zcbor_tstr_put : list byte → enc_state → bool * enc_state;
  zcbor_uint32_put : Z → enc_state → bool * enc_state;
  zcbor_int64_put : Z → enc_state → bool * enc_state;
  zcbor_nil_put : enc_state → bool * enc_state;
}.

(** The containers that are open, the innermost first, with what has been put in them. *)
Class ZcborBuilds (ZE : ZcborEncode) {ZC : Zcbor} (ZR : ZcborReads ZC) := {
  builds : Z → enc_state → list (list item) → Prop;
  new_builds n : 0 ≤ n → builds n (zcbor_new_encode_state n) [[]];
  map_start_builds n k s s' st : builds n s st → zcbor_map_start_encode k s = (true, s') →
    builds n s' ([] :: st);
  map_end_builds n k s s' kvs l st : builds n s (flat kvs :: l :: st) →
    zcbor_map_end_encode k s = (true, s') → builds n s' ((l ++ [CMap kvs]) :: st);
  tstr_builds n b s s' l st : builds n s (l :: st) → zcbor_tstr_put b s = (true, s') →
    builds n s' ((l ++ [CTstr b]) :: st);
  uint32_builds n v s s' l st : builds n s (l :: st) → 0 ≤ v < 4294967296 →
    zcbor_uint32_put v s = (true, s') → builds n s' ((l ++ [CInt v]) :: st);
  int64_builds n v s s' l st : builds n s (l :: st) →
    -9223372036854775808 ≤ v < 9223372036854775808 →
    zcbor_int64_put v s = (true, s') → builds n s' ((l ++ [CInt v]) :: st);
  nil_builds n s s' l st : builds n s (l :: st) → zcbor_nil_put s = (true, s') →
    builds n s' ((l ++ [CNil]) :: st);
  payload_encodes n s x : builds n s [[x]] →
    encodes (enc_payload s) x ∧ 1 ≤ len (enc_payload s) ≤ n;
}.

(** A step of an encoding that goes on when it succeeds. *)
Definition put {ZE : ZcborEncode} (r : bool * enc_state) : option enc_state :=
  if r.1 then Some r.2 else None.

Section Puts.
Context {ZE : ZcborEncode} {ZC : Zcbor} {ZR : ZcborReads ZC} {ZB : ZcborBuilds ZE ZR}.

Lemma put_Some r s : put r = Some s → r = (true, s).
Proof. destruct r as [[] s']; [|done]. by intros [= ->]. Qed.

(** A key and its value. *)
Definition put_pair (key : list byte) (f : enc_state → bool * enc_state) (s : enc_state) : option enc_state :=
  s ← put (zcbor_tstr_put key s); put (f s).

Lemma put_pair_builds n key f x s s' l st :
  (∀ s s' l, builds n s (l :: st) → f s = (true, s') → builds n s' ((l ++ [x]) :: st)) →
  builds n s (l :: st) → put_pair key f s = Some s' → builds n s' ((l ++ [CTstr key; x]) :: st).
Proof.
  intros F B H. unfold put_pair in H. apply bind_Some in H as (s1 & E1 & E2).
  apply put_Some in E1, E2. apply (tstr_builds _ _ _ _ _ _ B) in E1. apply (F _ _ _ E1) in E2.
  by rewrite <- app_assoc in E2.
Qed.

Lemma put_pair_tstr n key b s s' l st :
  put_pair key (zcbor_tstr_put b) s = Some s' → builds n s (l :: st) →
  builds n s' ((l ++ [CTstr key; CTstr b]) :: st).
Proof.
  intros H B. apply (put_pair_builds n key (zcbor_tstr_put b) (CTstr b) s); [|done..].
  intros s1 s2 k B1 P. by apply (tstr_builds _ _ _ _ _ _ B1).
Qed.

Lemma put_pair_uint32 n key v s s' l st :
  put_pair key (zcbor_uint32_put v) s = Some s' → builds n s (l :: st) → 0 ≤ v < 4294967296 →
  builds n s' ((l ++ [CTstr key; CInt v]) :: st).
Proof.
  intros H B R. apply (put_pair_builds n key (zcbor_uint32_put v) (CInt v) s); [|done..].
  intros s1 s2 k B1 P. by apply (uint32_builds _ _ _ _ _ _ B1).
Qed.

End Puts.

(** * A concrete encoder *)

Module NativeEncode.
Import NativeZcbor.

(** Initial byte and argument, for arguments up to 255. *)
Definition head_bytes (m a : Z) : list byte :=
  if a <? 24 then [byte_of_Z (32 * m + a)] else [byte_of_Z (32 * m + 24); byte_of_Z a].

Fixpoint emit (x : cbor Z) : list byte :=
  match x with
  | CInt n => if 0 <=? n then head_bytes 0 n else head_bytes 1 (-1 - n)
  | CTstr s => head_bytes 3 (len s) ++ s
  | CList l => head_bytes 4 (len l) ++ concat (map emit l)
  | CMap kvs => head_bytes 5 (len kvs) ++ concat (map (λ kv, emit kv.1 ++ emit kv.2) kvs)
  | CNil => [xf6]
  | CBool b => [if b then xf5 else xf4]
  | CFloat _ => []
  end.

(** The buffer's size and the open containers. *)
Record estate := Est { room_e : Z; open_e : list (list (cbor Z)) }.

Definition payload_e (s : estate) : list byte :=
  concat (map (λ l, concat (map emit l)) (rev (open_e s))).

Fixpoint beq (x y : cbor Z) : bool :=
  match x, y with
  | CInt n, CInt m => n =? m
  | CTstr s, CTstr t => bool_decide (s = t)
  | CList l, CList k =>
    (fix go l k := match l, k with
     | [], [] => true
     | x :: l, y :: k => beq x y && go l k
     | _, _ => false
     end) l k
  | CMap l, CMap k =>
    (fix go l k := match l, k with
     | [], [] => true
     | x :: l, y :: k => beq x.1 y.1 && beq x.2 y.2 && go l k
     | _, _ => false
     end) l k
  | CNil, CNil => true
  | CBool b, CBool c => Bool.eqb b c
  | CFloat f, CFloat g => f =? g
  | _, _ => false
  end.

Lemma beq_eq n : ∀ x y, (size x ≤ n)%nat → beq x y = true → x = y.
Proof.
  induction n as [|n IH]; intros x y S H; [pose proof (size_pos x); lia|].
  destruct x, y; simpl in H; try discriminate.
  - f_equal. by apply Z.eqb_eq.
  - f_equal. by apply bool_decide_eq_true in H.
  - f_equal. simpl in S. apply le_S_n in S. revert l0 S H.
    induction l as [|x l IHl]; intros [|y k] S H; try done. apply andb_true_iff in H as [H1 H2].
    simpl in S. f_equal; [apply IH; [lia|done]|apply IHl; [lia|done]].
  - f_equal. simpl in S. apply le_S_n in S. revert kvs0 S H.
    induction kvs as [|[a b] l IHl]; intros [|[c d] k] S H; try done.
    rewrite !andb_true_iff in H. destruct H as [[H1 H2] H3]. simpl in *.
    f_equal; [f_equal; apply IH; [lia|done|lia|done]|apply IHl; [lia|done]].
  - done.
  - f_equal. by apply Bool.eqb_prop.
  - f_equal. by apply Z.eqb_eq.
Qed.

(** The new state, when it fits and, once complete, is what is decoded again. *)
Definition complete (s : estate) : bool :=
  match open_e s with
  | [[x]] => (match parsed (payload_e s) with Some y => beq y x | None => false end) && (1 <=? len (payload_e s))
  | _ => true
  end.

Definition checked (s : estate) : bool * estate := (complete s && (len (payload_e s) <=? room_e s), s).

Definition put_item (x : cbor Z) (s : estate) : bool * estate :=
  match open_e s with
  | l :: st => checked (Est (room_e s) ((l ++ [x]) :: st))
  | [] => (false, s)
  end.

Fixpoint pairs (l : list (cbor Z)) : list (cbor Z * cbor Z) :=
  match l with k :: v :: l => (k, v) :: pairs l | _ => [] end.

Lemma pairs_flat kvs : pairs (flat kvs) = kvs.
Proof. induction kvs as [|[k v] kvs IH]; [done|]. cbn. by rewrite <- IH at 2. Qed.

#[export] Instance encode : ZcborEncode := {|
  enc_state := estate;
  zcbor_new_encode_state n := Est n [[]];
  enc_payload := payload_e;
  zcbor_map_start_encode _ s := checked (Est (room_e s) ([] :: open_e s));
  zcbor_map_end_encode _ s := match open_e s with
    | kvs :: l :: st => checked (Est (room_e s) ((l ++ [CMap (pairs kvs)]) :: st))
    | _ => (false, s)
    end;
  zcbor_tstr_put b := put_item (CTstr b);
  zcbor_uint32_put v := put_item (CInt v);
  zcbor_int64_put v := put_item (CInt v);
  zcbor_nil_put := put_item CNil;
|}.

(** Holding the items, within the buffer. *)
Definition builds_e (n : Z) (s : estate) (st : list (list (cbor Z))) : Prop :=
  s = Est n st ∧ complete s = true ∧ len (payload_e s) ≤ n.

Lemma checked_builds n st s' : checked (Est n st) = (true, s') → builds_e n s' st.
Proof.
  unfold checked. intros [= [C L%Z.leb_le]%andb_true_iff <-]. by split_and!.
Qed.

Lemma put_item_builds n x s s' l st :
  builds_e n s (l :: st) → put_item x s = (true, s') → builds_e n s' ((l ++ [x]) :: st).
Proof. intros [-> _] H. by apply checked_builds in H. Qed.

#[export, refine] Instance encode_builds : ZcborBuilds encode zcbor_reads := {| builds := builds_e |}.
Proof.
  - intros n Hn. by split_and!.
  - intros n k s s' st [-> _] H. by apply checked_builds in H.
  - intros n k s s' kvs l st [-> _] H. simpl in H. rewrite pairs_flat in H. by apply checked_builds in H.
  - intros. by eapply put_item_builds.
  - intros. by eapply put_item_builds.
  - intros. by eapply put_item_builds.
  - intros. by eapply put_item_builds.
  - intros n s x (-> & C & L). unfold complete in C. simpl in C |- *.
    destruct (parsed _) as [y|]; [|done]. apply andb_true_iff in C as [B P%Z.leb_le].
    split; [|split; [exact P|exact L]]. f_equal. by eapply beq_eq.
Qed.

End NativeEncode.
