(* ===== verification/Ota.v ===== *)
(** Over-the-air updates: src/golioth_sdk/ota.c.

    The handler of a manifest decodes it and announces every component to the application; the handlers
    of a component's stream give its data to the application that registered it; the uplink service
    reports the state of every component. *)
From S2P Require Import Prelude Platform Buf Block Crypto State Entry Header Uplink.
From S2P Require Import Dispatch Zcbor ZcborEncode OtaUpper.

(** <zephyr/sys/util.h>: [hex2bin hex buflen] are the bytes written, none when [hex] is not
    hexadecimal. *)
Class Hex := {
  hex2bin : list byte → Z → list byte;
  bin2hex : list byte → list byte;
  bin2hex_length b : len (bin2hex b) = 2 * len b;
  bin2hex_no_nul b : no_nul (bin2hex b);
  hex2bin_bin2hex b : hex2bin (bin2hex b) (len b) = b;
}.

Definition GOLIOTH_OTA_COMPONENT_HASH_HEX_LEN : Z := 64.

Definition MANIFEST_KEY_COMPONENTS : Z := 3.

Definition COMPONENT_KEY_PACKAGE : Z := 1.
Definition COMPONENT_KEY_VERSION : Z := 2.
Definition COMPONENT_KEY_HASH : Z := 3.
Definition COMPONENT_KEY_SIZE : Z := 4.

(** [downlink_id], [offset] (a size_t) and the arrays. *)
Record component_download := Download {
  dl_id : Z;
  dl_offset : Z;
  dl_name : list byte;
  dl_version : list byte;
}.

Section Ota.
Context {OC : OtaConfig} {HX : Hex} {ZC : Zcbor} {A : Type}.
Context (registered : list (golioth_ota_registered_component A)).
Context (handlers : list (list golioth_ota_manifest_component → upper A → outcome (upper A))).

(** * The manifest *)

(** The local variables [component] and [hash_str], and the state of ota_upper.c. *)
Record manifest_memory := Mem {
  m_component : golioth_ota_component;
  m_hash_str : list byte;
  m_upper : upper A;
}.

Abbreviation decoder := (st (zcbor_state * manifest_memory)).

(** The array a [component_tstr_value] points to. *)
Record component_tstr_value := TstrValue {
  value : manifest_memory → list byte;
  value_set : list byte → manifest_memory → manifest_memory;
}.

Definition package_value : component_tstr_value :=
  TstrValue (λ m, package (m_component m))
    (λ a m, let c := m_component m in
            Mem (Component a (version c) (hash c) (comp_size c)) (m_hash_str m) (m_upper m)).
Definition version_value : component_tstr_value :=
  TstrValue (λ m, version (m_component m))
    (λ a m, let c := m_component m in
            Mem (Component (package c) a (hash c) (comp_size c)) (m_hash_str m) (m_upper m)).
Definition hash_value : component_tstr_value :=
  TstrValue m_hash_str (λ a m, Mem (m_component m) a (m_upper m)).
Definition size_set (n : Z) (m : manifest_memory) : manifest_memory :=
  let c := m_component m in
  Mem (Component (package c) (version c) (hash c) n) (m_hash_str m) (m_upper m).

(** [value_len] is one less than the array's size. *)
Definition component_entry_decode_value (v : component_tstr_value) : decoder status :=
  ok ← zcbor zcbor_tstr_decode;
  match ok with
  | None => mret (NEG EBADMSG)
  | Some tstr =>
    a ← gets (λ s, value v s.2);
    let n := len (str_bytes tstr) in
    if len a - 1 <? n then mret (NEG ENOMEM) else
    a ← lift (array_store 0 (str_bytes tstr) a);
    a ← lift (array_store n [x00] a);
    modify (λ s, (s.1, value_set v a s.2));;
    mret SUCCESS
  end.

Definition map_entries : list (zcbor_map_entry manifest_memory) :=
  [ZCBOR_U32_MAP_ENTRY COMPONENT_KEY_PACKAGE (component_entry_decode_value package_value);
   ZCBOR_U32_MAP_ENTRY COMPONENT_KEY_VERSION (component_entry_decode_value version_value);
   ZCBOR_U32_MAP_ENTRY COMPONENT_KEY_SIZE (zcbor_map_int32_decode size_set);
   ZCBOR_U32_MAP_ENTRY COMPONENT_KEY_HASH (component_entry_decode_value hash_value)].

Definition zeros (n : Z) : list byte := replicate (Z.to_nat n) x00.

(** As initialised by [{}]. *)
Definition component_zero : golioth_ota_component :=
  Component (zeros (CONFIG_GOLIOTH_OTA_MAX_PACKAGE_NAME_LEN + 1))
    (zeros (CONFIG_GOLIOTH_OTA_MAX_VERSION_LEN + 1)) (zeros GOLIOTH_OTA_COMPONENT_HASH_BIN_LEN) 0.

(** A call of ota_upper.c. *)
Definition in_upper {B} (m : st (upper A) B) : decoder B := λ s,
  match m (m_upper s.2) with
  | OK (b, u) => OK (b, (s.1, Mem (m_component s.2) (m_hash_str s.2) u))
  | Fault => Fault
  end.

(** A pass of the loop over the components. The loop ends with [false] to return from the function. *)
Definition components_pass (_ : unit) : decoder (unit + bool) :=
  done ← zcbor_list_or_map_end;
  if done : bool then mret (inr true) else
  modify (λ s, (s.1, Mem component_zero (m_hash_str s.2) (m_upper s.2)));;
  err ← zcbor_map_decode map_entries;
  match err with
  | Some _ => mret (inr false)
  | None =>
    hash_str ← gets (λ s, m_hash_str s.2);
    hex ← lift (load hash_str GOLIOTH_OTA_COMPONENT_HASH_HEX_LEN);
    let hash := hex2bin hex GOLIOTH_OTA_COMPONENT_HASH_BIN_LEN in
    c ← gets (λ s, m_component s.2);
    a ← lift (array_store 0 hash (OtaUpper.hash c));
    modify (λ s, (s.1, Mem (Component (package c) (version c) a (comp_size c)) (m_hash_str s.2) (m_upper s.2)));;
    if negb (GOLIOTH_OTA_COMPONENT_HASH_BIN_LEN =? len hash) then mret (inr false) else
    component ← gets (λ s, m_component s.2);
    in_upper (golioth_ota_manifest_receive_one registered component);;
    mret (inl tt)
  end.

(** A pass of the loop over the manifest; it ends when the function returns. *)
Definition manifest_pass (_ : unit) : decoder (unit + unit) :=
  done ← zcbor_list_or_map_end;
  if done : bool then mret (inr tt) else
  key ← zcbor zcbor_uint32_decode;
  match key with
  | None => mret (inr tt)
  | Some key =>
    if MANIFEST_KEY_COMPONENTS =? key then
      ok ← zcbor zcbor_list_start_decode;
      if negb (ok : bool) then mret (inr tt) else
      left ← gets (λ s, zcbor_left s.1);
      ok ← loop (S left) components_pass tt;
      if negb (ok : bool) then mret (inr tt) else
      in_upper (golioth_ota_manifest_complete registered handlers);;
      ok ← zcbor_list_or_map_end;
      mret (if ok : bool then inl tt else inr tt)
    else
      ok ← zcbor zcbor_any_skip;
      mret (if ok : bool then inl tt else inr tt)
  end.

(** Every pass but the last decodes at least a byte. *)
Definition manifest_decode : decoder unit :=
  ok ← zcbor zcbor_map_start_decode;
  if negb (ok : bool) then mret tt else
  left ← gets (λ s, zcbor_left s.1);
  loop (S left) manifest_pass tt.

(** The bytes at [data]; NULL has none. *)
Definition input (data : option (list byte)) (n : Z) : outcome (list byte) :=
  match data with
  | Some d => load d n
  | None => guard (n =? 0);; OK []
  end.

(** [hash_str] is not initialised; it is [junk]. *)
Definition ota_receive_manifest (junk : list byte) (id : Z) (data : option (list byte)) (n : Z)
    (is_last : bool) (u : upper A) : outcome (upper A) :=
  d ← input data n;
  '(_, s) ← manifest_decode (zcbor_new_decode_state 3 d, Mem component_zero junk u);
  OK (m_upper s.2).

(** * Components *)

(** The static [component_download], and ota_upper.c. *)
Record ota_state := Ota { o_download : component_download; o_upper : upper A }.

Definition ota_receive_component_start (id : Z) (path_remainder : option (list byte)) (o : ota_state)
    : outcome ota_state :=
  path_remainder ← of_ptr path_remainder;
  let c := o_download o in
  match strchr path_remainder "@"%byte with
  | Some name_len =>
    name ← array_store 0 (strncpy path_remainder name_len) (dl_name c);
    name ← array_store name_len [x00] name;
    version ← array_store 0 (strncpy (zdrop (name_len + 1) path_remainder) (len (dl_version c))) (dl_version c);
    version ← array_store (len version - 1) [x00] version;
    OK (Ota (Download id 0 name version) (o_upper o))
  | None => OK (Ota (Download DOWNLINK_ID_INVALID (dl_offset c) (dl_name c) (dl_version c)) (o_upper o))
  end.

Definition ota_receive_component_data (id : Z) (data : option (list byte)) (n : Z) (is_last : bool)
    (o : ota_state) : outcome ota_state :=
  let c := o_download o in
  if decide (DOWNLINK_ID_INVALID ≠ dl_id c) then
    '(_, u) ← golioth_ota_receive_component registered (dl_name c) (dl_version c) (dl_offset c) data n is_last
                (o_upper o);
    OK (Ota (Download (dl_id c) (u32 (dl_offset c + n)) (dl_name c) (dl_version c)) u)
  else OK o.

(** The services ota.c registers: "/.u/desired" and "/.u/c/*". *)
Definition GOLIOTH_OTA_MANIFEST_PATH : list byte :=
  ["/"; "."; "u"; "/"; "d"; "e"; "s"; "i"; "r"; "e"; "d"]%byte.
Definition GOLIOTH_OTA_COMPONENT_PATH_PREFIX : list byte := ["."; "u"; "/"; "c"; "/"]%byte.

Definition ota_manifest (junk : list byte) : golioth_downlink_service ota_state :=
  Service GOLIOTH_OTA_MANIFEST_PATH None
    (λ id data n last o, u ← ota_receive_manifest junk id data n last (o_upper o); OK (Ota (o_download o) u)).
Definition ota_component : golioth_downlink_service ota_state :=
  Service ("/"%byte :: GOLIOTH_OTA_COMPONENT_PATH_PREFIX ++ ["*"%byte])
    (Some ota_receive_component_start) ota_receive_component_data.

End Ota.
Arguments manifest_memory : clear implicits.
Arguments ota_state : clear implicits.

(** * Reading a manifest *)

Section Manifest.
Context {OC : OtaConfig} {HX : Hex} {ZC : Zcbor} {ZR : ZcborReads ZC} {ZP : ZcborProgress ZC} {A : Type}.
Context (registered : list (golioth_ota_registered_component A)).
Context (handlers : list (list golioth_ota_manifest_component → upper A → outcome (upper A))).
Implicit Types (m : manifest_memory A) (c : golioth_ota_component) (u : upper A).

(** The arrays have their sizes. *)
Record mem_wf m : Prop := {
  mw_package : len (package (m_component m)) = CONFIG_GOLIOTH_OTA_MAX_PACKAGE_NAME_LEN + 1;
  mw_version : len (version (m_component m)) = CONFIG_GOLIOTH_OTA_MAX_VERSION_LEN + 1;
  mw_hash_str : len (m_hash_str m) = GOLIOTH_OTA_COMPONENT_HASH_HEX_LEN + 1;
}.

(** A string stored in an array. *)
Definition stored (s a : list byte) : list byte := s ++ x00 :: zdrop (len s + 1) a.

Lemma len_stored s a : len s < len a → len (stored s a) = len a.
Proof. intros. unfold stored. solve_len. Qed.

Lemma stored_twice s a : len s < len a → stored s (stored s a) = stored s a.
Proof.
  intros L. unfold stored at 1 3. do 2 f_equal. unfold stored.
  change (s ++ x00 :: zdrop (len s + 1) a) with (s ++ [x00] ++ zdrop (len s + 1) a).
  rewrite app_assoc. apply drop_app_exact. solve_len.
Qed.

Lemma cstr_stored s a : no_nul s → cstr (stored s a) = s.
Proof. apply cstr_app_nul. Qed.

Lemma store_string s a :
  len s < len a → (a ← array_store 0 s a; array_store (len s) [x00] a) = OK (stored s a).
Proof.
  intros L. rewrite array_store_all by lia. rewrite bind_OK. unfold array_store, stored.
  rewrite guard_true by (rewrite andb_true_iff, !Z.leb_le; solve_len). rewrite bind_OK. f_equal.
  rewrite take_app_exact by lia. f_equal. simpl app. f_equal.
  rewrite drop_app_ge by (simpl; lia). rewrite drop_drop. f_equal. simpl; lia.
Qed.

Lemma decodes_value n d (v : component_tstr_value (A := A)) s (inv : manifest_memory A → Prop) :
  (∀ m, inv m → len s < len (value v m)) → (∀ m, inv m → inv (value_set v (stored s (value v m)) m)) →
  decodes inv n d (component_entry_decode_value v) (CTstr s) (λ m, value_set v (stored s (value v m)) m).
Proof.
  intros L I z l up m Im _ R. destruct (tstr_reads _ _ _ _ _ R) as (a & z' & E & R'). exists z'.
  split; [|by split; [|apply I]]. unfold component_entry_decode_value.
  rewrite (st_bind_OK _ _ _ _ _ (zcbor_run _ _ m _ _ E)).
  rewrite (st_bind_OK _ (gets _) _ (value v m) (z', m)) by done. cbn [str_bytes].
  specialize (L m Im). rewrite (proj2 (Z.ltb_ge _ _)) by lia.
  pose proof (store_string s (value v m) L) as S. apply bind_OK_inv in S as (a1 & E1 & E2).
  by rewrite (lift_bind_OK _ _ _ _ E1), (lift_bind_OK _ _ _ _ E2).
Qed.

Lemma moves_value (v : component_tstr_value (A := A)) : moves (component_entry_decode_value v).
Proof. unfold component_entry_decode_value. moves. Qed.

Lemma map_entries_move : Forall (λ e, moves (decode e)) (map_entries (A := A)).
Proof.
  unfold map_entries. rewrite !Forall_cons. split_and!;
    [apply moves_value|apply moves_value|apply moves_int32_decode|apply moves_value|done].
Qed.

(** ** What a map says of a component *)

(** The value of key [k]. *)
Definition field (k : Z) c : item :=
  match k with
  | 1 => CTstr (package c) | 2 => CTstr (version c) | 3 => CTstr (bin2hex (hash c)) | _ => CInt (comp_size c)
  end.

Definition key_asked (x : item) : bool :=
  match x with CInt n => (1 <=? n) && (n <=? 4) | _ => false end.

Definition asked (kvs : list (item * item)) : nat := length (filter (λ kv, key_asked kv.1 = true) kvs).

(** The strings of a component that fit. *)
Record component_fits c : Prop := {
  cf_package : no_nul (package c) ∧ len (package c) ≤ CONFIG_GOLIOTH_OTA_MAX_PACKAGE_NAME_LEN;
  cf_version : no_nul (version c) ∧ len (version c) ≤ CONFIG_GOLIOTH_OTA_MAX_VERSION_LEN;
  cf_hash : len (hash c) = GOLIOTH_OTA_COMPONENT_HASH_BIN_LEN;
  cf_size : -2147483648 ≤ comp_size c < 2147483648;
}.

(** The map has the four keys, the last of them last, among other integer keys. Behind the last of the
    four the code does not read on but has zcbor end the map by force; what that does in the middle of a
    map is not part of the model. *)
Record describes (kvs : list (item * item)) c : Prop := {
  ds_fits : component_fits c;
  ds_keys : ∀ kv, kv ∈ kvs → ∃ n, kv.1 = CInt n ∧ 0 ≤ n < 4294967296;
  ds_values : ∀ k x, (CInt k, x) ∈ kvs → 1 ≤ k ≤ 4 → x = field k c;
  ds_all : ∀ k, 1 ≤ k ≤ 4 → ∃ x, (CInt k, x) ∈ kvs;
  ds_asked : asked kvs = 4%nat;
  ds_last : ∀ j, (j < length kvs)%nat → (asked (take j kvs) < 4)%nat;
}.

(** The effects of the four values on the memory. *)
Definition component_eff (i : nat) (x : item) m : manifest_memory A :=
  match i, x with
  | 0%nat, CTstr s => value_set package_value (stored s (value package_value m)) m
  | 1%nat, CTstr s => value_set version_value (stored s (value version_value m)) m
  | 2%nat, CInt n => size_set n m
  | 3%nat, CTstr s => value_set hash_value (stored s (value hash_value m)) m
  | _, _ => m
  end.

(** The entry of key [n]: package, version, size, hash. *)
Lemma requested_key n :
  requested (map_entries (A := A)) (CInt n) =
    if n =? 1 then Some (0%nat, ZCBOR_U32_MAP_ENTRY 1 (component_entry_decode_value package_value))
    else if n =? 2 then Some (1%nat, ZCBOR_U32_MAP_ENTRY 2 (component_entry_decode_value version_value))
    else if n =? 4 then Some (2%nat, ZCBOR_U32_MAP_ENTRY 4 (zcbor_map_int32_decode size_set))
    else if n =? 3 then Some (3%nat, ZCBOR_U32_MAP_ENTRY 3 (component_entry_decode_value hash_value))
    else None.
Proof.
  unfold map_entries. rewrite !requested_cons, !key_is_u32.
  unfold COMPONENT_KEY_PACKAGE, COMPONENT_KEY_VERSION, COMPONENT_KEY_SIZE, COMPONENT_KEY_HASH.
  destruct (n =? 1); [done|]. destruct (n =? 2); [done|]. destruct (n =? 4); [done|]. by destruct (n =? 3).
Qed.

Lemma requested_asked (kv : item * item) n : kv.1 = CInt n →
  is_Some (requested (map_entries (A := A)) kv.1) ↔ key_asked kv.1 = true.
Proof.
  intros ->. rewrite requested_key. simpl. rewrite andb_true_iff, !Z.leb_le.
  destruct (Z.eqb_spec n 1); [split; [lia|by eexists]|].
  destruct (Z.eqb_spec n 2); [split; [lia|by eexists]|].
  destruct (Z.eqb_spec n 4); [split; [lia|by eexists]|].
  destruct (Z.eqb_spec n 3); [split; [lia|by eexists]|]. split; [by intros []|lia].
Qed.

Lemma count_asked kvs : (∀ kv, kv ∈ kvs → ∃ n, kv.1 = CInt n ∧ 0 ≤ n < 4294967296) →
  count (map_entries (A := A)) kvs = asked kvs.
Proof.
  intros K. unfold count, asked. induction kvs as [|kv kvs IH]; [done|].
  rewrite !filter_cons. destruct (K kv ltac:(left)) as (n & E & _). pose proof (requested_asked kv n E) as Q.
  destruct (decide (key_asked kv.1 = true)) as [D|D].
  - rewrite decide_True by (by apply Q). simpl. f_equal. apply IH. intros; apply K; by right.
  - rewrite decide_False by (by rewrite Q). apply IH. intros; apply K; by right.
Qed.

Lemma describes_readable n kvs c : describes kvs c →
  readable (map_entries (A := A)) mem_wf n 3 component_eff kvs.
Proof.
  intros [[[NP LP] [NV LV] LH SZ] K Vs _ _ _]. split.
  - intros kv e Hk He. destruct (K kv Hk) as (k & -> & R). unfold map_entries in He.
    rewrite !elem_of_cons, elem_of_nil in He. by destruct He as [->|[->|[->|[->|[]]]]].
  - intros [kx x] i e Hk Rq. destruct (K _ Hk) as (k & E & R). cbn [fst] in E, Rq. subst kx.
    rewrite requested_key in Rq.
    destruct (Z.eqb_spec k 1) as [Ek|]; [rewrite Ek in Hk; injection Rq as <- <-|].
    { simpl snd. rewrite (Vs 1 x Hk) by lia. apply decodes_value.
      - intros m [P _ _]. simpl. lia.
      - intros m [P V H]. split; simpl; [rewrite len_stored; lia|done..]. }
    destruct (Z.eqb_spec k 2) as [Ek|]; [rewrite Ek in Hk; injection Rq as <- <-|].
    { simpl snd. rewrite (Vs 2 x Hk) by lia. apply decodes_value.
      - intros m [_ V _]. simpl. lia.
      - intros m [P V H]. split; simpl; [done|rewrite len_stored; lia|done]. }
    destruct (Z.eqb_spec k 4) as [Ek|]; [rewrite Ek in Hk; injection Rq as <- <-|].
    { simpl snd. rewrite (Vs 4 x Hk) by lia. simpl.
      apply (decodes_int32 mem_wf n 3 (comp_size c) size_set SZ). by intros m []. }
    destruct (Z.eqb_spec k 3) as [Ek|]; [rewrite Ek in Hk; injection Rq as <- <-|done].
    simpl snd. rewrite (Vs 3 x Hk) by lia. pose proof (bin2hex_length (hash c)) as LB.
    rewrite LH in LB. apply decodes_value.
    + intros m [_ _ H]. simpl in *. rewrite H, LB. unfold GOLIOTH_OTA_COMPONENT_HASH_BIN_LEN,
        GOLIOTH_OTA_COMPONENT_HASH_HEX_LEN. lia.
    + intros m [P V H]. split; simpl in *; [done..|]. rewrite len_stored; [done|].
      rewrite H, LB. unfold GOLIOTH_OTA_COMPONENT_HASH_BIN_LEN, GOLIOTH_OTA_COMPONENT_HASH_HEX_LEN. lia.
Qed.

(** A part [f] of the memory that only key [k] changes, from one of [P] to [t]. *)
Lemma effects_field {T} (f : manifest_memory A → T) (P : T → Prop) (k : Z) (t : T) kvs :
  P t →
  (∀ kv m, kv ∈ kvs → P (f m) → kv.1 = CInt k → f (effects map_entries component_eff [kv] m) = t) →
  (∀ kv m, kv ∈ kvs → kv.1 ≠ CInt k → f (effects map_entries component_eff [kv] m) = f m) →
  ∀ m, P (f m) → f m = t ∨ (∃ x, (CInt k, x) ∈ kvs) → f (effects map_entries component_eff kvs m) = t.
Proof.
  intros Pt S O. induction kvs as [|kv kvs IH]; intros m Pm H.
  { destruct H as [H|(x & H)]; [done|by apply elem_of_nil in H]. }
  change (effects map_entries component_eff (kv :: kvs) m) with
    (effects map_entries component_eff kvs (effects map_entries component_eff [kv] m)).
  assert (kv.1 = CInt k ∨ kv.1 ≠ CInt k) as [E|N].
  { destruct (kv.1) as [n| | | | | |]; try (by right). destruct (decide (n = k)) as [->|]; [by left|right].
    by intros [=]. }
  - rewrite IH; [done|..].
    + intros kv' m' H'. apply S. by right.
    + intros kv' m' H'. apply O. by right.
    + rewrite S by (done || left). done.
    + left. apply S; [left|done..].
  - apply IH.
    + intros kv' m' H'. apply S. by right.
    + intros kv' m' H'. apply O. by right.
    + by rewrite O by (done || left).
    + rewrite O by (done || left). destruct H as [H|(x & H)]; [by left|right].
      apply elem_of_cons in H as [H|H]; [by subst kv|by exists x].
Qed.

(** The component as it is in memory. *)
Definition in_memory c : golioth_ota_component :=
  Component (stored (package c) (package component_zero)) (stored (version c) (version component_zero))
    (hash component_zero) (comp_size c).

(** The effect of the value of key [n]. *)
Definition key_effect (n : Z) (x : item) m : manifest_memory A :=
  if n =? 1 then component_eff 0 x m else if n =? 2 then component_eff 1 x m
  else if n =? 4 then component_eff 2 x m else if n =? 3 then component_eff 3 x m else m.

Lemma effects_key n x m : effects map_entries component_eff [(CInt n, x)] m = key_effect n x m.
Proof. unfold effects, key_effect. cbn [foldl fst snd]. rewrite requested_key. by repeat case_match; simplify_eq. Qed.

Lemma component_field {T} (f : manifest_memory A → T) k t kvs c m :
  describes kvs c → 1 ≤ k ≤ 4 →
  (∀ m', f m' = f m ∨ f m' = t → f (key_effect k (field k c) m') = t) →
  (∀ n x m', n ≠ k → f (key_effect n x m') = f m') →
  f (effects map_entries component_eff kvs m) = t.
Proof.
  intros [_ K Vs Al _ _] R S O. apply (effects_field f (λ y, y = f m ∨ y = t) k t); [by right|..].
  - intros [kx x] m' H P E. simpl in E. subst kx. rewrite effects_key, (Vs k x H) by done. by apply S.
  - intros [kx x] m' H N. destruct (K _ H) as (n & E & _). simpl in E. subst kx. rewrite effects_key.
    apply O. by intros ->.
  - by left.
  - right. by apply Al.
Qed.

Lemma len_zeros n : 0 ≤ n → len (zeros n) = n.
Proof. intros. unfold zeros. solve_len. Qed.

(** The field of another key is not touched. *)
Ltac other_key :=
  intros n x m' N; unfold key_effect;
  destruct (Z.eqb_spec n 1), (Z.eqb_spec n 2), (Z.eqb_spec n 4), (Z.eqb_spec n 3);
  first [lia|done|by destruct x].

Lemma describes_effects kvs c junk u :
  describes kvs c → len junk = GOLIOTH_OTA_COMPONENT_HASH_HEX_LEN + 1 →
  effects map_entries component_eff kvs (Mem component_zero junk u) =
    Mem (in_memory c) (stored (bin2hex (hash c)) junk) u.
Proof.
  intros D Lj. pose proof D as [[[NP LP] [NV LV] LH SZ] _ _ _ _ _].
  pose proof (component_field (λ m, package (m_component m)) 1
    (stored (package c) (package component_zero)) kvs c (Mem component_zero junk u) D ltac:(lia)) as Ep.
  pose proof (component_field (λ m, version (m_component m)) 2
    (stored (version c) (version component_zero)) kvs c (Mem component_zero junk u) D ltac:(lia)) as Ev.
  pose proof (component_field m_hash_str 3
    (stored (bin2hex (hash c)) junk) kvs c (Mem component_zero junk u) D ltac:(lia)) as Eh.
  pose proof (component_field (λ m, comp_size (m_component m)) 4
    (comp_size c) kvs c (Mem component_zero junk u) D ltac:(lia)) as Es.
  pose proof (component_field (λ m, hash (m_component m)) 1
    (hash component_zero) kvs c (Mem component_zero junk u) D ltac:(lia)) as Eb.
  pose proof (component_field m_upper 1 u kvs c (Mem component_zero junk u) D ltac:(lia)) as Eu.
  destruct (effects _ _ kvs _) as [[p v h sz] hs u']. simpl in *. unfold in_memory. f_equal; [f_equal|..].
  - apply Ep; [|other_key]. intros m [->| ->]; [done|]. apply stored_twice.
    pose proof MAX_PACKAGE_NAME_LEN_range. rewrite len_zeros; lia.
  - apply Ev; [|other_key]. intros m [->| ->]; [done|]. apply stored_twice.
    pose proof MAX_VERSION_LEN_range. rewrite len_zeros; lia.
  - apply Eb; [by intros m []|other_key].
  - apply Es; [done|other_key].
  - apply Eh; [|other_key]. intros m [->| ->]; [done|]. apply stored_twice. rewrite bin2hex_length, LH, Lj.
    unfold GOLIOTH_OTA_COMPONENT_HASH_BIN_LEN, GOLIOTH_OTA_COMPONENT_HASH_HEX_LEN. lia.
  - apply Eu; [by intros m []|other_key].
Qed.

(** ** The loops *)

Lemma announce_stored c pa va ds : no_nul (package c) → no_nul (version c) →
  announce registered (Component (stored (package c) pa) (stored (version c) va) (hash c) (comp_size c)) ds
    = announce registered c ds.
Proof.
  intros P V. unfold announce. apply zip_with_ext; [|done..]. intros r d.
  unfold strcmp_eq, announced, strncpy; simpl. rewrite cstr_stored, (cstr_id (package c)) by done.
  destruct (bool_decide _); [|done].
  unfold stored. by rewrite strlen_app_nul, strlen_no_nul, cstr_app_nul, cstr_id.
Qed.

(** What is left of the memory after a component. *)
Record after_component (cs : list golioth_ota_component) u m : Prop := {
  ac_hash_str : len (m_hash_str m) = GOLIOTH_OTA_COMPONENT_HASH_HEX_LEN + 1;
  ac_upper : m_upper m = Upper (foldl (λ ds c, announce registered c ds) (u_data u) cs) (u_app u);
  ac_wf : all_wf registered (u_data (m_upper m));
}.

Lemma in_upper_run {B} (f : st (upper A) B) z m b u' :
  f (m_upper m) = OK (b, u') → in_upper f (z, m) = OK (b, (z, Mem (m_component m) (m_hash_str m) u')).
Proof. intros E. unfold in_upper; simpl. by rewrite E. Qed.

Lemma components_pass_next n z kvs l up m c cs u :
  reads n z (CMap kvs :: l) up → length up = 2%nat → (2 < n)%nat → describes kvs c →
  after_component cs u m →
  ∃ z' m', components_pass registered tt (z, m) = OK (inl tt, (z', m')) ∧ reads n z' l up
    ∧ after_component (cs ++ [c]) u m'.
Proof.
  intros R Lu Ln D [H U W]. pose proof (ds_fits _ _ D) as [[NP LP] [NV LV] LH SZ].
  unfold components_pass. rewrite (st_bind_OK _ _ _ _ _ (list_or_map_end_reads n z _ up m R)).
  rewrite bool_decide_eq_false_2 by done.
  set (m1 := Mem component_zero (m_hash_str m) (m_upper m)).
  rewrite (st_bind_OK _ (modify _) _ tt (z, m1)) by done.
  assert (mem_wf m1) as Wm.
  { pose proof MAX_PACKAGE_NAME_LEN_range. pose proof MAX_VERSION_LEN_range.
    split; simpl; [rewrite len_zeros; lia|rewrite len_zeros; lia|done]. }
  destruct (map_decode_run map_entries map_entries_move mem_wf n component_eff kvs l up z m1 R)
    as (z' & E & R' & _); [lia|done|rewrite Lu; by apply (describes_readable n kvs c)| |].
  { intros j Hj. rewrite count_asked; [by apply (ds_last _ _ D)|].
    intros kv Hk. apply (ds_keys _ _ D). by apply elem_of_take in Hk as (i & Hi%list_elem_of_lookup_2 & _). }
  rewrite count_asked, (ds_asked _ _ D) in E, R' by apply (ds_keys _ _ D).
  unfold m1 in E. rewrite (describes_effects kvs c) in E by done.
  change (map_verdict map_entries 4) with SUCCESS in E, R'. rewrite (st_bind_OK _ _ _ _ _ E). clear E.
  set (m2 := Mem (in_memory c) (stored (bin2hex (hash c)) (m_hash_str m)) (m_upper m)).
  assert (len (bin2hex (hash c)) = GOLIOTH_OTA_COMPONENT_HASH_HEX_LEN) as Lh by (rewrite bin2hex_length, LH; done).
  rewrite (st_bind_OK _ (gets _) _ (m_hash_str m2) (z', m2)) by done.
  rewrite (lift_bind_OK _ _ (bin2hex (hash c))).
  2: { unfold load. simpl m_hash_str. unfold stored. rewrite guard_true.
       - rewrite bind_OK, <- Lh. by rewrite take_app_exact by lia.
       - rewrite andb_true_iff, !Z.leb_le. solve_len. }
  rewrite <- LH, hex2bin_bin2hex.
  rewrite (st_bind_OK _ (gets _) _ (m_component m2) (z', m2)) by done.
  rewrite (lift_bind_OK _ _ (hash c)).
  2: { change (OtaUpper.hash (m_component m2)) with (zeros GOLIOTH_OTA_COMPONENT_HASH_BIN_LEN).
       assert (len (zeros GOLIOTH_OTA_COMPONENT_HASH_BIN_LEN) = len (hash c)) as Lz by (rewrite LH; done).
       rewrite array_store_all by lia. by rewrite zdrop_all, app_nil_r by lia. }
  set (c' := Component (package (in_memory c)) (version (in_memory c)) (hash c) (comp_size c)).
  rewrite (st_bind_OK _ (modify _) _ tt (z', Mem c' (m_hash_str m2) (m_upper m))) by done.
  rewrite Z.eqb_refl. cbn [negb].
  rewrite (st_bind_OK _ (gets _) _ c' (z', Mem c' (m_hash_str m2) (m_upper m))) by done.
  pose proof (manifest_receive_one_run registered c' (m_upper m) W LH) as E.
  assert (announce registered c' (u_data (m_upper m)) = announce registered c (u_data (m_upper m))) as Ea
    by (by apply announce_stored).
  rewrite Ea in E.
  rewrite (st_bind_OK _ _ _ _ _ (in_upper_run _ z' (Mem c' (m_hash_str m2) (m_upper m)) _ _ E)).
  eexists _, _. split; [done|]. split; [by apply R'|]. split; simpl.
  - by rewrite len_stored by lia.
  - rewrite foldl_app; simpl. by rewrite U.
  - rewrite U; simpl. apply announce_wf; [|done]. by rewrite U in W.
Qed.

Lemma moves_in_upper {B} (f : st (upper A) B) : moves (in_upper (ZC := ZC) f).
Proof. intros s b s' H. unfold in_upper in H. destruct (f _) as [[b' u]|]; by simplify_eq. Qed.

Lemma moves_entries : moves (zcbor_map_decode (map_entries (A := A))).
Proof. apply moves_map_decode, map_entries_move. Qed.

#[local] Hint Resolve moves_in_upper moves_entries : moves.

Lemma moves_components l : moves (components_pass registered l).
Proof. unfold components_pass. moves. Qed.

#[local] Hint Resolve moves_components : moves.

Lemma takes_components l : takes (λ r, ∃ l', r = inl l') (components_pass registered l).
Proof.
  unfold components_pass. apply takes_after; [moves|]. intros []; [by apply takes_ret; intros []|].
  apply takes_after; [moves|]. intros _.
  apply takes_bind with (λ r, r ≠ NEG EBADMSG);
    [apply takes_map_decode, map_entries_move|moves|..].
  - moves.
  - intros [e|] N; [by apply takes_ret; intros []|]. by destruct N.
Qed.

Lemma takes_manifest l : takes (λ r, ∃ l', r = inl l') (manifest_pass registered handlers l).
Proof.
  unfold manifest_pass. apply takes_after; [moves|]. intros []; [by apply takes_ret; intros []|].
  apply takes_bind with (λ r, is_Some r); [|moves|..].
  - apply takes_zcbor. intros z [v H]. pose proof (left_uint32 z) as L. rewrite H in L. lia.
  - intros [k|]; [|moves]. destruct (_ =? k); [|moves]. apply moves_bind; [moves|]. intros []; cbn [negb]; [|moves].
    apply moves_bind; [moves|]. intros left. apply moves_bind; [apply moves_loop, moves_components|].
    intros []; cbn [negb]; moves.
  - intros [k|] N; [by destruct N|]. by apply takes_ret; intros [].
Qed.

Lemma components_loop n l up cs : ∀ kvss cs0 fuel z m u,
  Forall2 describes kvss cs → reads n z (map CMap kvss) (l :: up) → length up = 1%nat → (2 < n)%nat →
  after_component cs0 u m → (length kvss < fuel)%nat →
  ∃ z' m', loop fuel (components_pass registered) tt (z, m) = OK (true, (z', m'))
    ∧ reads n z' [] (l :: up) ∧ after_component (cs0 ++ cs) u m'.
Proof.
  induction cs as [|c cs IH]; intros kvss cs0 [|fuel] z m u F R Lu Ln Ac Lf; try lia; cbn [loop].
  - apply Forall2_nil_inv_r in F as ->. exists z, m. rewrite app_nil_r. split; [|done].
    unfold components_pass. unfold mbind at 1, st_bind at 1.
    by rewrite (st_bind_OK _ _ _ _ _ (list_or_map_end_reads n z [] (l :: up) m R)).
  - apply Forall2_cons_inv_r in F as (kvs & kvss' & D & F & ->).
    destruct (components_pass_next n z kvs (map CMap kvss') (l :: up) m c cs0 u R) as (z1 & m1 & E1 & R1 & A1);
      [simpl; lia|done..|].
    rewrite (st_bind_OK _ _ _ _ _ E1).
    destruct (IH kvss' (cs0 ++ [c]) fuel z1 m1 u F R1 Lu Ln A1) as (z' & m' & E' & R' & A');
      [simpl in Lf; lia|].
    exists z', m'. by rewrite <- app_assoc in A'.
Qed.

(** What happens to the components a manifest lists: the data of those registered is updated, one after
    the other, and the handlers are given the rows. *)
Definition manifest_effect (cs : list golioth_ota_component) u : outcome (upper A) :=
  let u := Upper (foldl (λ ds c, announce registered c ds) (u_data u) cs) (u_app u) in
  foldl (λ r h, r ≫= h (rows_of registered (u_data u))) (OK u) handlers.

Lemma list_pass n z kvss l up m cs u :
  Forall2 describes kvss cs → reads n z (CInt 3 :: CList (map CMap kvss) :: l) up → length up = 1%nat →
  (2 < n)%nat → after_component [] u m → registered ≠ [] →
  ∃ z' c h, reads n z' [] (l :: up)
    ∧ manifest_pass registered handlers tt (z, m) =
        (u' ← manifest_effect cs u; OK (inl tt, (z', Mem c h u'))).
Proof.
  intros F R Lu Ln Ac Nr. unfold manifest_pass.
  destruct (uint32_reads _ _ _ _ _ R ltac:(lia)) as (z1 & E1 & R1).
  destruct (list_start_reads _ _ _ _ _ R1 ltac:(lia)) as (z2 & E2 & R2).
  destruct (components_loop n l up cs kvss [] (S (zcbor_left z2) + length kvss) z2 m u F R2 Lu Ln Ac ltac:(lia))
    as (z3 & m3 & E3 & R3 & A3).
  rewrite (loop_fuel _ (λ _ s, zcbor_left s.1)) with (fuel' := S (zcbor_left z2)) in E3.
  2: { intros l1 s1 l2 s2 H. apply (takes_components l1 _ _ _ H). by exists l2. }
  2, 3: simpl; lia.
  exists z3, (m_component m3), (m_hash_str m3). split; [done|].
  rewrite (st_bind_OK _ _ _ _ _ (list_or_map_end_reads n z _ up m R)), bool_decide_eq_false_2 by done.
  rewrite (st_bind_OK _ _ _ _ _ (zcbor_run _ _ m _ _ E1)). change (MANIFEST_KEY_COMPONENTS =? 3) with true.
  cbn iota. rewrite (st_bind_OK _ _ _ _ _ (zcbor_run _ _ m _ _ E2)). cbn [negb].
  rewrite (st_bind_OK _ (gets _) _ (zcbor_left z2) (z2, m)) by done.
  rewrite (st_bind_OK _ _ _ _ _ E3). cbn [negb].
  pose proof (manifest_complete_run registered handlers (m_upper m3) (ac_wf _ _ _ A3) Nr) as C.
  pose proof (ac_upper _ _ _ A3) as U. change ([] ++ cs) with cs in U. rewrite U in C. unfold manifest_effect.
  set (r := foldl _ (OK _) handlers) in *. cbn [u_data] in C. fold r in C.
  unfold mbind at 1, st_bind at 1. unfold in_upper at 1. cbn [snd]. rewrite U, C.
  destruct r as [u'|]; [|done]. cbn [mbind outcome_bind fst].
  by rewrite (st_bind_OK _ _ _ _ _ (list_or_map_end_reads n z3 [] (l :: up) _ R3)).
Qed.

Lemma manifest_pass_end n z up m : reads n z [] up →
  manifest_pass registered handlers tt (z, m) = OK (inr tt, (z, m)).
Proof.
  intros R. unfold manifest_pass. by rewrite (st_bind_OK _ _ _ _ _ (list_or_map_end_reads n z [] up m R)).
Qed.

Lemma manifest_loop n kvss post cs u l : ∀ pre fuel z m,
  reads n z (flat (pre ++ (CInt 3, CList (map CMap kvss)) :: post)) [l] →
  (∀ kv, kv ∈ pre → ∃ k, kv.1 = CInt k ∧ 0 ≤ k < 4294967296 ∧ k ≠ 3) →
  Forall2 describes kvss cs → (2 < n)%nat → after_component [] u m → registered ≠ [] →
  (S (length pre) < fuel)%nat →
  ∃ z' c h, loop fuel (manifest_pass registered handlers) tt (z, m) =
    (u' ← manifest_effect cs u; OK (tt, (z', Mem c h u'))).
Proof.
  induction pre as [|[k x] pre IH]; intros [|fuel] z m R K F Ln Ac Nr Lf; try lia; cbn [loop].
  - destruct (list_pass n z kvss (flat post) [l] m cs u F R eq_refl Ln Ac Nr) as (z' & c & h & R' & E).
    exists z', c, h. unfold mbind at 1, st_bind at 1. rewrite E.
    destruct (manifest_effect cs u) as [u'|]; [|done]. cbn [mbind outcome_bind].
    destruct fuel as [|fuel]; [simpl in Lf; lia|]. cbn [loop].
    by rewrite (st_bind_OK _ _ _ _ _ (manifest_pass_end n z' _ (Mem c h u') R')).
  - destruct (K (k, x) ltac:(left)) as (i & E & Ri & Ni). simpl in E. subst k.
    change (flat (((CInt i, x) :: pre) ++ _)) with
      (CInt i :: x :: flat (pre ++ (CInt 3, CList (map CMap kvss)) :: post)) in R.
    destruct (uint32_reads _ _ _ _ _ R Ri) as (z1 & E1 & R1).
    destruct (any_skip_reads _ _ _ _ _ R1) as (z2 & E2 & R2).
    assert (manifest_pass registered handlers tt (z, m) = OK (inl tt, (z2, m))) as Ep.
    { unfold manifest_pass.
      rewrite (st_bind_OK _ _ _ _ _ (list_or_map_end_reads n z _ _ m R)), bool_decide_eq_false_2 by done.
      rewrite (st_bind_OK _ _ _ _ _ (zcbor_run _ _ m _ _ E1)).
      rewrite (proj2 (Z.eqb_neq MANIFEST_KEY_COMPONENTS i)) by (unfold MANIFEST_KEY_COMPONENTS; lia).
      by rewrite (st_bind_OK _ _ _ _ _ (zcbor_run _ _ m _ _ E2)). }
    rewrite (st_bind_OK _ _ _ _ _ Ep).
    apply IH; [done| |done..|simpl in Lf; lia]. intros kv H. apply K. by right.
Qed.

Lemma manifest_run junk id d pre kvss post cs last u :
  encodes d (CMap (pre ++ (CInt 3, CList (map CMap kvss)) :: post)) →
  (∀ kv, kv ∈ pre → ∃ k, kv.1 = CInt k ∧ 0 ≤ k < 4294967296 ∧ k ≠ 3) →
  Forall2 describes kvss cs →
  len junk = GOLIOTH_OTA_COMPONENT_HASH_HEX_LEN + 1 → all_wf registered (u_data u) → registered ≠ [] →
  ota_receive_manifest registered handlers junk id (Some d) (len d) last u = manifest_effect cs u.
Proof.
  intros En K F Lj W Nr. unfold ota_receive_manifest, input. rewrite load_all, bind_OK.
  pose proof (new_reads 3 d _ En) as R. set (z := zcbor_new_decode_state 3 d) in *.
  destruct (map_start_reads _ _ _ _ _ R ltac:(simpl; lia)) as (z1 & E1 & R1).
  set (m := Mem component_zero junk u). unfold manifest_decode.
  rewrite (st_bind_OK _ _ _ _ _ (zcbor_run _ _ m _ _ E1)). cbn [negb].
  rewrite (st_bind_OK _ (gets _) _ (zcbor_left z1) (z1, m)) by done.
  assert (after_component [] u m) as Ac by (split; [done|by destruct u|done]).
  destruct (manifest_loop 3 kvss post cs u [] pre (S (zcbor_left z1) + S (length pre)) z1 m R1 K F
    ltac:(lia) Ac Nr ltac:(lia)) as (z' & c & h & E).
  rewrite (loop_fuel _ (λ _ s, zcbor_left s.1)) with (fuel' := S (zcbor_left z1)) in E.
  2: { intros l1 s1 l2 s2 H. apply (takes_manifest l1 _ _ _ H). by exists l2. }
  2, 3: simpl; lia.
  rewrite E. by destruct (manifest_effect cs u).
Qed.

(** C30: a manifest (a map whose key 3 holds the list of components, each a map with the package, the
    version, the size and the hash of the component, the last of these four as its last pair) updates the target version, hash and size of each
    registered component it names, in the order of the list, and then calls the manifest handlers once
    with all registered components. What the manifest holds after the components is not looked at. *)
Theorem manifest_received junk id d pre kvss post cs last u :
  encodes d (CMap (pre ++ (CInt 3, CList (map CMap kvss)) :: post)) →
  (∀ kv, kv ∈ pre → ∃ k, kv.1 = CInt k ∧ 0 ≤ k < 4294967296 ∧ k ≠ 3) →
  Forall2 describes kvss cs →
  len junk = GOLIOTH_OTA_COMPONENT_HASH_HEX_LEN + 1 → all_wf registered (u_data u) → registered ≠ [] →
  ota_receive_manifest registered handlers junk id (Some d) (len d) last u = manifest_effect cs u.
Proof. apply manifest_run. Qed.

End Manifest.

(** * Downloading a component *)

Section Download.
Context {OC : OtaConfig} {A : Type}.
Context (registered : list (golioth_ota_registered_component A)).
Implicit Types (u : upper A) (o : ota_state A) (r : golioth_ota_registered_component A).

Record download_wf (c : component_download) : Prop := {
  dw_name : len (dl_name c) = CONFIG_GOLIOTH_OTA_MAX_PACKAGE_NAME_LEN + 1;
  dw_version : len (dl_version c) = CONFIG_GOLIOTH_OTA_MAX_VERSION_LEN + 1;
}.

Lemma strchr_at n v : "@"%byte ∉ n → no_nul n → strchr (n ++ "@"%byte :: v) "@"%byte = Some (len n).
Proof.
  unfold no_nul. induction n as [|c n IH]; intros At N.
  - done.
  - apply not_elem_of_cons in At as [A1 A2], N as [N1 N2]. cbn [app strchr].
    rewrite decide_False, decide_False by congruence. rewrite IH by done. simpl. f_equal. lia.
Qed.

Lemma strchr_none s c : c ∉ s → strchr s c = None.
Proof.
  induction s as [|x s IH]; intros N; [done|]. apply not_elem_of_cons in N as [N1 N2]. simpl.
  rewrite decide_False by congruence. case_decide; [done|]. by rewrite IH.
Qed.

(** The static variable after the start of [n@v]. *)
Definition started (id : Z) (n v : list byte) (c : component_download) : component_download :=
  Download id 0 (stored n (dl_name c))
    (ztake (len (dl_version c) - 1) (strncpy v (len (dl_version c))) ++ [x00]).

Lemma strncpy_prefix n v : no_nul n → no_nul v → strncpy (n ++ "@"%byte :: v) (len n) = n.
Proof.
  intros N V. unfold strncpy.
  assert (no_nul (n ++ "@"%byte :: v)) as NV.
  { unfold no_nul in *. rewrite elem_of_app, elem_of_cons. intros [?|[?|?]]; by auto. }
  rewrite cstr_id, strlen_no_nul by done. rewrite take_app_exact by lia.
  replace (Z.to_nat _) with 0%nat by solve_len. by rewrite app_nil_r.
Qed.

Lemma component_start_run id n v o :
  "@"%byte ∉ n → no_nul n → no_nul v → len n ≤ CONFIG_GOLIOTH_OTA_MAX_PACKAGE_NAME_LEN →
  download_wf (o_download o) →
  ota_receive_component_start id (Some (n ++ "@"%byte :: v)) o
    = OK (Ota (started id n v (o_download o)) (o_upper o)).
Proof.
  intros At N V L [Wn Wv]. pose proof MAX_VERSION_LEN_range. unfold ota_receive_component_start. cbn [of_ptr].
  rewrite bind_OK, strchr_at, strncpy_prefix by done.
  pose proof (store_string n (dl_name (o_download o)) ltac:(lia)) as S. apply bind_OK_inv in S as (a & E1 & E2).
  rewrite E1, bind_OK, E2, bind_OK.
  replace (zdrop (len n + 1) (n ++ "@"%byte :: v)) with v.
  2: { change ("@"%byte :: v) with (["@"%byte] ++ v). rewrite app_assoc. symmetry. apply drop_app_exact.
       solve_len. }
  set (ver := dl_version (o_download o)) in *. rewrite array_store_all by (rewrite len_strncpy; lia).
  rewrite bind_OK, len_strncpy, zdrop_all, app_nil_r by lia.
  rewrite (array_store_last _ _ (len (strncpy v (len ver)))) by (rewrite ?len_strncpy; lia).
  rewrite bind_OK, len_strncpy by lia. done.
Qed.

Lemma cstr_started id n v c : no_nul n → cstr (dl_name (started id n v c)) = n.
Proof. intros N. simpl. by apply cstr_stored. Qed.

(** Component [i] is being downloaded. *)
Definition downloading (i : nat) u : Prop :=
  ∃ d, u_data u !! i = Some d ∧ data_state d = GOLIOTH_OTA_STATE_DOWNLOADING.

(** The pieces at their offsets. *)
Fixpoint feed r (off : Z) (pieces : list (option (list byte) * Z)) u : outcome (Z * upper A) :=
  match pieces with
  | [] => OK (off, u)
  | p :: pieces => u ← receive r p.1 off p.2 false u; feed r (u32 (off + p.2)) pieces u
  end.

Lemma only_cstr i r n n' : only registered i r n → cstr n' = cstr n → only registered i r n'.
Proof.
  intros [T E O] C. unfold strcmp_eq in *. split; [done|unfold strcmp_eq; by rewrite C|]. intros j r' Hj Nj.
  unfold strcmp_eq. rewrite C. by apply (O j).
Qed.

Lemma component_data_run id data l last dl u i r n :
  DOWNLINK_ID_INVALID ≠ dl_id dl → only registered i r n → cstr (dl_name dl) = cstr n → downloading i u →
  ota_receive_component_data registered id data l last (Ota dl u) =
    (u ← receive r data (dl_offset dl) l last u;
     OK (Ota (Download (dl_id dl) (u32 (dl_offset dl + l)) (dl_name dl) (dl_version dl)) u)).
Proof.
  intros N O C (d & D & S). unfold ota_receive_component_data. cbn [o_download o_upper].
  rewrite decide_True by done.
  rewrite (receive_component_run registered i r (dl_name dl) _ _ _ _ _ u d) by (done || by eapply only_cstr).
  rewrite decide_True by done. by destruct (receive r data (dl_offset dl) l last u).
Qed.

Lemma pieces_run id i r n pieces : ∀ dl u,
  DOWNLINK_ID_INVALID ≠ dl_id dl → only registered i r n → cstr (dl_name dl) = cstr n → downloading i u →
  (∀ data off l u u', downloading i u → receive r data off l false u = OK u' → downloading i u') →
  foldl (λ m p, m ≫= ota_receive_component_data registered id p.1 p.2 false) (OK (Ota dl u)) pieces =
    ('(off, u) ← feed r (dl_offset dl) pieces u;
     OK (Ota (Download (dl_id dl) off (dl_name dl) (dl_version dl)) u)).
Proof.
  assert (∀ ps : list (option (list byte) * Z),
    foldl (λ m p, m ≫= ota_receive_component_data registered id p.1 p.2 false) Fault ps = Fault) as F
    by (intros ps; by induction ps).
  induction pieces as [|p ps IH]; intros dl u N O C D K; [by destruct dl|]. cbn [foldl feed].
  rewrite !bind_OK, (component_data_run id p.1 p.2 false dl u i r n) by done.
  destruct (receive r p.1 (dl_offset dl) p.2 false u) as [u'|] eqn:E; [|by apply F].
  cbn [mbind outcome_bind]. rewrite IH by (done || by eapply K). done.
Qed.

Lemma feed_keeps i r pieces : ∀ off u off' u',
  (∀ data off l u u', downloading i u → receive r data off l false u = OK u' → downloading i u') →
  downloading i u → feed r off pieces u = OK (off', u') → downloading i u'.
Proof.
  induction pieces as [|p ps IH]; intros off u off' u' K D H; [by simpl in H; simplify_eq|].
  cbn [feed] in H. apply bind_OK_inv in H as (u1 & E & H). eapply IH; [done| |done]. by eapply K.
Qed.

Definition component_path (n v : list byte) : list byte :=
  "/"%byte :: GOLIOTH_OTA_COMPONENT_PATH_PREFIX ++ n ++ "@"%byte :: v.

Lemma component_remainder n v : no_nul (n ++ "@"%byte :: v) →
  remainder (component_path n v) (ota_component registered) = Some (n ++ "@"%byte :: v).
Proof.
  intros N. unfold remainder. change (service_pattern (ota_component registered)) with (OK (6, true)). cbv beta iota.
  change (zdrop 6 (component_path n v)) with (n ++ "@"%byte :: v). rewrite strlen_no_nul by done.
  rewrite (proj2 (Z.ltb_lt 0 _)) by solve_len. done.
Qed.

(** C31: a stream on the path of package [n] at version [v] gives the registered component of that name
    exactly the pieces of the stream, in order and at their offsets, when the component is marked for
    download; otherwise the stream has no effect on it. (The name fits its buffer and no other component
    has it, and the callback leaves the component marked.) *)
Theorem component_delivered id n v pieces last o i r :
  DOWNLINK_ID_INVALID ≠ id → "@"%byte ∉ n → no_nul n → no_nul v →
  len n ≤ CONFIG_GOLIOTH_OTA_MAX_PACKAGE_NAME_LEN → download_wf (o_download o) →
  only registered i r n → is_Some (u_data (o_upper o) !! i) →
  (∀ data off l u u', downloading i u → receive r data off l false u = OK u' → downloading i u') →
  ∃ name version,
    (downloading i (o_upper o) →
      serve id (component_path n v) pieces last (ota_component registered) o =
        ('(off, u) ← feed r 0 pieces (o_upper o);
         u ← receive r last.1 off last.2 true u;
         OK (Ota (Download id (u32 (off + last.2)) name version) u)))
    ∧ (¬ downloading i (o_upper o) →
      ∃ off, serve id (component_path n v) pieces last (ota_component registered) o =
        OK (Ota (Download id off name version) (o_upper o))).
Proof.
  intros Ni At N V L W O [d D] K. set (dl := started id n v (o_download o)).
  assert (no_nul (n ++ "@"%byte :: v)) as NV.
  { unfold no_nul in *. rewrite elem_of_app, elem_of_cons. intros [?|[?|?]]; by auto. }
  assert (cstr (dl_name dl) = cstr n) as C by (unfold dl; by rewrite cstr_started, cstr_id).
  exists (dl_name dl), (dl_version dl). unfold serve. rewrite component_remainder by done.
  cbn [svc_start_cb svc_data_cb ota_component]. rewrite component_start_run by done. fold dl. split.
  - intros Dn. rewrite bind_OK, (pieces_run id i r n pieces dl (o_upper o)) by done.
    change (dl_offset dl) with 0. destruct (feed r 0 pieces (o_upper o)) as [[off u]|] eqn:F; [|done].
    cbn [mbind outcome_bind].
    rewrite (component_data_run id last.1 last.2 true _ u i r n); [|done..|by eapply feed_keeps]. done.
  - intros Dn.
    assert (data_state d ≠ GOLIOTH_OTA_STATE_DOWNLOADING) as Sd by (intros S; apply Dn; by exists d).
    assert (∀ data l b off, ota_receive_component_data registered id data l b
        (Ota (Download id off (dl_name dl) (dl_version dl)) (o_upper o))
      = OK (Ota (Download id (u32 (off + l)) (dl_name dl) (dl_version dl)) (o_upper o))) as R.
    { intros data l b off. unfold ota_receive_component_data. cbn [o_download o_upper dl_id].
      rewrite decide_True by done.
      rewrite (receive_component_run registered i r _ _ _ _ _ _ (o_upper o) d) by (done || by eapply only_cstr).
      by rewrite decide_False by done. }
    assert (∀ off, ∃ off', foldl (λ m p, m ≫= ota_receive_component_data registered id p.1 p.2 false)
        (OK (Ota (Download id off (dl_name dl) (dl_version dl)) (o_upper o))) pieces
      = OK (Ota (Download id off' (dl_name dl) (dl_version dl)) (o_upper o))) as P.
    { induction pieces as [|p ps IH]; intros off; [by exists off|]. cbn [foldl]. rewrite bind_OK, R. apply IH. }
    destruct (P 0) as [off' E]. change dl with (Download id 0 (dl_name dl) (dl_version dl)) at 1.
    rewrite bind_OK, E, bind_OK, R. by exists (u32 (off' + last.2)).
Qed.

(** A path without '@', or a name that does not fit its array: the first is ignored, the second overruns
    the array. *)
Lemma component_start_errors id p o :
  no_nul p → download_wf (o_download o) →
  ("@"%byte ∉ p → ∃ c, ota_receive_component_start id (Some p) o = OK (Ota c (o_upper o)) ∧ dl_id c = DOWNLINK_ID_INVALID)
  ∧ (∀ n v, p = n ++ "@"%byte :: v → "@"%byte ∉ n → CONFIG_GOLIOTH_OTA_MAX_PACKAGE_NAME_LEN < len n →
       ota_receive_component_start id (Some p) o = Fault).
Proof.
  intros N [Wn _]. unfold ota_receive_component_start. cbn [of_ptr]. rewrite bind_OK. split.
  - intros At. rewrite strchr_none by done. by eexists.
  - intros n v -> At L. assert (no_nul n ∧ no_nul v) as [Nn Nv].
    { unfold no_nul in *. rewrite elem_of_app, elem_of_cons in N. naive_solver. }
    rewrite strchr_at, strncpy_prefix by done.
    destruct (decide (len n ≤ CONFIG_GOLIOTH_OTA_MAX_PACKAGE_NAME_LEN + 1)).
    + rewrite (array_store_all n) by lia. rewrite bind_OK. rewrite (array_store_out (len n)); [done|]. solve_len.
    + by rewrite (array_store_out 0 n) by lia.
Qed.

End Download.

(** * Reporting the components *)

Definition golioth_ota_state_num (s : golioth_ota_state) : Z :=
  match s with
  | GOLIOTH_OTA_STATE_IDLE => 0 | GOLIOTH_OTA_STATE_DOWNLOADING => 1
  | GOLIOTH_OTA_STATE_DOWNLOADED => 2 | GOLIOTH_OTA_STATE_UPDATING => 3
  end.

Section Report.
Context {BO : ByteOrder} {SL : SList} {KW : KWork} {MQ : MsgQ} {CF : Config} {C : Type}.
Context {OC : OtaConfig} {ZE : ZcborEncode} {A : Type}.
Context (registered : list (golioth_ota_registered_component A)).

(** The encoding of a status in [encode_buf], or [None] where the function returns. *)
Definition encode_status (name current_version target_version : list byte) (state : golioth_ota_state)
    : option enc_state :=
  zse ← put (zcbor_map_start_encode 1 (zcbor_new_encode_state 64));
  zse ← put_pair ["s"%byte] (zcbor_uint32_put (golioth_ota_state_num state)) zse;
  zse ← put_pair ["r"%byte] (zcbor_uint32_put 0) zse;
  zse ← put_pair ["p"; "k"; "g"]%byte (zcbor_tstr_put (cstr name)) zse;
  zse ← put_pair ["v"%byte] (zcbor_tstr_put (cstr current_version)) zse;
  zse ← (if decide (GOLIOTH_OTA_STATE_IDLE ≠ state)
         then put_pair ["t"%byte] (zcbor_tstr_put (cstr target_version)) zse
         else Some zse);
  put (zcbor_map_end_encode 1 zse).

(** The array [path]: the prefix, then as much of the name as fits. *)
Definition status_path (name : list byte) : outcome (list byte) :=
  let n := len GOLIOTH_OTA_COMPONENT_PATH_PREFIX + 1 + CONFIG_GOLIOTH_OTA_MAX_PACKAGE_NAME_LEN in
  let path := GOLIOTH_OTA_COMPONENT_PATH_PREFIX ++ zeros (n - len GOLIOTH_OTA_COMPONENT_PATH_PREFIX) in
  array_store (strlen path) (strncpy name (n - (len GOLIOTH_OTA_COMPONENT_PATH_PREFIX + 1))) path.

(** A pass of the loop of [ota_uplink]. *)
Definition uplink_pass (ds : list component_data) (component_idx : nat) : st (sys C) (nat + unit) :=
  status ← lift (golioth_ota_get_status registered component_idx ds);
  match status with
  | None => mret (inr tt)
  | Some (name, current_version, target_version, state) =>
    match encode_status name current_version target_version state with
    | None => mret (inr tt)
    | Some zse =>
      path ← lift (status_path name);
      pouch_uplink_entry_write (Some path) (Some (enc_payload zse)) POUCH_CONTENT_TYPE_CBOR
        (len (enc_payload zse)) None;;
      mret (inl (S component_idx))
    end
  end.

(** A pass for every component and one that finds no more. *)
Definition ota_uplink (ds : list component_data) : st (sys C) unit :=
  loop (S (length registered)) (uplink_pass ds) 0%nat.

(** ** What is reported *)

(** The status of a component. *)
Definition status_pairs {ZC : Zcbor} (r : golioth_ota_registered_component A) (d : component_data)
    : list (item * item) :=
  [(CTstr ["s"%byte], CInt (golioth_ota_state_num (data_state d))); (CTstr ["r"%byte], CInt 0);
   (CTstr ["p"; "k"; "g"]%byte, CTstr (cstr (name r))); (CTstr ["v"%byte], CTstr (cstr (reg_version r)))]
    ++ if decide (GOLIOTH_OTA_STATE_IDLE ≠ data_state d)
       then [(CTstr ["t"%byte], CTstr (cstr (target d)))] else [].

Context {ZC : Zcbor} {ZR : ZcborReads ZC} {ZB : ZcborBuilds ZE ZR}.

Lemma encode_status_spec r d zse :
  encode_status (name r) (reg_version r) (target d) (data_state d) = Some zse →
  encodes (enc_payload zse) (CMap (status_pairs r d)) ∧ 1 ≤ len (enc_payload zse) ≤ 64.
Proof.
  unfold encode_status. intros (s0 & E0 & H)%bind_Some. apply put_Some in E0.
  apply (map_start_builds 64 _ _ _ _ (new_builds 64 ltac:(lia))) in E0.
  assert (0 ≤ golioth_ota_state_num (data_state d) < 4294967296) as Rs by (destruct (data_state d); simpl; lia).
  apply bind_Some in H as (s1 & E1 & H). apply (put_pair_uint32 64 _ _ _ _ [] [[]]) in E1; [|done..].
  apply bind_Some in H as (s2 & E2 & H). pose proof (put_pair_uint32 64 _ _ _ _ _ _ E2 E1 ltac:(lia)) as B2.
  apply bind_Some in H as (s3 & E3 & H). pose proof (put_pair_tstr 64 _ _ _ _ _ _ E3 B2) as B3.
  apply bind_Some in H as (s4 & E4 & H). pose proof (put_pair_tstr 64 _ _ _ _ _ _ E4 B3) as B4.
  apply bind_Some in H as (s5 & E5 & H). apply put_Some in H.
  apply (payload_encodes 64 zse (CMap (status_pairs r d))).
  apply (map_end_builds 64 1 s5 zse (status_pairs r d) [] []); [|done]. unfold status_pairs. case_decide.
  - exact (put_pair_tstr 64 _ _ _ _ _ _ E5 B4).
  - injection E5 as ->. exact B4.
Qed.

(** The report of a component. *)
Record report (r : golioth_ota_registered_component A) (d : component_data) (e : pouch_entry) : Prop := {
  rp_path : path e = GOLIOTH_OTA_COMPONENT_PATH_PREFIX
              ++ ztake CONFIG_GOLIOTH_OTA_MAX_PACKAGE_NAME_LEN (cstr (name r));
  rp_type : content_type e = POUCH_CONTENT_TYPE_CBOR;
  rp_len : data_len e = len (data e);
  rp_data : encodes (data e) (CMap (status_pairs r d)) ∧ 1 ≤ len (data e) ≤ 64;
}.

Lemma status_path_spec n : ∃ p,
  status_path n = OK p ∧ cstr p = GOLIOTH_OTA_COMPONENT_PATH_PREFIX ++ ztake CONFIG_GOLIOTH_OTA_MAX_PACKAGE_NAME_LEN (cstr n).
Proof.
  pose proof MAX_PACKAGE_NAME_LEN_range. unfold status_path.
  set (m := CONFIG_GOLIOTH_OTA_MAX_PACKAGE_NAME_LEN) in *. set (pre := GOLIOTH_OTA_COMPONENT_PATH_PREFIX).
  assert (len pre = 5) as Lp by done. assert (no_nul pre) as Np by (unfold no_nul; by apply (bool_decide_unpack _)).
  replace (len pre + 1 + m - len pre) with (m + 1) by lia.
  replace (len pre + 1 + m - (len pre + 1)) with m by lia.
  assert (zeros (m + 1) = x00 :: zeros m) as Z1.
  { unfold zeros. by replace (Z.to_nat (m + 1)) with (S (Z.to_nat m)) by lia. }
  rewrite Z1, strlen_app_nul by done. pose proof (len_strncpy n m ltac:(lia)) as Ls.
  pose proof (len_zeros m ltac:(lia)) as Lz.
  unfold array_store. rewrite guard_true by (rewrite andb_true_iff, !Z.leb_le; solve_len).
  rewrite bind_OK. eexists. split; [done|]. rewrite take_app_exact by lia.
  replace (zdrop (len pre + len (strncpy n m)) (pre ++ x00 :: zeros m)) with [x00].
  2: { rewrite Ls. change (x00 :: zeros m) with (zeros 1 ++ zeros m). unfold zeros.
       rewrite <- replicate_add, drop_app_ge, drop_replicate by solve_len.
       replace (_ - _)%nat with 1%nat by solve_len. done. }
  unfold strncpy. pose proof (len_cstr n). pose proof (strlen_bounds n). pose proof (cstr_no_nul n) as Nn.
  assert (no_nul (pre ++ ztake m (cstr n))) as NN.
  { pose proof (no_nul_ztake m _ Nn) as Nt. unfold no_nul in *. rewrite elem_of_app. by intros [?|?]. }
  rewrite <- app_assoc, (app_assoc pre). clearbody pre. destruct (Z.to_nat (m - strlen n)) as [|k];
    cbn [replicate app]; by apply cstr_app_nul.
Qed.

(** Component [i] is reported by [e], or its status cannot be encoded. *)
Definition reported (ds : list component_data) (i : nat) (e : pouch_entry) : Prop :=
  ∃ r d, registered !! i = Some r ∧ ds !! i = Some d ∧ report r d e.

Definition not_encoded (ds : list component_data) (i : nat) : Prop :=
  ∃ r d, registered !! i = Some r ∧ ds !! i = Some d
    ∧ encode_status (name r) (reg_version r) (target d) (data_state d) = None.

Lemma uplink_pass_run ds i r d :
  registered !! i = Some r → ds !! i = Some d →
  (not_encoded ds i ∧ ∀ s, uplink_pass ds i s = OK (inr tt, s))
  ∨ ∃ e, reported ds i e ∧ ∀ s, uplink_pass ds i s =
      (pouch_uplink_entry_write (Some (path e)) (Some (data e)) (content_type e) (data_len e) None;;
       mret (inl (S i))) s.
Proof.
  intros R D. unfold uplink_pass.
  assert (golioth_ota_get_status registered i ds = OK (Some (name r, reg_version r, target d, data_state d)))
    as G by (unfold golioth_ota_get_status; by rewrite R, D).
  destruct (encode_status (name r) (reg_version r) (target d) (data_state d)) as [zse|] eqn:E.
  - right. destruct (status_path_spec (name r)) as (p & Ep & Cp).
    exists (Entry (cstr p) POUCH_CONTENT_TYPE_CBOR (len (enc_payload zse)) (enc_payload zse)). split.
    + exists r, d. split_and!; [done..|]. split; [done..|]. by apply encode_status_spec.
    + intros s. rewrite (lift_bind_OK _ _ _ s G), E, (lift_bind_OK _ _ _ s Ep). unfold mbind, st_bind.
      by rewrite entry_write_cstr.
  - left. split; [by exists r, d|]. intros s. by rewrite (lift_bind_OK _ _ _ s G), E.
Qed.

Lemma uplink_loop ds : length ds = length registered → ∀ fuel i,
  (i ≤ length registered)%nat → (length registered - i < fuel)%nat →
  ∃ es,
    (∀ s, loop fuel (uplink_pass ds) i s = (write_all es;; mret tt) s)
    ∧ (∀ j e, es !! j = Some e → reported ds (i + j)%nat e)
    ∧ (i + length es = length registered ∨ not_encoded ds (i + length es))%nat.
Proof.
  intros L. induction fuel as [|fuel IH]; intros i Li Lf; [lia|]. cbn [loop].
  destruct (registered !! i) as [r|] eqn:R.
  - pose proof (lookup_lt_Some _ _ _ R). destruct (lookup_lt_is_Some_2 ds i ltac:(lia)) as [d D].
    destruct (uplink_pass_run ds i r d R D) as [[N P]|(e & Re & P)].
    + exists []. split_and!; [|done|right; by rewrite Nat.add_0_r]. intros s.
      by rewrite (st_bind_OK _ _ _ _ _ (P s)).
    + destruct (IH (S i)) as (es & El & Er & En); [lia..|]. exists (e :: es). split_and!.
      * intros s. unfold mbind at 1, st_bind at 1. rewrite P. cbn [write_all]. unfold mbind, st_bind.
        destruct (pouch_uplink_entry_write _ _ _ _ _ s) as [[r1 s1]|]; [|done]. unfold mret at 1, st_ret at 1.
        rewrite El. unfold mbind, st_bind. by destruct (write_all es s1) as [[]|].
      * intros [|j] e' He; simpl in He; [injection He as <-; by rewrite Nat.add_0_r|].
        rewrite Nat.add_succ_r. by apply Er.
      * simpl. by rewrite Nat.add_succ_r.
  - apply lookup_ge_None in R. exists []. split_and!; [|done|left; simpl; lia]. intros s.
    rewrite (st_bind_OK _ _ s (inr tt) s); [done|]. unfold uplink_pass.
    rewrite (lift_bind_OK _ _ None); [done|]. unfold golioth_ota_get_status.
    by rewrite (lookup_ge_None_2 registered i).
Qed.

Lemma ota_uplink_writes ds :
  length ds = length registered →
  ∃ es, writes (ota_uplink ds) es ∧ Forall (λ e, entry_wf e ∧ data_len e ≠ 0) es
    ∧ (∀ i e, es !! i = Some e → reported ds i e)
    ∧ (length es = length registered ∨ not_encoded ds (length es)).
Proof.
  intros L. destruct (uplink_loop ds L (S (length registered)) 0) as (es & El & Er & En); [lia..|].
  exists es. split_and!; [exact El| |done..].
  apply Forall_lookup. intros i e He. destruct (Er i e He) as (r & d & _ & _ & [P T Dl [_ Ld]]).
  pose proof MAX_PACKAGE_NAME_LEN_range. split; [|lia]. split; [|done|].
  - rewrite P. pose proof (no_nul_ztake CONFIG_GOLIOTH_OTA_MAX_PACKAGE_NAME_LEN _ (cstr_no_nul (name r))) as N.
    assert (no_nul GOLIOTH_OTA_COMPONENT_PATH_PREFIX) as Np by (unfold no_nul; by apply (bool_decide_unpack _)).
    unfold no_nul in *. rewrite elem_of_app. by intros [?|?].
  - unfold entry_size. rewrite P. assert (len GOLIOTH_OTA_COMPONENT_PATH_PREFIX = 5) by done.
    unfold ENTRY_HEADER_OVERHEAD. solve_len.
Qed.

(** C32: the status of the registered components is written to the pouch, one entry per component in
    their order, on the component's path and holding the encoded status, up to the first component whose
    status does not fit its buffer: the pouch's writer is called with exactly these entries, with the
    results [rs], and those it accepts follow what was accepted before. It refuses an entry, as a whole,
    only for lack of memory or because no block can hold it; with memory every other entry is accepted. *)
Theorem ota_uplink_reports ds base s log :
  length ds = length registered → entry_log base s log →
  ∃ es rs s',
    ota_uplink ds s = OK (tt, s') ∧ write_all es s = OK (rs, s')
    ∧ wrote base s s' (log ++ accepted_all rs es)
    ∧ Forall (λ r, r = SUCCESS ∨ r = NEG ENOMEM) rs
    ∧ (malloc_never_fails (s_heap s) → rs = map (λ e,
         if entry_size e <=? MAX_BLOCK_PAYLOAD_SIZE then SUCCESS else NEG ENOMEM) es)
    ∧ (∀ i e, es !! i = Some e → reported ds i e)
    ∧ (length es = length registered ∨ not_encoded ds (length es)).
Proof.
  intros L Lg. destruct (ota_uplink_writes ds L) as (es & El & Wf & Er & En).
  destruct (entry_writes_run es base s log Lg Wf) as (rs & s' & E & W & Rs & M).
  exists es, rs, s'. split_and!; [|done..]. by rewrite El, (st_bind_OK _ _ _ _ _ E).
Qed.

End Report.

Module OtaWitness.
Import Native NativeZcbor NativeEncode OtaUpperWitness.
#[local] Existing Instance Native.config_none.

Definition nibble (n : Z) : byte := byte_of_Z (if n <? 10 then 48 + n else 87 + n).
Definition unnibble (b : byte) : Z := let z := Z_of_byte b in if z <? 58 then z - 48 else z - 87.

Fixpoint unhex (h : list byte) : list byte :=
  match h with
  | a :: b :: h => byte_of_Z (16 * unnibble a + unnibble b) :: unhex h
  | _ => []
  end.

Definition hex_byte (b : byte) : list byte := [nibble (Z_of_byte b / 16); nibble (Z_of_byte b mod 16)].

Lemma hex_byte_ok b : unhex (hex_byte b) = [b] ∧ x00 ∉ hex_byte b.
Proof.
  split; [by destruct b|]. assert (bool_decide (x00 ∈ hex_byte b) = false) as H by (by destruct b).
  by apply bool_decide_eq_false in H.
Qed.

#[export, refine] Instance hex : Hex := {|
  hex2bin h n := let b := unhex h in if len b <=? n then b else [];
  bin2hex b := concat (map hex_byte b);
|}.
Proof.
  - induction b as [|x b IH]; [done|]. simpl in *. lia.
  - unfold no_nul. induction b as [|x b IH]; [by intros ?%elem_of_nil|]. cbn [map concat].
    rewrite elem_of_app. intros [H|H]; [by apply hex_byte_ok in H|by apply IH].
  - intros b. assert (∀ b, unhex (concat (map hex_byte b)) = b) as E.
    { induction b0 as [|x b' IH]; [done|]. cbn [map concat]. destruct (hex_byte_ok x) as [Hx _].
      unfold hex_byte in *. cbn [app unhex] in *. injection Hx as Hx. by rewrite Hx, IH. }
    cbv zeta. rewrite E. by rewrite Z.leb_refl.
Defined.

Definition main_name : list byte := ["m"; "a"; "i"; "n"]%byte.

(** The handler marks what it is told of for download. *)
Definition ex_handler (rows : list golioth_ota_manifest_component) (u : upper (list byte))
    : outcome (upper (list byte)) :=
  '(_, u) ← golioth_ota_mark_for_download [main] (default [] (mc_name <$> head rows)) u; OK u.

(** {5: "x", 1: "main", 2: "2", 4: 24, 3: "6161..."} *)
Definition ex_component : golioth_ota_component := Component main_name ["2"%byte] (replicate 32 x61) 24.
Definition ex_pairs : list (cbor Z * cbor Z) :=
  [(CInt 5, CTstr ["x"%byte]); (CInt 1, CTstr main_name); (CInt 2, CTstr ["2"%byte]); (CInt 4, CInt 24);
   (CInt 3, CTstr (bin2hex (replicate 32 x61)))].

(** {1: 7, 3: [component], 2: "h"} *)
Definition ex_manifest : cbor Z :=
  CMap ([(CInt 1, CInt 7)] ++ (CInt 3, CList (map CMap [ex_pairs])) :: [(CInt 2, CTstr ["h"%byte])]).

Lemma ex_describes : describes (ZC := NativeZcbor.zcbor) ex_pairs ex_component.
Proof.
  split.
  - split; simpl; try lia; split; simpl; try lia; unfold no_nul; by apply (bool_decide_unpack _).
  - intros [k x] H. unfold ex_pairs in H. rewrite !elem_of_cons, elem_of_nil in H.
    destruct_or! H; simplify_eq; eexists; (split; [reflexivity|lia]).
  - intros k x H R. unfold ex_pairs in H. rewrite !elem_of_cons, elem_of_nil in H.
    destruct_or! H; simplify_eq; try lia; reflexivity.
  - intros k R. assert (k = 1 ∨ k = 2 ∨ k = 3 ∨ k = 4) as Hk by lia. unfold ex_pairs.
    destruct_or! Hk; subst k; eexists; rewrite !elem_of_cons; eauto 10.
  - reflexivity.
  - intros [|[|[|[|[|j]]]]] H; [apply Nat.ltb_lt; reflexivity..|simpl in H; lia].
Qed.

Definition ex_junk : list byte := replicate 65 x00.

Lemma manifest_received_witness :
  ota_receive_manifest (ZC := NativeZcbor.zcbor) [main] [ex_handler] ex_junk 1 (Some (emit ex_manifest))
      (len (emit ex_manifest)) true ex_upper
    = manifest_effect [main] [ex_handler] [ex_component] ex_upper
  ∧ manifest_effect [main] [ex_handler] [ex_component] ex_upper =
      OK (Upper [ComponentData ("2"%byte :: replicate 31 x00) (replicate 32 x61) 24 GOLIOTH_OTA_STATE_DOWNLOADING] []).
Proof.
  split; [|vm_compute; reflexivity].
  apply (manifest_received (ZR := NativeZcbor.zcbor_reads) (ZP := NativeZcbor.zcbor_progress) [main] [ex_handler]
           ex_junk 1 (emit ex_manifest) [(CInt 1, CInt 7)] [ex_pairs] [(CInt 2, CTstr ["h"%byte])] [ex_component]).
  - vm_compute. reflexivity.
  - intros kv ->%list_elem_of_singleton. exists 1. split; [done|]. lia.
  - constructor; [exact ex_describes|constructor].
  - reflexivity.
  - apply (boot_wf [main]).
  - discriminate.
Defined.

Definition ex_ota (s : golioth_ota_state) : ota_state (list byte) :=
  Ota (Download (-1) 0 (zeros 33) (zeros 33))
    (Upper [ComponentData (zeros 32) (zeros 32) 0 s] []).

Lemma ex_only : only [main] 0 main main_name.
Proof.
  split; [done|by vm_compute|]. intros [|j] r' H N; [done|by destruct j].
Qed.

Lemma component_delivered_witness :
  ∃ name version,
    (downloading 0 (o_upper (ex_ota GOLIOTH_OTA_STATE_DOWNLOADING)) →
      serve 7 (component_path main_name ["2"%byte]) [(Some [x01; x02], 2)] (Some [x03], 1) (ota_component [main])
          (ex_ota GOLIOTH_OTA_STATE_DOWNLOADING) =
        ('(off, u) ← feed main 0 [(Some [x01; x02], 2)] (o_upper (ex_ota GOLIOTH_OTA_STATE_DOWNLOADING));
         u ← receive main (Some [x03]) off 1 true u;
         OK (Ota (Download 7 (u32 (off + 1)) name version) u)))
    ∧ (¬ downloading 0 (o_upper (ex_ota GOLIOTH_OTA_STATE_DOWNLOADING)) →
      ∃ off, serve 7 (component_path main_name ["2"%byte]) [(Some [x01; x02], 2)] (Some [x03], 1)
          (ota_component [main]) (ex_ota GOLIOTH_OTA_STATE_DOWNLOADING) =
        OK (Ota (Download 7 off name version) (o_upper (ex_ota GOLIOTH_OTA_STATE_DOWNLOADING)))).
Proof.
  apply (component_delivered [main] 7 main_name ["2"%byte] [(Some [x01; x02], 2)] (Some [x03], 1)
           (ex_ota GOLIOTH_OTA_STATE_DOWNLOADING) 0 main).
  - discriminate.
  - by apply (bool_decide_unpack _).
  - unfold no_nul. by apply (bool_decide_unpack _).
  - unfold no_nul. by apply (bool_decide_unpack _).
  - vm_compute. discriminate.
  - split; reflexivity.
  - exact ex_only.
  - by eexists.
  - intros data off l u u' (d & D & S) H. injection H as <-. by exists d.
Defined.

(** Component 0 is given the data of a stream of another id too. *)
Example ids_not_compared :
  match ota_receive_component_data [main] 8 (Some [x01]) 1 true
          (Ota (Download 7 0 (main_name ++ zeros 29) (zeros 33)) (o_upper (ex_ota GOLIOTH_OTA_STATE_DOWNLOADING))) with
  | OK o => u_app (o_upper o) = [x01]
  | Fault => False
  end.
Proof. vm_compute. reflexivity. Qed.

Lemma ota_uplink_reports_witness :
  ∃ es rs s',
    ota_uplink (C := CryptoNone.state) [main] (u_data ex_upper) EntryWitness.ex_sys = OK (tt, s')
    ∧ write_all es EntryWitness.ex_sys = OK (rs, s')
    ∧ wrote (pending EntryWitness.ex_sys) EntryWitness.ex_sys s' ([] ++ accepted_all rs es)
    ∧ Forall (λ r, r = SUCCESS ∨ r = NEG ENOMEM) rs
    ∧ (malloc_never_fails (s_heap EntryWitness.ex_sys) → rs = map (λ e,
         if entry_size e <=? MAX_BLOCK_PAYLOAD_SIZE then SUCCESS else NEG ENOMEM) es)
    ∧ (∀ i e, es !! i = Some e → reported (ZC := NativeZcbor.zcbor) [main] (u_data ex_upper) i e)
    ∧ (length es = length [main] ∨ not_encoded [main] (u_data ex_upper) (length es)).
Proof.
  apply (ota_uplink_reports (ZB := NativeEncode.encode_builds) [main] (u_data ex_upper)
           (pending EntryWitness.ex_sys) EntryWitness.ex_sys []).
  - reflexivity.
  - by apply entry_log_start.
Defined.

(** The status of [main] is encoded. *)
Example status_encoded : is_Some (encode_status main_name ["1"%byte] ["1"%byte] GOLIOTH_OTA_STATE_IDLE).
Proof. by apply (bool_decide_unpack _). Qed.

End OtaWitness.
