(* ===== verification/Settings.v ===== *)
(** Settings: src/golioth_sdk/settings.c, settings.h, settings_callbacks.c and
    include/golioth/settings_callbacks.h.

    The handler of a downlink decodes the document: each setting is given to the callback registered
    for its key, if it has the callback's type, and the version is kept; the uplink service reports
    the version. *)
From S2P Require Import Prelude Platform Buf Block Crypto State Entry Header Uplink.
From S2P Require Import Dispatch Zcbor ZcborEncode.

Inductive golioth_setting_value_type :=
  GOLIOTH_SETTING_VALUE_TYPE_UNKNOWN | GOLIOTH_SETTING_VALUE_TYPE_INT | GOLIOTH_SETTING_VALUE_TYPE_BOOL
| GOLIOTH_SETTING_VALUE_TYPE_FLOAT | GOLIOTH_SETTING_VALUE_TYPE_STRING.

#[export] Instance golioth_setting_value_type_eq_dec : EqDecision golioth_setting_value_type.
Proof. solve_decision. Defined.

Section Settings.
Context {ZC : Zcbor} {A : Type}.

(** The union of a value. *)
Inductive setting_union :=
| bool_val (b : bool)
| int_val (n : Z)
| float_val (f : double)
| str_val (s : list byte).

Record setting_value := SettingValue {
  sv_key : list byte;
  sv_type : golioth_setting_value_type;
  sv_val : setting_union;
}.

(** The union of callbacks; they act on the application's state. *)
Inductive setting_cb :=
| int_cb (f : Z → A → status * A)
| bool_cb (f : bool → A → status * A)
| float_cb (f : double → A → status * A)
| string_cb (f : list byte → A → status * A).

Record golioth_settings_handler := SettingsHandler {
  sh_key : list byte;
  sh_type : golioth_setting_value_type;
  sh_cb : setting_cb;
}.

(** As GOLIOTH_SETTINGS_HANDLER infers the type. *)
Definition cb_type (cb : setting_cb) : golioth_setting_value_type :=
  match cb with
  | int_cb _ => GOLIOTH_SETTING_VALUE_TYPE_INT
  | bool_cb _ => GOLIOTH_SETTING_VALUE_TYPE_BOOL
  | float_cb _ => GOLIOTH_SETTING_VALUE_TYPE_FLOAT
  | string_cb _ => GOLIOTH_SETTING_VALUE_TYPE_STRING
  end.

Definition GOLIOTH_SETTINGS_HANDLER (name : list byte) (function : setting_cb) : golioth_settings_handler :=
  SettingsHandler name (cb_type function) function.

Context (handlers : list golioth_settings_handler).

(** The members of the unions that the type selects; another member is not what was stored. *)
Fixpoint receive_one_setting (value : setting_value) (hs : list golioth_settings_handler) : st A status :=
  match hs with
  | [] => mret (NEG ENOENT)
  | setting :: hs =>
    if strcmp_eq (sh_key setting) (sv_key value) then
      if decide (sh_type setting ≠ sv_type value) then mret (NEG EINVAL) else
      match sh_type setting, sh_cb setting, sv_val value with
      | GOLIOTH_SETTING_VALUE_TYPE_INT, int_cb f, int_val n => λ a, OK (f n a)
      | GOLIOTH_SETTING_VALUE_TYPE_BOOL, bool_cb f, bool_val b => λ a, OK (f b a)
      | GOLIOTH_SETTING_VALUE_TYPE_FLOAT, float_cb f, float_val x => λ a, OK (f x a)
      | GOLIOTH_SETTING_VALUE_TYPE_STRING, string_cb f, str_val s => λ a, OK (f s a)
      | GOLIOTH_SETTING_VALUE_TYPE_UNKNOWN, _, _ => receive_one_setting value hs
      | _, _, _ => fault
      end
    else receive_one_setting value hs
  end.

Definition golioth_settings_receive_one (value : setting_value) : st A status :=
  receive_one_setting value handlers.

(** [settings_version], an int64_t, and the application. *)
Record settings_state := SettingsState { settings_version : Z; s_app : A }.

Abbreviation decoder := (st (zcbor_state * settings_state)).

Definition GOLIOTH_SETTINGS_MAX_NAME_LEN : Z := 31.

(** The label in the array [key], which starts zeroed. *)
Definition setting_key (label : list byte) : list byte :=
  let n := Z.min GOLIOTH_SETTINGS_MAX_NAME_LEN (len label) in
  ztake n label ++ replicate (Z.to_nat (GOLIOTH_SETTINGS_MAX_NAME_LEN + 1 - n)) x00.

(** The switch over the type of the item: its value, if [data_type_valid]. *)
Definition setting_item : decoder (option (golioth_setting_value_type * setting_union)) :=
  b ← payload;
  match ZCBOR_MAJOR_TYPE b with
  | ZCBOR_MAJOR_TYPE_TSTR =>
    ok ← zcbor zcbor_tstr_decode;
    mret ((λ str, (GOLIOTH_SETTING_VALUE_TYPE_STRING, str_val (str_bytes str))) <$> ok)
  | ZCBOR_MAJOR_TYPE_PINT | ZCBOR_MAJOR_TYPE_NINT =>
    ok ← zcbor zcbor_int32_decode;
    mret ((λ n, (GOLIOTH_SETTING_VALUE_TYPE_INT, int_val n)) <$> ok)
  | ZCBOR_MAJOR_TYPE_SIMPLE =>
    ok ← zcbor zcbor_float_decode;
    match ok with
    | Some f => mret (Some (GOLIOTH_SETTING_VALUE_TYPE_FLOAT, float_val f))
    | None =>
      ok ← zcbor zcbor_bool_decode;
      mret ((λ b, (GOLIOTH_SETTING_VALUE_TYPE_BOOL, bool_val b)) <$> ok)
    end
  | _ => mret None
  end.

Definition in_app {B} (m : st A B) : decoder B := λ s,
  match m (s_app s.2) with
  | OK (b, a) => OK (b, (s.1, SettingsState (settings_version s.2) a))
  | Fault => Fault
  end.

(** A pass of the loop of [settings_decode]: it ends at the end of the map, or returns an error. *)
Definition settings_pass (_ : unit) : decoder (unit + status) :=
  done ← zcbor_list_or_map_end;
  if done : bool then mret (inr SUCCESS) else
  label ← zcbor zcbor_tstr_decode;
  match label with
  | None => mret (inr (NEG EBADMSG))
  | Some label =>
    value ← setting_item;
    match value with
    | Some (type, val) =>
      in_app (golioth_settings_receive_one (SettingValue (setting_key (str_bytes label)) type val));;
      mret (inl tt)
    | None =>
      ok ← zcbor zcbor_any_skip;
      mret (if ok : bool then inl tt else inr (NEG EBADMSG))
    end
  end.

(** Every pass but the last decodes at least a byte. *)
Definition settings_decode : decoder status :=
  nil ← zcbor zcbor_nil_expect;
  if nil : bool then mret (NEG ENOENT) else
  ok ← zcbor zcbor_map_start_decode;
  if negb (ok : bool) then mret (NEG EBADMSG) else
  left ← gets (λ s, zcbor_left s.1);
  err ← loop (S left) settings_pass tt;
  match err with
  | Some e => mret (NEG e)
  | None =>
    ok ← zcbor zcbor_map_end_decode;
    mret (if ok : bool then SUCCESS else NEG EBADMSG)
  end.

Definition version_set (v : Z) (s : settings_state) : settings_state := SettingsState v (s_app s).

Definition str_settings : list byte := ["s"; "e"; "t"; "t"; "i"; "n"; "g"; "s"]%byte.
Definition str_version : list byte := ["v"; "e"; "r"; "s"; "i"; "o"; "n"]%byte.

Definition settings_entries : list (zcbor_map_entry settings_state) :=
  [ZCBOR_TSTR_LIT_MAP_ENTRY str_settings settings_decode;
   ZCBOR_TSTR_LIT_MAP_ENTRY str_version (zcbor_map_int64_decode version_set)].

Definition settings_downlink (id : Z) (data : option (list byte)) (n : Z) (is_last : bool)
    (s : settings_state) : outcome settings_state :=
  d ← match data with Some d => load d n | None => guard (n =? 0);; OK [] end;
  '(_, s) ← zcbor_map_decode settings_entries (zcbor_new_decode_state 2 d, s);
  OK s.2.

(** The service for "/.c". *)
Definition SETTINGS_DOWNLINK_PATH : list byte := ["/"; "."; "c"]%byte.

Definition settings_service : golioth_downlink_service settings_state :=
  Service SETTINGS_DOWNLINK_PATH None settings_downlink.

(** * What is delivered *)

(** The value of an item that is delivered; others are skipped. *)
Definition item_value (x : item) : option (golioth_setting_value_type * setting_union) :=
  match x with
  | CTstr s => Some (GOLIOTH_SETTING_VALUE_TYPE_STRING, str_val s)
  | CInt n =>
    if decide (-2147483648 ≤ n < 2147483648) then Some (GOLIOTH_SETTING_VALUE_TYPE_INT, int_val n) else None
  | CFloat f => Some (GOLIOTH_SETTING_VALUE_TYPE_FLOAT, float_val f)
  | CBool b => Some (GOLIOTH_SETTING_VALUE_TYPE_BOOL, bool_val b)
  | _ => None
  end.

(** Calling back with a value of the callback's type. *)
Definition run_cb (cb : setting_cb) (v : setting_union) (a : A) : A :=
  match cb, v with
  | int_cb f, int_val n => (f n a).2
  | bool_cb f, bool_val b => (f b a).2
  | float_cb f, float_val x => (f x a).2
  | string_cb f, str_val s => (f s a).2
  | _, _ => a
  end.

(** The first handler of a setting's name, cut to 31 characters, is called when its type fits. *)
Definition deliver_setting (label : list byte) (x : item) (a : A) : A :=
  match item_value x with
  | None => a
  | Some (type, val) =>
    match list_find (λ h, strcmp_eq (sh_key h) (ztake GOLIOTH_SETTINGS_MAX_NAME_LEN label) = true) handlers with
    | None => a
    | Some (_, h) => if decide (sh_type h = type) then run_cb (sh_cb h) val a else a
    end
  end.

Definition deliver_settings (l : list (list byte * item)) (a : A) : A :=
  foldl (λ a lx, deliver_setting lx.1 lx.2 a) a l.

(** The map of settings as an item. *)
Definition settings_map (l : list (list byte * item)) : list (item * item) :=
  map (λ lx, (CTstr lx.1, lx.2)) l.

End Settings.
Arguments setting_cb {ZC} A.
Arguments golioth_settings_handler {ZC} A.
Arguments settings_state A : clear implicits.

Section SettingsLemmas.
Context {ZC : Zcbor} {ZR : ZcborReads ZC} {ZP : ZcborProgress ZC} {A : Type}.
Context (handlers : list (golioth_settings_handler A)).
Implicit Types (s : settings_state A) (a : A).

(** The handlers are registered with the type of their callback. *)
Definition handlers_typed : Prop := Forall (λ h, sh_type h = cb_type (sh_cb h)) handlers.

Lemma setting_key_spec label : cstr (setting_key label) = cstr (ztake GOLIOTH_SETTINGS_MAX_NAME_LEN label).
Proof.
  unfold setting_key. set (n := Z.min GOLIOTH_SETTINGS_MAX_NAME_LEN (len label)).
  assert (ztake n label = ztake GOLIOTH_SETTINGS_MAX_NAME_LEN label) as ->.
  { unfold n. destruct (Z.min_spec GOLIOTH_SETTINGS_MAX_NAME_LEN (len label)) as [[? ->]|[? ->]]; [done|].
    by rewrite !ztake_all by lia. }
  replace (Z.to_nat (GOLIOTH_SETTINGS_MAX_NAME_LEN + 1 - n)) with (S (Z.to_nat (GOLIOTH_SETTINGS_MAX_NAME_LEN - n)))
    by (unfold n, GOLIOTH_SETTINGS_MAX_NAME_LEN; lia).
  cbn [replicate]. apply cstr_app_zeros.
Qed.

Lemma receive_one_setting_run label x type val hs : ∀ a,
  Forall (λ h : golioth_settings_handler A, sh_type h = cb_type (sh_cb h)) hs →
  item_value x = Some (type, val) →
  ∃ r, receive_one_setting (SettingValue (setting_key label) type val) hs a = OK (r, deliver_setting hs label x a).
Proof.
  induction hs as [|h hs IH]; intros a F Iv; unfold deliver_setting; rewrite Iv; [by eexists|].
  apply Forall_cons in F as [T F]. cbn [receive_one_setting sv_key sv_type sv_val]. simpl list_find.
  unfold strcmp_eq at 1 2. rewrite setting_key_spec.
  fold (strcmp_eq (sh_key h) (ztake GOLIOTH_SETTINGS_MAX_NAME_LEN label)).
  destruct (strcmp_eq (sh_key h) _) eqn:E.
  - rewrite (decide_True (P := true = true)) by done. destruct (decide (sh_type h = type)) as [D|D].
    + rewrite decide_False by tauto. rewrite T in D |- *.
      destruct x as [n|t| | | |b|f]; simpl in Iv; repeat case_decide; simplify_eq;
        destruct (sh_cb h); try done; simpl; by rewrite <- surjective_pairing || (eexists; by rewrite <- surjective_pairing).
    + rewrite decide_True by done. by eexists.
  - rewrite (decide_False (P := false = true)) by done. destruct (IH a F Iv) as [r Er]. exists r. rewrite Er.
    unfold deliver_setting. rewrite Iv. by destruct (list_find _ hs) as [[i h']|].
Qed.

Lemma setting_item_run n z x l up s : reads n z (x :: l) up →
  ∃ z', setting_item (z, s) = OK (item_value x, (z', s))
    ∧ reads n z' (match item_value x with Some _ => l | None => x :: l end) up.
Proof.
  intros R. destruct (payload_run _ _ _ _ _ s R) as (b & E & M & _). unfold setting_item.
  rewrite (st_bind_OK _ _ _ _ _ E), M. destruct x as [i|t|xs|kvs| |c|f]; cbn [major item_value].
  - destruct (int32_reads _ _ _ _ _ R) as (z' & H). exists z'.
    assert ((if 0 <=? i then ZCBOR_MAJOR_TYPE_PINT else ZCBOR_MAJOR_TYPE_NINT) = ZCBOR_MAJOR_TYPE_PINT
      ∨ (if 0 <=? i then ZCBOR_MAJOR_TYPE_PINT else ZCBOR_MAJOR_TYPE_NINT) = ZCBOR_MAJOR_TYPE_NINT) as Mi
      by (destruct (0 <=? i); auto).
    case_decide; destruct H as [D R']; (split; [|done]); destruct Mi as [-> | ->];
      by rewrite (st_bind_OK _ _ _ _ _ (zcbor_run _ _ s _ _ D)).
  - destruct (tstr_reads _ _ _ _ _ R) as (p & z' & D & R'). exists z'. split; [|done].
    by rewrite (st_bind_OK _ _ _ _ _ (zcbor_run _ _ s _ _ D)).
  - by exists z.
  - by exists z.
  - destruct (float_reads _ _ _ _ _ R) as (z1 & D1 & R1). destruct (bool_reads _ _ _ _ _ R1) as (z2 & D2 & R2).
    exists z2. split; [|done]. rewrite (st_bind_OK _ _ _ _ _ (zcbor_run _ _ s _ _ D1)).
    by rewrite (st_bind_OK _ _ _ _ _ (zcbor_run _ _ s _ _ D2)).
  - destruct (float_reads _ _ _ _ _ R) as (z1 & D1 & R1). destruct (bool_reads _ _ _ _ _ R1) as (z2 & D2 & R2).
    exists z2. split; [|done]. rewrite (st_bind_OK _ _ _ _ _ (zcbor_run _ _ s _ _ D1)).
    by rewrite (st_bind_OK _ _ _ _ _ (zcbor_run _ _ s _ _ D2)).
  - destruct (float_reads _ _ _ _ _ R) as (z1 & D1 & R1). exists z1. split; [|done].
    by rewrite (st_bind_OK _ _ _ _ _ (zcbor_run _ _ s _ _ D1)).
Qed.

Lemma settings_pass_end n z up s : reads n z [] up → settings_pass handlers tt (z, s) = OK (inr SUCCESS, (z, s)).
Proof. intros R. unfold settings_pass. by rewrite (st_bind_OK _ _ _ _ _ (list_or_map_end_reads n z [] up s R)). Qed.

Lemma settings_pass_next n z label x l up v a : handlers_typed →
  reads n z (CTstr label :: x :: l) up →
  ∃ z', settings_pass handlers tt (z, SettingsState v a)
      = OK (inl tt, (z', SettingsState v (deliver_setting handlers label x a))) ∧ reads n z' l up.
Proof.
  intros T R. unfold settings_pass.
  rewrite (st_bind_OK _ _ _ _ _ (list_or_map_end_reads n z _ up _ R)), bool_decide_eq_false_2 by done.
  destruct (tstr_reads _ _ _ _ _ R) as (p & z1 & E1 & R1).
  rewrite (st_bind_OK _ _ _ _ _ (zcbor_run _ _ _ _ _ E1)). cbn [str_bytes].
  destruct (setting_item_run n z1 x l up (SettingsState v a) R1) as (z2 & E2 & R2).
  rewrite (st_bind_OK _ _ _ _ _ E2). destruct (item_value x) as [[type val]|] eqn:Iv.
  - destruct (receive_one_setting_run label x type val handlers a T Iv) as [r Er]. exists z2. split; [|done].
    rewrite (st_bind_OK _ (in_app _) _ r (z2, SettingsState v (deliver_setting handlers label x a))); [done|].
    unfold in_app, golioth_settings_receive_one; cbn [snd s_app]. by rewrite Er.
  - destruct (any_skip_reads _ _ _ _ _ R2) as (z3 & E3 & R3). exists z3. split; [|done].
    rewrite (st_bind_OK _ _ _ _ _ (zcbor_run _ _ _ _ _ E3)). unfold deliver_setting. by rewrite Iv.
Qed.

Lemma moves_in_app {B} (f : st A B) : moves (in_app (ZC := ZC) f).
Proof. intros s b s' H. unfold in_app in H. destruct (f _) as [[b' u]|]; by simplify_eq. Qed.

#[local] Hint Resolve moves_in_app : moves.

Lemma moves_setting_item : moves (setting_item (A := A)).
Proof. unfold setting_item. moves. Qed.

#[local] Hint Resolve moves_setting_item : moves.

Lemma moves_settings_pass l : moves (settings_pass handlers l).
Proof. unfold settings_pass. moves. Qed.

Lemma takes_settings_pass l : takes (λ r, ∃ l', r = inl l') (settings_pass handlers l).
Proof.
  unfold settings_pass. apply takes_after; [moves|]. intros []; [by apply takes_ret; intros []|].
  apply takes_bind with (λ r, is_Some r); [|moves|moves|].
  - apply takes_zcbor. intros z [v H]. pose proof (left_tstr z) as L. rewrite H in L. lia.
  - intros [k|] N; [by destruct N|]. by apply takes_ret; intros [].
Qed.

Lemma moves_settings_decode : moves (settings_decode handlers).
Proof.
  unfold settings_decode. apply moves_bind; [moves|]. intros []; [moves|]. apply moves_bind; [moves|].
  intros []; cbn [negb]; [|moves]. apply moves_bind; [moves|]. intros left.
  apply moves_bind; [apply moves_loop, moves_settings_pass|]. moves.
Qed.

Lemma settings_loop n up l v : ∀ items fuel z a, handlers_typed →
  reads n z (flat (settings_map items)) (l :: up) → (length items < fuel)%nat →
  ∃ z', loop fuel (settings_pass handlers) tt (z, SettingsState v a)
      = OK (SUCCESS, (z', SettingsState v (deliver_settings handlers items a))) ∧ reads n z' [] (l :: up).
Proof.
  induction items as [|[label x] items IH]; intros [|fuel] z a T R Lf; try (simpl in Lf; lia); cbn [loop].
  - exists z. by rewrite (st_bind_OK _ _ _ _ _ (settings_pass_end n z _ _ R)).
  - destruct (settings_pass_next n z label x (flat (settings_map items)) (l :: up) v a T R) as (z1 & E1 & R1).
    rewrite (st_bind_OK _ _ _ _ _ E1). apply IH; [done..|simpl in Lf; lia].
Qed.

(** The effect of the map of settings on the program. *)
Definition settings_effect (items : list (list byte * item)) s : settings_state A :=
  SettingsState (settings_version s) (deliver_settings handlers items (s_app s)).

Lemma decodes_settings items : handlers_typed →
  decodes (λ _, True) 2 1 (settings_decode handlers) (CMap (settings_map items)) (settings_effect items).
Proof.
  intros T z l up s _ Lu R. destruct s as [v a]. unfold settings_decode.
  destruct (nil_reads _ _ _ _ _ R) as (z0 & E0 & R0).
  rewrite (st_bind_OK _ _ _ _ _ (zcbor_run _ _ _ _ _ E0)).
  destruct (map_start_reads _ _ _ _ _ R0 ltac:(lia)) as (z1 & E1 & R1).
  rewrite (st_bind_OK _ _ _ _ _ (zcbor_run _ _ _ _ _ E1)). cbn [negb].
  rewrite (st_bind_OK _ (gets _) _ (zcbor_left z1) (z1, SettingsState v a)) by done.
  destruct (settings_loop 2 up l v items (S (zcbor_left z1) + length items) z1 a T R1 ltac:(lia)) as (z2 & E2 & R2).
  rewrite (loop_fuel _ (λ _ zs, zcbor_left zs.1)) with (fuel' := S (zcbor_left z1)) in E2.
  2: { intros l1 s1 l2 s2 H. apply (takes_settings_pass l1 _ _ _ H). by exists l2. }
  2, 3: simpl; lia.
  rewrite (st_bind_OK _ _ _ _ _ E2). destruct (map_end_reads _ _ _ _ R2) as (z3 & E3 & R3). exists z3.
  by rewrite (st_bind_OK _ _ _ _ _ (zcbor_run _ _ _ _ _ E3)).
Qed.

Lemma settings_entries_move : Forall (λ e, moves (decode e)) (settings_entries handlers).
Proof.
  unfold settings_entries. rewrite !Forall_cons.
  split_and!; [apply moves_settings_decode|apply moves_int64_decode|done].
Qed.

Abbreviation entries := (settings_entries handlers).

(** Which entry a key is for. *)
Lemma requested_setting b :
  requested entries (CTstr b) =
    if decide (b = str_settings) then Some (0%nat, ZCBOR_TSTR_LIT_MAP_ENTRY str_settings (settings_decode handlers))
    else if decide (b = str_version)
    then Some (1%nat, ZCBOR_TSTR_LIT_MAP_ENTRY str_version (zcbor_map_int64_decode version_set)) else None.
Proof.
  unfold settings_entries. rewrite !requested_cons.
  assert (∀ lit (m : st (zcbor_state * settings_state A) status),
    key_is (CTstr b) (entry_key (ZCBOR_TSTR_LIT_MAP_ENTRY lit m)) = bool_decide (b = lit)) as K.
  { intros lit m. simpl. apply bool_decide_ext. split; [by intros [=]|congruence]. }
  rewrite !K. destruct (decide (b = str_settings)) as [D|D].
  - by rewrite (bool_decide_eq_true_2 _ D).
  - rewrite (bool_decide_eq_false_2 _ D). destruct (decide (b = str_version)) as [E|E].
    + by rewrite (bool_decide_eq_true_2 _ E).
    + by rewrite (bool_decide_eq_false_2 _ E).
Qed.

(** Pairs that are neither the settings nor the version. *)
Definition others (kvs : list (item * item)) : Prop :=
  Forall (λ kv, ∃ b, kv.1 = CTstr b ∧ b ≠ str_settings ∧ b ≠ str_version) kvs.

Lemma requested_other b : b ≠ str_settings → b ≠ str_version → requested entries (CTstr b) = None.
Proof. intros. rewrite requested_setting. by rewrite !decide_False. Qed.

Lemma count_app kvs1 kvs2 : count entries (kvs1 ++ kvs2) = (count entries kvs1 + count entries kvs2)%nat.
Proof. unfold count. by rewrite filter_app, length_app. Qed.

Lemma others_count kvs : others kvs → count entries kvs = 0%nat.
Proof.
  induction 1 as [|[k x] kvs (b & E & N1 & N2) F IH]; [done|]. simpl in E. subst k.
  by rewrite count_cons, requested_other.
Qed.

Lemma effects_app eff kvs1 kvs2 s :
  effects entries eff (kvs1 ++ kvs2) s = effects entries eff kvs2 (effects entries eff kvs1 s).
Proof. unfold effects. by rewrite foldl_app. Qed.

Lemma others_effects eff kvs s : others kvs → effects entries eff kvs s = s.
Proof.
  intros O. revert s. induction O as [|[k x] kvs (b & E & N1 & N2) F IH]; intros s; [done|].
  simpl in E. subst k. change ((CTstr b, x) :: kvs) with ([(CTstr b, x)] ++ kvs). rewrite effects_app, IH.
  unfold effects; cbn [foldl fst snd]. by rewrite requested_other.
Qed.

Definition settings_eff (items : list (list byte * item)) (i : nat) (x : item) s : settings_state A :=
  match i, x with 0%nat, _ => settings_effect items s | _, CInt v => version_set v s | _, _ => s end.

(** The two pairs that are asked for. *)
Definition settings_pair (items : list (list byte * item)) : item * item :=
  (CTstr str_settings, CMap (settings_map items)).
Definition version_pair (v : Z) : item * item := (CTstr str_version, CInt v).

Lemma settings_readable items v kvs : handlers_typed →
  -9223372036854775808 ≤ v < 9223372036854775808 →
  Forall (λ kv, kv = settings_pair items ∨ kv = version_pair v
            ∨ ∃ b, kv.1 = CTstr b ∧ b ≠ str_settings ∧ b ≠ str_version) kvs →
  readable entries (λ _, True) 2 1 (settings_eff items) kvs.
Proof.
  intros T Rv F. pose proof (proj1 (Forall_forall _ _) F) as Fl. split.
  - intros kv e Hk He.
    assert (∃ b, kv.1 = CTstr b) as [b ->] by (destruct (Fl kv Hk) as [-> | [-> | (b & E & _)]]; by eexists).
    unfold settings_entries in He. rewrite !elem_of_cons, elem_of_nil in He.
    destruct He as [-> | [-> | []]]; by eexists.
  - intros kv i e Hk Rq. destruct (Fl kv Hk) as [-> | [-> | (b & E & N1 & N2)]].
    + simpl fst in Rq. rewrite requested_setting, decide_True in Rq by done. injection Rq as <- <-.
      by apply decodes_settings.
    + simpl fst in Rq. rewrite requested_setting, decide_False, decide_True in Rq by done. injection Rq as <- <-.
      by apply (decodes_int64 (λ _, True) 2 1 v version_set).
    + rewrite E, requested_other in Rq by done. done.
Qed.

(** A map with both pairs, in either order, the second of them last. *)
Lemma settings_run pre mid first second items v id d last s : handlers_typed →
  -9223372036854775808 ≤ v < 9223372036854775808 →
  (first = settings_pair items ∧ second = version_pair v) ∨ (first = version_pair v ∧ second = settings_pair items) →
  others pre → others mid → encodes d (CMap (pre ++ first :: mid ++ [second])) →
  settings_downlink handlers id (Some d) (len d) last s
    = OK (SettingsState v (deliver_settings handlers items (s_app s))).
Proof.
  intros T Rv FS Op Om En. set (kvs := pre ++ first :: mid ++ [second]) in *.
  assert (∀ i p, (i, p) = settings_pair items ∨ (i, p) = version_pair v → count entries [(i, p)] = 1%nat) as C1.
  { intros i p [[= -> ->] | [= -> ->]]; rewrite count_cons, requested_setting;
      [by rewrite decide_True|by rewrite decide_False, decide_True]. }
  assert (count entries [first] = 1 ∧ count entries [second] = 1)%nat as [Cf Cs].
  { destruct FS as [[-> ->] | [-> ->]]; split; apply C1; auto. }
  assert (count entries (pre ++ first :: mid) = 1%nat) as C.
  { change (first :: mid) with ([first] ++ mid). rewrite !count_app, Cf, !others_count by done. done. }
  assert (kvs = (pre ++ first :: mid) ++ [second]) as Ek by (unfold kvs; by rewrite <- app_assoc).
  pose proof (new_reads 2 d _ En) as R.
  destruct (map_decode_run entries settings_entries_move (λ _, True) 2 (settings_eff items) kvs [] []
    (zcbor_new_decode_state 2 d) s R) as (z' & E & _ & _); [simpl; lia|done| | |].
  - apply settings_readable with v; [done..|]. unfold kvs. rewrite Forall_app, Forall_cons, Forall_app, Forall_singleton.
    split_and!; try (by eapply Forall_impl; [eassumption|]; auto); destruct FS as [[-> ->] | [-> ->]]; auto.
  - intros j Hj. rewrite Ek in Hj |- *. rewrite take_app_le by solve_len.
    pose proof (count_app (take j (pre ++ first :: mid)) (drop j (pre ++ first :: mid))) as Cj.
    rewrite take_drop, C in Cj. simpl. lia.
  - rewrite Ek, count_app, C, Cs in E. unfold settings_downlink. rewrite load_all, bind_OK, E. simpl. f_equal.
    rewrite effects_app. change (first :: mid) with ([first] ++ mid).
    rewrite !effects_app, (others_effects _ pre), (others_effects _ mid) by done.
    assert (∀ s, effects entries (settings_eff items) [settings_pair items] s = settings_effect items s) as Es.
    { intros s'. unfold effects; cbn [foldl fst snd settings_pair]. by rewrite requested_setting, decide_True. }
    assert (∀ s, effects entries (settings_eff items) [version_pair v] s = version_set v s) as Ev.
    { intros s'. unfold effects; cbn [foldl fst snd version_pair].
      by rewrite requested_setting, decide_False, decide_True. }
    destruct FS as [[-> ->] | [-> ->]]; by rewrite Es, Ev.
Qed.

(** C33: a settings document (a map with the settings and the version in either order, among other text
    keys before the second of them) calls, for each setting in the order of the map, the first handler
    registered for its name (cut to 31 characters) if the value has the handler's type, and stores the
    version; settings of other types, or integers that are not 32-bit, are skipped. *)
Theorem settings_received pre mid first second items v id d last s : handlers_typed →
  -9223372036854775808 ≤ v < 9223372036854775808 →
  (first = settings_pair items ∧ second = version_pair v) ∨ (first = version_pair v ∧ second = settings_pair items) →
  others pre → others mid → encodes d (CMap (pre ++ first :: mid ++ [second])) →
  settings_downlink handlers id (Some d) (len d) last s
    = OK (SettingsState v (deliver_settings handlers items (s_app s))).
Proof. apply settings_run. Qed.

End SettingsLemmas.

(** * Unions *)

Section Types.
Context {ZC : Zcbor} {A : Type} (handlers : list (golioth_settings_handler A)).
Implicit Types (s : settings_state A).

(** The tag names the member that was stored. *)
Definition val_type (v : setting_union) : golioth_setting_value_type :=
  match v with
  | bool_val _ => GOLIOTH_SETTING_VALUE_TYPE_BOOL
  | int_val _ => GOLIOTH_SETTING_VALUE_TYPE_INT
  | float_val _ => GOLIOTH_SETTING_VALUE_TYPE_FLOAT
  | str_val _ => GOLIOTH_SETTING_VALUE_TYPE_STRING
  end.

Lemma receive_one_typed key val hs a :
  Forall (λ h : golioth_settings_handler A, sh_type h = cb_type (sh_cb h)) hs →
  is_OK (receive_one_setting (SettingValue key (val_type val) val) hs a).
Proof.
  induction 1 as [|h hs T F IH]; [by eexists|]. cbn [receive_one_setting sv_key sv_type sv_val].
  destruct (strcmp_eq _ _); [|done]. case_decide as D; [by eexists|]. rewrite D.
  rewrite T in D. destruct (sh_cb h), val; try done; by eexists.
Qed.

(** C34: the unions of a setting are read as they were written: whatever the decoder is given, a value that
    settings.c finds valid carries the tag of the member it stored, and handing it to the registered
    handlers never reads another member of the value or calls a callback of another type. *)
Theorem settings_type_safe zs type val zs' key a :
  handlers_typed handlers → setting_item (A := A) zs = OK (Some (type, val), zs') →
  type = val_type val ∧ is_OK (golioth_settings_receive_one handlers (SettingValue key type val) a).
Proof.
  intros T E. assert (type = val_type val) as ->; [|by split; [|by apply receive_one_typed]].
  unfold setting_item in E. apply st_bind_OK_inv in E as (b & s1 & _ & E).
  destruct (ZCBOR_MAJOR_TYPE b); try (by injection E); apply st_bind_OK_inv in E as (o & s2 & _ & E);
    destruct o; simpl in E; try (by injection E as <- <- _); try (by injection E).
  apply st_bind_OK_inv in E as (o & s3 & _ & E). destruct o; [by injection E as <- <- _|by injection E].
Qed.

End Types.

(** * Reporting the version *)

Section Report.
Context {BO : ByteOrder} {SL : SList} {KW : KWork} {MQ : MsgQ} {CF : Config} {C : Type}.
Context {ZE : ZcborEncode}.

(** ".c/status" *)
Definition SETTINGS_UPLINK_PATH : list byte := ["."; "c"; "/"; "s"; "t"; "a"; "t"; "u"; "s"]%byte.

(** The encoding of [settings_version] in [buf], or [None] where the function returns. *)
Definition encode_version (settings_version : Z) : option enc_state :=
  zse ← put (zcbor_map_start_encode 2 (zcbor_new_encode_state 64));
  zse ← put (zcbor_tstr_put str_version zse);
  zse ← put (if 0 <=? settings_version then zcbor_int64_put settings_version zse else zcbor_nil_put zse);
  put (zcbor_map_end_encode 2 zse).

Definition settings_uplink (settings_version : Z) : st (sys C) unit :=
  match encode_version settings_version with
  | None => mret tt
  | Some zse =>
    pouch_uplink_entry_write (Some SETTINGS_UPLINK_PATH) (Some (enc_payload zse)) POUCH_CONTENT_TYPE_CBOR
      (len (enc_payload zse)) None;;
    mret tt
  end.

Context {ZC : Zcbor} {ZR : ZcborReads ZC} {ZB : ZcborBuilds ZE ZR}.

(** {"version": v}, or nil when no version has been received. *)
Definition version_map (v : Z) : item :=
  CMap [(CTstr str_version, if 0 <=? v then CInt v else CNil)].

Lemma encode_version_spec v zse : -9223372036854775808 ≤ v < 9223372036854775808 →
  encode_version v = Some zse → encodes (enc_payload zse) (version_map v) ∧ 1 ≤ len (enc_payload zse) ≤ 64.
Proof.
  intros Rv. unfold encode_version. intros (s0 & E0 & H)%bind_Some. apply put_Some in E0.
  apply (map_start_builds 64 _ _ _ _ (new_builds 64 ltac:(lia))) in E0.
  apply bind_Some in H as (s1 & E1 & H). apply put_Some in E1. apply (tstr_builds _ _ _ _ _ _ E0) in E1.
  apply bind_Some in H as (s2 & E2 & H). apply put_Some in E2, H.
  apply (payload_encodes 64 zse (version_map v)).
  apply (map_end_builds 64 2 s2 zse [(CTstr str_version, if 0 <=? v then CInt v else CNil)] [] []); [|done].
  destruct (0 <=? v); [by apply (int64_builds _ _ _ _ _ _ E1)|by apply (nil_builds _ _ _ _ _ E1)].
Qed.

(** The entry that reports version [v]. *)
Definition version_entry v e : Prop :=
  path e = SETTINGS_UPLINK_PATH ∧ content_type e = POUCH_CONTENT_TYPE_CBOR ∧ encodes (data e) (version_map v).

Lemma settings_uplink_writes v :
  -9223372036854775808 ≤ v < 9223372036854775808 →
  (encode_version v = None ∧ ∀ s, settings_uplink v s = OK (tt, s))
  ∨ ∃ e, version_entry v e ∧ entry_wf e ∧ data_len e ≠ 0 ∧ writes (settings_uplink v) [e].
Proof.
  intros Rv. unfold writes, settings_uplink. destruct (encode_version v) as [zse|] eqn:E; [right|by left].
  destruct (encode_version_spec v zse Rv E) as [En Ln].
  exists (Entry SETTINGS_UPLINK_PATH POUCH_CONTENT_TYPE_CBOR (len (enc_payload zse)) (enc_payload zse)).
  split_and!; [done| |simpl; lia|].
  - split; [unfold no_nul; by apply (bool_decide_unpack _)|done|]. unfold entry_size, ENTRY_HEADER_OVERHEAD.
    simpl. lia.
  - intros s. cbn [write_all path data content_type data_len]. unfold mbind, st_bind.
    by destruct (pouch_uplink_entry_write _ _ _ _ _ s) as [[]|].
Qed.

(** The settings report is one entry on ".c/status" that encodes the version last received, or nil
    before the first; it is refused only for lack of memory or when no block can hold it, and nothing is
    written when the version does not fit the buffer. *)
Theorem settings_uplink_reports v base s log :
  -9223372036854775808 ≤ v < 9223372036854775808 → entry_log base s log →
  (encode_version v = None ∧ settings_uplink v s = OK (tt, s))
  ∨ ∃ e r s',
    path e = SETTINGS_UPLINK_PATH ∧ content_type e = POUCH_CONTENT_TYPE_CBOR ∧ encodes (data e) (version_map v)
    ∧ settings_uplink v s = OK (tt, s') ∧ wrote base s s' (log ++ accepted r e)
    ∧ (r = SUCCESS ∨ r = NEG ENOMEM)
    ∧ (malloc_never_fails (s_heap s) →
       r = if entry_size e <=? MAX_BLOCK_PAYLOAD_SIZE then SUCCESS else NEG ENOMEM).
Proof.
  intros Rv L. destruct (settings_uplink_writes v Rv) as [[N E]|(e & (P & T & En) & W & D & Wr)]; [by left|right].
  destruct (entry_writes_run [e] base s log L) as (rs & s' & E & Ws & Rs & M); [by constructor|].
  pose proof (write_all_length _ _ _ _ E) as Lr. destruct rs as [|r [|]]; try done.
  exists e, r, s'. unfold accepted_all in Ws. simpl in Ws. rewrite app_nil_r in Ws.
  split_and!; try done; [by rewrite Wr, (st_bind_OK _ _ _ _ _ E)|by apply Forall_cons in Rs as [? _]|].
  intros H. specialize (M H). by injection M.
Qed.

End Report.

Module SettingsWitness.
Import NativeZcbor NativeEncode.
#[local] Existing Instances Native.byte_order Native.config_none Native.list_slist Native.flag_work
  Native.list_msgq.

(** An integer setting "LED" and the last value given to it. *)
Definition led : golioth_settings_handler (ZC := NativeZcbor.zcbor) Z :=
  GOLIOTH_SETTINGS_HANDLER ["L"; "E"; "D"]%byte (int_cb (λ n _, (SUCCESS, n))).

Definition ex_items : list (list byte * cbor Z) :=
  [(["x"%byte], CNil); (["L"; "E"; "D"]%byte, CInt 5); (["L"; "E"; "D"]%byte, CBool true)].

(** {"a": 1, "version": 9, "settings": {"x": nil, "LED": 5, "LED": true}} *)
Definition ex_doc : cbor Z :=
  CMap ([(CTstr ["a"%byte], CInt 1)] ++ version_pair (ZC := NativeZcbor.zcbor) 9
          :: [] ++ [settings_pair (ZC := NativeZcbor.zcbor) ex_items]).

Lemma settings_received_witness :
  settings_downlink [led] 1 (Some (emit ex_doc)) (len (emit ex_doc)) true (SettingsState (-1) 0)
    = OK (SettingsState 9 5).
Proof.
  refine (eq_trans (settings_received (ZR := NativeZcbor.zcbor_reads) (ZP := NativeZcbor.zcbor_progress) [led]
    [(CTstr ["a"%byte], CInt 1)] [] (version_pair 9) (settings_pair ex_items) ex_items 9 1 (emit ex_doc) true
    (SettingsState (-1) 0) _ _ _ _ _ _) _).
  - unfold handlers_typed. by apply Forall_singleton.
  - lia.
  - by right.
  - apply Forall_singleton. exists ["a"%byte]. done.
  - constructor.
  - vm_compute. reflexivity.
  - vm_compute. reflexivity.
Defined.

Lemma settings_type_safe_witness :
  setting_item (NativeZcbor.Zst 1 [CInt 5] [], SettingsState (-1) 0)
    = OK (Some (GOLIOTH_SETTING_VALUE_TYPE_INT, int_val 5), (NativeZcbor.Zst 1 [] [], SettingsState (-1) 0))
  ∧ GOLIOTH_SETTING_VALUE_TYPE_INT = val_type (ZC := NativeZcbor.zcbor) (int_val 5)
  ∧ is_OK (golioth_settings_receive_one [led]
      (SettingValue ["L"; "E"; "D"]%byte GOLIOTH_SETTING_VALUE_TYPE_INT (int_val 5)) 0).
Proof.
  assert (setting_item (ZC := NativeZcbor.zcbor) (NativeZcbor.Zst 1 [CInt 5] [], SettingsState (-1) 0)
    = OK (Some (GOLIOTH_SETTING_VALUE_TYPE_INT, int_val 5), (NativeZcbor.Zst 1 [] [], SettingsState (-1) 0)))
    as E by reflexivity.
  split; [exact E|].
  refine (settings_type_safe [led] _ _ _ _ ["L"; "E"; "D"]%byte 0 _ E).
  unfold handlers_typed. by apply Forall_singleton.
Defined.

(** {"settings": nil, "version": 9}: the version that follows is not stored. *)
Example nil_settings_lose_version :
  let d := emit (CMap [(CTstr str_settings, CNil); (CTstr str_version, CInt 9)]) in
  settings_downlink [led] 1 (Some d) (len d) true (SettingsState (-1) 0) = OK (SettingsState (-1) 0).
Proof. vm_compute. reflexivity. Qed.

Lemma settings_uplink_reports_witness :
  (encode_version 9 = None ∧ settings_uplink 9 EntryWitness.ex_sys = OK (tt, EntryWitness.ex_sys))
  ∨ ∃ e r s',
    path e = SETTINGS_UPLINK_PATH ∧ content_type e = POUCH_CONTENT_TYPE_CBOR
    ∧ encodes (ZcborReads := NativeZcbor.zcbor_reads) (data e) (version_map 9)
    ∧ settings_uplink 9 EntryWitness.ex_sys = OK (tt, s')
    ∧ wrote (pending EntryWitness.ex_sys) EntryWitness.ex_sys s' ([] ++ accepted r e)
    ∧ (r = SUCCESS ∨ r = NEG ENOMEM)
    ∧ (malloc_never_fails (s_heap EntryWitness.ex_sys) →
       r = if entry_size e <=? MAX_BLOCK_PAYLOAD_SIZE then SUCCESS else NEG ENOMEM).
Proof.
  apply (settings_uplink_reports (ZB := NativeEncode.encode_builds) 9 (pending EntryWitness.ex_sys)
           EntryWitness.ex_sys []); [lia|by apply entry_log_start].
Defined.

(** The encoding is made and accepted. *)
Example version_encoded : is_Some (encode_version 9).
Proof. by apply (bool_decide_unpack _). Qed.

End SettingsWitness.
