(* ===== verification/Pouch.v ===== *)
(** Whole pouches: initialisation, and a plaintext pouch from the writers of one device to the handlers
    of its peer.

    [Init]: pouch.c. [Pieces]: what the parser of a peer makes of the blocks of a session. [EndToEnd]:
    a session of the sender and the receiver behind it, and the dispatcher of the SDK. *)
From stdpp Require Import relations.
From S2P Require Import Prelude Platform Buf Block Crypto State Entry Stream Header Uplink Sender Dispatch Routing Downlink Receiver.

(** * Initialisation: pouch.c *)

Section Init.
Context {BO : ByteOrder} {SL : SList} {KW : KWork} {MQ : MsgQ} {CF : Config} {HC : HeaderCodec}.
Context {C : Type}.

Definition pouch_module_init : st (sys C) Z :=
  modify (λ s, set_events (EventStatics (pouch_event_q (s_events s)) k_work_init) s);;
  mret 0.

(** [crypto_init] is the encryption layer's, given the configuration. *)
Definition pouch_init (crypto_init : C → outcome (status * C)) : st (sys C) status :=
  downlink_init;;
  uplink_init;;
  c ← gets s_crypto;
  '(err, c) ← lift (crypto_init c);
  modify (set_crypto c);;
  mret err.

(** The statics as the program starts are initialised to no session, empty queues and no buffer in use. *)
Lemma init_run {CR : Crypto C} {CL : CryptoLaws C} h depth c0 init err c1 :
  live h 0 → init c0 = OK (err, c1) →
  ∃ s, (pouch_module_init;; pouch_init init) (boot h depth c0) = OK (err, s) ∧ s_crypto s = c1
    ∧ s_heap s = h ∧ (malloc_never_fails h → quiet s) ∧ balanced s 0 ∧ (crypto_inv c1 → between s []).
Proof.
  intros L E. pose proof (elems_init pouch_buf) as El.
  assert (∃ s, (pouch_module_init;; pouch_init init) (boot h depth c0) = OK (err, s) ∧ s_crypto s = c1
      ∧ pending s = [] ∧ s_block s = None ∧ u_flags (s_uplink s) = 0 ∧ u_header (s_uplink s) = None
      ∧ outgoing s = [] ∧ elems (u_transport_queue (s_uplink s)) = []
      ∧ u_transport_reader (s_uplink s) = BufView None 0 ∧ decrypting s = [] ∧ consuming s = []
      ∧ idle s ∧ s_heap s = h ∧ d_pouch_buf (s_downlink s) = None
      ∧ s_stream s = StreamStatics 1 0)
    as (s & Es & Cr & P & B & F & H & O & T & R & D & Co & Id & Hh & Db & Ss).
  { eexists. split.
    - rewrite (st_bind_OK _ _ _ 0 _ eq_refl). unfold pouch_init.
      rewrite (st_bind_OK _ downlink_init _ tt _ eq_refl), (st_bind_OK _ uplink_init _ tt _ eq_refl).
      rewrite (st_bind_OK _ (gets s_crypto) _ _ _ eq_refl).
      match goal with |- context [s_crypto ?x] => change (s_crypto x) with c0 end.
      unfold lift. run_st. rewrite E. reflexivity.
    - unfold outgoing, stream_of, pending, decrypting, consuming, idle, decrypt_queued, consume_queued.
      cbn -[elems]; rewrite !elems_queue_init, !k_work_init_spec. by split_and!. }
  exists s. split_and!; [done|done|done| | |].
  - split; try done. by rewrite Hh.
  - unfold balanced, owned, decrypting, consuming in *. rewrite Hh, P, B, H, T, R, Db, D, Co. exact L.
  - intros I. split; try done; [|by rewrite <- P; apply entry_log_start|by unfold counter_ok; rewrite Ss].
    split; rewrite ?Cr, ?P, ?H; [done|constructor| |constructor].
    split; rewrite ?T, ?R; [constructor|done].
Qed.

End Init.

(** * The blocks of a session and the parser of a peer *)

Section Pieces.
Context {BO : ByteOrder} {SL : SList} {KW : KWork} {MQ : MsgQ} {CF : Config} {HC : HeaderCodec}.

Lemma finished_packet b : finished b → packet (contents b).
Proof.
  intros (i & p & B & E). pose proof (is_block_len _ _ _ B) as L.
  pose proof MAX_BLOCK_PAYLOAD_SIZE_range. pose proof MAX_CIPHERTEXT_range.
  unfold MAX_PLAINTEXT_BLOCK_SIZE, BLOCK_HEADER_SIZE in *.
  pose proof (len_frame i p ltac:(lia)) as F. rewrite E.
  split; [lia|lia|]. rewrite F. unfold frame.
  rewrite take_app_exact by (rewrite len_put_be16; lia).
  rewrite sys_put_be16_spec, sys_get_be16_spec, be16_value by lia. lia.
Qed.

Lemma finished_packets bs : Forall finished bs → Forall packet (map contents bs).
Proof. intros F. apply Forall_map. eapply Forall_impl; [apply F|]. apply finished_packet. Qed.

(** The parser takes a block for the piece it holds, whatever buffer the bytes arrive in. *)
Lemma piece_accepted {A} (handlers : list (pouch_downlink_handler A)) b p b' a :
  block_holds b p → Forall entry_representable (piece_entries p) → contents b' = contents b →
  buf_wf b' → pouch_downlink_block_push handlers b' a = OK (deliver_piece handlers a p).
Proof.
  intros H R E W. pose proof MAX_BLOCK_PAYLOAD_SIZE_range.
  destruct p as [es|k id opening c last].
  - destruct H as [B Ec]. pose proof (is_block_len _ _ _ B).
    by rewrite (block_push_entries handlers b' es true true) by (done || lia || congruence).
  - destruct H as (I & O & B & Ec). pose proof (is_block_len _ _ _ B).
    apply block_push_stream; [done|done|done|lia|congruence].
Qed.

Lemma pieces_accepted {A} (handlers : list (pouch_downlink_handler A)) bs ps a0 :
  Forall2 block_holds bs ps → Forall entry_representable (entries_of ps) →
  accepts handlers (map contents bs) a0 (foldl (deliver_piece handlers) a0 ps).
Proof.
  intros F. revert a0. induction F as [|b p bs ps H F IH]; intros a0 R bs' E D.
  - by apply map_eq_nil in E as ->.
  - destruct bs' as [|b' bs']; [done|]. injection E as Eb E.
    apply Forall_cons in D as [[W _] D]. unfold entries_of in R. simpl in R.
    apply Forall_app in R as [R1 R2]. cbn [push_all foldl].
    rewrite (piece_accepted handlers b p) by done. rewrite bind_OK. by apply IH.
Qed.

(** Without streams, the pieces deliver the entries one after the other. *)
Lemma deliver_entries {A} (handlers : list (pouch_downlink_handler A)) ps : ∀ a,
  (∀ k, pieces_of k ps = []) →
  foldl (deliver_piece handlers) a ps = foldl (deliver handlers) a (entries_of ps).
Proof.
  induction ps as [|p ps IH]; intros a N; [done|].
  assert (∀ k, pieces_of k ps = []) as N'.
  { intros k. specialize (N k). change (p :: ps) with ([p] ++ ps) in N.
    rewrite pieces_of_app in N. by apply app_eq_nil in N as [_ N]. }
  destruct p as [es|k id opening c last].
  - unfold entries_of. simpl. rewrite foldl_app. by apply IH.
  - specialize (N k). unfold pieces_of in N. rewrite filter_cons_True in N; [done|].
    by apply bool_decide_eq_true.
Qed.

End Pieces.

(** * From the writers to the handlers *)

(** Plaintext: a block is its own encryption. *)
Section Plain.
Context {BO : ByteOrder} {SL : SList} {KW : KWork} {MQ : MsgQ} {CF : Config} {HC : HeaderCodec}.
#[local] Existing Instance CryptoNone.crypto_none.
Implicit Types (c : CryptoNone.state).

Lemma encrypts_plain M c bs es c' : encrypts M c bs es c' → es = bs ∧ c' = c.
Proof.
  induction 1 as [|c b r c1 bs es c2 h h' _ E _ [-> ->]]; [done|]. by injection E as <- _ <-.
Qed.

Lemma opens_plain c fs : opens c fs fs c.
Proof.
  induction fs as [|f fs IH]; [constructor|]. econstructor; [|done]. intros b h <- D M.
  exists b, h. by split_and!.
Qed.

(** The header of a plaintext session. *)
Lemma header_plain c hb : header_bytes c = Some hb →
  ∃ id, cbor_encode_pouch_header POUCH_HEADER_MAX_LEN
          (PouchHeader POUCH_HEADER_VERSION (plaintext_info id)) = Some hb.
Proof.
  unfold header_bytes. destruct c as [id|]; [|done]. intros E. by exists (ztake (strlen id) id).
Qed.

End Plain.

Section EndToEnd.
Context {BO : ByteOrder} {SL : SList} {KW : KWork} {MQ : MsgQ} {CF : Config} {HC : HeaderCodec}.
Context {HL : HeaderCodecLaws HC}.
#[local] Existing Instances CryptoNone.crypto_none CryptoNone.crypto_none_laws.
Abbreviation S := (sys CryptoNone.state).
Implicit Types (s t : S).

(** ** From end to end *)

(** A session of the sender that ended: [out] and [d] are the bytes its transport read, [log] and [es]
    the entries accepted before it and in it, [ys] the streams that were opened. *)
Section Sent.
Context (s s0 s1 s2 : S) (log es : list pouch_entry) (ys : list client_stream).
Context (ops1 ops2 : list pouch_op) (out d : list byte) (n k held : Z).
Context (Hfits : POUCH_HEADER_MAX_LEN ≤ MAX_CIPHERTEXT_BLOCK_SIZE).
Context (Hbetween : between s log) (Hbalanced : balanced s held).
Context (Hstart : pouch_uplink_start s = OK (true, s0)).
Context (Hops1 : Forall op_ok ops1) (Hops2 : Forall op_ok ops2).
Context (Hclosed : Forall (λ op, is_internal op = true) ops2) (Hn : 0 ≤ n).
Context (Hsession : session ops1 ops2 ([], s0) = OK ((es, out), (ys, s1))).
Context (Hend : pouch_uplink_fill n s1 = OK ((POUCH_NO_MORE_DATA, k, d), s2)).
Context (Hsome : out ++ d ≠ []) (Hrepresentable : Forall entry_representable (log ++ es)).

Lemma end_to_end_run {A} (handlers : list (pouch_downlink_handler A)) :
  ∃ hb bs ps,
    out ++ d = pouch_bytes hb bs ∧ Forall packet (map contents bs) ∧ entries_of ps = log ++ es
    ∧ (∀ j y, ys !! j = Some y → stream_sent ps j y) ∧ (∀ j, (length ys ≤ j)%nat → pieces_of j ps = [])
    ∧ ∀ t ds a0, quiet t → one_end (len hb) ds (map contents bs) → concat ds = out ++ d →
      ∃ t1, pouch_downlink_start t = OK (tt, t1)
        ∧ delivers handlers ds t1 a0 (foldl (deliver_piece handlers) a0 ps) (s_crypto t).
Proof.
  destruct (session_run s s0 log ops1 ops2 held Hbetween Hbalanced Hstart Hops1 Hops2 Hclosed)
    as (hb & es' & out' & ys' & s1' & Hh & Es' & Sg & Se & _).
  rewrite Hsession in Es'. injection Es' as <- <- <- <-.
  destruct (session_end hb _ _ _ _ ys s1 _ _ n _ k d s2 Sg Se Hn Hend eq_refl)
    as (bs & ps & eb & c & Eo & En & F & El & St & Nw).
  apply encrypts_plain in En as [-> _].
  exists hb, bs, ps. pose proof (finished_packets bs (block_holds_finished bs ps F)) as Pk.
  split_and!; [done..|]. intros t ds a0 Q Sm Ed.
  destruct (header_plain _ _ Hh) as [id Ec]. pose proof (encode_fits _ _ _ Ec) as Lh.
  destruct (receive_run handlers POUCH_HEADER_MAX_LEN _ hb (map contents bs) (map contents bs)
    (s_crypto t) (s_crypto t) a0 (foldl (deliver_piece handlers) a0 ps) t ds Ec)
    as (t1 & E1 & D & _); try done; [lia|apply opens_plain| | |by exists t1].
  - apply pieces_accepted; [done|by rewrite El].
  - rewrite Ed, Eo. destruct bs; [|done]. by destruct Hsome.
Qed.

(** C1: end to end: when a session of the sender ends, what its transport read, cut into chunks and
    pushed to a receiver, reaches the receiver's handlers piece by piece: the entries the sender
    accepted, those written before the session first, and the data of its streams, each byte exactly
    once and in order, with an end where a stream was closed; every write, every call of a stream,
    every run of a work, every read and every push may come in any order on its side. (Plaintext
    pouches; no chunk holds the ends of two blocks.) *)
Theorem pouch_end_to_end {A} (handlers : list (pouch_downlink_handler A)) :
  ∃ hb bs ps,
    out ++ d = pouch_bytes hb bs ∧ Forall packet (map contents bs) ∧ entries_of ps = log ++ es
    ∧ (∀ j y, ys !! j = Some y → stream_sent ps j y) ∧ (∀ j, (length ys ≤ j)%nat → pieces_of j ps = [])
    ∧ ∀ t ds a0, quiet t → one_end (len hb) ds (map contents bs) → concat ds = out ++ d →
      ∃ t1, pouch_downlink_start t = OK (tt, t1)
        ∧ delivers handlers ds t1 a0 (foldl (deliver_piece handlers) a0 ps) (s_crypto t).
Proof. apply end_to_end_run. Qed.

(** C2: at the services: when the receiver is the SDK's dispatcher, the services get what the pouch
    carries: the entries the sender accepted and the data of its streams, in the order of the pouch,
    become exactly the calls of the dispatcher's specification (a finite map from the open streams to
    services), one after the other, and afterwards the dispatcher knows exactly the streams still open;
    when no stream was opened these are, for each entry, the calls of the first service registered for
    its path and of no other. (Plaintext pouches; no chunk holds the ends of two blocks; no stream starts
    with the id of one that is open.) *)
Theorem pouch_served {A} (services : list (golioth_downlink_service A)) :
  paths_ok services →
  ∃ hb bs ps,
    out ++ d = pouch_bytes hb bs ∧ Forall packet (map contents bs) ∧ entries_of ps = log ++ es
    ∧ (∀ j y, ys !! j = Some y → stream_sent ps j y) ∧ (∀ j, (length ys ≤ j)%nat → pieces_of j ps = [])
    ∧ ∀ t ds d0, quiet t → one_end (len hb) ds (map contents bs) → concat ds = out ++ d →
      ∃ t1 r, pouch_downlink_start t = OK (tt, t1)
        ∧ delivers [dispatch_handler services] ds t1 (OK d0) r (s_crypto t)
        ∧ (serving services d0 ∅ → in_turn services ∅ (downs ps) →
           let '(open, calls) := routes services ∅ (downs ps) in
           dispatched services r (run_calls services calls (OK (dp_app d0))) open)
        ∧ (free services d0 → ys = [] →
           app_of r = serve_entries services (log ++ es) (OK (dp_app d0))).
Proof.
  intros P. destruct (end_to_end_run [dispatch_handler services])
    as (hb & bs & ps & Eo & Pk & El & St & Nw & R).
  exists hb, bs, ps. split_and!; [done..|]. intros t ds d0 Q Sm Ed.
  destruct (R t ds (OK d0) Q Sm Ed) as (t1 & E & D). do 2 eexists. split_and!; [done..| |].
  - intros Sv T. pose proof (dispatch_run_all services (downs ps) d0 ∅ P Sv T) as H.
    rewrite (surjective_pairing (routes services ∅ (downs ps))). by rewrite deliver_all_downs.
  - intros F Y. rewrite deliver_entries, El by (intros j; apply Nw; rewrite Y; simpl; lia).
    rewrite entries_served; [done|done|by intros ? [= <-]].
Qed.

End Sent.

(** The statics as the program starts, initialised with the name of the device: no session, nothing
    in the queues and no buffer in use, so that the first pouch can be sent or received. *)
Theorem init_ready h depth id :
  live h 0 → malloc_never_fails h →
  let s0 : S := boot h depth None in
  let init c := OK (CryptoNone.crypto_init (Some id) c) in
  (strlen id ≤ CryptoNone.POUCH_DEVICE_ID_MAX_LEN →
   ∃ s, (pouch_module_init;; pouch_init init) s0 = OK (SUCCESS, s)
     ∧ between s [] ∧ quiet s ∧ balanced s 0 ∧ s_crypto s = Some id) ∧
  (CryptoNone.POUCH_DEVICE_ID_MAX_LEN < strlen id →
   ∃ s, (pouch_module_init;; pouch_init init) s0 = OK (NEG EINVAL, s) ∧ s_crypto s = None).
Proof.
  intros L M s0 init. split; intros Len.
  - destruct (init_run h depth None init SUCCESS (Some id) L) as (s & E & Cr & _ & Q & B & Bt).
    { unfold init. simpl. by rewrite (proj2 (Z.ltb_ge _ _)). }
    exists s. split_and!; try done; [apply Bt; by exists id|by apply Q].
  - destruct (init_run h depth None init (NEG EINVAL) None L) as (s & E & Cr & _).
    { unfold init. simpl. by rewrite (proj2 (Z.ltb_lt _ _)). }
    by exists s.
Qed.

End EndToEnd.

(** A pouch cut into its bytes. *)
Section Bytewise.
Context {BO : ByteOrder} {CF : Config}.

Definition bytewise (l : list byte) : list (list byte) := map (λ x, [x]) l.

Lemma bytewise_concat l : concat (bytewise l) = l.
Proof. induction l as [|x l IH]; [done|]. simpl. by f_equal. Qed.

Lemma bytewise_one_end off l fs : Forall packet fs → one_end off (bytewise l) fs.
Proof.
  intros P. apply small_chunks. unfold bytewise. rewrite Forall_map. apply Forall_true. intros x.
  eapply Forall_impl; [apply P|]. intros f [? _ _]. simpl. lia.
Qed.

End Bytewise.

Module PouchWitness.
#[local] Existing Instances Native.byte_order Native.config_none Native.list_slist Native.flag_work
  Native.list_msgq NativeCodec.codec NativeCodec.codec_laws CryptoNone.crypto_none
  CryptoNone.crypto_none_laws.

(** A device called "d" between two sessions, and an entry. *)
Definition ex_sys : sys CryptoNone.state := boot Native.heap0 4 (Some [x64]).
Definition ex_entry : pouch_entry := Entry [x2e; x73] 60 3 [x01; x02; x03].

Lemma ex_between : between ex_sys [].
Proof.
  split; [|done..|exact (entry_log_start ex_sys eq_refl)|done]. split; simpl; [by eexists|constructor| |constructor].
  split; simpl; [constructor|done].
Qed.

Lemma ex_balanced : balanced ex_sys 0.
Proof. done. Qed.

Lemma ex_representable : entry_representable ex_entry.
Proof. split; [split|]; try done. apply (bool_decide_unpack _). by vm_compute. Qed.

Lemma ex_all_representable : Forall entry_representable [ex_entry; ex_entry].
Proof. do 2 (constructor; [apply ex_representable|]). constructor. Qed.

Lemma ex_path : path_representable [x2e; x74].
Proof. split; [|done]. apply (bool_decide_unpack _). by vm_compute. Qed.

Lemma ex_header_fits : POUCH_HEADER_MAX_LEN ≤ MAX_CIPHERTEXT_BLOCK_SIZE.
Proof. by vm_compute. Qed.

Definition world_of {T} (r : outcome (T * world (C := CryptoNone.state))) : world :=
  match r with OK (_, w) => w | Fault => ([], ex_sys) end.
Definition state_of {T} (r : outcome (T * sys CryptoNone.state)) : sys CryptoNone.state :=
  match r with OK (_, s) => s | Fault => ex_sys end.

Definition ex_started : sys CryptoNone.state := state_of (pouch_uplink_start ex_sys).

Lemma ex_start : pouch_uplink_start ex_sys = OK (true, ex_started).
Proof. by vm_compute. Qed.

(** Two entries, one written before the work runs and one after; the transport reads in between. *)
Definition ex_ops1 : list pouch_op := [PWrite ex_entry; PProcess; PFill 5; PWrite ex_entry].
Definition ex_ops2 : list pouch_op := [PProcess; PFill 3].

Lemma ex_ops1_ok : Forall op_ok ex_ops1.
Proof. repeat constructor; try apply ex_representable; done. Qed.
Lemma ex_ops2_ok : Forall op_ok ex_ops2.
Proof. repeat constructor; done. Qed.
Lemma ex_ops2_internal : Forall (λ op, is_internal op = true) ex_ops2.
Proof. by repeat constructor. Qed.

Definition ex_closed : sys CryptoNone.state := (world_of (session ex_ops1 ex_ops2 ([], ex_started))).2.
Definition ex_ended : sys CryptoNone.state := state_of (pouch_uplink_fill 100 ex_closed).

(** The bytes of the pouch: the header, and a block of two entries. *)
Definition ex_rest : list byte :=
  [x00; x61; x64; x00; x15; xc0; x00; x03; x00; x3c; x02; x2e; x73; x01; x02; x03;
   x00; x03; x00; x3c; x02; x2e; x73; x01; x02; x03].

Lemma ex_session : session ex_ops1 ex_ops2 ([], ex_started)
  = OK (([ex_entry; ex_entry], [x82; x01; x82]), ([], ex_closed)).
Proof. by vm_compute. Qed.

Lemma ex_last : pouch_uplink_fill 100 ex_closed = OK ((POUCH_NO_MORE_DATA, 26, ex_rest), ex_ended).
Proof. by vm_compute. Qed.

(** An entry, and a stream opened before it and written around it. *)
Definition ex_ops3 : list pouch_op :=
  [POpen [x2e; x74] 60; PStream 0 [x0a]; PWrite ex_entry; PProcess; PStream 0 [x0b; x0c];
   PCloseStream 0; PFill 5; PWrite ex_entry].

Lemma ex_ops3_ok : Forall op_ok ex_ops3.
Proof. repeat constructor; try apply ex_representable; try apply ex_path; done. Qed.

Definition ex_stream_world : world := world_of (session ex_ops3 ex_ops2 ([], ex_started)).
Definition ex_stream_ended : sys CryptoNone.state := state_of (pouch_uplink_fill 100 ex_stream_world.2).

Definition ex_stream : client_stream := ClientStream [x2e; x74] 60 [x0a; x0b; x0c] None.


Definition ex_stream_closed : sys CryptoNone.state := ex_stream_world.2.

Lemma ex_stream_session : session ex_ops3 ex_ops2 ([], ex_started)
  = OK (([ex_entry; ex_entry], [x82; x01; x82]), ([ex_stream], ex_stream_closed)).
Proof. by vm_compute. Qed.

(** The header, the block of the stream and the block of the entries. *)
Definition ex_stream_rest : list byte :=
  [x00; x61; x64; x00; x09; xc1; x00; x3c; x02; x2e; x74; x0a; x0b; x0c] ++ skipn 3 ex_rest.

Lemma ex_stream_last : pouch_uplink_fill 100 ex_stream_closed
  = OK ((POUCH_NO_MORE_DATA, 37, ex_stream_rest), ex_stream_ended).
Proof. by vm_compute. Qed.

Lemma pouch_sent_witness :
  ∃ hb, header_bytes (s_crypto ex_started) = Some hb
    ∧ pouch_of hb (s_crypto ex_started) (λ _, true) [ex_entry; ex_entry] [ex_stream]
        ([x82; x01; x82] ++ ex_stream_rest)
    ∧ spec_ops 0 ex_ops3 [] = ([ex_entry; ex_entry], [AbstractStream [x2e; x74] 60 [x0a; x0b; x0c] false]).
Proof.
  destruct (pouch_sent ex_sys ex_started [] ex_ops3 ex_ops2 0 ex_between ex_balanced ex_start
    ex_ops3_ok ex_ops2_ok ex_ops2_internal) as (hb & es & out & ys & s1 & Hh & E & _ & Sp & _ & En & _).
  assert (((es, out), (ys, s1))
    = (([ex_entry; ex_entry], [x82; x01; x82]), ([ex_stream], ex_stream_closed))) as Eq
    by (rewrite ex_stream_session in E; congruence).
  apply pair_equal_spec in Eq as [[-> ->]%pair_equal_spec [-> ->]%pair_equal_spec].
  exists hb. split; [exact Hh|]. split.
  - exact (En 100 37 ex_stream_rest ex_stream_ended ltac:(done) ex_stream_last).
  - exact (Sp (λ _, eq_refl)).
Defined.

(** The close takes two steps: it sets POUCH_CLOSING and then enqueues the last block. When the
    processing work, queued before, runs between them, the pouch is closed without that block: the
    transport is told that there is nothing to read and the entry is left for the next session. *)
Definition close_interrupted : st (sys CryptoNone.state) status :=
  upd (λ u, set_u_flags (atomic_test_and_set_bit (u_flags u) POUCH_CLOSING).2 u);;
  process_blocks;;
  err ← entry_block_close None;
  submit_processing;;
  mret err.

Example close_race :
  (pouch_uplink_entry_write (Some (path ex_entry)) (Some (data ex_entry)) 60 3 None;; close_interrupted;;
   process_blocks;; pouch_uplink_fill 100) ex_started
    ≫= (λ r, OK (r.1, length (pending r.2))) = OK ((POUCH_NO_MORE_DATA, 0, []), 1%nat).
Proof. by vm_compute. Qed.

Definition ex_handlers : list (pouch_downlink_handler (list (list byte))) :=
  [Handler (λ _ path _ a, a ++ [path]) (λ _ d _ _ a, a ++ [default [] d])].

Lemma ex_quiet : quiet ex_sys.
Proof. by split. Qed.

(** The receiver sees the pieces of the stream and the entries. *)
Lemma pouch_end_to_end_witness :
  ∃ ps t1, entries_of ps = [ex_entry; ex_entry] ∧ stream_sent ps 0 ex_stream
    ∧ pouch_downlink_start ex_sys = OK (tt, t1)
    ∧ delivers ex_handlers (bytewise ([x82; x01; x82] ++ ex_stream_rest)) t1 []
        (foldl (deliver_piece ex_handlers) [] ps) (Some [x64]).
Proof.
  destruct (pouch_end_to_end ex_sys ex_started ex_stream_closed ex_stream_ended []
    [ex_entry; ex_entry] [ex_stream] ex_ops3 ex_ops2 [x82; x01; x82] ex_stream_rest 100 37 0
    ex_header_fits ex_between ex_balanced ex_start ex_ops3_ok ex_ops2_ok ex_ops2_internal ltac:(done)
    ex_stream_session ex_stream_last ltac:(done) ex_all_representable ex_handlers)
    as (hb & bs & ps & _ & P & El & St & _ & R).
  destruct (R ex_sys (bytewise ([x82; x01; x82] ++ ex_stream_rest)) [] ex_quiet
    (bytewise_one_end _ _ _ P) (bytewise_concat _)) as (t1 & E & D).
  exists ps, t1. exact (conj El (conj (St 0%nat ex_stream eq_refl) (conj E D))).
Defined.

(** The dispatcher with a service for ".s", and one that is asked only if no other is. *)
Definition ex_services : list (golioth_downlink_service (list (list byte))) :=
  [Service [x2e; x73] None (λ _ d _ _ a, OK (a ++ [default [] d]));
   Service ["*"%byte] None (λ _ d _ _ a, OK (a ++ [[]]))].

Lemma ex_paths_ok : paths_ok ex_services.
Proof. repeat constructor; vm_compute; discriminate. Qed.

Lemma pouch_served_witness :
  ∃ t1 r, pouch_downlink_start ex_sys = OK (tt, t1)
    ∧ delivers [dispatch_handler ex_services] (bytewise ([x82; x01; x82] ++ ex_rest)) t1
        (OK (dispatch_boot ex_services [])) r (Some [x64])
    ∧ app_of r = OK [[x01; x02; x03]; [x01; x02; x03]].
Proof.
  destruct (pouch_served ex_sys ex_started ex_closed ex_ended [] [ex_entry; ex_entry] []
    ex_ops1 ex_ops2 [x82; x01; x82] ex_rest 100 26 0 ex_header_fits ex_between ex_balanced ex_start
    ex_ops1_ok ex_ops2_ok ex_ops2_internal ltac:(done) ex_session ex_last ltac:(done)
    ex_all_representable ex_services ex_paths_ok) as (hb & bs & ps & _ & P & _ & _ & _ & R).
  destruct (R ex_sys (bytewise ([x82; x01; x82] ++ ex_rest)) (dispatch_boot ex_services []) ex_quiet
    (bytewise_one_end _ _ _ P) (bytewise_concat _)) as (t1 & r & E & D & _ & Ap).
  exists t1, r. exact (conj E (conj D (Ap (boot_free ex_services []) eq_refl))).
Defined.

(** One block of one entry. *)
Definition ex_header : pouch_header := PouchHeader 1 (plaintext_info [x64]).
Definition ex_frame : list byte := [x00; x0b; xc0; x00; x03; x00; x3c; x02; x2e; x73; x01; x02; x03].
Definition ex_block : pouch_buf := PBuf 515 13 ex_frame.

Lemma ex_holds : holds_finished ex_block [ex_entry].
Proof.
  split; [|done]. split; [|done|by exists x00, x0b].
  split; [done|done|done].
Qed.

Lemma ex_frame_packet : Forall packet [ex_frame].
Proof. constructor; [|constructor]. apply (finished_packet ex_block). do 2 eexists. exact ex_holds. Qed.

Lemma ex_frame_accepted : accepts ex_handlers [ex_frame] [] [[x2e; x73]; [x01; x02; x03]].
Proof.
  apply (pieces_accepted ex_handlers [ex_block] [PieceEntries [ex_entry]] []).
  - constructor; [apply ex_holds|constructor].
  - constructor; [apply ex_representable|constructor].
Qed.

Lemma pouch_received_witness :
  ∃ s1, pouch_downlink_start ex_sys = OK (tt, s1)
    ∧ delivers ex_handlers (bytewise ([x82; x01; x82; x00; x61; x64] ++ ex_frame)) s1 []
        [[x2e; x73]; [x01; x02; x03]] (Some [x64])
    ∧ (d_pouch_buf (s_downlink ex_sys) = None → ∀ k, balanced ex_sys k → balanced s1 k).
Proof.
  apply (pouch_received ex_handlers 37 ex_header [x82; x01; x82; x00; x61; x64] [ex_frame] [ex_frame]
    (Some [x64]));
    [done|done|done|exact ex_frame_packet|apply opens_plain|exact ex_frame_accepted|exact ex_quiet| |].
  - apply bytewise_one_end, ex_frame_packet.
  - by rewrite bytewise_concat.
Defined.

Definition ex_queued : sys CryptoNone.state :=
  set_downlink (set_d_decrypt [ex_block] true (s_downlink ex_sys)) ex_sys.

Lemma pipeline_delivers_witness :
  let a1 := [[x2e; x73]; [x01; x02; x03]] in
  (∃ s', rtc (work_step ex_handlers) (ex_queued, []) (s', a1) ∧ idle s') ∧
  (∀ s' a', rtc (work_step ex_handlers) (ex_queued, []) (s', a') →
     (idle s' → a' = a1 ∧ s_crypto s' = Some [x64] ∧ decrypting s' = [] ∧ consuming s' = []) ∧
     (¬ idle s' → ∃ s2 a2, work_step ex_handlers (s', a') (s2, a2))).
Proof.
  intros a1. apply (pipeline_delivers ex_handlers [ex_block] [ex_frame] (Some [x64]) [] a1 ex_queued);
    [done|done|done|done| |done|apply opens_plain|exact ex_frame_accepted].
  constructor; [|constructor]. split; [by split|done].
Defined.
End PouchWitness.
