(* ===== verification/GattSession.v ===== *)
(** A session over BLE GATT: the reads of the uplink characteristic are the transport of the sender.

    The central reads packets of the size it has room for, in any order with the runs of the processing
    work; the first read starts the session and the last ends it. *)
From S2P Require Import Prelude Platform Buf Block Crypto State Entry Stream Header Uplink Sender Packetizer Psa Cert Gatt.

Section GattSession.
Context {BO : ByteOrder} {SL : SList} {KW : KWork} {MQ : MsgQ} {CF : Config} {HC : HeaderCodec}.
Context {C : Type} {CR : Crypto C} {HL : HeaderCodecLaws HC} {CL : CryptoLaws C}.
Implicit Types (s : sys C) (first : bool) (e : option errno) (ps : list (list byte)) (log : list pouch_entry).

(** * Steps *)

Inductive air_op :=
| AProcess
| ARead (room : Z).

(** A flags byte and at least one more. *)
Definition air_ok (op : air_op) : Prop :=
  match op with AProcess => True | ARead room => 2 ≤ room end.

Definition run_air_op (op : air_op) : st (uplink_ctx * sys C) (list (list byte)) :=
  match op with
  | AProcess => on_snd process_blocks;; mret []
  | ARead room => '(_, pkt) ← uplink_read room 0; mret [pkt]
  end.

(** The packets read, until the packetizer is released: a further read would start a new session. *)
Fixpoint run_air (ops : list air_op) : st (uplink_ctx * sys C) (list (list byte)) :=
  match ops with
  | [] => mret []
  | op :: ops =>
    pkts ← run_air_op op;
    ctx ← gets fst;
    match ctx with
    | None => mret pkts
    | Some _ => pkts' ← run_air ops; mret (pkts ++ pkts')
    end
  end.

(** The work is run and the rest of the pouch read. *)
Definition read_rest (fuel : nat) (room : nat → Z) : st (uplink_ctx * sys C) (list (list byte)) :=
  ctx ← gets fst;
  match ctx with
  | None => mret []
  | Some _ => on_snd process_blocks;; uplink_reads fuel room
  end.

(** The packets of a part of a pouch: none is the last. *)
Definition part first ps : list (list byte) :=
  match ps with
  | [] => []
  | d :: ps => (flags_byte first false :: d) :: map (λ d, flags_byte false false :: d) ps
  end.

(** Whether the next packet is the first, after [ps]. *)
Definition still_first first ps : bool := first && bool_decide (ps = []).

Lemma part_app first ps qs : part first (ps ++ qs) = part first ps ++ part (still_first first ps) qs.
Proof.
  destruct ps as [|d ps]; [by destruct first|]. unfold still_first.
  rewrite bool_decide_eq_false_2, andb_false_r by done. cbn [part app]. rewrite map_app. by destruct qs.
Qed.

Lemma part_packets ps : ∀ first d, packets first (ps ++ [d]) = part first ps ++ packets (still_first first ps) [d].
Proof.
  induction ps as [|d' ps IH]; intros first d; [by destruct first|].
  assert (packets first ((d' :: ps) ++ [d]) = (flags_byte first false :: d') :: packets false (ps ++ [d])) as ->.
  { by destruct ps. }
  rewrite IH. unfold still_first. rewrite andb_false_l, (bool_decide_eq_false_2 (d' :: ps = [])), andb_false_r by done.
  by destruct ps.
Qed.

Lemma packets_app ps qs first :
  qs ≠ [] → packets first (ps ++ qs) = part first ps ++ packets (still_first first ps) qs.
Proof.
  induction qs as [|d qs _] using rev_ind; intros N; [done|]. clear N.
  rewrite app_assoc, !part_packets, part_app, <- app_assoc. do 2 f_equal.
  unfold still_first. destruct first, ps, qs; done.
Qed.

(** * A read is a fill *)

Lemma fill_cb_of_fill s n r k d s' :
  session_is_active s = true → pouch_uplink_fill n s = OK ((r, k, d), s') → r ≠ POUCH_ERROR →
  uplink_fill_cb true n s =
    if decide (r = POUCH_NO_MORE_DATA) then
      match pouch_uplink_finish s' with OK (_, s2) => OK ((NO_MORE_DATA, d), s2) | Fault => Fault end
    else OK ((MORE_DATA, d), s').
Proof.
  intros A Ef Ne. unfold uplink_fill_cb. rewrite (st_bind_OK _ _ s true s) by (unfold gets; by rewrite A).
  rewrite (st_bind_OK _ _ _ _ _ Ef). by destruct r.
Qed.

Lemma read_of_fill s n first e r k d s' :
  session_is_active s = true → 2 ≤ n → pouch_uplink_fill (n - 1) s = OK ((r, k, d), s') → r ≠ POUCH_ERROR →
  uplink_read n 0 (Some (uplink_packetizer first e), s) =
    if decide (r = POUCH_NO_MORE_DATA) then
      match pouch_uplink_finish s' with
      | OK (_, s2) => OK ((inr (1 + len d), flags_byte first true :: d), (None, s2))
      | Fault => Fault
      end
    else OK ((inr (1 + len d), flags_byte first false :: d), (Some (uplink_packetizer false e), s')).
Proof.
  intros A N Ef Ne. pose proof (fill_cb_of_fill _ _ _ _ _ _ A Ef Ne) as E.
  destruct (decide (r = POUCH_NO_MORE_DATA)).
  - destruct (uplink_finish_run s') as (s2 & Es & _). rewrite Es in E |- *. exact (read_of_cb s n first e _ _ true N E).
  - exact (read_of_cb s n first e _ _ false N E).
Qed.

(** * The session *)

Context (hb : list byte) (c0 : C) (M : nat → bool) (o0 h0 : Z) (ys : list client_stream).
Abbreviation sending_ := (Sender.sending hb c0 M o0 h0).

(** The session is over and nothing is left of it. *)
Record released s : Prop := {
  rd_active : session_is_active s = false;
  rd_outgoing : outgoing s = [];
  rd_balanced : balanced s (h0 + num_open ys);
}.

(** In the middle of a session: the library, and the packetizer. *)
Record on_air log out first e s (ctx : uplink_ctx) : Prop := {
  oa_sending : sending_ (ys, s) log out;
  oa_active : session_is_active s = true;
  oa_ctx : ctx = Some (uplink_packetizer first e);
}.

(** What steps from [s] have come to: packets that carry [ps], the session going on or ended. *)
Definition aired log out first e s pkts (ctx : uplink_ctx) s' ps : Prop :=
  (on_air log (out ++ concat ps) (still_first first ps) e s' ctx ∧ pkts = part first ps
    ∧ (Sender.open s → Sender.open s') ∧ (sealed s → sealed s'))
  ∨ (ctx = None ∧ sealed s ∧ ps ≠ [] ∧ pkts = packets first ps
    ∧ pouch_of hb c0 M log ys (out ++ concat ps) ∧ released s').

Lemma finish_released s log out s' :
  sending_ (ys, s) log out → finish_result s s' → released s'.
Proof.
  intros (gone & ps & es & c & Sg) Fr. split.
  - by rewrite session_is_active_bit, (fr_flags _ _ Fr), Z.bits_0.
  - unfold outgoing, stream_of. by rewrite (fr_transport _ _ Fr), (fr_reader _ _ Fr).
  - apply (fr_balanced _ _ Fr). apply (Sender.sg_balanced _ _ _ _ _ _ _ _ _ _ _ _ _ Sg).
Qed.

Lemma air_step log out first e s ctx op :
  on_air log out first e s ctx → Sender.open s ∨ sealed s → air_ok op →
  ∃ pkts ctx' s' ps, run_air_op op (ctx, s) = OK (pkts, (ctx', s')) ∧ aired log out first e s pkts ctx' s' ps.
Proof.
  intros [Sg A ->] Os O. destruct op as [|n]; cbn [run_air_op air_ok] in *.
  - destruct (process_step _ _ _ _ _ ys s log out Sg) as (s' & E & Sg' & _ & _ & F).
    exists [], (Some (uplink_packetizer first e)), s', [].
    assert (run_pouch_op PProcess (ys, s) = OK (([], []), (ys, s'))) as Ep.
    { cbn [run_pouch_op]. by rewrite (st_bind_OK _ _ (ys, s) tt (ys, s')) by (unfold on_sys; by rewrite E). }
    erewrite st_bind_OK by (unfold on_snd; rewrite E; reflexivity).
    split; [done|]. left. rewrite app_nil_r. unfold still_first. rewrite andb_true_r. split_and!; [split|done|..].
    + done.
    + rewrite session_is_active_bit in A |- *. rewrite F. destruct (pouch_is_closing s); [|done].
      by rewrite setbit_other.
    + done.
    + intros Op. exact (open_keeps _ _ _ _ _ PProcess (ys, s) log out [] [] (ys, s') I Sg Op Ep).
    + intros Se. exact (proj1 (sealed_keeps _ _ _ _ _ PProcess (ys, s) log out [] [] (ys, s') eq_refl I Sg Se Ep)).
  - destruct (fill_step _ _ _ _ _ ys s log out (n - 1) Sg ltac:(lia))
      as (r & k & d & s' & E & Sg' & _ & _ & [(_ & A' & _)|(_ & _ & R)]); [congruence|].
    assert (op_ok (PFill (n - 1))) as Ok by (simpl; lia).
    assert (run_pouch_op (PFill (n - 1)) (ys, s) = OK (([], d), (ys, s'))) as Ep.
    { cbn [run_pouch_op]. by rewrite (st_bind_OK _ _ (ys, s) (r, k, d) (ys, s')) by (unfold on_sys; by rewrite E). }
    destruct (pouch_is_open s || bool_decide (outgoing s' ≠ [])) eqn:D; destruct R as [F ->].
    + exists [flags_byte first false :: d], (Some (uplink_packetizer false e)), s', [d].
      erewrite st_bind_OK by (rewrite (read_of_fill _ _ _ _ _ _ _ _ A O E) by done; reflexivity).
      split; [done|]. left. cbn [concat]. rewrite app_nil_r. unfold still_first. rewrite andb_false_r.
      split_and!; [split|done|..].
      * done.
      * by rewrite session_is_active_bit, F, <- session_is_active_bit.
      * done.
      * intros Op. exact (open_keeps _ _ _ _ _ _ (ys, s) log out [] d (ys, s') Ok Sg Op Ep).
      * intros Se. exact (proj1 (sealed_keeps _ _ _ _ _ (PFill (n - 1)) (ys, s) log out [] d (ys, s') eq_refl Ok Sg Se Ep)).
    + apply orb_false_iff in D as [D _].
      assert (sealed s) as Se by (destruct Os as [(_ & Po & _)|Se]; [congruence|done]).
      destruct (uplink_finish_run s') as (s2 & Ef & Fr).
      exists [flags_byte first true :: d], None, s2, [d].
      erewrite st_bind_OK by (rewrite (read_of_fill _ _ _ _ _ _ _ _ A O E) by done; rewrite decide_True, Ef by done;
        reflexivity).
      split; [done|]. right. cbn [concat]. rewrite app_nil_r. split_and!; [done..| |].
      * by eapply Sender.session_end; [exact Sg|exact Se|..|exact E|done]; lia.
      * by eapply finish_released.
Qed.

(** The steps up to the close: the session stays open. *)
Lemma open_not_sealed s : Sender.open s → sealed s → False.
Proof. intros (_ & _ & C1) [_ C2 _ _]. congruence. Qed.

Lemma aired_trans log out first e s pkts1 ctx1 s1 ps1 pkts2 ctx2 s2 ps2 :
  aired log out first e s pkts1 ctx1 s1 ps1 → is_Some ctx1 → Sender.open s ∨ sealed s →
  aired log (out ++ concat ps1) (still_first first ps1) e s1 pkts2 ctx2 s2 ps2 →
  aired log out first e s (pkts1 ++ pkts2) ctx2 s2 (ps1 ++ ps2).
Proof.
  intros [(_ & -> & Op & Se)|(-> & _)] Sm Os A; [|by destruct Sm].
  unfold aired in *. rewrite concat_app, app_assoc.
  assert (still_first first (ps1 ++ ps2) = still_first (still_first first ps1) ps2) as ->.
  { unfold still_first. by destruct first, ps1, ps2. }
  destruct A as [(On & -> & Op' & Se')|(-> & Se' & N & -> & P & R)]; [left|right].
  - split_and!; [done|by rewrite part_app|auto..].
  - split_and!; [done| | |by rewrite packets_app|done..].
    + destruct Os as [O|?]; [|done]. by destruct (open_not_sealed s1 (Op O)).
    + by destruct ps1.
Qed.

(** Any sequence of steps: it never faults, and what it reads is a part of the pouch, or the rest. *)
Lemma air_run ops : ∀ log out first e s ctx,
  on_air log out first e s ctx → Sender.open s ∨ sealed s → Forall air_ok ops →
  ∃ pkts ctx' s' ps, run_air ops (ctx, s) = OK (pkts, (ctx', s')) ∧ aired log out first e s pkts ctx' s' ps.
Proof.
  induction ops as [|op ops IH]; intros log out first e s ctx On Os F; cbn [run_air].
  { exists [], ctx, s, []. split; [done|]. left. cbn [concat]. unfold still_first.
    by rewrite app_nil_r, andb_true_r. }
  apply Forall_cons in F as [O F].
  destruct (air_step log out first e s ctx op On Os O) as (pkts & ctx' & s' & ps & E & A).
  rewrite (st_bind_OK _ _ _ _ _ E). destruct ctx' as [p|].
  - pose proof A as [(On' & _ & Op & Se)|(? & _)]; [|done].
    destruct (IH log (out ++ concat ps) (still_first first ps) e s' (Some p) On') as (pkts' & ctx2 & s2 & ps' & E' & A').
    { destruct Os as [?|?]; auto. }
    { done. }
    exists (pkts ++ pkts'), ctx2, s2, (ps ++ ps'). split; [|by eapply aired_trans].
    erewrite st_bind_OK by reflexivity. cbn [fst]. by rewrite (st_bind_OK _ _ _ _ _ E').
  - exists pkts, None, s', ps. split; [|done]. by erewrite st_bind_OK by reflexivity.
Qed.

(** Once the pouch is closed, the work and as many reads as it takes end the session. *)
Lemma rest_run log out first e s ctx room :
  on_air log out first e s ctx → sealed s → (∀ i, 2 ≤ room i) →
  ∃ fuel pkts s' ps, read_rest fuel room (ctx, s) = OK (pkts, (None, s')) ∧ aired log out first e s pkts None s' ps.
Proof.
  intros [Sg A ->] Se R.
  destruct (process_step _ _ _ _ _ ys s log out Sg) as (s1 & E & Sg1 & _ & _ & F).
  assert (run_pouch_op PProcess (ys, s) = OK (([], []), (ys, s1))) as Ep.
  { cbn [run_pouch_op]. by rewrite (st_bind_OK _ _ (ys, s) tt (ys, s1)) by (unfold on_sys; by rewrite E). }
  destruct (sealed_keeps _ _ _ _ _ PProcess (ys, s) log out [] [] (ys, s1) eq_refl I Sg Se Ep) as [Se1 _].
  rewrite (se_closing _ Se) in F. cbn [snd] in Se1.
  assert (pouch_is_open s1 = false) as Cl by (by rewrite pouch_is_open_bit, F, setbit_same).
  assert (Gatt.sending s1) as Gs.
  { pose proof Sg1 as (gone & qs & es & c & S1). split; [|by rewrite session_is_active_bit in A |- *; rewrite F, setbit_other|done].
    apply (Sender.sg_inv _ _ _ _ _ _ _ _ _ _ _ _ _ S1). }
  destruct (uplink_reads_run (S (length (outgoing s1))) room s1 first e Gs R ltac:(lia))
    as (ps & s' & Er & N & Ec & [Id Og _ Ba]).
  exists (S (length (outgoing s1))), (packets first ps), s', ps. split.
  - unfold read_rest. erewrite st_bind_OK by reflexivity. cbn [fst].
    erewrite st_bind_OK by (unfold on_snd; rewrite E; reflexivity). exact Er.
  - right. split_and!; [done..| |].
    + rewrite Ec. by eapply sealed_pouch.
    + pose proof Sg1 as (gone & qs & es & c & S1). split; [done..|].
      apply Ba, (Sender.sg_balanced _ _ _ _ _ _ _ _ _ _ _ _ _ S1).
Qed.

(** However the session goes on after the close, it comes to its end. *)
Lemma air_to_end ops room log out first e s ctx :
  on_air log out first e s ctx → sealed s → Forall air_ok ops → (∀ i, 2 ≤ room i) →
  ∃ fuel pkts s' ps,
    (pkts ← run_air ops; pkts' ← read_rest fuel room; mret (pkts ++ pkts')) (ctx, s) = OK (pkts, (None, s'))
    ∧ aired log out first e s pkts None s' ps.
Proof.
  intros On Se F R. destruct (air_run ops _ _ _ _ _ _ On (or_intror Se) F) as (pkts1 & ctx1 & s1 & ps1 & E1 & A1).
  pose proof A1 as [(On1 & _ & _ & Se1)|(-> & _)].
  - destruct (rest_run _ _ _ _ _ _ room On1 (Se1 Se) R) as (fuel & pkts2 & s2 & ps2 & E2 & A2).
    exists fuel, (pkts1 ++ pkts2), s2, (ps1 ++ ps2). split.
    + by rewrite (st_bind_OK _ _ _ _ _ E1), (st_bind_OK _ _ _ _ _ E2).
    + eapply aired_trans; [exact A1|by rewrite (oa_ctx _ _ _ _ _ _ On1)|by right|exact A2].
  - exists 0%nat, (pkts1 ++ []), s1, ps1. split; [|by rewrite app_nil_r].
    rewrite (st_bind_OK _ _ _ _ _ E1). reflexivity.
Qed.

End GattSession.

(** * From the first read *)

Section FirstRead.
Context {BO : ByteOrder} {SL : SList} {KW : KWork} {MQ : MsgQ} {CF : Config} {HC : HeaderCodec}.
Context {C : Type} {CR : Crypto C} {HL : HeaderCodecLaws HC} {CL : CryptoLaws C}.
Implicit Types (s : sys C).

Lemma start_read s s0 n :
  pouch_uplink_start s = OK (true, s0) → malloc_ok (s_heap s0) (malloc_n (s_heap s0)) = true →
  uplink_read n 0 (None, s)
    = uplink_read n 0 (Some (uplink_packetizer true None), set_heap (malloced (s_heap s0)) s0).
Proof.
  intros E M. unfold uplink_read. cbn [Z.eqb negb].
  unfold on_snd, zoom, golioth_ble_gatt_packetizer_start_callback, malloc, gets, set_fst, mbind, st_bind, mret, st_ret.
  cbn [fst]. rewrite E. cbn [part_get sys_heap]. rewrite M. reflexivity.
Qed.

(** The first read and what comes before the close. *)
Lemma air_start s s0 log held n0 ops :
  between s log → balanced s held → pouch_uplink_start s = OK (true, s0) →
  malloc_ok (s_heap s0) (malloc_n (s_heap s0)) = true → 2 ≤ n0 → Forall air_ok ops →
  ∃ hb pkts ctx s1 ps, header_bytes (s_crypto s0) = Some hb
    ∧ run_air (ARead n0 :: ops) (None, s) = OK (pkts, (ctx, s1))
    ∧ on_air hb (s_crypto s0) (malloc_ok (s_heap s)) (open_streams (s_stream s)) held [] log (concat ps)
        (still_first true ps) None s1 ctx
    ∧ pkts = part true ps ∧ Sender.open s1.
Proof.
  intros B Ba St M N F. destruct (started_sending s s0 log held B Ba St) as (hb & Hh & Sg & Op).
  set (s1 := set_heap (malloced (s_heap s0)) s0).
  assert (Sender.sending hb (s_crypto s0) (malloc_ok (s_heap s)) (open_streams (s_stream s)) held ([], s1) log []) as Sg1.
  { destruct Sg as (gone & ps & es & c & Sg). exists gone, ps, es, c. cbn [fst snd] in *.
    apply (sending_ext _ _ _ _ _ gone ps es c [] s0); try done.
    destruct (Sender.sg_inv _ _ _ _ _ _ _ _ _ _ _ _ _ Sg) as [? ? [? ?] ?]. split; [done|done|by split|done]. }
  destruct (air_run hb (s_crypto s0) (malloc_ok (s_heap s)) (open_streams (s_stream s)) held [] (ARead n0 :: ops) log [] true
    None s1 (Some (uplink_packetizer true None))) as (pkts & ctx & s2 & ps & E & A).
  { split; [done|apply Op|done]. }
  { by left. }
  { by constructor. }
  destruct A as [(On & -> & Op' & _)|(_ & Se & _)].
  - exists hb, (part true ps), ctx, s2, ps. split_and!; [done| |done|done|by apply Op'].
    rewrite <- E. cbn [run_air run_air_op]. unfold mbind, st_bind. by rewrite (start_read s s0) by done.
  - by destruct (open_not_sealed s1 Op Se).
Qed.

End FirstRead.
