(* ===== verification/GattDownlink.v ===== *)
(** A downlink over BLE GATT: the writes of the downlink characteristic are the transport of the receiver.

    The central writes the packets of a pouch, in any order with the runs of the two works; the first
    packet starts the downlink. *)
From stdpp Require Import relations.
From S2P Require Import Prelude Platform Buf Block Crypto State Entry Downlink Receiver Packetizer Gatt Pouch.

Section GattDownlink.
Context {BO : ByteOrder} {SL : SList} {KW : KWork} {MQ : MsgQ} {CF : Config} {HC : HeaderCodec}.
Context {HL : HeaderCodecLaws HC} {C : Type} {CR : Crypto C}.
Context {A : Type} (handlers : list (pouch_downlink_handler A)).
Implicit Types (s : sys C) (a : A) (ds pkts : list (list byte)).

(** One step: the central writes the next packet, and the write is accepted, or a work that is queued
    runs. *)
Inductive gw_step : list (list byte) * sys C * A → list (list byte) * sys C * A → Prop :=
| gw_write pkt pkts s n s' a : downlink_write pkt s = OK (inr n, s') → gw_step (pkt :: pkts, s, a) (pkts, s', a)
| gw_work pkts s a s' a' : work_step handlers (s, a) (s', a') → gw_step (pkts, s, a) (pkts, s', a').

(** What is promised of the packets [pkts] written to [s]: every order of writes and works ends, without
    a fault and with every write accepted, with the handlers gone from [a0] to [a1], the encryption layer
    in the state [c1], the queues empty and no buffer lost. *)
Definition gw_delivers pkts s a0 a1 c1 : Prop :=
  sn gw_step (pkts, s, a0) ∧
  ∀ pkts' s' a', rtc gw_step (pkts, s, a0) (pkts', s', a') → nf gw_step (pkts', s', a') →
    pkts' = [] ∧ a' = a1 ∧ s_crypto s' = c1 ∧ quiet s'
    ∧ (d_pouch_buf (s_downlink s) = None → ∀ k, balanced s k → balanced s' k).

(** * Writes are pushes *)

(** The part a packet carries. *)
Lemma packets_cons first d ds :
  packets first (d :: ds) = (flags_byte first (bool_decide (ds = [])) :: d) :: packets false ds.
Proof. by destruct ds. Qed.

Lemma write_push last d s n s' :
  downlink_write (flags_byte false last :: d) s = OK (inr n, s') → pouch_downlink_push d s = OK (tt, s').
Proof.
  rewrite downlink_write_run. unfold mbind, st_bind, mret, st_ret.
  destruct (pouch_downlink_push d s) as [[[] s2]|]; [|done]. by intros [= _ ->].
Qed.

Lemma push_write last d s s' :
  pouch_downlink_push d s = OK (tt, s') → downlink_write (flags_byte false last :: d) s = OK (inr (1 + len d), s').
Proof. intros E. rewrite downlink_write_run. unfold mbind, st_bind, mret, st_ret. by rewrite E. Qed.

(** After the first packet the steps are those of the receiver. *)
Lemma gw_step_inv ds s a y :
  gw_step (packets false ds, s, a) y →
  ∃ ds' s' a', y = (packets false ds', s', a') ∧ rx_step handlers (ds, s, a) (ds', s', a').
Proof.
  intros St. destruct ds as [|d ds]; [|rewrite packets_cons in St];
    inversion St as [? ? ? ? s' ? W|? ? ? s' a' W]; subst.
  - exists [], s', a'. split; [done|]. by constructor.
  - exists ds, s', a. split; [done|]. constructor. by eapply write_push.
  - exists (d :: ds), s', a'. rewrite packets_cons. split; [done|]. by constructor.
Qed.

Lemma gw_step_of ds s a ds' s' a' :
  rx_step handlers (ds, s, a) (ds', s', a') → gw_step (packets false ds, s, a) (packets false ds', s', a').
Proof.
  inversion 1; subst; [|by constructor]. rewrite packets_cons. econstructor. by apply push_write.
Qed.

Lemma gw_sn x : sn (rx_step handlers) x → sn gw_step (packets false x.1.1, x.1.2, x.2).
Proof.
  induction 1 as [x _ IH]. constructor. intros y St. unfold flip in St.
  destruct (gw_step_inv _ _ _ _ St) as (ds' & s' & a' & -> & R). destruct x as [[ds s] a].
  by apply (IH (ds', s', a')).
Qed.

Lemma gw_steps x y :
  rtc gw_step x y → ∀ ds s a, x = (packets false ds, s, a) →
  ∃ ds' s' a', y = (packets false ds', s', a') ∧ rtc (rx_step handlers) (ds, s, a) (ds', s', a').
Proof.
  induction 1 as [|x y z St _ IH]; intros ds s a ->; [by exists ds, s, a|].
  destruct (gw_step_inv _ _ _ _ St) as (ds1 & s1 & a1 & -> & R).
  destruct (IH _ _ _ eq_refl) as (ds2 & s2 & a2 & -> & Rs). exists ds2, s2, a2.
  split; [done|]. by eapply rtc_l.
Qed.

Lemma packets_nil ds : packets false ds = [] → ds = [].
Proof. by destruct ds as [|? [|??]]. Qed.

(** With nothing queued the central writes first, and that starts the downlink. *)
Lemma first_step d ds s a y :
  idle s → gw_step (packets true (d :: ds), s, a) y →
  ∃ s1 s2, pouch_downlink_start s = OK (tt, s1) ∧ pouch_downlink_push d s1 = OK (tt, s2)
    ∧ y = (packets false ds, s2, a).
Proof.
  intros [D0 C0] St. rewrite packets_cons in St. inversion St as [? ? ? ? s' ? W|? ? ? ? ? W]; subst.
  - rewrite downlink_write_run in W.
    unfold mbind, st_bind, mret, st_ret in W. destruct (pouch_downlink_start s) as [[[] s1]|]; [|done].
    destruct (pouch_downlink_push d s1) as [[[] s2]|] eqn:E; [|done]. exists s1, s2. by injection W as _ ->.
  - inversion W; congruence.
Qed.

Lemma gw_run ds s s1 a0 a1 c1 :
  quiet s → ds ≠ [] → pouch_downlink_start s = OK (tt, s1) → delivers handlers ds s1 a0 a1 c1 →
  (d_pouch_buf (s_downlink s) = None → ∀ k, balanced s k → balanced s1 k) →
  gw_delivers (packets true ds) s a0 a1 c1.
Proof.
  intros [M _ _ Id] N St [Sn Fin] Ba. destruct ds as [|d ds]; [done|].
  destruct (pouch_downlink_push d s1) as [[[] s2]|] eqn:E.
  2:{ exfalso. assert (idle s1) as [D1 C1].
      { rewrite downlink_start_run in St by done. injection St as <-. exact Id. }
      destruct (Fin (d :: ds) s1 a0) as [? _]; [done| |done].
      intros [y Sy]. inversion Sy as [| ? ? ? ? ? W]; subst; [congruence|]. inversion W; congruence. }
  assert (rx_step handlers (d :: ds, s1, a0) (ds, s2, a0)) as R1 by by constructor.
  assert (red gw_step (packets true (d :: ds), s, a0)) as Rd.
  { exists (packets false ds, s2, a0). rewrite packets_cons. econstructor. rewrite downlink_write_run.
    unfold mbind, st_bind, mret, st_ret. by rewrite St, E. }
  split.
  - constructor. intros y Sy. destruct (first_step _ _ _ _ _ Id Sy) as (? & s2' & St' & E' & ->).
    rewrite St in St'. injection St' as <-. rewrite E in E'. injection E' as <-.
    apply (gw_sn (ds, s2, a0)). inversion Sn as [H]. by apply H.
  - intros pkts' s' a' Rs Nf. inversion Rs as [|? y ? Sy Rs']; subst.
    + by destruct Nf.
    + destruct (first_step _ _ _ _ _ Id Sy) as (? & s2' & St' & E' & ->).
      rewrite St in St'. injection St' as <-. rewrite E in E'. injection E' as <-.
      destruct (gw_steps _ _ Rs' _ _ _ eq_refl) as (ds' & ? & ? & [= -> <- <-] & Rx).
      destruct (Fin ds' s' a') as (-> & -> & Ec & Q & Bk); [by eapply rtc_l| |].
      * intros [[[ds2 s3] a3] Rx']. apply Nf. eexists. by apply gw_step_of.
      * split_and!; try done. intros Pb k B. by apply Bk, Ba.
Qed.

Lemma over_gatt_run max h hb fs ps c c1 a0 a1 s ds :
  cbor_encode_pouch_header max h = Some hb → len hb ≤ MAX_CIPHERTEXT_BLOCK_SIZE →
  crypto_downlink_start (encryption_info_m h) (s_crypto s) = (SUCCESS, c) →
  Forall packet fs → opens c fs ps c1 → accepts handlers ps a0 a1 → quiet s →
  one_end (len hb) ds fs → concat ds = hb ++ concat fs →
  gw_delivers (packets true ds) s a0 a1 c1.
Proof.
  intros En Hl St P O Ac Q Sm E.
  destruct (receive_run handlers max h hb fs ps c c1 a0 a1 s ds En Hl St P O Ac Q Sm E) as (s1 & E1 & D & Ba).
  apply (gw_run ds s s1); try done. intros ->. pose proof (encode_fits _ _ _ En).
  destruct hb; [simpl in *; lia|done].
Qed.

(** C27: a pouch written over BLE GATT: a central writes the packets of a pouch cut into parts
    none of which holds the ends of two blocks, the first packet marked first and the last marked last, and the two works run, in any order
    that leaves the packets in theirs; every order ends, no step faults, every write is accepted, and at
    the end the handlers have seen what the encryption layer makes of every block, once and in order, and
    no buffer is lost. (The encryption layer accepts the header and opens the blocks, and the handlers' parser accepts the results.) *)
Theorem downlink_over_gatt max h hb fs ps c c1 a0 a1 s ds :
  cbor_encode_pouch_header max h = Some hb → len hb ≤ MAX_CIPHERTEXT_BLOCK_SIZE →
  crypto_downlink_start (encryption_info_m h) (s_crypto s) = (SUCCESS, c) →
  Forall packet fs → opens c fs ps c1 → accepts handlers ps a0 a1 → quiet s →
  one_end (len hb) ds fs → concat ds = hb ++ concat fs →
  gw_delivers (packets true ds) s a0 a1 c1.
Proof. apply over_gatt_run. Qed.

End GattDownlink.

(** * A concrete pouch *)

Module GattDownlinkWitness.
Import PouchWitness.
#[local] Existing Instances Native.byte_order Native.config_none Native.list_slist Native.flag_work
  Native.list_msgq NativeCodec.codec NativeCodec.codec_laws CryptoNone.crypto_none.

(** Written byte by byte. *)
Lemma downlink_over_gatt_witness :
  gw_delivers ex_handlers (packets true (bytewise ([x82; x01; x82; x00; x61; x64] ++ ex_frame))) ex_sys []
    [[x2e; x73]; [x01; x02; x03]] (Some [x64]).
Proof.
  apply (downlink_over_gatt ex_handlers 37 ex_header [x82; x01; x82; x00; x61; x64] [ex_frame] [ex_frame]
    (Some [x64]));
    [done|done|done|exact ex_frame_packet|apply opens_plain|exact ex_frame_accepted|exact ex_quiet| |].
  - apply bytewise_one_end, ex_frame_packet.
  - by rewrite bytewise_concat.
Defined.

End GattDownlinkWitness.
