(* ===== verification/Encrypted.v ===== *)
(** Encrypted pouches: the sender and the receiver over the second instance of the encryption layer.

    The other end is the server, which is not part of the repository: it is a session [peer] with the
    same key, that opens what the device sealed and seals what the device opens. *)
From stdpp Require Import relations.
From S2P Require Import Prelude Platform Buf Block Crypto State Entry Stream Header Uplink Sender Downlink Receiver Pouch.
From S2P Require Import Packetizer GattDownlink Psa Cert Session Saead.

Section Encrypted.
Context {BO : ByteOrder} {SL : SList} {KW : KWork} {MQ : MsgQ} {CF : Config} {HC : HeaderCodec}.
Context {HL : HeaderCodecLaws HC} {SC : SaeadConfig} {CC : CertConfig}.
Context {PS : Psa} {PL : PsaLaws PS} {B6 : Base64} {X : X509}.
Context (TAG : CONFIG_AUTH_TAG_LEN = AUTH_TAG_LEN).
Implicit Types (c : saead) (b : pouch_buf) (peer : session) (p : psa_state) (d ct : list byte).

#[local] Instance laws : CryptoLaws saead := saead_laws TAG.

(** What the encryption layer takes of a block: all but its size. *)
Definition payload b : list byte := zdrop 2 (contents b).

Lemma finished_payload b i q : finished_block b i q →
  payload b = i :: q ∧ carries (i :: q) b ∧ len (i :: q) ≤ MAX_PLAINTEXT_BLOCK_SIZE - 2.
Proof.
  intros F. destruct (finished_carries b i q F) as [[W E] L]. split_and!; [|by split|done].
  unfold payload. rewrite E. unfold sized16. apply drop_app_exact.
  pose proof MAX_PLAINTEXT_range. rewrite len_put_be16 by lia. done.
Qed.

Lemma block_finished b q : block_holds b q → ∃ i pl, finished_block b i pl.
Proof.
  destruct q; intros H; [|destruct H as (_ & _ & H)]; by do 2 eexists.
Qed.

Lemma sized16_packet d : 0 < len d ≤ MAX_CIPHERTEXT_BLOCK_SIZE - 2 → packet (sized16 d).
Proof.
  intros L. pose proof MAX_CIPHERTEXT_range. pose proof MAX_PLAINTEXT_range.
  pose proof (ciphertext_size TAG). unfold AUTH_TAG_LEN in *.
  pose proof (len_put_be16 (len d) ltac:(lia)) as L2. unfold sized16.
  split; [solve_len|solve_len|]. rewrite take_app_exact by lia.
  rewrite sys_put_be16_spec, sys_get_be16_spec, be16_value by lia. solve_len.
Qed.

(** * Up: what the server reads *)

(** Every block can be sealed with the key of the session. *)
Definition seals c : Prop := ∀ s d,
  ss_key s = ss_key (sa_uplink c) → ss_algorithm s = ss_algorithm (sa_uplink c) →
  is_Some (seal POUCH_ROLE_DEVICE s (sa_psa c) d).

(** The peer, from the same point of the session, opens the blocks [es] to the payloads of [kept]. *)
Definition server_opens peer p (es kept : list pouch_buf) peer' : Prop :=
  ∃ cts, Forall2 carries cts es
    ∧ unseal_all POUCH_ROLE_DEVICE peer p cts = Some (map payload kept, peer').

Lemma encrypts_opened M c0 bs es c :
  encrypts M c0 bs es c → ∀ ps peer p, uplink_active c0 = true → Forall2 block_holds bs ps →
  in_step (sa_uplink c0) (sa_psa c0) peer p →
  ∃ kept ps' peer', Forall2 block_holds kept ps' ∧ ps' `sublist_of` ps
    ∧ server_opens peer p es kept peer' ∧ in_step (sa_uplink c) (sa_psa c) peer' p
    ∧ ((∀ n, M n = true) → seals c0 → ps' = ps).
Proof.
  induction 1 as [c|c b r c1 bs es c2 h h' Mh E _ IH]; intros ps peer p A F I.
  { apply Forall2_nil_inv_l in F as ->. exists [], [], peer.
    refine (conj (Forall2_nil_2 _ _ _) (conj sublist_nil (conj _ (conj I _)))); [by exists []|done]. }
  apply Forall2_cons_inv_l in F as (q & ps' & Hb & F & ->).
  destruct (block_finished b q Hb) as (i & pl & Fb).
  destruct (finished_payload b i pl Fb) as (Ep & _).
  assert (live h (i32 (bufs h))) as L by (unfold live; symmetry; apply i32_small, i32_range).
  destruct (saead_encrypt_run TAG b i pl h c _ A Fb L) as (r' & h1 & c1' & E' & _ & _ & R).
  cbn [Crypto.crypto_encrypt_block crypto_saead] in E. unfold crypto_encrypt_block in E.
  rewrite E in E'. injection E' as <- <- <-. rewrite <- Ep in R. destruct r as [e|].
  - destruct R as (ct & Sl & Ce & _ & ->).
    destruct (IH ps' (Session.after ct peer) p A F (in_step_after ct _ _ _ _ I))
      as (kept & qs & peer' & Fk & Sk & (cts & Fc & Un) & I' & Ok).
    exists (b :: kept), (q :: qs), peer'. split_and!; [by constructor|by apply sublist_skip| |done|].
    + exists (ct :: cts). split; [by constructor|]. cbn [map unseal_all].
      rewrite (unseal_seal _ _ _ _ _ _ _ I Sl). cbn [mbind option_bind]. by rewrite Un.
    + intros Mn Sc. f_equal. apply Ok; [done|]. intros s d Ks As. by apply Sc.
  - destruct R as [-> No]. destruct (IH ps' peer p A F I) as (kept & qs & peer' & Fk & Sk & So & I' & Ok).
    exists kept, qs, peer'. split_and!; [done|by apply sublist_cons|done|done|].
    intros Mn Sc. rewrite Mh, Mn in No. destruct (Sc (sa_uplink c) (payload b) eq_refl eq_refl) as [ct S].
    by rewrite (No eq_refl) in S.
Qed.

(** A header can only be made in a session. *)
Lemma header_active c hb : header_bytes c = Some hb → uplink_active c = true.
Proof.
  unfold header_bytes, uplink_active. cbn [Crypto.crypto_header_get crypto_saead].
  unfold crypto_header_get, saead_uplink_header_get. by destruct (atomic_test_bit _ _).
Qed.

(** The bytes [bytes] of a session that started with [c0], as the peer reads them: the header and blocks
    that open one after the other to blocks with the entries [log] and the data of the streams [ys], but
    for those that were dropped; with memory and a key that works nothing is dropped. *)
Definition server_reads c0 (M : nat → bool) peer p log (ys : list client_stream) bytes : Prop :=
  ∃ hb eb kept ps' ps peer',
    header_bytes c0 = Some hb ∧ bytes = pouch_bytes hb eb
    ∧ server_opens peer p eb kept peer' ∧ Forall2 block_holds kept ps'
    ∧ ps' `sublist_of` ps ∧ entries_of ps = log ∧ (∀ j y, ys !! j = Some y → stream_sent ps j y)
    ∧ ((∀ n, M n = true) → seals c0 → ps' = ps).

Lemma pouch_of_reads hb c0 M log ys bytes peer p :
  header_bytes c0 = Some hb → pouch_of hb c0 M log ys bytes →
  in_step (sa_uplink c0) (sa_psa c0) peer p → server_reads c0 M peer p log ys bytes.
Proof.
  intros Hh (bs & ps & eb & c & Eo & En & F & El & Sts & _) I.
  destruct (encrypts_opened _ _ _ _ _ En ps peer p (header_active _ _ Hh) F I)
    as (kept & ps' & peer' & Fk & Sk & So & _ & Ok).
  exists hb, eb, kept, ps', ps, peer'. by split_and!.
Qed.

Lemma sealed_end hb c0 M o0 h0 ys s1 log out n k d s2 peer p :
  header_bytes c0 = Some hb → sending hb c0 M o0 h0 (ys, s1) log out → sealed s1 → 0 ≤ n →
  pouch_uplink_fill n s1 = OK ((POUCH_NO_MORE_DATA, k, d), s2) →
  in_step (sa_uplink c0) (sa_psa c0) peer p →
  server_reads c0 M peer p log ys (out ++ d).
Proof.
  intros Hh Sg Se N Ef I. apply (pouch_of_reads hb); [done| |done].
  exact (Sender.session_end hb _ _ _ _ ys s1 _ _ n _ k d s2 Sg Se N Ef eq_refl).
Qed.

(** C5: an encrypted pouch: when a session of the device ends, what its transport read is the header of
    the session and blocks that a server with the same key, at the start of the same pouch, opens one
    after the other to the device's blocks: the entries accepted and the data of the streams, in order,
    but for blocks that no memory was left to encrypt or that PSA failed on, which are dropped as a
    whole and leave the session in step; with memory and a key that works nothing is dropped. *)
Theorem encrypted_sent s s0 s1 s2 log es ys ops1 ops2 out d n k held peer p :
  between s log → balanced s held → pouch_uplink_start s = OK (true, s0) →
  Forall op_ok ops1 → Forall op_ok ops2 → Forall (λ op, is_internal op = true) ops2 → 0 ≤ n →
  Sender.session ops1 ops2 ([], s0) = OK ((es, out), (ys, s1)) →
  pouch_uplink_fill n s1 = OK ((POUCH_NO_MORE_DATA, k, d), s2) →
  in_step (sa_uplink (s_crypto s0)) (sa_psa (s_crypto s0)) peer p →
  ∃ hb eb kept ps' ps peer',
    header_bytes (s_crypto s0) = Some hb ∧ out ++ d = pouch_bytes hb eb
    ∧ server_opens peer p eb kept peer' ∧ Forall2 block_holds kept ps'
    ∧ ps' `sublist_of` ps ∧ entries_of ps = log ++ es ∧ (∀ j y, ys !! j = Some y → stream_sent ps j y)
    ∧ (malloc_never_fails (s_heap s) → seals (s_crypto s0) → ps' = ps).
Proof.
  intros B Ba St O1 O2 Ni N Ss Ef I.
  destruct (session_run s s0 log ops1 ops2 held B Ba St O1 O2 Ni)
    as (hb & es' & out' & ys' & s1' & Hh & Es' & Sg & Se & _).
  rewrite Ss in Es'. injection Es' as <- <- <- <-. exact (sealed_end _ _ _ _ _ _ _ _ _ _ _ _ _ _ _ Hh Sg Se N Ef I).
Qed.

(** * Down: what the device reads *)

(** The state after a block with the ciphertext [ct]. *)
Definition opened ct c : saead :=
  let s := ss_set_flags (atomic_set_bit (ss_flags (sa_downlink c)) SESSION_VALID)
             (Session.after ct (sa_downlink c)) in
  let s := ss_set_flags (atomic_set_bit (ss_flags s) SESSION_VALID) s in
  let s := ss_set_flags (atomic_set_bit (ss_flags s) SESSION_HAS_POUCH) s in
  let n := if bool_decide (id_initiator (ss_id s) = POUCH_ROLE_SERVER)
              && bool_decide (id_type (ss_id s) = SESSION_ID_TYPE_SEQUENTIAL)
           then seqnum (id_value (ss_id s)) else sv_seqnum (sa_server c) in
  set_server (ServerStatics n (sp_id (ss_pouch s))) (set_downlink_session s c).

Lemma opens_sealed_block c ct d :
  0 < len d → len d ≤ MAX_PLAINTEXT_BLOCK_SIZE - 2 → len ct = len d + AUTH_TAG_LEN →
  unseal POUCH_ROLE_SERVER (sa_downlink c) (sa_psa c) ct = Some d →
  opens_block c (sized16 ct) (sized16 d) (opened ct c).
Proof.
  intros N L Lc U b h Eb [W B] M. pose proof MAX_PLAINTEXT_range.
  assert (AUTH_TAG_LEN = 16) as T by done. unfold sized16 in Eb.
  rewrite sys_put_be16_spec in Eb by lia.
  pose proof (session_decrypt_run TAG (sa_downlink c) (sa_psa c) b _ _ ct h W Eb ltac:(lia)) as R.
  cbv zeta in R. rewrite be16_value in R by lia.
  rewrite M, (proj2 (Z.ltb_lt _ _)), Z.eqb_refl, U in R by lia. cbn [andb] in R.
  destruct R as (e & R & We & Ce & _).
  assert (live h (i32 (bufs h))) as Lv by (unfold live; symmetry; apply i32_small, i32_range).
  assert (∃ h', crypto_decrypt_block (Some b) (h, c) = OK (Some e, (h', opened ct c))) as [h' E].
  { unfold crypto_decrypt_block, saead_downlink_block_decrypt. rewrite R.
    eexists. reflexivity. }
  exists e, h'. split; [exact E|]. split; [done|].
  assert (∀ n, live h n → malloc_ok h' = malloc_ok h ∧ live h' n ∧ dl_block e) as K.
  { intros n Ln. destruct (saead_decrypt_run TAG b h c n W B Ln)
      as (r & h2 & c2 & E2 & M2 & L2 & _ & _ & _ & _ & D).
    unfold crypto_decrypt_block in E. rewrite E2 in E. injection E as -> -> ->.
    split_and!; [done| |by apply D]. eapply live_eq; [done|simpl; lia]. }
  destruct (K _ Lv) as (M2 & _ & D). split_and!; [done|done|]. intros n Ln. by destruct (K n Ln) as (_ & ? & _).
Qed.

Lemma in_step_opened ct c peer p :
  in_step peer p (sa_downlink c) (sa_psa c) →
  in_step (Session.after ct peer) p (sa_downlink (opened ct c)) (sa_psa (opened ct c)).
Proof. intros I. by destruct (in_step_after ct _ _ _ _ I). Qed.

Lemma opens_sealed ds : ∀ c peer p cts peer',
  in_step peer p (sa_downlink c) (sa_psa c) → seal_all POUCH_ROLE_SERVER peer p ds = Some (cts, peer') →
  Forall (λ d, 0 < len d ≤ MAX_PLAINTEXT_BLOCK_SIZE - 2) ds →
  ∃ c', opens c (map sized16 cts) (map sized16 ds) c' ∧ Forall packet (map sized16 cts)
    ∧ in_step peer' p (sa_downlink c') (sa_psa c') ∧ ss_id (sa_downlink c') = ss_id (sa_downlink c)
    ∧ (ds ≠ [] → atomic_test_bit (ss_flags (sa_downlink c')) SESSION_VALID = true
       ∧ (id_initiator (ss_id (sa_downlink c)) = POUCH_ROLE_SERVER →
          id_type (ss_id (sa_downlink c)) = SESSION_ID_TYPE_SEQUENTIAL →
          sv_seqnum (sa_server c') = seqnum (id_value (ss_id (sa_downlink c))))).
Proof.
  induction ds as [|d ds IH]; intros c peer p cts peer' I S F; cbn [seal_all] in S.
  { injection S as <- <-. exists c. split_and!; try done; constructor. }
  destruct (seal POUCH_ROLE_SERVER peer p d) as [ct|] eqn:Sd; [|done]. cbn [mbind option_bind] in S.
  destruct (seal_all _ _ _ ds) as [[cts' s']|] eqn:Sa; [|done]. injection S as <- <-.
  apply Forall_cons in F as [[D0 D1] F]. pose proof (seal_len _ _ _ _ _ Sd) as Lc.
  destruct (IH (opened ct c) _ _ _ _ (in_step_opened ct c peer p I) Sa F) as (c' & O & Pk & I' & Id & V).
  assert (ss_id (sa_downlink (opened ct c)) = ss_id (sa_downlink c)) as Ei by done.
  rewrite Ei in Id, V. exists c'. pose proof (ciphertext_size TAG). unfold AUTH_TAG_LEN in *. split_and!; [..|exact I'|exact Id|].
  - cbn [map]. eapply opens_cons; [|exact O]. apply opens_sealed_block; try done.
    by apply (unseal_seal _ _ _ _ _ _ _ I).
  - constructor; [|done]. apply sized16_packet. lia.
  - intros _. destruct ds as [|d2 ds]; [|by apply V].
    cbn [seal_all] in Sa. injection Sa as <- <-. inversion O; subst. split.
    + change (Z.testbit (Z.setbit (Z.setbit (Z.setbit (ss_flags (sa_downlink c)) SESSION_VALID)
        SESSION_VALID) SESSION_HAS_POUCH) SESSION_VALID = true).
      by rewrite setbit_other, setbit_same.
    + intros Ri Ti. unfold opened. cbn [sa_server set_server sv_seqnum ss_set_flags ss_id Session.after advance ss_set_pouch].
      by rewrite Ri, Ti.
Qed.

(** What a server with the same key seals opens, and then the session counts as genuine. *)
Lemma sealed_opens info pid bs ps c0 c peer p cts peer' :
  crypto_downlink_start (saead_info info pid) c0 = (SUCCESS, c) →
  in_step peer p (sa_downlink c) (sa_psa c) → Forall2 block_holds bs ps →
  seal_all POUCH_ROLE_SERVER peer p (map payload bs) = Some (cts, peer') →
  ∃ c1, opens c (map sized16 cts) (map contents bs) c1 ∧ Forall packet (map sized16 cts)
    ∧ in_step peer' p (sa_downlink c1) (sa_psa c1)
    ∧ (bs ≠ [] → ∀ i pid', header_session_id info = Some i → id_initiator i = POUCH_ROLE_SERVER →
        id_type i = SESSION_ID_TYPE_SEQUENTIAL →
        crypto_downlink_start (saead_info info pid') c1 = (NEG EBADMSG, c1)).
Proof.
  intros St I F S.
  assert (map contents bs = map sized16 (map payload bs)
    ∧ Forall (λ d, 0 < len d ≤ MAX_PLAINTEXT_BLOCK_SIZE - 2) (map payload bs)) as [Ec L].
  { clear -F TAG. induction F as [|b q bs ps H _ [Ec L]]; [done|]. destruct (block_finished b q H) as (i & pl & Fb).
    destruct (finished_payload b i pl Fb) as (Ep & [_ Cb] & Lp). cbn [map]. rewrite Ep, Cb, Ec.
    split; [done|]. constructor; [|done]. split; [simpl; lia|done]. }
  destruct (opens_sealed (map payload bs) c peer p cts peer' I S L) as (c1 & O & Pk & I' & Id & V).
  rewrite <- Ec in O. exists c1. split_and!; [done..|]. intros N i pid' Hi Ii Ti.
  rewrite (crypto_downlink_start_run info pid _ i Hi) in St.
  pose proof (downlink_session_start_run i
    (match si_algorithm info with aes_gcm => PSA_ALG_GCM | chacha20_poly1305 => PSA_ALG_CHACHA20_POLY1305 end)
    (u8 (si_max_block_size_log info)) (sa_pkey c0) c0) as Rn.
  destruct (saead_downlink_session_start _ _ _ _ _) as [[e|] c2]; [done|]. injection St as <-.
  destruct (Rn eq_refl) as (_ & Ei & _). destruct V as [Vd Sq]; [by destruct bs|].
  cbn [sa_downlink set_downlink_session ss_id ss_set_pouch] in Sq. rewrite Ei in Sq.
  apply (header_refused info pid' i c1 Hi Ii Ti); [by rewrite (Sq Ii Ti)|done].
Qed.

(** C6: the device receives an encrypted pouch: when it accepts the header, what a server with the same
    key sealed, from the first block of the pouch on, reaches the handlers piece by piece, once and in
    order, in every order of pushes and works and for all chunks none of which holds the ends of two blocks; the works end, no step faults and no
    buffer is lost. Afterwards the session counts as genuine: a second pouch with the session of a
    numbered header of the server's is refused. *)
Theorem encrypted_received {A} (handlers : list (pouch_downlink_handler A)) max v info pid hb s c peer p
    bs ps cts peer' ds a0 :
  cbor_encode_pouch_header max (PouchHeader v (saead_info info pid)) = Some hb →
  len hb ≤ MAX_CIPHERTEXT_BLOCK_SIZE →
  crypto_downlink_start (saead_info info pid) (s_crypto s) = (SUCCESS, c) →
  in_step peer p (sa_downlink c) (sa_psa c) →
  Forall2 block_holds bs ps → Forall entry_representable (entries_of ps) →
  seal_all POUCH_ROLE_SERVER peer p (map payload bs) = Some (cts, peer') →
  quiet s → one_end (len hb) ds (map sized16 cts) → concat ds = hb ++ concat (map sized16 cts) →
  ∃ s1 c1, pouch_downlink_start s = OK (tt, s1)
    ∧ delivers handlers ds s1 a0 (foldl (deliver_piece handlers) a0 ps) c1
    ∧ in_step peer' p (sa_downlink c1) (sa_psa c1)
    ∧ (bs ≠ [] → ∀ i pid', header_session_id info = Some i → id_initiator i = POUCH_ROLE_SERVER →
        id_type i = SESSION_ID_TYPE_SEQUENTIAL →
        crypto_downlink_start (saead_info info pid') c1 = (NEG EBADMSG, c1)).
Proof.
  intros En Lh St I F R S Q Sm E.
  destruct (sealed_opens info pid bs ps _ c peer p cts peer' St I F S) as (c1 & O & Pk & I' & V).
  destruct (receive_run (CR := crypto_saead) handlers max _ hb (map sized16 cts) (map contents bs) c c1 a0
    (foldl (deliver_piece handlers) a0 ps) s ds En Lh St Pk O (pieces_accepted handlers bs ps a0 F R) Q Sm E)
    as (s1 & E1 & D & _).
  exists s1, c1. by split_and!.
Qed.

(** The same over BLE GATT. *)
Lemma encrypted_over_gatt {A} (handlers : list (pouch_downlink_handler A)) max v info pid hb s c peer p
    bs ps cts peer' ds a0 :
  cbor_encode_pouch_header max (PouchHeader v (saead_info info pid)) = Some hb →
  len hb ≤ MAX_CIPHERTEXT_BLOCK_SIZE →
  crypto_downlink_start (saead_info info pid) (s_crypto s) = (SUCCESS, c) →
  in_step peer p (sa_downlink c) (sa_psa c) →
  Forall2 block_holds bs ps → Forall entry_representable (entries_of ps) →
  seal_all POUCH_ROLE_SERVER peer p (map payload bs) = Some (cts, peer') →
  quiet s → one_end (len hb) ds (map sized16 cts) → concat ds = hb ++ concat (map sized16 cts) →
  ∃ c1, gw_delivers handlers (packets true ds) s a0 (foldl (deliver_piece handlers) a0 ps) c1
    ∧ in_step peer' p (sa_downlink c1) (sa_psa c1).
Proof.
  intros En Lh St I F R S Q Sm E.
  destruct (sealed_opens info pid bs ps _ c peer p cts peer' St I F S) as (c1 & O & Pk & I' & _).
  exists c1. split; [|done].
  exact (over_gatt_run (CR := crypto_saead) handlers max _ hb (map sized16 cts) (map contents bs) c c1 a0
    (foldl (deliver_piece handlers) a0 ps) s ds En Lh St Pk O (pieces_accepted handlers bs ps a0 F R) Q Sm E).
Qed.

End Encrypted.

(** * A concrete codec for the headers of encrypted pouches

    Fixed positions: the version, the kind of session id, its sixteen bytes, initiator, algorithm, size,
    six bytes of the certificate's reference and the pouch's id. *)
Module NativeSaeadCodec.

Definition HEADER_LEN : nat := 29.

Definition id_kind (i : session_id_choice) : byte :=
  match i with session_id_random _ => x00 | session_id_sequential _ _ => x01 end.
Definition id_bytes (i : session_id_choice) : list byte :=
  match i with session_id_random r => r | session_id_sequential tag seq => tag ++ le_bytes 8 seq end.
Definition id_ok (i : session_id_choice) : bool :=
  match i with
  | session_id_random r => bool_decide (length r = 16%nat)
  | session_id_sequential tag seq => bool_decide (length tag = 8%nat) && (0 <=? seq) && (seq <? 2 ^ 64)
  end.
Definition initiator_byte (i : initiator_choice) : byte :=
  match i with initiator_device => x00 | initiator_server => x01 end.
Definition algorithm_byte (a : algorithm_choice) : byte :=
  match a with aes_gcm => x00 | chacha20_poly1305 => x01 end.

Definition byte_range (z : Z) : bool := (0 <=? z) && (z <? 256).

Definition encode (max : Z) (h : pouch_header) : option (list byte) :=
  match encryption_info_m h with
  | plaintext_info _ => None
  | saead_info (SessionInfo i init alg log cert) pid =>
    if byte_range (version h) && id_ok i && byte_range log && bool_decide (length cert = 6%nat)
       && (0 <=? pid) && (pid <? 65536) && (Z.of_nat HEADER_LEN <=? max)
    then Some (byte_of_Z (version h) :: id_kind i :: id_bytes i
                 ++ initiator_byte init :: algorithm_byte alg :: byte_of_Z log :: cert
                 ++ [byte_of_Z (pid / 256); byte_of_Z (pid mod 256)])
    else None
  end.

Definition decode_id (kind : byte) (l : list byte) : session_id_choice :=
  match kind with x00 => session_id_random l | _ => session_id_sequential (take 8 l) (le_value (drop 8 l)) end.

Definition decode (l : list byte) : option (pouch_header * Z) :=
  if decide (HEADER_LEN ≤ length l)%nat then
    let at_ k := nth k l x00 in
    Some (PouchHeader (Z_of_byte (at_ 0%nat))
            (saead_info
               (SessionInfo (decode_id (at_ 1%nat) (take 16 (drop 2 l)))
                  (match at_ 18%nat with x00 => initiator_device | _ => initiator_server end)
                  (match at_ 19%nat with x00 => aes_gcm | _ => chacha20_poly1305 end)
                  (Z_of_byte (at_ 20%nat)) (take 6 (drop 21 l)))
               (Z_of_byte (at_ 27%nat) * 256 + Z_of_byte (at_ 28%nat))), Z.of_nat HEADER_LEN)
  else None.

#[export] Instance codec : HeaderCodec :=
  {| cbor_encode_pouch_header := encode; cbor_decode_pouch_header := decode |}.

Lemma le_value_bytes n : ∀ v, 0 ≤ v < 256 ^ Z.of_nat n → le_value (le_bytes n v) = v.
Proof.
  induction n as [|n IH]; intros v V; [simpl in *; lia|].
  rewrite Nat2Z.inj_succ, Z.pow_succ_r in V by lia. cbn [le_bytes le_value].
  rewrite IH, Z_of_byte_of_Z by (split; [apply Z.div_pos; lia|apply Z.div_lt_upper_bound; lia]).
  unfold u8. pose proof (Z.div_mod v 256). lia.
Qed.

Lemma length_le_bytes n : ∀ v, length (le_bytes n v) = n.
Proof. induction n as [|n IH]; intros v; [done|]. simpl. by rewrite IH. Qed.

Lemma id_bytes_len i : id_ok i = true → length (id_bytes i) = 16%nat.
Proof.
  destruct i as [r|tag seq]; simpl.
  - by intros ?%bool_decide_eq_true.
  - rewrite !andb_true_iff, bool_decide_eq_true. intros [[L _] _]. rewrite length_app, L. done.
Qed.

Lemma decode_id_bytes i : id_ok i = true → decode_id (id_kind i) (id_bytes i) = i.
Proof.
  destruct i as [r|tag seq]; simpl; [done|].
  rewrite !andb_true_iff, bool_decide_eq_true, Z.leb_le, Z.ltb_lt. intros [[L S1] S2].
  change (byte_of_Z seq :: _) with (le_bytes 8 seq).
  rewrite take_app_le, firstn_all2, drop_app_ge, L, Nat.sub_diag, drop_0 by lia.
  f_equal. by apply le_value_bytes.
Qed.

Lemma encode_saead_inv max h l : encode max h = Some l →
  ∃ i init alg log cert pid,
    encryption_info_m h = saead_info (SessionInfo i init alg log cert) pid
    ∧ l = byte_of_Z (version h) :: id_kind i :: id_bytes i
            ++ initiator_byte init :: algorithm_byte alg :: byte_of_Z log :: cert
            ++ [byte_of_Z (pid / 256); byte_of_Z (pid mod 256)]
    ∧ 0 ≤ version h < 256 ∧ id_ok i = true ∧ 0 ≤ log < 256 ∧ length cert = 6%nat ∧ 0 ≤ pid < 65536
    ∧ Z.of_nat HEADER_LEN ≤ max.
Proof.
  unfold encode, byte_range. destruct (encryption_info_m h) as [id|[i init alg log cert] pid]; [done|].
  destruct (_ && _) eqn:E; [|done]. intros [= <-].
  rewrite !andb_true_iff, !Z.leb_le, !Z.ltb_lt, bool_decide_eq_true in E.
  destruct_and! E. exists i, init, alg, log, cert, pid. split_and!; done || lia.
Qed.

Lemma encode_len max h l : encode max h = Some l → length l = HEADER_LEN.
Proof.
  intros (i & init & alg & log & cert & pid & _ & -> & _ & I & _ & C & _)%encode_saead_inv.
  simpl. rewrite length_app, id_bytes_len by done. simpl. by rewrite length_app, C.
Qed.

Lemma decode_short l : (length l < HEADER_LEN)%nat → decode l = None.
Proof. intros L. unfold decode. rewrite decide_False; [done|lia]. Qed.

#[export] Instance codec_laws : HeaderCodecLaws codec.
Proof.
  split; simpl.
  - intros max h l E. pose proof (encode_len _ _ _ E).
    apply encode_saead_inv in E as (? & ? & ? & ? & ? & ? & _ & _ & _ & _ & _ & _ & _ & M).
    unfold HEADER_LEN in *. lia.
  - intros max h l k E. pose proof (encode_len _ _ _ E) as L.
    apply encode_saead_inv in E as (i & init & alg & log & cert & pid & Ei & -> & V & I & G & C & P & _).
    unfold decode. rewrite decide_True by (rewrite length_app; lia). rewrite L.
    pose proof (id_bytes_len i I) as Li. destruct h as [v info]. simpl in Ei, V. subst info.
    pose proof (decode_id_bytes i I) as Di. revert Li Di. generalize (id_bytes i) as ib. intros ib Li Di.
    do 16 (destruct ib as [|? ib]; [done|]). destruct ib; [|done].
    do 6 (destruct cert as [|? cert]; [done|]). destruct cert; [|done].
    cbn -[decode_id Z_of_byte byte_of_Z]. rewrite Di, !Z_of_byte_of_Z, !u8_small by dlia.
    assert (pid / 256 * 256 + pid mod 256 = pid) as -> by dlia. by destruct init, alg.
  - intros max h l p E [k ->] N. apply decode_short. pose proof (encode_len _ _ _ E) as L.
    rewrite length_app in L. destruct k; [by rewrite app_nil_r in N|]. simpl in L. lia.
  - intros l h n. unfold decode. case_decide; [|done]. intros [= <- <-]. unfold HEADER_LEN in *. lia.
Qed.
End NativeSaeadCodec.

Module EncryptedWitness.
#[local] Existing Instances Native.byte_order Native.config_saead Native.list_slist Native.flag_work
  Native.list_msgq NativePsa.psa NativePsa.psa_laws NativePsa.base64 NativeX509.x509 CertWitness.cc
  SaeadWitness.sc NativeSaeadCodec.codec NativeSaeadCodec.codec_laws.
#[local] Instance ex_laws : CryptoLaws saead := saead_laws eq_refl.

(** A device with its certificate and the server's, between two sessions. *)
Definition ex_sys : sys saead := boot Native.heap0 4 SaeadWitness.ex_ready.
Definition ex_entry : pouch_entry := Entry [x2e; x73] 60 3 [x01; x02; x03].

Lemma ex_ready_inv : saead_inv SaeadWitness.ex_ready.
Proof. split; [split; vm_compute; done|done]. Qed.

Lemma ex_sys_between : between ex_sys [].
Proof.
  split; [|done..|exact (entry_log_start ex_sys eq_refl)|done].
  split; simpl; [exact ex_ready_inv|constructor| |constructor]. split; simpl; [constructor|done].
Qed.

Lemma ex_entry_representable : entry_representable ex_entry.
Proof. split; [split|]; try done. apply (bool_decide_unpack _). by vm_compute. Qed.

(** A result and the state it comes with. *)
Definition result_of {T} (r : outcome (T * sys saead)) : option T :=
  match r with OK (x, _) => Some x | Fault => None end.
Definition state_of {T} (r : outcome (T * sys saead)) : sys saead :=
  match r with OK (_, s) => s | Fault => ex_sys end.

Lemma result_state {T} (r : outcome (T * sys saead)) x : result_of r = Some x → r = OK (x, state_of r).
Proof. destruct r as [[y s]|]; [|done]. by intros [= ->]. Qed.

(** The same for a session. *)
Definition session_result {T} (r : outcome (T * world (C := saead))) : option (T * list client_stream) :=
  match r with OK (x, (ys, _)) => Some (x, ys) | Fault => None end.
Definition session_state {T} (r : outcome (T * world (C := saead))) : sys saead :=
  match r with OK (_, (_, s)) => s | Fault => ex_sys end.

Lemma session_result_state {T} (r : outcome (T * world (C := saead))) x ys :
  session_result r = Some (x, ys) → r = OK (x, (ys, session_state r)).
Proof. destruct r as [[y [zs s]]|]; [|done]. by intros [= -> ->]. Qed.

Definition ex_started : sys saead := state_of (pouch_uplink_start ex_sys).
Definition ex_ops1 : list pouch_op := [PWrite ex_entry; PProcess; PFill 5; PWrite ex_entry].
Definition ex_ops2 : list pouch_op := [PProcess].
Definition ex_closed : sys saead := session_state (Sender.session ex_ops1 ex_ops2 ([], ex_started)).

Lemma ex_session_start : pouch_uplink_start ex_sys = OK (true, ex_started).
Proof. unfold ex_started. refine (result_state (pouch_uplink_start ex_sys) true _). vm_compute. reflexivity. Qed.

Lemma ex_enc_session : Sender.session ex_ops1 ex_ops2 ([], ex_started)
  = OK (([ex_entry; ex_entry], []), ([], ex_closed)).
Proof.
  unfold ex_closed.
  refine (session_result_state (Sender.session ex_ops1 ex_ops2 ([], ex_started)) ([ex_entry; ex_entry], []) [] _).
  vm_compute. reflexivity.
Qed.

(** The header, and one block with the entries and a tag. *)
Definition ex_bytes : list byte :=
  [x01; x00] ++ replicate 16 x5a ++ [x00; x00; x09] ++ replicate 6 x05 ++ [x00; x01]
  ++ [x00; x25; xc0; x00; x03; x00; x3c; x02; x2e; x73; x01; x02; x03;
      x00; x03; x00; x3c; x02; x2e; x73; x01; x02; x03] ++ replicate 16 x38.
Definition ex_ended : sys saead := state_of (pouch_uplink_fill 200 ex_closed).

Lemma ex_enc_last : pouch_uplink_fill 200 ex_closed = OK ((POUCH_NO_MORE_DATA, 68, ex_bytes), ex_ended).
Proof.
  unfold ex_ended. refine (result_state (pouch_uplink_fill 200 ex_closed) (POUCH_NO_MORE_DATA, 68, ex_bytes) _).
  vm_compute. reflexivity.
Qed.

Lemma ex_ops_ok : Forall op_ok ex_ops1 ∧ Forall op_ok ex_ops2.
Proof. split; repeat constructor; try apply ex_entry_representable; done. Qed.

Lemma ex_seals c : seals c.
Proof.
  intros s d _ _. unfold seal. cbn [psa_aead_encrypt NativePsa.psa]. unfold NativePsa.encrypt, AUTH_TAG_LEN.
  rewrite (proj2 (Z.leb_le _ _)) by done. rewrite !Z.eqb_refl. by eexists.
Qed.

Abbreviation ex_peer := (sa_uplink (s_crypto ex_started)).

Lemma ex_in_step : in_step ex_peer (sa_psa (s_crypto ex_started)) ex_peer (sa_psa (s_crypto ex_started)).
Proof. by split. Qed.

Lemma ex_sys_balanced : balanced ex_sys 0.
Proof. done. Qed.

Lemma ex_enc_ops2_internal : Forall (λ op, is_internal op = true) ex_ops2.
Proof. by repeat constructor. Qed.

(** The server opens the block and finds the two entries. *)
Lemma encrypted_sent_witness :
  ∃ hb eb kept ps peer',
    header_bytes (s_crypto ex_started) = Some hb ∧ [] ++ ex_bytes = pouch_bytes hb eb
    ∧ server_opens ex_peer (sa_psa (s_crypto ex_started)) eb kept peer'
    ∧ Forall2 block_holds kept ps ∧ entries_of ps = [ex_entry; ex_entry].
Proof.
  destruct (encrypted_sent (CF := Native.config_saead) eq_refl ex_sys ex_started ex_closed ex_ended [] [ex_entry; ex_entry] []
    ex_ops1 ex_ops2 [] ex_bytes 200 68 0 ex_peer (sa_psa (s_crypto ex_started)) ex_sys_between ex_sys_balanced
    ex_session_start (proj1 ex_ops_ok) (proj2 ex_ops_ok) ex_enc_ops2_internal ltac:(done)
    ex_enc_session ex_enc_last ex_in_step)
    as (hb & eb & kept & ps' & ps & peer' & Hh & E & So & F & _ & El & _ & Ok).
  specialize (Ok (λ _, eq_refl) (ex_seals _)). subst ps'. exists hb, eb, kept, ps, peer'.
  exact (conj Hh (conj E (conj So (conj F El)))).
Defined.

(** A receiver in whose last session nothing was decrypted, and a session of the server's. *)
Definition ex_receiver : sys saead := boot Native.heap0 4 SaeadWitness.ex_active.
Definition ex_info : session_info :=
  SessionInfo (session_id_sequential (replicate 8 x05) 4) initiator_server aes_gcm 9 (replicate 6 x05).
Definition ex_header : list byte :=
  [x01; x01] ++ replicate 8 x05 ++ [x04; x00; x00; x00; x00; x00; x00; x00]
  ++ [x01; x00; x09] ++ replicate 6 x05 ++ [x00; x07].
Definition ex_accepted : saead := (crypto_downlink_start (saead_info ex_info 7) SaeadWitness.ex_active).2.

Lemma ex_info_accepted :
  crypto_downlink_start (saead_info ex_info 7) SaeadWitness.ex_active = (SUCCESS, ex_accepted).
Proof.
  rewrite (surjective_pairing (crypto_downlink_start _ _)). unfold ex_accepted. by f_equal.
Qed.

Definition ex_frame : list byte := [x00; x0b; xc0; x00; x03; x00; x3c; x02; x2e; x73; x01; x02; x03].
Definition ex_block : pouch_buf := PBuf 515 13 ex_frame.

Lemma ex_block_holds : Forall2 block_holds [ex_block] [PieceEntries [ex_entry]].
Proof.
  constructor; [|constructor]. split; [|done]. split; [split; vm_compute; done|done|by exists x00, x0b].
Qed.

Definition ex_ct : list byte :=
  match seal POUCH_ROLE_SERVER (sa_downlink ex_accepted) (sa_psa ex_accepted) (payload ex_block) with
  | Some ct => ct | None => [] end.

Lemma ex_sealed :
  seal_all POUCH_ROLE_SERVER (sa_downlink ex_accepted) (sa_psa ex_accepted) (map payload [ex_block])
    = Some ([ex_ct], Session.after ex_ct (sa_downlink ex_accepted)).
Proof.
  cbn [map seal_all]. unfold ex_ct.
  destruct (seal _ _ _ _) as [ct|] eqn:E; [done|]. exfalso. revert E.
  unfold seal. cbn [psa_aead_encrypt NativePsa.psa]. unfold NativePsa.encrypt, AUTH_TAG_LEN.
  rewrite (proj2 (Z.leb_le _ _)) by done. by rewrite !Z.eqb_refl.
Qed.

Definition ex_handlers : list (pouch_downlink_handler (list (list byte))) :=
  [Handler (λ _ path _ a, a ++ [path]) (λ _ d _ _ a, a ++ [default [] d])].

(** The pouch in two chunks. *)
Definition ex_chunks : list (list byte) := [take 20 ex_header; drop 20 ex_header ++ take 2 (sized16 ex_ct);
  drop 2 (sized16 ex_ct)].

Lemma encrypted_received_witness :
  ∃ s1 c1, pouch_downlink_start ex_receiver = OK (tt, s1)
    ∧ delivers ex_handlers ex_chunks s1 [] [[x2e; x73]; [x01; x02; x03]] c1
    ∧ crypto_downlink_start (saead_info ex_info 8) c1 = (NEG EBADMSG, c1).
Proof.
  destruct (encrypted_received (CF := Native.config_saead) eq_refl ex_handlers 38 1 ex_info 7 ex_header
    ex_receiver ex_accepted (sa_downlink ex_accepted) (sa_psa ex_accepted) [ex_block]
    [PieceEntries [ex_entry]] [ex_ct] (Session.after ex_ct (sa_downlink ex_accepted)) ex_chunks []
    ltac:(by vm_compute) ltac:(by vm_compute) ex_info_accepted ltac:(by split) ex_block_holds
    ltac:(constructor; [apply ex_entry_representable|constructor]) ex_sealed ltac:(by split)
    ltac:(apply small_chunks; repeat constructor; by vm_compute) ltac:(by vm_compute)) as (s1 & c1 & E & D & _ & R).
  exists s1, c1. split; [exact E|]. split; [exact D|].
  eapply R; [done|by vm_compute|done|done].
Defined.
End EncryptedWitness.
