(* ===== verification/Application.v ===== *)
(** The example application: src/examples/ble_gatt/src/main.c.

    It brings the library up with the device's credentials, advertises, asks for a sync every
    CONFIG_EXAMPLE_SYNC_PERIOD_S seconds, and at the start of every session writes a reading and has the
    SDK's services report. Zephyr's delayable works and GPIO pins are classes. *)
From stdpp Require Import relations strings.
From S2P Require Import Prelude Platform Buf Block Crypto State Entry Stream Header Uplink Sender Dispatch Downlink Receiver.
From S2P Require Import Packetizer Psa Cert Credentials Session Saead Gatt GattSession Peripheral Zcbor ZcborEncode OtaUpper Ota Settings Pouch Encrypted.

(** * Zephyr *)

(** k_work_delayable: [k_work_delay] is the time set for a work that is scheduled; scheduling it again
    has no effect; it is [k_work_expire]d when its handler is run. *)
Class KWorkDelayable := {
  k_work_delayable : Type;
  k_work_delay : k_work_delayable → option Z;
  k_work_schedule : Z → k_work_delayable → k_work_delayable;
  k_work_expire : k_work_delayable → k_work_delayable;
  schedule_delay d w : k_work_delay (k_work_schedule d w) =
    match k_work_delay w with Some d' => Some d' | None => Some d end;
  expire_delay w : k_work_delay (k_work_expire w) = None;
}.

Definition GPIO_OUTPUT_ACTIVE : Z := Z.lor (2 ^ 17) (Z.lor (2 ^ 19) (2 ^ 20)).

(** <zephyr/drivers/gpio.h>: the device tree's pin. [gpio_pin] is its logical level. *)
Class Gpio := {
  gpio_state : Type;
  gpio_pin : gpio_state → option Z;
  gpio_pin_configure_dt : Z → gpio_state → status * gpio_state;
  gpio_pin_set_dt : Z → gpio_state → status * gpio_state;
  pin_configure g : (gpio_pin_configure_dt GPIO_OUTPUT_ACTIVE g).1 = SUCCESS →
    gpio_pin (gpio_pin_configure_dt GPIO_OUTPUT_ACTIVE g).2 = Some 1;
  pin_set v g : (gpio_pin_set_dt v g).1 = SUCCESS → gpio_pin (gpio_pin_set_dt v g).2 = Some v;
}.

(** Kconfig and the device tree. *)
Class AppConfig := {
  CONFIG_BT_DEVICE_NAME : list byte;
  CONFIG_EXAMPLE_SYNC_PERIOD_S : Z;
  DT_HAS_ALIAS_led0 : bool;
}.

(** * Advertising data *)

Definition POUCH_VERSION : Z := 1.
Definition POUCH_CONTENT_TYPE_JSON : Z := 50.

(** common/types.h *)
Definition GOLIOTH_BLE_GATT_VERSION : Z := 1.
Definition GOLIOTH_BLE_GATT_ADV_VERSION_POUCH_SHIFT : Z := 4.
Definition GOLIOTH_BLE_GATT_ADV_VERSION_POUCH_MASK : Z := 0xF0.
Definition GOLIOTH_BLE_GATT_ADV_VERSION_SELF_SHIFT : Z := 0.
Definition GOLIOTH_BLE_GATT_ADV_VERSION_SELF_MASK : Z := 0x0F.
Definition GOLIOTH_BLE_GATT_ADV_FLAG_SYNC_REQUEST : Z := Z.shiftl 1 0.

Record golioth_ble_gatt_adv_data := AdvData { adv_version : Z; adv_flags : Z }.

Definition BT_LE_AD_GENERAL : Z := 0x02.
Definition BT_LE_AD_NO_BREDR : Z := 0x04.

Section AdvertisingData.
Context {AC : AppConfig}.

(** The version of [service_data], whose UUID is [GOLIOTH_BLE_GATT_UUID_SVC_VAL]; its flags vary. *)
Definition service_version : Z :=
  Z.lor (Z.shiftl POUCH_VERSION GOLIOTH_BLE_GATT_ADV_VERSION_POUCH_SHIFT)
    (Z.shiftl GOLIOTH_BLE_GATT_VERSION GOLIOTH_BLE_GATT_ADV_VERSION_SELF_SHIFT).

(** The packed bytes of the data of the service. *)
Definition adv_data_bytes (data : golioth_ble_gatt_adv_data) : list byte :=
  [byte_of_Z (adv_version data); byte_of_Z (adv_flags data)].

Definition ad : list bt_data :=
  [BT_DATA_FLAGS (Z.lor BT_LE_AD_GENERAL BT_LE_AD_NO_BREDR); BT_DATA_NAME_COMPLETE CONFIG_BT_DEVICE_NAME].

(** [sd] points to [service_data]: what is advertised has the flags of the time of the call. *)
Definition sd (data : golioth_ble_gatt_adv_data) : list bt_data :=
  [BT_DATA_SVC_DATA128 GOLIOTH_BLE_GATT_UUID_SVC_VAL (adv_data_bytes data)].

End AdvertisingData.

(** * The LED setting *)

Section Led.
Context {GP : Gpio} {AC : AppConfig}.

Definition led_setting_cb (new_value : bool) (led : gpio_state) : status * gpio_state :=
  (SUCCESS, if DT_HAS_ALIAS_led0 then (gpio_pin_set_dt (if new_value then 1 else 0) led).2 else led).

Definition handler_led_setting_cb {ZC : Zcbor} : golioth_settings_handler gpio_state :=
  GOLIOTH_SETTINGS_HANDLER ["L"; "E"; "D"]%byte (bool_cb led_setting_cb).

(** The LED follows the setting of that name. *)
Lemma led_follows {ZC : Zcbor} (handlers : list (golioth_settings_handler gpio_state)) b g :
  DT_HAS_ALIAS_led0 = true → (gpio_pin_set_dt (if b : bool then 1 else 0) g).1 = SUCCESS →
  ∃ g', golioth_settings_receive_one (handler_led_setting_cb :: handlers)
          (SettingValue (ZC := ZC) ["L"; "E"; "D"]%byte GOLIOTH_SETTING_VALUE_TYPE_BOOL (bool_val b)) g
        = OK (SUCCESS, g') ∧ gpio_pin g' = Some (if b then 1 else 0).
Proof.
  intros D S. eexists. split; [reflexivity|]. cbn. rewrite D. by apply pin_set.
Qed.

End Led.

(** * The application *)

Section App.
Context {BO : ByteOrder} {SL : SList} {KW : KWork} {MQ : MsgQ} {CF : Config} {HC : HeaderCodec}.
Context {SC : SaeadConfig} {CC : CertConfig} {PS : Psa} {B6 : Base64} {X : X509}.
Context {FS : FileSystem} {PK : Pk PS} {CD : CredentialsConfig}.
Context {GC : GattConfig} {IC : InfoCodec} {LK : Linker} {BT : Bluetooth (bt_gatt_attr (C := saead))}.
Context {KD : KWorkDelayable} {GP : Gpio} {AC : AppConfig}.

(** The library with PSA in it, the file system, how many files' buffers are allocated, the Bluetooth
    stack, the static variables of main.c and the pin. *)
Record app := App {
  a_sys : sys saead;
  a_fs : fs_state;
  a_live : Z;
  a_bt : bt_state;
  service_data : golioth_ble_gatt_adv_data;
  disconnect_work : k_work_delayable;
  sync_request_work : k_work_delayable;
  led : gpio_state;
}.

Definition set_sys s (a : app) : app :=
  App s (a_fs a) (a_live a) (a_bt a) (service_data a) (disconnect_work a) (sync_request_work a) (led a).
Definition set_bt b (a : app) : app :=
  App (a_sys a) (a_fs a) (a_live a) b (service_data a) (disconnect_work a) (sync_request_work a) (led a).
Definition set_flags f (a : app) : app :=
  App (a_sys a) (a_fs a) (a_live a) (a_bt a) (AdvData (adv_version (service_data a)) f)
    (disconnect_work a) (sync_request_work a) (led a).
Definition set_disconnect_work w (a : app) : app :=
  App (a_sys a) (a_fs a) (a_live a) (a_bt a) (service_data a) w (sync_request_work a) (led a).
Definition set_sync_request_work w (a : app) : app :=
  App (a_sys a) (a_fs a) (a_live a) (a_bt a) (service_data a) (disconnect_work a) w (led a).
Definition set_led g (a : app) : app :=
  App (a_sys a) (a_fs a) (a_live a) (a_bt a) (service_data a) (disconnect_work a) (sync_request_work a) g.

#[export, refine] Instance app_sys : Part app (sys saead) := {| part_get := a_sys; part_set := set_sys |}.
Proof. done. Defined.
#[export, refine] Instance app_bt : Part app bt_state := {| part_get := a_bt; part_set := set_bt |}.
Proof. done. Defined.
#[export, refine] Instance app_led : Part app gpio_state := {| part_get := led; part_set := set_led |}.
Proof. done. Defined.
#[export, refine] Instance app_events : Part app event_statics :=
  {| part_get a := s_events (a_sys a); part_set e a := set_sys (set_events e (a_sys a)) a |}.
Proof. done. Defined.

(** What credentials.c works on. *)
Definition cred_of (a : app) : cred :=
  Cred (a_fs a) (sa_psa (s_crypto (a_sys a))) (s_heap (a_sys a)) (a_live a).
Definition set_cred (c : cred) (a : app) : app :=
  App (set_crypto (set_psa (cr_psa c) (s_crypto (a_sys a))) (set_heap (cr_heap c) (a_sys a)))
    (cr_fs c) (cr_live c) (a_bt a) (service_data a) (disconnect_work a) (sync_request_work a) (led a).

#[export, refine] Instance app_cred : Part app cred := {| part_get := cred_of; part_set := set_cred |}.
Proof. by intros [] ?. Defined.

(** A call with a result that changes a part of the state. *)
Definition do_ {P R} `{!Part app P} (f : P → R * P) : st app R := zoom (λ s, OK (f s)).

(** [err] is only logged. *)
Definition connected (err : Z) : st app unit := mret tt.

Definition disconnect_work_handler : st app unit :=
  data ← gets service_data;
  do_ (bt_le_adv_start ad (sd data));;
  mret tt.

Definition disconnected (reason : Z) : st app unit :=
  modify (λ a, set_disconnect_work (k_work_schedule 1 (disconnect_work a)) a).

Definition update_data : st app unit :=
  data ← gets service_data;
  do_ (bt_le_adv_update_data ad (sd data));;
  mret tt.

Definition sync_request_work_handler : st app unit :=
  modify (set_flags 0x01);;
  update_data.

(** The uplink callbacks of the SDK's services, in the order of their section; the mutex of the entries
    is waited for. *)
Context (services : list (option (st (sys saead) unit))).

(** "{\"temp\":22}" *)
Definition sensor_entry : pouch_entry :=
  let d := [x7b; x22; x74; x65; x6d; x70; x22; x3a; x32; x32; x7d] in
  Entry ["."; "s"; "/"; "s"; "e"; "n"; "s"; "o"; "r"]%byte POUCH_CONTENT_TYPE_JSON (len d) d.

Definition pouch_event_handler (event : pouch_event) : st app unit :=
  (if decide (POUCH_EVENT_SESSION_START = event) then
     zoom (pouch_uplink_entry_write (Some (path sensor_entry)) (Some (data sensor_entry))
             (content_type sensor_entry) (data_len sensor_entry) None);;
     zoom (golioth_sync_to_cloud services);;
     mret tt
   else mret tt);;
  (if decide (POUCH_EVENT_SESSION_END = event) then
     modify (set_flags 0x00);;
     update_data;;
     modify (λ a, set_sync_request_work (k_work_schedule CONFIG_EXAMPLE_SYNC_PERIOD_S (sync_request_work a)) a)
   else mret tt).

(** What the linker puts into the section of the GATT attributes, and Zephyr's handlers of services and
    declarations are in it. *)
Context (objects : list (string * bt_gatt_attr (C := saead))).

(** The result, or [None] when the program goes on to wait for ever. *)
Definition main : st app (option Z) :=
  err ← do_ (golioth_ble_gatt_peripheral_init objects);
  if bool_decide (err ≠ SUCCESS) then mret (Some 0) else
  err ← do_ bt_enable;
  if bool_decide (err ≠ SUCCESS) then mret (Some 0) else
  '(err, certificate) ← zoom (load_certificate (PouchCert None 0));
  if bool_decide (err ≠ SUCCESS) then mret (Some 0) else
  private_key ← zoom load_private_key;
  if private_key =? PSA_KEY_ID_NULL then mret (Some 0) else
  err ← zoom (pouch_init (crypto_init certificate private_key));
  if bool_decide (err ≠ SUCCESS) then mret (Some 0) else
  err ← do_ (bt_le_adv_start ad []);
  if bool_decide (err ≠ SUCCESS) then mret (Some 0) else
  (if DT_HAS_ALIAS_led0 then do_ (gpio_pin_configure_dt GPIO_OUTPUT_ACTIVE);; mret tt else mret tt);;
  modify (λ a, set_sync_request_work (k_work_schedule CONFIG_EXAMPLE_SYNC_PERIOD_S (sync_request_work a)) a);;
  mret None.

End App.

(** * Bringing it up *)

Section Main.
Context {BO : ByteOrder} {SL : SList} {KW : KWork} {MQ : MsgQ} {CF : Config} {HC : HeaderCodec}.
Context {HL : HeaderCodecLaws HC} {SC : SaeadConfig} {CC : CertConfig} {PS : Psa} {PL : PsaLaws PS}.
Context {B6 : Base64} {X : X509} {FS : FileSystem} {PK : Pk PS} {CD : CredentialsConfig}.
Context {LK : Linker} {BT : Bluetooth (bt_gatt_attr (C := saead))}.
Context {KD : KWorkDelayable} {GP : Gpio} {AC : AppConfig}.
Context (TAG : CONFIG_AUTH_TAG_LEN = AUTH_TAG_LEN).
Context (objects : list (string * bt_gatt_attr (C := saead))).
Implicit Types (a : app) (c : saead) (d : list byte).

#[local] Instance main_laws : CryptoLaws saead := saead_laws TAG.

(** As Zephyr calls [main]: the library's statics are initialised and nothing is scheduled. *)
Record booted a : Prop := {
  bo_sys : ∃ h depth p ca0, live h 0 ∧ pouch_module_init (boot h depth (saead_boot p ca0)) = OK (0, a_sys a);
  bo_advertised : bt_advertised (a_bt a) = None;
  bo_sync : k_work_delay (sync_request_work a) = None;
  bo_data : service_data a = AdvData service_version 0;
}.

(** Neither credential is an empty file. *)
Definition not_empty a : Prop :=
  fs_stat CERT_FILE (a_fs a) ≠ inr (FsDirent FS_DIR_ENTRY_FILE 0)
  ∧ fs_stat KEY_FILE (a_fs a) ≠ inr (FsDirent FS_DIR_ENTRY_FILE 0).

(** Nothing fails. *)
Record works a : Prop := {
  wk_register t b : (bt_gatt_service_register t b).1 = SUCCESS;
  wk_enable b : (bt_enable b).1 = SUCCESS;
  wk_start x y b : (bt_le_adv_start x y b).1 = SUCCESS;
  wk_files : healthy;
  wk_malloc : malloc_never_fails (s_heap (a_sys a));
  wk_cert : ∃ d w, fs_content (a_fs a) CERT_FILE = Some d ∧ 0 < len d
    ∧ psa_hash_compute d CERT_REF_LEN = (PSA_SUCCESS, w, CERT_REF_LEN);
  wk_key : ∃ d, fs_content (a_fs a) KEY_FILE = Some d
    ∧ imported d (sa_psa (s_crypto (a_sys a))) ≠ PSA_KEY_ID_NULL;
}.

(** The program waits: the service is registered, the device advertises, a sync will be asked for, and
    the library is between sessions with the device's credentials. *)
Record running a a' : Prop := {
  rn_services : bt_services (a_bt a') = bt_services (a_bt a) ++ [GOLIOTH_BLE_GATT_ATTR_ARRAY objects];
  rn_advertised : bt_advertised (a_bt a') = Some (ad, []);
  rn_data : service_data a' = service_data a;
  rn_sync : k_work_delay (sync_request_work a') = Some CONFIG_EXAMPLE_SYNC_PERIOD_S;
  rn_between : between (a_sys a') [];
  rn_balanced : balanced (a_sys a') 0;
  rn_quiet : malloc_never_fails (s_heap (a_sys a)) → quiet (a_sys a');
  rn_key : sa_pkey (s_crypto (a_sys a')) ≠ PSA_KEY_ID_NULL;
  rn_cert : ∃ d, pouch_device_certificate_get (sa_cert (s_crypto (a_sys a'))) = inr (PouchCert (Some d) (len d))
    ∧ ∀ d', fs_content (a_fs a) CERT_FILE = Some d' → d = d';
}.

Lemma do_run {P R} `{!Part app P} (f : P → R * P) a :
  do_ f a = OK ((f (part_get a)).1, part_set (f (part_get a)).2 a).
Proof. unfold do_, zoom. by destruct (f (part_get a)). Qed.

(** What [crypto_init] makes of a certificate that was loaded. *)
Lemma crypto_init_run d k c :
  saead_inv c → k ≠ PSA_KEY_ID_NULL →
  ∃ err c', crypto_init (PouchCert (Some d) (len d)) k c = OK (err, c') ∧ saead_inv c'
    ∧ (err = SUCCESS → sa_pkey c' = k
         ∧ pouch_device_certificate_get (sa_cert c') = inr (PouchCert (Some d) (len d)))
    ∧ (∀ w, 0 < len d → psa_hash_compute d CERT_REF_LEN = (PSA_SUCCESS, w, CERT_REF_LEN) → err = SUCCESS).
Proof.
  intros [Ic Ir] K. unfold crypto_init. rewrite (proj2 (Z.eqb_neq _ _) K).
  destruct (cert_device_set_spec (sa_cert c) (Some (PouchCert (Some d) (len d))) Ic) as [Bad Good].
  destruct (Z.ltb_spec 0 (len d)) as [L|L].
  - specialize (Good _ d eq_refl ltac:(simpl; by apply Z.ltb_lt) ltac:(simpl; by apply load_all)).
    destruct (psa_hash_compute d CERT_REF_LEN) as [[status w] n] eqn:H.
    destruct Good as (err & cs & E & Ic' & _ & S & _ & G). rewrite E, bind_OK. destruct err as [e|].
    + do 2 eexists. split; [reflexivity|]. split_and!; [by split|done|].
      intros w' _ [= -> -> ->]. by apply S.
    + do 2 eexists. split; [reflexivity|]. split_and!; [by split|intros _; split; [done|]|done].
      by apply G.
  - rewrite Bad by (simpl; by apply Z.ltb_ge). rewrite bind_OK. do 2 eexists. split; [reflexivity|].
    split_and!; [by split|done|]. intros. lia.
Qed.

(** A file that is not empty as main starts is not when it is read. *)
Lemma not_empty_file f (c : cred) :
  f ≠ CERT_DIR → fs_stat f (cr_fs c) ≠ inr (FsDirent FS_DIR_ENTRY_FILE 0) → ¬ empty_file f c.
Proof. intros N E. unfold empty_file. by rewrite (rl_stat _ _ _ (ensured_released c)). Qed.

Lemma file_not_dir t : t ≠ [] → CERT_DIR ++ t ≠ CERT_DIR.
Proof. intros N E. apply N, (app_inv_head CERT_DIR). by rewrite E, app_nil_r. Qed.

Lemma boot_recred h depth p ca0 s h' p' :
  pouch_module_init (boot h depth (saead_boot p ca0)) = OK (0, s) →
  pouch_module_init (boot h' depth (saead_boot p' ca0))
    = OK (0, set_crypto (set_psa p' (s_crypto s)) (set_heap h' s)) ∧ s_heap s = h.
Proof. by intros [= <-]. Qed.

(** The library's initialisation, after the credentials were loaded. *)
Lemma init_after_creds a d k (c : cred) :
  booted a → bufs (cr_heap c) = bufs (s_heap (a_sys a)) → k ≠ PSA_KEY_ID_NULL →
  ∃ err s, pouch_init (crypto_init (PouchCert (Some d) (len d)) k) (a_sys (set_cred c a)) = OK (err, s)
    ∧ between s [] ∧ balanced s 0 ∧ (malloc_never_fails (cr_heap c) → quiet s)
    ∧ (err = SUCCESS → sa_pkey (s_crypto s) = k
         ∧ pouch_device_certificate_get (sa_cert (s_crypto s)) = inr (PouchCert (Some d) (len d)))
    ∧ (∀ w, 0 < len d → psa_hash_compute d CERT_REF_LEN = (PSA_SUCCESS, w, CERT_REF_LEN) → err = SUCCESS).
Proof.
  intros [(h & depth & p & ca0 & L & E) _ _ _] B K.
  destruct (boot_recred h depth p ca0 (a_sys a) (cr_heap c) (cr_psa c) E) as [E' H].
  destruct (crypto_init_run d k (saead_boot (cr_psa c) ca0) (saead_boot_inv _ _) K)
    as (err & c1 & Ec & Ic & Ok & Su).
  destruct (init_run (cr_heap c) depth _ _ err c1 ltac:(unfold live in *; by rewrite B, H) Ec)
    as (s & Es & <- & _ & Q & Ba & Bt).
  exists err, s. rewrite (st_bind_OK _ _ _ _ _ E') in Es. split_and!; [exact Es|by apply Bt|done..].
Qed.

(** The outcome of [main]: it gives up or waits, and the former only when something fails. *)
Definition main_result a (x : outcome (option Z * app)) : Prop :=
  ∃ r a', x = OK (r, a') ∧ fs_opened (a_fs a') = fs_opened (a_fs a)
    ∧ match r with
      | Some z => z = 0 ∧ bt_advertised (a_bt a') = None ∧ k_work_delay (sync_request_work a') = None
      | None => running a a'
      end
    ∧ (works a → r = None).

Lemma gives_up a a' :
  fs_opened (a_fs a') = fs_opened (a_fs a) → bt_advertised (a_bt a') = None →
  k_work_delay (sync_request_work a') = None → ¬ works a → main_result a (OK (Some 0, a')).
Proof. intros O A S W. exists (Some 0), a'. by split_and!. Qed.

Lemma led_configured a : ∃ g,
  (if DT_HAS_ALIAS_led0 then do_ (gpio_pin_configure_dt GPIO_OUTPUT_ACTIVE);; mret tt else mret tt) a
    = OK (tt, set_led g a).
Proof.
  destruct DT_HAS_ALIAS_led0; [|exists (led a); by destruct a].
  eexists. by rewrite (st_bind_OK _ _ _ _ _ (do_run _ _)).
Qed.

(** From the library's initialisation on. *)
Lemma main_online a a2 s d :
  fs_opened (a_fs a2) = fs_opened (a_fs a) → bt_advertised (a_bt a2) = None →
  bt_services (a_bt a2) = bt_services (a_bt a) ++ [GOLIOTH_BLE_GATT_ATTR_ARRAY objects] →
  k_work_delay (sync_request_work a2) = None → service_data a2 = service_data a → a_sys a2 = s →
  between s [] → balanced s 0 → (malloc_never_fails (s_heap (a_sys a)) → quiet s) →
  sa_pkey (s_crypto s) ≠ PSA_KEY_ID_NULL →
  pouch_device_certificate_get (sa_cert (s_crypto s)) = inr (PouchCert (Some d) (len d)) →
  (∀ d', fs_content (a_fs a) CERT_FILE = Some d' → d = d') →
  main_result a
    ((err ← do_ (bt_le_adv_start ad []);
      if bool_decide (err ≠ SUCCESS) then mret (Some 0) else
      (if DT_HAS_ALIAS_led0 then do_ (gpio_pin_configure_dt GPIO_OUTPUT_ACTIVE);; mret tt else mret tt);;
      modify (λ a, set_sync_request_work (k_work_schedule CONFIG_EXAMPLE_SYNC_PERIOD_S (sync_request_work a)) a);;
      mret None) a2).
Proof.
  intros O A Sv Sy Da <- Bt Ba Q K C Cf. rewrite (st_bind_OK _ _ _ _ _ (do_run _ _)).
  pose proof (adv_start_services ad [] (a_bt a2)) as S1. pose proof (adv_start_advertised ad [] (a_bt a2)) as S2.
  pose proof (adv_start_failed ad [] (a_bt a2)) as S3. pose proof (λ W, wk_start a W ad [] (a_bt a2)) as S4.
  cbn [part_get app_bt]. destruct (bt_le_adv_start ad [] (a_bt a2)) as [[e|] b]; cbn [fst snd] in *.
  - apply gives_up; [done| |done|].
    + simpl. by rewrite (S3 e eq_refl).
    + intros W. by specialize (S4 W).
  - rewrite bool_decide_eq_false_2 by auto. specialize (S2 eq_refl).
    destruct (led_configured (set_bt b a2)) as [g E]. rewrite (st_bind_OK _ _ _ _ _ E).
    eexists None, _. split; [reflexivity|]. split_and!; [exact O| |done].
    split; [exact (eq_trans S1 Sv)|exact S2|exact Da| |exact Bt|exact Ba|exact Q|exact K|by exists d].
    simpl. by rewrite schedule_delay, Sy.
Qed.

Lemma main_run a : booted a → not_empty a → main_result a (main objects a).
Proof.
  intros Bo [Nc Nk]. pose proof Bo as [_ Ad Sy _]. unfold main.
  set (t := GOLIOTH_BLE_GATT_ATTR_ARRAY objects). unfold golioth_ble_gatt_peripheral_init. fold t.
  pose proof (register_services t (a_bt a)) as Rs. pose proof (register_advertised t (a_bt a)) as Ra.
  pose proof (λ W, wk_register a W t (a_bt a)) as Rw.
  rewrite (st_bind_OK _ _ _ _ _ (do_run _ _)). cbn [part_get app_bt] in *.
  destruct (bt_gatt_service_register t (a_bt a)) as [[e|] b1]; cbn [fst snd part_set] in *.
  { apply gives_up; [done|simpl; congruence|done|intros W; by specialize (Rw W)]. }
  rewrite bool_decide_eq_false_2 by auto. rewrite (st_bind_OK _ _ _ _ _ (do_run _ _)).
  cbn [part_get part_set app_bt a_bt set_bt].
  pose proof (enable_services b1) as Es. pose proof (enable_advertised b1) as Ea.
  pose proof (λ W, wk_enable a W b1) as Ew.
  destruct (bt_enable b1) as [[e|] b2]; cbn [fst snd] in *.
  { apply gives_up; [done|simpl; congruence|done|intros W; by specialize (Ew W)]. }
  rewrite bool_decide_eq_false_2 by auto. set (a1 := set_bt b2 (set_bt b1 a)).
  destruct (load_certificate_run (PouchCert None 0) (cred_of a1)) as [[Em _]|[_ L]].
  { by destruct (not_empty_file CERT_FILE (cred_of a) ltac:(by apply file_not_dir) Nc). }
  destruct L as (err & cert & c1 & E1 & P1 & L1 & W1). rewrite (st_bind_OK _ _ _ _ _ (zoom_OK _ a1 _ _ E1)).
  destruct err as [e|].
  { rewrite bool_decide_eq_true_2 by done. destruct L1 as [_ L1].
    apply gives_up; [apply L1|simpl; congruence|done|]. intros [? ? ? H M (d & ? & C & _) _].
    by specialize (W1 H M (mk_is_Some _ _ C)). }
  destruct L1 as (d & -> & Cd & R1). rewrite bool_decide_eq_false_2 by auto.
  set (a2 := part_set c1 a1).
  destruct (load_private_key_run c1) as [[Em _]|[_ L]].
  { exfalso. revert Em. apply not_empty_file; [by apply file_not_dir|].
    by rewrite (rl_stat _ _ _ R1) by (by apply file_not_dir). }
  destruct L as (k & c2 & E2 & [z R2]%key_released & W2).
  assert (load_private_key (part_get a2) = OK (k, c2)) as E2' by (unfold a2; by rewrite part_get_set).
  rewrite (st_bind_OK _ _ _ _ _ (zoom_OK load_private_key a2 k c2 E2')).
  set (a3 := part_set c2 a2).
  assert (fs_opened (a_fs a3) = fs_opened (a_fs a)) as O3 by (etrans; [apply R2|apply R1]).
  destruct (Z.eqb_spec k PSA_KEY_ID_NULL) as [K|K].
  { apply gives_up; [done|simpl; congruence|done|]. intros [? ? ? H M _ (dk & Ck & Ik)]. apply Ik.
    rewrite <- K, P1 || rewrite <- K.
    rewrite (W2 dk H); [by rewrite P1| |by apply R1]. intros n. rewrite (rl_malloc _ _ _ R1). apply M. }
  destruct (init_after_creds a d k c2 Bo) as (err & s & E3 & Bt & Ba & Q & Ok & W3); [|done|].
  { etrans; [apply R2|apply R1]. }
  rewrite (st_bind_OK _ _ a3 err (set_sys s a3)) by exact (zoom_OK _ a3 _ _ E3). destruct err as [e|].
  { apply gives_up; [done|simpl; congruence|done|].
    intros [? ? ? H M (d' & w & C & Ld & Hh) _]. rewrite (Cd d' C) in W3. by specialize (W3 w Ld Hh). }
  destruct (Ok eq_refl) as [Kk Cc]. rewrite bool_decide_eq_false_2 by auto.
  apply (main_online a (set_sys s a3) s d);
    [exact O3|simpl; congruence|exact (eq_trans Es Rs)|exact Sy|done|done|done|done| |congruence|done|done].
  intros M. apply Q. intros n. rewrite (rl_malloc _ _ _ R2), (rl_malloc _ _ _ R1). apply M.
Qed.

(** C11: [main] never faults when neither credential is an empty file. When it gives up it returns 0 and
    nothing is advertised or scheduled; otherwise the service is registered, the device advertises
    without the service's data, a sync is scheduled, and the library is between two sessions with the
    certificate of the file. It gives up only when something fails. *)
Theorem main_spec a : booted a → not_empty a → main_result a (main objects a).
Proof. apply main_run. Qed.

End Main.

(** * The SDK's services *)

Section Services.
Context {BO : ByteOrder} {SL : SList} {KW : KWork} {MQ : MsgQ} {CF : Config} {C : Type}.
Context {OC : OtaConfig} {ZE : ZcborEncode} {ZC : Zcbor} {ZR : ZcborReads ZC} {ZB : ZcborBuilds ZE ZR}.
Context {A : Type} (registered : list (golioth_ota_registered_component A)).

(** The OTA service reports its components in order and the settings service its version. *)
Lemma sdk_services_write ds v :
  length ds = length registered → -9223372036854775808 ≤ v < 9223372036854775808 →
  ∃ es es',
    Forall2 (λ (s : option (st (sys C) unit)) es, match s with Some uplink_cb => writes uplink_cb es | None => es = [] end)
      [Some (ota_uplink registered ds); Some (settings_uplink v)] [es; es']
    ∧ Forall (λ e, entry_wf e ∧ data_len e ≠ 0) (concat [es; es'])
    ∧ (∀ i e, es !! i = Some e → reported registered ds i e)
    ∧ (length es = length registered ∨ not_encoded registered ds (length es))
    ∧ (encode_version v = None ∧ es' = [] ∨ ∃ e, es' = [e] ∧ version_entry v e).
Proof.
  intros L V. destruct (ota_uplink_writes (C := C) registered ds L) as (es & W & F & R & N). exists es.
  destruct (settings_uplink_writes (C := C) v V) as [[E Ws]|(e & Ve & Wf & D & Ws)].
  - exists []. split_and!; [|by simpl; rewrite app_nil_r|done|done|by left].
    by repeat constructor.
  - exists [e]. split_and!; [|by simpl; apply Forall_app; split; [|constructor]|done|done|].
    + by repeat constructor.
    + right. by exists e.
Qed.

End Services.

(** * Asking for a sync *)

Section Sync.
Context {BO : ByteOrder} {SL : SList} {KW : KWork} {MQ : MsgQ} {CF : Config} {HC : HeaderCodec}.
Context {HL : HeaderCodecLaws HC} {SC : SaeadConfig} {CC : CertConfig} {PS : Psa} {PL : PsaLaws PS}.
Context {B6 : Base64} {X : X509} {FS : FileSystem} {PK : Pk PS} {CD : CredentialsConfig}.
Context {LK : Linker} {BT : Bluetooth (bt_gatt_attr (C := saead))}.
Context {KD : KWorkDelayable} {GP : Gpio} {AC : AppConfig}.
Context (objects : list (string * bt_gatt_attr (C := saead))).
Context (services : list (option (st (sys saead) unit))).
Implicit Types (a : app).

(** ** The requests *)

(** What happens after [main]: connections, works that are due, events, and whatever the library, the
    LED and the Bluetooth stack do; the stack may stop advertising. *)
Inductive app_step : app → app → Prop :=
| step_connected err a a' : connected err a = OK (tt, a') → app_step a a'
| step_disconnected reason a a' : disconnected reason a = OK (tt, a') → app_step a a'
| step_disconnect_work a a' :
    is_Some (k_work_delay (disconnect_work a)) →
    disconnect_work_handler (set_disconnect_work (k_work_expire (disconnect_work a)) a) = OK (tt, a') →
    app_step a a'
| step_sync_work a a' :
    is_Some (k_work_delay (sync_request_work a)) →
    sync_request_work_handler (set_sync_request_work (k_work_expire (sync_request_work a)) a) = OK (tt, a') →
    app_step a a'
| step_event event a a' : pouch_event_handler services event a = OK (tt, a') → app_step a a'
| step_library s a : app_step a (set_sys s a)
| step_led v a : app_step a (set_led (led_setting_cb v (led a)).2 a)
| step_stack b a :
    bt_advertised b = bt_advertised (a_bt a) ∨ bt_advertised b = None → app_step a (set_bt b a).

(** The flags ask for a sync, or the work that makes them do so is scheduled. *)
Definition sync_due a : Prop :=
  adv_flags (service_data a) = GOLIOTH_BLE_GATT_ADV_FLAG_SYNC_REQUEST ∧ k_work_delay (sync_request_work a) = None
  ∨ adv_flags (service_data a) = 0 ∧ k_work_delay (sync_request_work a) = Some CONFIG_EXAMPLE_SYNC_PERIOD_S.

(** A gateway that sees the device sees what it asks for. *)
Definition advertised_current a : Prop :=
  bt_advertised (a_bt a) = None
  ∨ bt_advertised (a_bt a) = Some (ad, sd (service_data a))
  ∨ bt_advertised (a_bt a) = Some (ad, []) ∧ adv_flags (service_data a) = 0.

Lemma update_data_run a :
  update_data a = OK (tt, set_bt (bt_le_adv_update_data ad (sd (service_data a)) (a_bt a)).2 a).
Proof. unfold update_data. by rewrite (st_bind_OK _ _ a _ a eq_refl), (st_bind_OK _ _ _ _ _ (do_run _ _)). Qed.

(** At the start of a session only the library is changed. *)
Lemma start_handler_frame a a' :
  pouch_event_handler services POUCH_EVENT_SESSION_START a = OK (tt, a') → ∃ s, a' = set_sys s a.
Proof.
  unfold pouch_event_handler. rewrite (decide_True (P := POUCH_EVENT_SESSION_START = _)) by done.
  rewrite (decide_False (P := POUCH_EVENT_SESSION_END = _)) by done. intros E.
  apply st_bind_OK_inv in E as ([] & a1 & E & [= <-]).
  apply st_bind_OK_inv in E as (r & a2 & E1 & E). apply st_bind_OK_inv in E as (r2 & a3 & E2 & [= <-]).
  unfold zoom in E1, E2. destruct (pouch_uplink_entry_write _ _ _ _ _ _) as [[? s1]|]; [|done].
  injection E1 as _ <-. destruct (golioth_sync_to_cloud _ _) as [[? s2]|]; [|done].
  injection E2 as _ <-. by exists s2.
Qed.

Lemma end_handler_run a :
  pouch_event_handler services POUCH_EVENT_SESSION_END a =
    OK (tt, let a1 := set_flags 0 a in
            let a2 := set_bt (bt_le_adv_update_data ad (sd (service_data a1)) (a_bt a1)).2 a1 in
            set_sync_request_work (k_work_schedule CONFIG_EXAMPLE_SYNC_PERIOD_S (sync_request_work a2)) a2).
Proof.
  unfold pouch_event_handler. rewrite (decide_False (P := POUCH_EVENT_SESSION_START = _)) by done.
  rewrite (decide_True (P := POUCH_EVENT_SESSION_END = _)) by done.
  rewrite (st_bind_OK _ _ a tt a), (st_bind_OK _ _ a tt (set_flags 0 a)) by done.
  by rewrite (st_bind_OK _ _ _ _ _ (update_data_run _)).
Qed.

(** Updating the data makes it current, when the stack can. *)
Lemma update_current x y (b : bt_state) :
  (bt_advertised b ≠ None → (bt_le_adv_update_data x y b).1 = SUCCESS) →
  bt_advertised (bt_le_adv_update_data x y b).2 = None
  ∨ bt_advertised (bt_le_adv_update_data x y b).2 = Some (x, y).
Proof.
  intros H. destruct (bt_le_adv_update_data x y b).1 as [e|] eqn:E; [|right; by apply adv_update_advertised].
  left. rewrite (adv_update_failed _ _ _ _ E). destruct (bt_advertised b); [by specialize (H ltac:(done))|done].
Qed.

Lemma steps_due a a' :
  rtc app_step a a' → sync_due a →
  sync_due a' ∧
  ((∀ x y (b : bt_state), bt_advertised b ≠ None → (bt_le_adv_update_data x y b).1 = SUCCESS) →
   advertised_current a → advertised_current a').
Proof.
  induction 1 as [a|a a1 a2 S R IH]; intros D; [by split|].
  enough (sync_due a1 ∧
    ((∀ x y (b : bt_state), bt_advertised b ≠ None → (bt_le_adv_update_data x y b).1 = SUCCESS) →
     advertised_current a → advertised_current a1)) as [D1 A1].
  { destruct (IH D1) as [D2 A2]. split; [done|]. auto. }
  clear IH R a2. destruct S as [err a a1 E|reason a a1 E|a a1 W E|a a1 W E|event a a1 E|s a|v a|b a B].
  - injection E as <-. by split.
  - injection E as <-. by split.
  - unfold disconnect_work_handler in E.
    rewrite (st_bind_OK _ _ _ _ _ eq_refl), (st_bind_OK _ _ _ _ _ (do_run _ _)) in E. injection E as <-.
    split; [done|]. intros _. unfold advertised_current. cbn.
    destruct (bt_le_adv_start ad (sd (service_data a)) (a_bt a)).1 as [e|] eqn:Es.
    + by rewrite (adv_start_failed _ _ _ _ Es).
    + rewrite (adv_start_advertised _ _ _ Es). auto.
  - unfold sync_request_work_handler in E. rewrite (st_bind_OK _ _ _ tt _ eq_refl), update_data_run in E.
    injection E as <-. split; [left; split; [done|apply expire_delay]|]. intros U _. unfold advertised_current. cbn.
    destruct (update_current ad (sd (service_data (set_flags 1 a))) (a_bt a) (U _ _ _)); auto.
  - destruct event.
    + apply start_handler_frame in E as [s ->]. by split.
    + rewrite end_handler_run in E. injection E as <-. split.
      * right. split; [done|]. cbn. rewrite schedule_delay. by destruct D as [[_ ->]|[_ ->]].
      * intros U _. unfold advertised_current. cbn.
        destruct (update_current ad (sd (service_data (set_flags 0 a))) (a_bt a) (U _ _ _)); auto.
  - by split.
  - by split.
  - split; [done|]. intros _. unfold advertised_current. cbn. destruct B as [-> | ->]; auto.
Qed.

(** C10: from [main] on, as long as the program runs, a sync is asked for or will be once the period has
    passed: no order of sessions, connections and works loses the request. And what the device
    advertises, if it does, is what it asks for, provided the stack takes new data while it
    advertises. *)
Theorem sync_requested a0 a a' :
  CONFIG_AUTH_TAG_LEN = AUTH_TAG_LEN → booted a0 → not_empty a0 → main objects a0 = OK (None, a) →
  rtc app_step a a' →
  sync_due a' ∧
  ((∀ x y (b : bt_state), bt_advertised b ≠ None → (bt_le_adv_update_data x y b).1 = SUCCESS) →
   advertised_current a').
Proof.
  intros T Bo Ne Em R. destruct (main_run T objects a0 Bo Ne) as (r & a1 & E & _ & Rn & _).
  rewrite Em in E. injection E as <- <-. destruct (steps_due a a' R) as [D A].
  - right. rewrite (rn_data _ _ _ _ Rn), (bo_data _ Bo). split; [done|apply Rn].
  - split; [done|]. intros U. apply (A U). right; right. rewrite (rn_data _ _ _ _ Rn), (bo_data _ Bo).
    split; [apply Rn|done].
Qed.

(** ** A session *)

Context (TAG : CONFIG_AUTH_TAG_LEN = AUTH_TAG_LEN).
#[local] Instance sync_laws : CryptoLaws saead := saead_laws TAG.

(** What the services write, each in its turn. *)
Context (ess : list (list pouch_entry)).
Context (Hservices : Forall2 (λ (s : option (st (sys saead) unit)) es,
  match s with Some uplink_cb => writes uplink_cb es | None => es = [] end) services ess).
Context (Hess : Forall (λ e, entry_wf e ∧ data_len e ≠ 0) (concat ess)).

(** What the device reports: the reading and then what the services write. *)
Definition reports : list pouch_entry := sensor_entry :: concat ess.

Lemma reports_wf : Forall (λ e, entry_wf e ∧ data_len e ≠ 0) reports.
Proof.
  constructor; [|done]. split; [|done]. split; [|done|done].
  unfold no_nul. by apply (bool_decide_unpack _).
Qed.

(** The handler at the start of a session. *)
Lemma start_handler_run hb c0 M o0 h0 ys a log out :
  Sender.sending hb c0 M o0 h0 (ys, a_sys a) log out → Sender.open (a_sys a) →
  ∃ es s', pouch_event_handler services POUCH_EVENT_SESSION_START a = OK (tt, set_sys s' a)
    ∧ Sender.sending hb c0 M o0 h0 (ys, s') (log ++ es) out ∧ sealed s' ∧ es `sublist_of` reports
    ∧ ((∀ n, M n = true) → es = filter (λ e, entry_size e ≤ MAX_BLOCK_PAYLOAD_SIZE) reports)
    ∧ s_events s' = s_events (a_sys a) ∧ session_is_active s' = true.
Proof.
  intros Sg Op.
  set (w := pouch_uplink_entry_write (Some (path sensor_entry)) (Some (data sensor_entry))
              (content_type sensor_entry) (data_len sensor_entry) None : st (sys saead) status).
  assert (writes (w;; mret tt) [sensor_entry]) as Ww.
  { intros s. cbn [write_all]. unfold w, mbind, st_bind.
    by destruct (pouch_uplink_entry_write _ _ _ _ _ s) as [[]|]. }
  pose proof (writes_app _ _ _ _ Ww (services_write _ _ Hservices)) as Wr.
  destruct (batch_run hb c0 M o0 h0 _ _ ys (a_sys a) log out Sg Op Wr reports_wf)
    as (es & s' & E & Sg' & Se & Sub & Ok & Ev & Ac).
  exists es, s'. split_and!; [|done..].
  unfold pouch_event_handler. rewrite (decide_True (P := POUCH_EVENT_SESSION_START = _)) by done.
  rewrite (decide_False (P := POUCH_EVENT_SESSION_END = _)) by done.
  unfold golioth_sync_to_cloud. fold w. unfold zoom, mbind, st_bind, mret, st_ret in *. cbn [part_get app_sys].
  destruct (w (a_sys a)) as [[r s1]|]; [|done]. cbn [set_sys a_sys part_set].
  change (a_sys (part_set s1 a)) with s1.
  destruct (run_uplink_services services s1) as [[[] s2]|]; [|done].
  destruct (pouch_uplink_close None s2) as [[r2 s3]|]; [|done]. by injection E as -> ->.
Qed.

(** The session does not depend on the events. *)
Lemma sending_events hb c0 M o0 h0 ys s log out e :
  Sender.sending hb c0 M o0 h0 (ys, s) log out → Sender.sending hb c0 M o0 h0 (ys, set_events e s) log out.
Proof.
  intros (gone & ps & es & c & Sg). exists gone, ps, es, c. cbn [fst snd] in *.
  apply (sending_ext _ _ _ _ _ gone ps es c ys s); try done.
  destruct (Sender.sg_inv _ _ _ _ _ _ _ _ _ _ _ _ _ Sg) as [? ? [? ?] ?]. split; [done|done|by split|done].
Qed.

(** The state of the session while the events are dispatched: it is open until the session's start was
    dispatched, and then it is closed with the reports written. *)
Definition dispatching hb c0 (M : nat → bool) o0 h0 log out (seen : list pouch_event) a : Prop :=
  if decide (POUCH_EVENT_SESSION_START ∈ seen) then
    ∃ es, Sender.sending hb c0 M o0 h0 ([], a_sys a) (log ++ es) out ∧ sealed (a_sys a)
      ∧ session_is_active (a_sys a) = true ∧ es `sublist_of` reports
      ∧ ((∀ n, M n = true) → es = filter (λ e, entry_size e ≤ MAX_BLOCK_PAYLOAD_SIZE) reports)
  else Sender.sending hb c0 M o0 h0 ([], a_sys a) log out ∧ Sender.open (a_sys a).

Lemma start_not_seen ends seen ev :
  Forall (λ ev, ev = POUCH_EVENT_SESSION_END) ends →
  (seen ++ [ev]) `prefix_of` (ends ++ [POUCH_EVENT_SESSION_START]) → POUCH_EVENT_SESSION_START ∉ seen.
Proof.
  intros F [k E]. assert (length seen ≤ length ends)%nat as L.
  { apply (f_equal length) in E. rewrite !length_app in E. simpl in E. lia. }
  assert (seen = take (length seen) ends) as ->.
  { apply (f_equal (take (length seen))) in E. rewrite <- app_assoc, take_app_length, take_app_le in E by done.
    done. }
  intros H. pose proof (proj1 (Forall_forall _ _) (Forall_take _ (length seen) _ F) _ H). done.
Qed.

Lemma dispatching_handles hb c0 M o0 h0 log out ends :
  Forall (λ ev, ev = POUCH_EVENT_SESSION_END) ends →
  handles (ends ++ [POUCH_EVENT_SESSION_START]) (dispatching hb c0 M o0 h0 log out)
    [pouch_event_handler services].
Proof.
  intros F. split.
  - intros seen e a. unfold dispatching. cbn [part_set app_events a_sys set_sys]. case_decide.
    + intros (es & Sg & Se & H'). exists es. split; [by apply sending_events|]. split; [|done].
      by destruct Se.
    + intros [Sg Op]. split; [by apply sending_events|done].
  - intros seen event a P D. pose proof (start_not_seen _ _ _ F P) as N.
    unfold dispatching in D. rewrite decide_False in D by done. destruct D as [Sg Op]. cbn [run_handlers].
    destruct event.
    + destruct (start_handler_run _ _ _ _ _ _ a _ _ Sg Op) as (es & s' & E & Sg' & Se & Sub & Ok & Ev & Ac).
      rewrite (st_bind_OK _ _ _ _ _ E). eexists. split; [reflexivity|]. split; [|exact Ev].
      unfold dispatching. rewrite decide_True; [by exists es|]. apply elem_of_app; right; by apply list_elem_of_singleton.
    + rewrite (st_bind_OK _ _ _ _ _ (end_handler_run a)). eexists. split; [reflexivity|]. split; [|done].
      unfold dispatching. rewrite decide_False; [done|].
      by intros [?|?%list_elem_of_singleton]%elem_of_app.
Qed.

(** The decoded packets: all but the first are marked as a continuation, the last one as the last. *)
Definition decode_all (pkts : list (list byte)) : list (errno + (list byte * bool * bool)) :=
  map (λ pkt, golioth_ble_gatt_packetizer_decode (Some pkt) true) pkts.

(** C7: a sync over the air: a gateway reads the uplink characteristic of a device between two sessions,
    in reads with room for at least two bytes and in any order with the processing work. The first read starts the session;
    nothing faults and the packetizer is not released before the application was told of the start.
    When that event is dispatched, the application writes its reading and the services their reports and
    closes the pouch. However the gateway goes on, and at the latest when the work has run once more and
    it has read for long enough, the last packet comes: the session ends, no buffer is lost, and the
    packets decode to pieces of a pouch that the server reads as what was written before the session,
    the reading and the reports, in order; all of it while memory lasts and the session's key seals,
    and otherwise with blocks missing (see [server_reads]). Of the reading and the reports those are
    written that memory allows and a block can hold. *)
Theorem sync_over_gatt s s0 log held n0 ops0 :
  between s log → balanced s held → pouch_uplink_start s = OK (true, s0) →
  malloc_ok (s_heap s0) (malloc_n (s_heap s0)) = true → 2 ≤ n0 → Forall air_ok ops0 →
  ∃ pkts0 ctx s1, run_air (ARead n0 :: ops0) (None, s) = OK (pkts0, (ctx, s1)) ∧ is_Some ctx ∧
    ∀ a ends fuel, a_sys a = s1 → events_of a = ends ++ [POUCH_EVENT_SESSION_START] →
      Forall (λ ev, ev = POUCH_EVENT_SESSION_END) ends → (length (events_of a) ≤ fuel)%nat →
    ∃ a' es, dispatch_events fuel [pouch_event_handler services] a = OK (tt, a')
      ∧ es `sublist_of` reports
      ∧ (malloc_never_fails (s_heap s) → es = filter (λ e, entry_size e ≤ MAX_BLOCK_PAYLOAD_SIZE) reports)
      ∧ ∀ ops room, Forall air_ok ops → (∀ i, 2 ≤ room i) →
        ∃ fuel pkts ps s3,
          (pkts ← run_air ops; pkts' ← read_rest fuel room; mret (pkts ++ pkts')) (ctx, a_sys a')
            = OK (pkts, (None, s3))
          ∧ decode_all (pkts0 ++ pkts) = decoded true ps
          ∧ session_is_active s3 = false ∧ outgoing s3 = [] ∧ balanced s3 held
          ∧ ∀ peer p, in_step (sa_uplink (s_crypto s0)) (sa_psa (s_crypto s0)) peer p →
              server_reads (s_crypto s0) (malloc_ok (s_heap s)) peer p (log ++ es) [] (concat ps).
Proof.
  intros B Ba St Ml N F0.
  destruct (air_start s s0 log held n0 ops0 B Ba St Ml N F0) as (hb & pkts0 & ctx & s1 & ps0 & Hh & E0 & On & Ep & Op).
  pose proof On as [Sg Ac Ec]. set (o0 := open_streams (s_stream s)) in *. set (M := malloc_ok (s_heap s)) in *.
  exists pkts0, ctx, s1. split; [exact E0|]. split; [by rewrite Ec|]. intros a ends fuel <- Ev F Lf.
  destruct (dispatch_events_spec (dispatching hb (s_crypto s0) M o0 held log (concat ps0))
    [pouch_event_handler services] fuel a) as (a' & E & D & _).
  { rewrite Ev. by apply dispatching_handles. }
  { unfold dispatching. by rewrite decide_False by set_solver. }
  { done. }
  unfold dispatching in D. rewrite Ev, decide_True in D by set_solver.
  destruct D as (es & Sg2 & Se2 & Ac2 & Sub & Ok). exists a', es. split_and!; [done..|]. intros ops room Fo R.
  assert (on_air hb (s_crypto s0) M o0 held [] (log ++ es) (concat ps0) (still_first true ps0) None (a_sys a') ctx)
    as On2 by done.
  destruct (air_to_end hb (s_crypto s0) M o0 held [] ops room _ _ _ _ _ _ On2 Se2 Fo R)
    as (fuel2 & pkts & s3 & ps & E2 & A2).
  destruct A2 as [([_ _ ?] & _)|(_ & _ & Nps & -> & P & [Id Og Bl])]; [done|].
  exists fuel2, (packets (still_first true ps0) ps), (ps0 ++ ps), s3. split_and!; [exact E2| |done|done|..].
  - rewrite Ep. unfold decode_all. rewrite <- packets_app by done. apply decode_packets.
  - by rewrite Z.add_0_r in Bl.
  - intros peer p I. rewrite concat_app. by apply (pouch_of_reads TAG hb).
Qed.

End Sync.

(** * A concrete system *)

Module NativeApp.

(** A delayable work is its delay, a pin its level. *)
#[export, refine] Instance delayable : KWorkDelayable := {|
  k_work_delayable := option Z; k_work_delay w := w;
  k_work_schedule d w := match w with Some d' => Some d' | None => Some d end;
  k_work_expire _ := None |}.
Proof. all: done. Defined.

#[export, refine] Instance gpio : Gpio := {|
  gpio_state := option Z; gpio_pin g := g;
  gpio_pin_configure_dt _ _ := (SUCCESS, Some 1); gpio_pin_set_dt v _ := (SUCCESS, Some v) |}.
Proof. all: done. Defined.

End NativeApp.

Module ApplicationWitness.
Import NativeZcbor NativeEncode.
#[local] Existing Instances Native.byte_order Native.config_saead Native.list_slist Native.flag_work
  Native.list_msgq NativePsa.psa NativePsa.psa_laws NativePsa.base64 NativeX509.x509 CertWitness.cc
  SaeadWitness.sc NativeSaeadCodec.codec NativeSaeadCodec.codec_laws NativeFs.fs NativeFs.pk
  CredentialsWitness.config GattWitness.gc OtaUpperWitness.ota_config NativeBluetooth.linker NativeApp.delayable NativeApp.gpio.
#[local] Instance ex_config : AppConfig :=
  {| CONFIG_BT_DEVICE_NAME := ["d"]%byte; CONFIG_EXAMPLE_SYNC_PERIOD_S := 20; DT_HAS_ALIAS_led0 := true |}.
#[local] Instance ex_bluetooth : Bluetooth (bt_gatt_attr (C := saead)) := NativeBluetooth.bluetooth _.

(** A device with a certificate and a key in its file system, as [main] is called. *)
Definition ex_booted : sys saead :=
  set_events (EventStatics (k_msgq_init 4) k_work_init) (boot Native.heap0 4 (saead_boot [] [])).
Definition ex_app (s : sys saead) : app :=
  App s (cr_fs CredentialsWitness.ex_cred) 0 ([], None) (AdvData service_version 0) None None None.

Lemma ex_app_booted : booted (ex_app ex_booted).
Proof. split; [|done..]. exists Native.heap0, 4%nat, [], []. by split. Qed.

Lemma ex_app_not_empty : not_empty (ex_app ex_booted).
Proof. by split. Qed.

Lemma ex_app_works : works (ex_app ex_booted).
Proof.
  split; [done..|exact NativeFs.fs_healthy|done| |].
  - exists [x30; x31]. eexists. split_and!; [reflexivity|done|vm_compute; reflexivity].
  - exists [x6b]. split; [reflexivity|by vm_compute].
Qed.

Lemma main_spec_witness :
  ∃ a', main [] (ex_app ex_booted) = OK (None, a') ∧ running eq_refl [] (ex_app ex_booted) a'.
Proof.
  destruct (main_spec (CF := Native.config_saead) eq_refl [] (ex_app ex_booted) ex_app_booted ex_app_not_empty)
    as (r & a' & E & _ & R & W).
  rewrite (W ex_app_works) in E, R. exists a'. exact (conj E R).
Defined.

(** A sync is asked for when the work is due. *)
Lemma sync_requested_witness :
  ∃ a a', main [] (ex_app ex_booted) = OK (None, a) ∧ app_step [] a a' ∧ sync_due a' ∧ advertised_current a'.
Proof.
  destruct (main_run (CF := Native.config_saead) eq_refl [] (ex_app ex_booted) ex_app_booted ex_app_not_empty)
    as (r & a & E & _ & R & W).
  rewrite (W ex_app_works) in E, R.
  assert (∃ a', app_step (CF := Native.config_saead) [] a a') as [a' S].
  { eexists. apply step_sync_work; [by rewrite (rn_sync _ _ _ _ R)|].
    unfold sync_request_work_handler. rewrite (st_bind_OK _ _ _ tt _ eq_refl). apply update_data_run. }
  exists a, a'. split; [exact E|]. split; [exact S|].
  destruct (sync_requested (CF := Native.config_saead) [] [] (ex_app ex_booted) a a' eq_refl ex_app_booted
    ex_app_not_empty E (rtc_once _ _ S)) as [D A].
  split; [exact D|]. exact (A (λ _ _ _ _, eq_refl)).
Defined.

(** The SDK's services. *)
Definition ex_services : list (option (st (sys saead) unit)) :=
  [Some (ota_uplink [OtaUpperWitness.main] (u_data OtaUpperWitness.ex_upper)); Some (settings_uplink 9)].

(** The central has room for 20 bytes. *)
Definition ex_air : list air_op := [ARead 20; AProcess].
Definition ex_room : nat → Z := λ _, 20.

Lemma ex_air_events pkts ctx s1 :
  run_air ex_air (None, EncryptedWitness.ex_sys) = OK (pkts, (ctx, s1)) →
  events_of (ex_app s1) = [POUCH_EVENT_SESSION_START].
Proof.
  intros E. transitivity (match run_air ex_air (None, EncryptedWitness.ex_sys) with
    OK (_, (_, s)) => events_of (ex_app s) | Fault => [] end).
  - by rewrite E.
  - vm_compute. reflexivity.
Qed.

Lemma sync_over_gatt_witness :
  ∃ ess pkts0 ctx a' es fuel pkts ps s3,
    dispatch_events 1 [pouch_event_handler ex_services] a'.1 = OK (tt, a'.2)
    ∧ es = filter (λ e, entry_size e ≤ MAX_BLOCK_PAYLOAD_SIZE) (reports ess)
    ∧ (pkts ← run_air [ARead 3]; pkts' ← read_rest fuel ex_room; mret (pkts ++ pkts')) (ctx, a_sys a'.2)
        = OK (pkts, (None, s3))
    ∧ decode_all (pkts0 ++ pkts) = decoded true ps ∧ session_is_active s3 = false ∧ balanced s3 0
    ∧ server_reads (s_crypto EncryptedWitness.ex_started) (malloc_ok (s_heap EncryptedWitness.ex_sys))
        (sa_uplink (s_crypto EncryptedWitness.ex_started)) (sa_psa (s_crypto EncryptedWitness.ex_started))
        ([] ++ es) [] (concat ps).
Proof.
  destruct (sdk_services_write (C := saead) (ZB := encode_builds) [OtaUpperWitness.main] (u_data OtaUpperWitness.ex_upper) 9
    eq_refl ltac:(lia)) as (es1 & es2 & W & F & _).
  destruct (sync_over_gatt (CF := Native.config_saead) ex_services eq_refl [es1; es2] W F
    EncryptedWitness.ex_sys EncryptedWitness.ex_started [] 0 20 [AProcess]
    EncryptedWitness.ex_sys_between EncryptedWitness.ex_sys_balanced EncryptedWitness.ex_session_start
    eq_refl ltac:(lia) ltac:(by repeat constructor)) as (pkts0 & ctx & s1 & E0 & _ & H).
  pose proof (ex_air_events _ _ _ E0) as Ev.
  destruct (H (ex_app s1) [] 1%nat eq_refl Ev (Forall_nil_2 _) ltac:(rewrite Ev; apply le_n))
    as (a' & es & E & _ & Ok & K).
  destruct (K [ARead 3] ex_room ltac:(repeat constructor; simpl; lia) ltac:(intros; unfold ex_room; lia))
    as (fuel & pkts & ps & s3 & E2 & D & A & _ & Bl & Sr).
  exists [es1; es2], pkts0, ctx, (ex_app s1, a'), es, fuel, pkts, ps, s3.
  split; [exact E|]. split; [exact (Ok (λ _, eq_refl))|]. split; [exact E2|]. split; [exact D|].
  split; [exact A|]. split; [exact Bl|]. exact (Sr _ _ EncryptedWitness.ex_in_step).
Defined.

End ApplicationWitness.
