(* ===== verification/Device.v ===== *)
(** The example device on the way down: the SDK's services as the example configures them, from the
    packets a gateway writes to the LED and the flash.

    The settings service calls the LED's handler of main.c, the OTA services the component of
    fw_update.c; the linker puts the services into their section in the order of their names. *)
From stdpp Require Import relations strings.
From S2P Require Import Prelude Platform Buf Block Crypto State Entry Stream Header Uplink Sender Downlink Receiver.
From S2P Require Import Packetizer GattDownlink Dispatch Routing Zcbor ZcborEncode OtaUpper FwUpdate Ota Settings.
From S2P Require Import Psa Cert Session Saead Pouch Encrypted Application.

Section Device.
Context {BO : ByteOrder} {SL : SList} {KW : KWork} {MQ : MsgQ} {CF : Config} {HC : HeaderCodec}.
Context {HL : HeaderCodecLaws HC} {SC : SaeadConfig} {CC : CertConfig} {PS : Psa} {PL : PsaLaws PS}.
Context {B6 : Base64} {X : X509} {GP : Gpio} {AC : AppConfig} {FL : Flash}.
Context {OC : OtaConfig} {HX : Hex} {ZC : Zcbor} {ZR : ZcborReads ZC} {ZP : ZcborProgress ZC}.
Context (TAG : CONFIG_AUTH_TAG_LEN = AUTH_TAG_LEN).
Context (registered : list (golioth_ota_registered_component fw)) (junk : list byte).

#[local] Instance device_laws : CryptoLaws saead := saead_laws TAG.
#[local, refine] Instance fw_itself : Part fw fw := {| part_get f := f; part_set f _ := f |}.
Proof. done. Defined.

Abbreviation settings := (settings_state gpio_state).
Abbreviation ota := (ota_state fw).
Implicit Types (o : ota) (u : upper fw) (e : pouch_entry) (es : list pouch_entry) (cs : list (list byte)).

(** The section of downlink services: ota_component, ota_manifest, settings. *)
Definition device_services : list (golioth_downlink_service settings + golioth_downlink_service ota) :=
  [inr (ota_component registered); inr (ota_manifest registered [ota_manifest_receive registered] junk);
   inl (settings_service [handler_led_setting_cb])].
Definition downlink_services : list (golioth_downlink_service (settings * ota)) := map both device_services.

(** The number of the service an entry is for. *)
Definition service_of e : option nat := fst <$> route downlink_services (path e).

Lemma services_paths_ok : paths_ok downlink_services.
Proof. unfold paths_ok, downlink_services; cbn [map device_services]. repeat constructor; vm_compute; discriminate. Qed.

Lemma route_component n v : no_nul (n ++ "@"%byte :: v) →
  route downlink_services (component_path n v) = Some (0%nat, both (inr (ota_component registered))).
Proof.
  intros N. assert (no_nul (component_path n v)) as Np.
  { unfold component_path, no_nul in *. set (x := n ++ _) in *. cbn.
    rewrite !elem_of_cons. by intros [?|[?|[?|[?|[?|[?|?]]]]]]. }
  unfold route, downlink_services. cbn [map device_services list_find].
  rewrite decide_True; [done|]. unfold serves. change (service_pattern _) with (OK (6, true)). cbv iota beta.
  apply bool_decide_eq_true. by rewrite (cstr_id (component_path n v)).
Qed.

(** * The settings *)

(** What a document of the settings service says: the settings in order, and the version. *)
Definition settings_doc (d : list byte) (x : list (list byte * item) * Z) : Prop :=
  -9223372036854775808 ≤ x.2 < 9223372036854775808 ∧
  ∃ pre mid first second,
    ((first = settings_pair x.1 ∧ second = version_pair x.2) ∨ (first = version_pair x.2 ∧ second = settings_pair x.1))
    ∧ others pre ∧ others mid ∧ encodes d (CMap (pre ++ first :: mid ++ [second])).

Definition apply_doc (s : settings) (x : list (list byte * item) * Z) : settings :=
  SettingsState x.2 (deliver_settings [handler_led_setting_cb] x.1 (s_app s)).

Lemma entry_service e : entry_calls downlink_services e =
  match service_of e with
  | None => []
  | Some i => (i, CStart 0 match route downlink_services (path e) with
                           | Some (_, s) => remainder (path e) s | None => None end)
              :: [(i, CData 0 (Some (data e)) (data_len e) true)]
  end.
Proof. unfold entry_calls, service_of. by destruct (route _ _) as [[i s]|]. Qed.

Lemma service_lt e i : service_of e = Some i → (i < 3)%nat.
Proof.
  unfold service_of. destruct (route _ _) as [[j s]|] eqn:R; [|done]. intros [= <-].
  apply list_find_Some in R as (L & _). by apply lookup_lt_Some in L.
Qed.

Lemma calls_of_entries es (c : nat * call) :
  c ∈ concat (map (entry_calls downlink_services) es) → ∃ e, e ∈ es ∧ service_of e = Some c.1.
Proof.
  induction es as [|e es IH]; [by intros ?%elem_of_nil|]. cbn [map concat]. rewrite elem_of_app.
  intros [H|H]; [|destruct (IH H) as (e' & He & Se); exists e'; split; [by right|done]].
  exists e. split; [by left|]. rewrite entry_service in H. destruct (service_of e) as [i|]; [|by apply elem_of_nil in H].
  rewrite !elem_of_cons, elem_of_nil in H. by destruct H as [-> | [-> | []]].
Qed.

(** Every entry for the settings is a document, and the documents are applied in order. *)
Lemma settings_side es : Forall entry_representable es → ∀ docs s,
  Forall2 (λ e, settings_doc (data e)) (filter (λ e, service_of e = Some 2%nat) es) docs →
  run_calls (lefts device_services) (concat (map (entry_calls downlink_services) es)) (OK s)
    = OK (foldl apply_doc s docs).
Proof.
  induction 1 as [|e es Re _ IH]; intros docs s F.
  { by apply Forall2_nil_inv_l in F as ->. }
  cbn [map concat]. rewrite run_calls_app, entry_service. destruct (service_of e) as [i|] eqn:Se.
  2:{ rewrite filter_cons_False in F by congruence. by apply IH. }
  destruct (decide (i = 2%nat)) as [->|N].
  - rewrite filter_cons_True in F by done. apply Forall2_cons_inv_l in F as ([items v] & docs' & D & F & ->).
    destruct D as (Rv & pre & mid & first & second & FS & Op & Om & En). destruct Re as [[_ L _] _].
    cbn [fst snd] in *. transitivity (run_calls (lefts device_services) (concat (map (entry_calls downlink_services) es))
      (settings_downlink [handler_led_setting_cb] 0 (Some (data e)) (len (data e)) true s)); [by rewrite L|].
    rewrite (settings_run [handler_led_setting_cb] pre mid first second items v 0 (data e) true s);
      [exact (IH docs' _ F)|by apply Forall_singleton|done..].
  - rewrite filter_cons_False in F by congruence. rewrite <- (IH docs s F). f_equal.
    apply service_lt in Se. by destruct i as [|[|[|i]]]; [| |done|lia].
Qed.

(** * The component *)

Section Component.
Context (i : nat) (r : golioth_ota_registered_component fw) (n : list byte).
Context (Honly : only registered i r n) (Hcallback : receive r = ota_main_receive) (Hflash : flash_works).

Abbreviation image u := (flash_image (fw_flash (u_app u))).

(** The parts of the component's stream, from offset [off] on. *)
Lemma component_parts id cs : ∀ dl u,
  cs ≠ [] → DOWNLINK_ID_INVALID ≠ dl_id dl → cstr (dl_name dl) = cstr n → downloading i u →
  0 ≤ dl_offset dl → dl_offset dl + len (concat cs) < 4294967296 →
  (dl_offset dl ≠ 0 → len (image u) = dl_offset dl) →
  ∃ dl' u', run_calls (rights device_services) (data_calls 0 id cs) (OK (Ota dl u)) = OK (Ota dl' u')
    ∧ u_data u' = u_data u ∧ image u' = (if 0 =? dl_offset dl then [] else image u) ++ concat cs
    ∧ fw_rebooting (u_app u') = true ∧ flash_upgrade (fw_flash (u_app u')) = true.
Proof.
  induction cs as [|c cs IH]; intros dl u N Nd C D O B L; [done|].
  destruct (callback_run r Hcallback u c (dl_offset dl) (bool_decide (cs = [])) Hflash) as (u1 & E1 & Du & Im & Rb & Up).
  change (part_get ?x) with x in Im, Rb, Up. cbn [concat] in B |- *. rewrite length_app in B.
  assert (run_calls (rights device_services) (data_calls 0 id (c :: cs)) (OK (Ota dl u))
    = run_calls (rights device_services) (data_calls 0 id cs)
        (ota_receive_component_data registered id (Some c) (len c) (bool_decide (cs = [])) (Ota dl u))) as -> by done.
  rewrite (component_data_run registered id _ _ _ dl u i r n Nd Honly C D), E1, bind_OK, u32_small by lia.
  set (dl1 := Download _ _ _ _). assert (downloading i u1) as D1 by (unfold downloading; by rewrite Du).
  destruct cs as [|c2 cs].
  - rewrite bool_decide_eq_true_2 in Rb, Up by done. rewrite orb_true_r in Rb, Up.
    exists dl1, u1. split_and!; [done|done| |done|done]. by rewrite Im, app_nil_r.
  - destruct (IH dl1 u1 ltac:(done) Nd C D1) as (dl2 & u2 & E2 & Du2 & Im2 & Rb2 & Up2).
    + simpl. lia.
    + simpl dl_offset. lia.
    + intros _. simpl dl_offset. rewrite Im, length_app.
      destruct (Z.eqb_spec 0 (dl_offset dl)) as [<-|Nz]; [simpl; lia|]. rewrite Nat2Z.inj_add, L by done. lia.
    + exists dl2, u2. split_and!; [done|congruence| |done|done]. rewrite Im2, Im. simpl dl_offset.
      destruct (Z.eqb_spec 0 (dl_offset dl + len c)) as [Z0|Z0]; [|by rewrite <- app_assoc].
      assert (c = []) as -> by (destruct c; [done|simpl in Z0; lia]).
      destruct (Z.eqb_spec 0 (dl_offset dl)); [done|simpl in Z0; lia].
Qed.

(** The whole stream: its start, and its parts. *)
Lemma component_stream id v cs o :
  DOWNLINK_ID_INVALID ≠ id → "@"%byte ∉ n → no_nul n → no_nul v →
  len n ≤ CONFIG_GOLIOTH_OTA_MAX_PACKAGE_NAME_LEN → download_wf (o_download o) → downloading i (o_upper o) →
  cs ≠ [] → len (concat cs) < 4294967296 →
  ∃ o', run_calls (rights device_services)
          ((0%nat, CStart id (Some (n ++ "@"%byte :: v))) :: data_calls 0 id cs) (OK o) = OK o'
    ∧ u_data (o_upper o') = u_data (o_upper o) ∧ image (o_upper o') = concat cs
    ∧ fw_rebooting (u_app (o_upper o')) = true ∧ flash_upgrade (fw_flash (u_app (o_upper o'))) = true.
Proof.
  intros Ni At Nn Nv Ln W D Nc B. set (dl := started id n v (o_download o)).
  assert (∀ cs' : list (nat * call), run_calls (rights device_services) ((0%nat, CStart id (Some (n ++ "@"%byte :: v))) :: cs') (OK o)
    = run_calls (rights device_services) cs' (ota_receive_component_start id (Some (n ++ "@"%byte :: v)) o))
    as -> by done.
  rewrite component_start_run by done. fold dl.
  destruct (component_parts id cs dl (o_upper o) Nc Ni) as (dl' & u' & E & H); try done.
  - unfold dl. by rewrite cstr_started, cstr_id.
  - by exists (Ota dl' u').
Qed.
End Component.

(** * The gateway *)

(** The device [s] accepts the header and then has the state [c] of the encryption layer; the server
    [peer] with the same key seals blocks with the pieces [ps]; [ds] is the pouch cut into parts, none of which holds the ends of
    two blocks. *)
Definition gateway_sends (s : sys saead) c peer p ps (ds : list (list byte)) peer' : Prop :=
  ∃ max ver info pid hb bs cts,
    cbor_encode_pouch_header max (PouchHeader ver (saead_info info pid)) = Some hb
    ∧ len hb ≤ MAX_CIPHERTEXT_BLOCK_SIZE
    ∧ crypto_downlink_start (saead_info info pid) (s_crypto s) = (SUCCESS, c)
    ∧ in_step peer p (sa_downlink c) (sa_psa c)
    ∧ Forall2 block_holds bs ps ∧ seal_all POUCH_ROLE_SERVER peer p (map payload bs) = Some (cts, peer')
    ∧ one_end (len hb) ds (map sized16 cts) ∧ concat ds = hb ++ concat (map sized16 cts).

Lemma gateway_served s c peer p ps ds peer' (d d1 : dispatch_state (settings * ota)) :
  gateway_sends s c peer p ps ds peer' → quiet s → Forall entry_representable (entries_of ps) →
  foldl (deliver_piece [dispatch_handler downlink_services]) (OK d) ps = OK d1 →
  ∃ c1, gw_delivers [dispatch_handler downlink_services] (packets true ds) s (OK d) (OK d1) c1
    ∧ in_step peer' p (sa_downlink c1) (sa_psa c1).
Proof.
  intros (max & ver & info & pid & hb & bs & cts & En & Lh & St & I & F & S & Sm & E) Q R <-.
  exact (encrypted_over_gatt TAG [dispatch_handler downlink_services] max ver info pid hb s c peer p bs ps cts peer'
    ds (OK d) En Lh St I F R S Q Sm E).
Qed.

(** * A pouch with settings and a component *)

(** The LED's handler gets the last LED setting. *)
Lemma led_delivered pre (b : bool) post (g : gpio_state) :
  DT_HAS_ALIAS_led0 = true → (∀ v g, (gpio_pin_set_dt v g).1 = SUCCESS) →
  Forall (λ lx, strcmp_eq ["L"; "E"; "D"]%byte (ztake GOLIOTH_SETTINGS_MAX_NAME_LEN lx.1) = false) post →
  gpio_pin (deliver_settings [handler_led_setting_cb] (pre ++ (["L"; "E"; "D"]%byte, CBool b) :: post) g)
    = Some (if b then 1 else 0).
Proof.
  intros DT Ok F. unfold deliver_settings. rewrite foldl_app. cbn [foldl fst snd].
  set (g1 := foldl _ g pre).
  assert (gpio_pin (deliver_setting [handler_led_setting_cb] ["L"; "E"; "D"]%byte (CBool b) g1)
    = Some (if b then 1 else 0)) as E.
  { assert (deliver_setting [handler_led_setting_cb] ["L"; "E"; "D"]%byte (CBool b) g1
      = (gpio_pin_set_dt (if b then 1 else 0) g1).2) as ->.
    { unfold deliver_setting. cbn [item_value list_find]. rewrite decide_True by done. cbn.
      unfold led_setting_cb. by rewrite DT. }
    by apply pin_set. }
  revert E. generalize (deliver_setting [handler_led_setting_cb] ["L"; "E"; "D"]%byte (CBool b) g1).
  induction F as [|[label x] post N _ IH]; intros g2 E; [done|]. cbn [foldl fst snd]. apply IH.
  assert (deliver_setting [handler_led_setting_cb] label x g2 = g2) as ->; [|done].
  unfold deliver_setting. destruct (item_value x) as [[type val]|]; [|done]. cbn [list_find].
  rewrite decide_False; [done|]. cbn in N |- *. by rewrite N.
Qed.

(** What the two sides make of the calls for a pouch is what the dispatcher comes to. *)
Lemma sides_served ps (d : dispatch_state (settings * ota)) x o' :
  let cls := (routes downlink_services ∅ (downs ps)).2 in
  in_turn downlink_services ∅ (downs ps) → (routes downlink_services ∅ (downs ps)).1 = ∅ →
  serving downlink_services d ∅ →
  run_calls (lefts device_services) cls (OK (dp_app d).1) = OK x →
  run_calls (rights device_services) cls (OK (dp_app d).2) = OK o' →
  ∃ d1 : dispatch_state (settings * ota),
    foldl (deliver_piece [dispatch_handler downlink_services]) (OK d) ps = OK d1
    ∧ serving downlink_services d1 ∅ ∧ dp_app d1 = (x, o').
Proof.
  intros cls T R2 Sv El Er.
  pose proof (dispatch_run_all downlink_services (downs ps) d ∅ services_paths_ok Sv T) as Dp.
  fold cls in Dp. rewrite R2 in Dp. rewrite (surjective_pairing (dp_app d)) in Dp.
  unfold downlink_services in Dp at 3. rewrite run_sides, El, bind_OK, Er, bind_OK in Dp.
  rewrite deliver_all_downs. unfold dispatched in Dp.
  destruct (dispatch_all downlink_services (downs ps) (OK d)) as [d1|]; [|done]. destruct Dp as [E1 S1]. by exists d1.
Qed.

(** The settings' side of a pouch whose entries are not for the component. *)
Lemma settings_calls ps docs (s : settings) :
  let cls := (routes downlink_services ∅ (downs ps)).2 in
  filter (λ c, c.1 ≠ 0%nat) cls = concat (map (entry_calls downlink_services) (entries_of ps)) →
  Forall entry_representable (entries_of ps) →
  Forall2 (λ e, settings_doc (data e)) (filter (λ e, service_of e = Some 2%nat) (entries_of ps)) docs →
  run_calls (lefts device_services) cls (OK s) = OK (foldl apply_doc s docs).
Proof.
  intros cls Fo Re Fd. rewrite (run_calls_filter _ (λ c, c.1 ≠ 0%nat)).
  - rewrite Fo. by apply settings_side.
  - intros [j x] a _ Nx. simpl in Nx. apply dec_stable in Nx as ->. by destruct x.
Qed.

Lemma apart_of es : Forall (λ e, service_of e ≠ Some 0%nat) es → apart downlink_services 0%nat es.
Proof.
  intros F. eapply Forall_impl; [exact F|]. intros e N j s' Rt ->. apply N. unfold service_of. by rewrite Rt.
Qed.

Lemma no_nul_at n v : no_nul n → no_nul v → no_nul (n ++ "@"%byte :: v).
Proof. unfold no_nul. rewrite elem_of_app, elem_of_cons. intros ?? [?|[?|?]]; by auto. Qed.

Section Update.
Context (i : nat) (r : golioth_ota_registered_component fw) (n v : list byte) (k : nat) (id ct : Z).
Context (Honly : only registered i r n) (Hcallback : receive r = ota_main_receive) (Hflash : flash_works).
Context (Hname : ("@"%byte ∉ n) ∧ no_nul n ∧ no_nul v ∧ len n ≤ CONFIG_GOLIOTH_OTA_MAX_PACKAGE_NAME_LEN).
Context (Hid : 0 < id < 32).

(** A pouch with documents for the settings and, at its end, the component's stream; the device reboots
    at the end of the stream. *)
Record carries_update ps cs docs : Prop := {
  cu_stream : pieces_of k ps = chunks k id (Some (ct, component_path n v)) true cs;
  cu_alone j : j ≠ k → pieces_of j ps = [];
  cu_parts : cs ≠ [];
  cu_size : len (concat cs) < 4294967296;
  cu_end : ∃ qs q, ps = qs ++ [q] ∧ of_stream k q = true;
  cu_entries : Forall entry_representable (entries_of ps);
  cu_services : Forall (λ e, service_of e ≠ Some 0%nat ∧ service_of e ≠ Some 1%nat) (entries_of ps);
  cu_docs : Forall2 (λ e, settings_doc (data e)) (filter (λ e, service_of e = Some 2%nat) (entries_of ps)) docs;
}.

(** The image is in flash, and the device reboots into it. *)
Record installed (cs : list (list byte)) (f : fw) : Prop := {
  in_image : flash_image (fw_flash f) = concat cs;
  in_upgrade : flash_upgrade (fw_flash f) = true;
  in_rebooting : fw_rebooting f = true;
}.

Lemma update_routed ps cs docs (d : dispatch_state (settings * ota)) :
  carries_update ps cs docs →
  serving downlink_services d ∅ → download_wf (o_download (dp_app d).2) → downloading i (o_upper (dp_app d).2) →
  ∃ d1 : dispatch_state (settings * ota),
    foldl (deliver_piece [dispatch_handler downlink_services]) (OK d) ps = OK d1
    ∧ serving downlink_services d1 ∅
    ∧ (dp_app d1).1 = foldl apply_doc (dp_app d).1 docs
    ∧ u_data (o_upper (dp_app d1).2) = u_data (o_upper (dp_app d).2)
    ∧ installed cs (u_app (o_upper (dp_app d1).2)).
Proof.
  intros [Ep No Nc B _ Re Ap Fd] Sv W D. destruct Hname as (At & Nn & Nv & Ln).
  pose proof (no_nul_at n v Nn Nv) as NV.
  destruct (one_stream downlink_services k id ct (component_path n v) 0%nat _ ltac:(lia) (route_component n v NV)
    ps (Some (ct, component_path n v)) cs) as (T & R2 & Fi & Fo); [by right|done|done| |].
  { apply apart_of. eapply Forall_impl; [exact Ap|]. by intros e []. }
  cbn [before_parts] in T, R2, Fi, Fo.
  destruct (component_stream i r n Honly Hcallback Hflash id v cs (dp_app d).2) as (o' & Er & Eu & Ei & Rb & Up);
    [unfold DOWNLINK_ID_INVALID; lia|done..|].
  pose proof (settings_calls ps docs (dp_app d).1 Fo Re Fd) as El.
  destruct (sides_served ps d _ o' T R2 Sv El) as (d1 & E & Sv1 & Ed).
  - rewrite (run_calls_filter _ (λ c, c.1 = 0%nat)).
    + rewrite Fi, <- Er. unfold stream_calls. destruct cs as [|c cs]; [done|]. cbn [Datatypes.app].
      by rewrite <- (component_remainder registered n v NV).
    + intros c a Hx Nx. set (cls := (routes _ _ _).2) in *.
      assert (c ∈ filter (λ c, c.1 ≠ 0%nat) cls) as Hf by by apply list_elem_of_filter.
      rewrite Fo in Hf. destruct (calls_of_entries _ _ Hf) as (e & He & Se).
      pose proof (proj1 (Forall_forall _ _) Ap e He) as [N0 N1]. pose proof (service_lt _ _ Se).
      destruct c as [j x]. cbn [fst] in *. destruct j as [|[|[|j]]]; [done|done| |lia]. by destruct x.
  - exists d1. rewrite Ed. by split_and!.
Qed.

(** C8: a firmware update over the air: a gateway writes, in parts none of which holds the ends of two
    blocks and in any order with the device's works, an encrypted pouch whose only stream, at its end, is
    the image of a component that is marked for download, among entries with documents for the settings: every order ends, nothing faults, and
    at the end the settings are what the documents say, one after the other, the flash holds the image
    as a whole, the upgrade is requested and the device reboots; the dispatcher is ready for the next
    pouch and the session is in step with the server. (The entries are not for the OTA services, flash
    works and the image is shorter than 2^32 bytes.) *)
Theorem update_over_gatt s c peer p ps ds peer' cs docs (d : dispatch_state (settings * ota)) :
  gateway_sends s c peer p ps ds peer' → quiet s → carries_update ps cs docs →
  serving downlink_services d ∅ → download_wf (o_download (dp_app d).2) → downloading i (o_upper (dp_app d).2) →
  ∃ d1 c1, gw_delivers [dispatch_handler downlink_services] (packets true ds) s (OK d) (OK d1) c1
    ∧ in_step peer' p (sa_downlink c1) (sa_psa c1) ∧ serving downlink_services d1 ∅
    ∧ (dp_app d1).1 = foldl apply_doc (dp_app d).1 docs
    ∧ u_data (o_upper (dp_app d1).2) = u_data (o_upper (dp_app d).2)
    ∧ installed cs (u_app (o_upper (dp_app d1).2)).
Proof.
  intros G Q Cu Sv W D. destruct (update_routed ps cs docs d Cu Sv W D) as (d1 & E & H).
  destruct (gateway_served s c peer p ps ds peer' d d1 G Q (cu_entries _ _ _ Cu) E) as (c1 & Dl & I).
  by exists d1, c1.
Qed.
End Update.

(** * A pouch with settings and a manifest *)

Section Manifest.
Context (Hnames : distinct_names registered) (Hsome : registered ≠ []).
Context (Hjunk : len junk = GOLIOTH_OTA_COMPONENT_HASH_HEX_LEN + 1).
Implicit Types (ds : list component_data) (comps : list golioth_ota_component).

(** A manifest that lists the components [comps]. *)
Definition manifest_doc (d : list byte) comps : Prop :=
  ∃ pre kvss post, encodes d (CMap (pre ++ (CInt 3, CList (map CMap kvss)) :: post))
    ∧ (∀ kv, kv ∈ pre → ∃ k, kv.1 = CInt k ∧ 0 ≤ k < 4294967296 ∧ k ≠ 3) ∧ Forall2 describes kvss comps.

(** What it makes of the components' data: those it names get their targets, and then all whose version
    is not the target are marked for download. *)
Definition apply_manifest ds comps : list component_data :=
  zip_with wanted registered (foldl (λ ds c, announce registered c ds) ds comps).

Lemma announce_all_wf d comps ds : manifest_doc d comps → all_wf registered ds →
  all_wf registered (foldl (λ ds c, announce registered c ds) ds comps).
Proof.
  intros (_ & kvss & _ & _ & _ & F). revert ds. induction F as [|kvs c kvss comps D _ IH]; intros ds W; [done|].
  cbn [foldl]. apply IH, announce_wf; [done|]. apply (ds_fits _ _ D).
Qed.

Lemma wanted_wf rs ds : Forall data_wf ds → Forall data_wf (zip_with (wanted (A := fw)) rs ds).
Proof.
  intros F. revert rs. induction F as [|d ds [T H] _ IH]; intros [|r rs]; try constructor; [|apply IH].
  unfold wanted. by destruct (strcmp_eq _ _).
Qed.

Lemma apply_manifest_wf d comps ds : manifest_doc d comps → all_wf registered ds → all_wf registered (apply_manifest ds comps).
Proof.
  intros M W. destruct (announce_all_wf d comps ds M W) as [L F]. split; [|by apply wanted_wf].
  unfold apply_manifest. rewrite length_zip_with. lia.
Qed.

Lemma manifest_effect_run d comps u : manifest_doc d comps → all_wf registered (u_data u) →
  manifest_effect registered [ota_manifest_receive registered] comps u
    = OK (Upper (apply_manifest (u_data u) comps) (u_app u)).
Proof.
  intros M W. pose proof (announce_all_wf d comps _ M W) as [L _]. unfold manifest_effect, apply_manifest.
  cbn [foldl u_data u_app]. rewrite bind_OK. set (ds := foldl _ (u_data u) comps) in *.
  exact (manifest_marks_from registered registered [] ds (u_app u) [] Hnames eq_refl eq_refl L).
Qed.

(** What is marked is downloading. *)
Lemma apply_downloading ms ds comps i r x u :
  u_data u = foldl apply_manifest ds (ms ++ [comps]) → registered !! i = Some r → u_data u !! i = Some x →
  strcmp_eq (reg_version r) (target x) = false → downloading i u.
Proof.
  intros E R L N. exists x. split; [done|]. rewrite E, foldl_app in L. cbn [foldl] in L.
  apply lookup_zip_with_Some in L as (r' & d & -> & R' & _). rewrite R in R'. injection R' as <-.
  unfold wanted in N |- *. destruct (strcmp_eq (reg_version r) (target d)) eqn:V; [congruence|done].
Qed.

(** Every entry for the manifest's service is a manifest, and they are applied in order. *)
Lemma manifest_side es : Forall entry_representable es → ∀ ms o,
  Forall (λ e, service_of e ≠ Some 0%nat) es → all_wf registered (u_data (o_upper o)) →
  Forall2 (λ e, manifest_doc (data e)) (filter (λ e, service_of e = Some 1%nat) es) ms →
  run_calls (rights device_services) (concat (map (entry_calls downlink_services) es)) (OK o)
    = OK (Ota (o_download o) (Upper (foldl apply_manifest (u_data (o_upper o)) ms) (u_app (o_upper o)))).
Proof.
  induction 1 as [|e es Re _ IH]; intros ms o N W F.
  { apply Forall2_nil_inv_l in F as ->. by destruct o as [dl []]. }
  apply Forall_cons in N as [N0 N]. cbn [map concat]. rewrite run_calls_app, entry_service.
  destruct (service_of e) as [i|] eqn:Se.
  2:{ rewrite filter_cons_False in F by congruence. by apply IH. }
  destruct (decide (i = 1%nat)) as [->|N1].
  - rewrite filter_cons_True in F by done. apply Forall2_cons_inv_l in F as (comps & ms' & M & F & ->).
    destruct Re as [[_ L _] _]. pose proof M as (pre & kvss & post & En & K & Fd).
    transitivity (run_calls (rights device_services) (concat (map (entry_calls downlink_services) es))
      (u ← ota_receive_manifest registered [ota_manifest_receive registered] junk 0 (Some (data e)) (len (data e)) true (o_upper o);
       OK (Ota (o_download o) u))); [by rewrite L|].
    rewrite (manifest_run registered [ota_manifest_receive registered] junk 0 (data e) pre kvss post comps true) by done.
    rewrite (manifest_effect_run (data e)), bind_OK by done.
    exact (IH ms' (Ota (o_download o) (Upper (apply_manifest (u_data (o_upper o)) comps) (u_app (o_upper o))))
      N (apply_manifest_wf _ _ _ M W) F).
  - rewrite filter_cons_False in F by congruence. rewrite <- (IH ms o N W F). f_equal.
    apply service_lt in Se. by destruct i as [|[|[|i]]]; [|done| |lia].
Qed.

(** A pouch with documents for the settings and manifests. *)
Record carries_manifests (ps : list piece) docs ms : Prop := {
  cm_alone j : pieces_of j ps = [];
  cm_entries : Forall entry_representable (entries_of ps);
  cm_services : Forall (λ e, service_of e ≠ Some 0%nat) (entries_of ps);
  cm_docs : Forall2 (λ e, settings_doc (data e)) (filter (λ e, service_of e = Some 2%nat) (entries_of ps)) docs;
  cm_manifests : Forall2 (λ e, manifest_doc (data e)) (filter (λ e, service_of e = Some 1%nat) (entries_of ps)) ms;
}.

Lemma manifests_routed ps docs ms (d : dispatch_state (settings * ota)) :
  carries_manifests ps docs ms → serving downlink_services d ∅ → all_wf registered (u_data (o_upper (dp_app d).2)) →
  ∃ d1 : dispatch_state (settings * ota),
    foldl (deliver_piece [dispatch_handler downlink_services]) (OK d) ps = OK d1
    ∧ serving downlink_services d1 ∅
    ∧ (dp_app d1).1 = foldl apply_doc (dp_app d).1 docs
    ∧ (dp_app d1).2 = (let o := (dp_app d).2 in
        Ota (o_download o) (Upper (foldl apply_manifest (u_data (o_upper o)) ms) (u_app (o_upper o)))).
Proof.
  intros [No Re Ap Fd Fm] Sv W.
  assert (no_nul ([] ++ "@"%byte :: [])) as NV by (unfold no_nul; by apply (bool_decide_unpack _)).
  destruct (one_stream downlink_services 0 1 0 (component_path [] []) 0%nat _ ltac:(lia) (route_component [] [] NV)
    ps None []) as (T & R2 & Fi & Fo); [by left|done|done|by apply apart_of|].
  cbn [before_parts] in T, R2, Fi, Fo.
  pose proof (settings_calls ps docs (dp_app d).1 Fo Re Fd) as El.
  destruct (sides_served ps d (foldl apply_doc (dp_app d).1 docs)
    (let o := (dp_app d).2 in
     Ota (o_download o) (Upper (foldl apply_manifest (u_data (o_upper o)) ms) (u_app (o_upper o))))
    T R2 Sv El) as (d1 & E & Sv1 & Ed).
  - set (cls := (routes _ _ _).2) in *. assert (cls = concat (map (entry_calls downlink_services) (entries_of ps))) as ->.
    { rewrite <- Fo. symmetry. apply filter_own, Forall_forall. intros c Hc Nc.
      assert (c ∈ filter (λ c, c.1 = 0%nat) cls) as H by by apply list_elem_of_filter.
      rewrite Fi in H. by apply elem_of_nil in H. }
    by apply manifest_side.
  - exists d1. by rewrite Ed.
Qed.

(** C9: settings and manifests over the air: a gateway writes, in parts none of which holds the ends
    of two blocks and in any order with the device's works, an encrypted pouch without streams that has
    documents for the settings and manifests ([describes] gives the shape of their components): every
    order ends, nothing faults, and at the end the settings are what the documents say, the LED shows the
    last LED setting, each component a manifest names has its targets and the components whose version is
    not the target are marked for download and count as downloading, as [update_over_gatt] asks for;
    nothing else changes, the dispatcher is ready for the next pouch and the session is in step with
    the server. (No entry is for the component's service.) *)
Theorem manifest_over_gatt s c peer p ps (ds : list (list byte)) peer' docs ms (d : dispatch_state (settings * ota)) :
  gateway_sends s c peer p ps ds peer' → quiet s → carries_manifests ps docs ms →
  serving downlink_services d ∅ → all_wf registered (u_data (o_upper (dp_app d).2)) →
  ∃ d1 c1, gw_delivers [dispatch_handler downlink_services] (packets true ds) s (OK d) (OK d1) c1
    ∧ in_step peer' p (sa_downlink c1) (sa_psa c1) ∧ serving downlink_services d1 ∅
    ∧ (dp_app d1).1 = foldl apply_doc (dp_app d).1 docs
    ∧ o_download (dp_app d1).2 = o_download (dp_app d).2
    ∧ u_data (o_upper (dp_app d1).2) = foldl apply_manifest (u_data (o_upper (dp_app d).2)) ms
    ∧ u_app (o_upper (dp_app d1).2) = u_app (o_upper (dp_app d).2)
    ∧ (ms ≠ [] → ∀ i r x, registered !! i = Some r → u_data (o_upper (dp_app d1).2) !! i = Some x →
        strcmp_eq (reg_version r) (target x) = false → downloading i (o_upper (dp_app d1).2))
    ∧ ∀ docs' pre b post v, docs = docs' ++ [(pre ++ (["L"; "E"; "D"]%byte, CBool b) :: post, v)] →
        Forall (λ lx, strcmp_eq ["L"; "E"; "D"]%byte (ztake GOLIOTH_SETTINGS_MAX_NAME_LEN lx.1) = false) post →
        DT_HAS_ALIAS_led0 = true → (∀ v g, (gpio_pin_set_dt v g).1 = SUCCESS) →
        settings_version (dp_app d1).1 = v ∧ gpio_pin (s_app (dp_app d1).1) = Some (if b : bool then 1 else 0).
Proof.
  intros G Q Cm Sv W. destruct (manifests_routed ps docs ms d Cm Sv W) as (d1 & E & Sv1 & Es & Eo).
  destruct (gateway_served s c peer p ps ds peer' d d1 G Q (cm_entries _ _ _ Cm) E) as (c1 & Dl & I).
  exists d1, c1. rewrite Es, Eo. split_and!; try done.
  { intros N i r x. destruct ms as [|comps ms' _] using rev_ind; [done|].
    by apply (apply_downloading ms' (u_data (o_upper (dp_app d).2)) comps). }
  intros docs' pre b post v -> F DT Ok. rewrite foldl_app. cbn [foldl apply_doc settings_version s_app fst snd].
  split; [done|]. by apply led_delivered.
Qed.
End Manifest.

End Device.

(** * A concrete device *)

Module DeviceWitness.
Import NativeZcbor NativeEncode.
#[local] Existing Instances Native.byte_order Native.config_saead Native.list_slist Native.flag_work
  Native.list_msgq NativePsa.psa NativePsa.psa_laws NativePsa.base64 NativeX509.x509 CertWitness.cc
  SaeadWitness.sc NativeSaeadCodec.codec NativeSaeadCodec.codec_laws OtaUpperWitness.ota_config
  OtaWitness.hex NativeApp.gpio FwUpdateWitness.good_part ApplicationWitness.ex_config.
#[local] Instance ex_flash : Flash := FwUpdateWitness.GoodFlash.flash.
Import EncryptedWitness.

(** A block of any payload that fits. *)
Definition block_of (i : byte) (q : list byte) : pouch_buf :=
  PBuf MAX_PLAINTEXT_BLOCK_SIZE (len (frame i q)) (frame i q).

Lemma block_of_finished i q : len (frame i q) ≤ MAX_PLAINTEXT_BLOCK_SIZE → finished_block (block_of i q) i q.
Proof.
  intros L. assert (MAX_PLAINTEXT_BLOCK_SIZE = 515) by done. assert (contents (block_of i q) = frame i q) as E by by apply ztake_all.
  split; [|done]. split; [split; cbn [bytes mem cap block_of]; lia|done|]. rewrite E. by do 2 eexists.
Qed.

(** The server seals any blocks, and the gateway writes the pouch byte by byte. *)
Lemma ex_seal_all ds : ∀ peer, ∃ cts peer', seal_all POUCH_ROLE_SERVER peer (sa_psa ex_accepted) ds = Some (cts, peer').
Proof.
  induction ds as [|d ds IH]; intros peer; [by do 2 eexists|]. cbn [seal_all].
  assert (∃ ct, seal POUCH_ROLE_SERVER peer (sa_psa ex_accepted) d = Some ct) as [ct E].
  { unfold seal. cbn [psa_aead_encrypt NativePsa.psa]. unfold NativePsa.encrypt, AUTH_TAG_LEN.
    rewrite (proj2 (Z.leb_le _ _)) by done. rewrite !Z.eqb_refl. by eexists. }
  destruct (IH (Session.after ct peer)) as (cts & peer' & Es). rewrite E. cbn [mbind option_bind]. rewrite Es.
  by do 2 eexists.
Qed.

Lemma ex_sends bs ps : Forall2 block_holds bs ps →
  ∃ ds peer', gateway_sends (CF := Native.config_saead) ex_receiver ex_accepted (sa_downlink ex_accepted)
    (sa_psa ex_accepted) ps ds peer'.
Proof.
  intros F. destruct (ex_seal_all (map payload bs) (sa_downlink ex_accepted)) as (cts & peer' & S).
  destruct (sealed_opens (CF := Native.config_saead) eq_refl ex_info 7 bs ps _ ex_accepted (sa_downlink ex_accepted)
    (sa_psa ex_accepted) cts peer' ex_info_accepted ltac:(by split) F S) as (_ & _ & Pk & _).
  exists (bytewise (ex_header ++ concat (map sized16 cts))), peer'.
  exists 38, 1, ex_info, 7, ex_header, bs, cts.
  split; [by vm_compute|]. split; [by vm_compute|]. split; [exact ex_info_accepted|]. split; [by split|].
  split; [done|]. split; [done|]. split; [by apply bytewise_one_end|by apply bytewise_concat].
Qed.

Lemma ex_receiver_quiet : quiet ex_receiver.
Proof. by split. Qed.

(** {"settings": {"LED": true}, "version": 9} *)
Definition ex_items : list (list byte * cbor Z) := [(["L"; "E"; "D"]%byte, CBool true)].
Definition ex_settings : list byte :=
  emit (CMap ([] ++ settings_pair (ZC := NativeZcbor.zcbor) ex_items :: [] ++ [version_pair (ZC := NativeZcbor.zcbor) 9])).
Definition ex_entry : pouch_entry := Entry SETTINGS_DOWNLINK_PATH 60 (len ex_settings) ex_settings.

Lemma ex_doc : settings_doc (ZC := NativeZcbor.zcbor) (ZR := NativeZcbor.zcbor_reads) ex_settings (ex_items, 9).
Proof.
  split; [simpl; lia|]. exists [], [], (settings_pair (ZC := NativeZcbor.zcbor) ex_items), (version_pair (ZC := NativeZcbor.zcbor) 9).
  split; [by left|]. split; [constructor|]. split; [constructor|]. by vm_compute.
Qed.

Lemma ex_settings_representable : entry_representable ex_entry.
Proof. split; [split|]; try done. apply (bool_decide_unpack _). by vm_compute. Qed.

Abbreviation main := FwUpdateWitness.good_main.
Definition ex_junk : list byte := replicate 65 x00.
Abbreviation ex_services := (downlink_services (ZC := NativeZcbor.zcbor) [main] ex_junk).

(** The device with its component in a state. *)
Definition ex_device (st : golioth_ota_state) : dispatch_state (settings_state (option Z) * ota_state fw) :=
  dispatch_boot ex_services
    (SettingsState 0 (Some 0), Ota (Download (-1) 0 (zeros 33) (zeros 33))
       (Upper [FwUpdateWitness.ex_data "2"%byte st] (Fw ([x00], false) false))).

Lemma ex_service : service_of (ZC := NativeZcbor.zcbor) [main] ex_junk ex_entry = Some 2%nat.
Proof. by vm_compute. Qed.

(** The image in two parts, with the settings between them. *)
Definition ex_path : list byte := component_path ["m"; "a"; "i"; "n"]%byte ["2"]%byte.
Definition ex_update : list piece :=
  [PieceStream 0 5 (Some (42, ex_path)) [x01; x02] false; PieceEntries [ex_entry]; PieceStream 0 5 None [x03] true].
Definition ex_update_blocks : list pouch_buf :=
  [block_of (id_byte 5 true false) (stream_payload (Some (42, ex_path)) [x01; x02]);
   block_of (id_byte 0 true true) (concat (map entry_bytes [ex_entry])); block_of (id_byte 5 false true) [x03]].

Lemma ex_update_holds : Forall2 block_holds ex_update_blocks ex_update.
Proof.
  repeat constructor; try apply block_of_finished; try (by vm_compute); try (simpl; lia).
Qed.

Lemma ex_update_carries : carries_update (ZC := NativeZcbor.zcbor) (ZR := NativeZcbor.zcbor_reads) [main] ex_junk
  ["m"; "a"; "i"; "n"]%byte ["2"]%byte 0 5 42 ex_update [[x01; x02]; [x03]] [(ex_items, 9)].
Proof.
  split.
  - done.
  - intros j N. unfold pieces_of, ex_update. by rewrite !filter_cons_False by (simpl; by rewrite ?bool_decide_eq_true).
  - done.
  - by vm_compute.
  - exists (take 2 ex_update), (PieceStream 0 5 None [x03] true). by split.
  - constructor; [exact ex_settings_representable|constructor].
  - constructor; [|constructor]. rewrite ex_service. by split.
  - change (entries_of ex_update) with [ex_entry]. rewrite filter_cons_True by exact ex_service.
    constructor; [exact ex_doc|constructor].
Qed.

Lemma ex_main_downloading : downloading 0 (o_upper (dp_app (ex_device GOLIOTH_OTA_STATE_DOWNLOADING)).2).
Proof. by eexists. Qed.

Lemma ex_main_name : ("@"%byte ∉ ["m"; "a"; "i"; "n"]%byte) ∧ no_nul ["m"; "a"; "i"; "n"]%byte ∧ no_nul ["2"]%byte
  ∧ len ["m"; "a"; "i"; "n"]%byte ≤ CONFIG_GOLIOTH_OTA_MAX_PACKAGE_NAME_LEN.
Proof.
  unfold no_nul. split; [by apply (bool_decide_unpack _)|]. split; [by apply (bool_decide_unpack _)|].
  split; [by apply (bool_decide_unpack _)|]. vm_compute. discriminate.
Qed.

Lemma update_over_gatt_witness :
  ∃ ds (d1 : dispatch_state (settings_state (option Z) * ota_state fw)) c1,
    gw_delivers [dispatch_handler ex_services] (packets true ds) ex_receiver
      (OK (ex_device GOLIOTH_OTA_STATE_DOWNLOADING)) (OK d1) c1
    ∧ (dp_app d1).1 = SettingsState 9 (Some 1)
    ∧ installed [[x01; x02]; [x03]] (u_app (o_upper (dp_app d1).2)).
Proof.
  destruct (ex_sends _ _ ex_update_holds) as (ds & peer' & G).
  destruct (update_over_gatt (CF := Native.config_saead) (GP := NativeApp.gpio) (ZP := NativeZcbor.zcbor_progress) eq_refl [main] ex_junk
    0 main ["m"; "a"; "i"; "n"]%byte ["2"]%byte 0 5 42 FwUpdateWitness.good_only eq_refl FwUpdateWitness.good_works
    ex_main_name ltac:(lia) _ _ _ _ _ _ _ _ _ (ex_device GOLIOTH_OTA_STATE_DOWNLOADING) G ex_receiver_quiet
    ex_update_carries (boot_serving _ _) ltac:(by split) ex_main_downloading) as (d1 & c1 & D & _ & _ & S & _ & I).
  exists ds, d1, c1. split; [exact D|]. split; [|exact I]. refine (eq_trans S _). vm_compute. reflexivity.
Defined.

(** The same settings and a manifest that asks for version "2". *)
Definition ex_manifest : list byte := emit OtaWitness.ex_manifest.
Definition ex_told : pouch_entry := Entry GOLIOTH_OTA_MANIFEST_PATH 60 (len ex_manifest) ex_manifest.
Definition ex_news : list piece := [PieceEntries [ex_told; ex_entry]].
Definition ex_news_blocks : list pouch_buf :=
  [block_of (id_byte 0 true true) (concat (map entry_bytes [ex_told; ex_entry]))].

Lemma ex_news_holds : Forall2 block_holds ex_news_blocks ex_news.
Proof. repeat constructor; apply block_of_finished; by vm_compute. Qed.

Lemma ex_told_representable : entry_representable ex_told.
Proof. split; [split|]; try done. apply (bool_decide_unpack _). by vm_compute. Qed.

Lemma ex_told_service : service_of (ZC := NativeZcbor.zcbor) [main] ex_junk ex_told = Some 1%nat.
Proof. by vm_compute. Qed.

Lemma ex_manifest_doc : manifest_doc (ZC := NativeZcbor.zcbor) (ZR := NativeZcbor.zcbor_reads) ex_manifest
  [OtaWitness.ex_component].
Proof.
  exists [(CInt 1, CInt 7)], [OtaWitness.ex_pairs], [(CInt 2, CTstr ["h"%byte])].
  split; [by vm_compute|]. split; [|constructor; [exact OtaWitness.ex_describes|constructor]].
  intros kv ->%list_elem_of_singleton. exists 1. split; [done|lia].
Qed.

Lemma ex_news_carries : carries_manifests (ZC := NativeZcbor.zcbor) (ZR := NativeZcbor.zcbor_reads) [main] ex_junk
  ex_news [(ex_items, 9)] [[OtaWitness.ex_component]].
Proof.
  split; [done| | | |]; change (entries_of ex_news) with [ex_told; ex_entry].
  - constructor; [exact ex_told_representable|]. constructor; [exact ex_settings_representable|constructor].
  - constructor; [by rewrite ex_told_service|]. constructor; [by rewrite ex_service|constructor].
  - rewrite filter_cons_False by by rewrite ex_told_service. rewrite filter_cons_True by exact ex_service.
    constructor; [exact ex_doc|constructor].
  - rewrite filter_cons_True by exact ex_told_service. rewrite filter_cons_False by by rewrite ex_service.
    constructor; [exact ex_manifest_doc|constructor].
Qed.

Lemma ex_main_distinct : distinct_names [main].
Proof. intros [|i] [|j] r r' E E' _; try done; by destruct i || destruct j. Qed.

Lemma ex_idle_wf : all_wf [main] (u_data (o_upper (dp_app (ex_device GOLIOTH_OTA_STATE_IDLE)).2)).
Proof. split; [done|]. constructor; [|constructor]. split; [|done]. apply (len_strncpy ["2"%byte] 32). lia. Qed.

(** The LED is on, and the component is to be downloaded. *)
Lemma manifest_over_gatt_witness :
  ∃ ds (d1 : dispatch_state (settings_state (option Z) * ota_state fw)) c1,
    gw_delivers [dispatch_handler ex_services] (packets true ds) ex_receiver
      (OK (ex_device GOLIOTH_OTA_STATE_IDLE)) (OK d1) c1
    ∧ settings_version (dp_app d1).1 = 9 ∧ s_app (dp_app d1).1 = Some 1
    ∧ u_data (o_upper (dp_app d1).2)
      = [ComponentData ("2"%byte :: replicate 31 x00) (replicate 32 x61) 24 GOLIOTH_OTA_STATE_DOWNLOADING].
Proof.
  destruct (ex_sends _ _ ex_news_holds) as (ds & peer' & G).
  destruct (manifest_over_gatt (CF := Native.config_saead) (GP := NativeApp.gpio) (ZP := NativeZcbor.zcbor_progress)
    eq_refl [main] ex_junk ex_main_distinct ltac:(done) ltac:(done) _ _ _ _ _ _ _ _ _
    (ex_device GOLIOTH_OTA_STATE_IDLE) G ex_receiver_quiet ex_news_carries (boot_serving _ _) ex_idle_wf)
    as (d1 & c1 & D & _ & _ & _ & _ & U & _ & _ & L).
  destruct (L [] [] true [] 9 eq_refl (Forall_nil_2 _) eq_refl ltac:(by intros)) as [V P].
  exists ds, d1, c1. split; [exact D|]. split; [exact V|]. split; [exact P|].
  refine (eq_trans U _). vm_compute. reflexivity.
Defined.
End DeviceWitness.
